(* ===== verification/_CoqProject ===== *)
-Q . S2P
Prelude.v
PyStr.v
Errors.v
Json.v
JsonParse.v
Hashing.v
Base64.v
Uuid.v
Config.v
Models.v
Schema.v
Migrations.v
DateText.v
Breaker.v
Effects.v
Budget.v
Redaction.v
Retry.v
Redis.v
Kms.v
Tokens.v
Tools.v
OAuthState.v
Google.v
Router.v
Cache.v
Idempotency.v
Grants.v
AuditLog.v
Invoke.v
InvokeAudit.v
InvokeProvider.v
InvokeReplay.v
Grpc.v
Proto.v
Descriptor.v
Demo.v
Seed.v
Console.v
World.v
Discipline.v
Limit.v
Policy.v
Ledger.v
Reservation.v
Throttle.v
Revocation.v
InFlight.v
Keyed.v
App.v
Tasks.v
System.v
AtMostOnce.v
Rates.v
