(* ===== verification/Prelude.v ===== *)
(** * CredBroker: a verification development

    CredBroker (package [credbroker] under [src/]) holds OAuth credentials on
    behalf of users and lets agents act through short-lived, scope-limited
    grant tokens.  Agents speak gRPC ([grpcserver/]); users and operators
    speak HTTP ([oauth/router.py], [console/api.py]); both fronts call the
    grant service ([grants/]) and the invoke service ([invoke/]), which rest
    on PostgreSQL, Redis, KMS and the providers' APIs.

    ** How the program is modelled

    A coroutine is a [prog] of Effects.v: a finite tree of effects (clock,
    entropy, Redis, database, KMS, HTTP, logs, metrics, process-wide
    registries), each followed by what the code does with the answer, which
    may be an exception of Errors.v.  Guards, early returns, [try/except],
    [async with] and the order of the effects are the code's.  [interp] runs
    a program against any handler; [wp] proves what holds for every answer.
    Pure Python is pure Gallina, executable: strings are their UTF-8 bytes
    (text with lone surrogates is outside the model), integers are [Z], times
    and delays are microseconds, a [dict] is its items in order.  What the
    code takes from third-party packages is a parameter (classes [PyJwt],
    [PyRepr], [AesGcm], [JsonFormat], [Protobuf], [GrpcRuntime], the RSA key
    generator), with what their documentation states as named hypotheses
    ([PyJwtLaws], [AesGcmLaws], [redis_documented]).  The Python standard library is modelled: SHA-256,
    HMAC, base64, JSON printing and parsing, [uuid.UUID], [isoformat].

    ** Files

    - foundations: Prelude (this file), PyStr, Errors ([errors.py]), Json,
      JsonParse, Hashing, Base64, Uuid, DateText, Config ([config.py]),
      Models ([db/models.py]), Schema (the migration of [src/alembic/]
      against the declared tables), Migrations ([src/alembic/env.py], which
      runs it), Effects ([metrics.py] is its [metric]);
    - reliability: Breaker, Retry ([reliability/retry.py]), Idempotency
      ([reliability/idempotency.py]), Redis (the commands as documented);
    - secrets: Redaction ([logging_config.py]), Kms ([crypto/kms.py]),
      Tokens ([grants/tokens.py]);
    - services: Tools ([tools/]), Cache ([cache/]), Grants
      ([grants/service.py]), AuditLog ([invoke/audit.py]), Invoke
      ([invoke/service.py]) with its theorems in InvokeAudit, InvokeProvider
      and InvokeReplay;
    - fronts: OAuthState, Google, Router ([oauth/]), Grpc ([grpcserver/]),
      Proto (the generated [proto/credbroker_pb2_grpc.py]), Descriptor
      ([proto/credbroker.proto] and the generated [proto/credbroker_pb2.py]),
      Console ([console/api.py]), Demo and Seed ([demo/]);
    - App ([app.py], [main.py], [db/session.py]);
    - the whole: World (worlds of interleaved tasks on one database and one
      Redis, their steps and paths), Discipline (protocols that tasks follow
      and what they preserve), with its instances Limit and Policy, which
      together make every world run the abstract machine of Ledger; the
      protocols of an idempotency key (Reservation), of a call which carries
      one (Keyed), of a counter of the limiter and of the gate it is
      (Throttle); Budget (how many effects of a kind a program has left),
      with its uses Revocation and InFlight; Tasks (every task of the
      processes of a deployment); System, AtMostOnce and Rates (the theorems
      about them).

    A definition bears the name of the function, method or constant it
    models, without leading underscores; where a method was cut in pieces,
    the pieces are named after what they do and the method composes them.

    ** What is shown

    - The whole broker, in every reachable interleaving of every kind of
      task of any number of processes, with failing commits and killed
      processes: [concurrency_limit_holds], the limit on active grants;
      [grants_within_policy], every committed grant is one that policy
      allows, and the schema's constraints hold; [broker_refines_ledger], the
      committed tables move as the abstract ledger does, whose five
      transitions lose, edit and revive no grant; [revoked_token_is_dead] and
      [revocation_stops_calls], what a committed revocation leaves to later
      calls (nothing) and to calls in flight (one round of attempts);
      [idempotency_key_excludes] and [keyed_requests_reserved], one call at a
      time per idempotency key, and none for the window after a completed
      one; [rate_limits_hold], the limits per minute across processes.
    - Invocation: exactly one audit row per resolved call, coherent and
      scrubbed outcomes, the chain of authorisation behind every request,
      revocation read again before the provider is called, bounds on
      requests and refreshes, idempotent replay, termination.
    - Grants: every branch of issuing and revoking, errors included.
    - Fronts: the replies of the RPCs and of the console for whatever the
      services do, the guard that seals unexpected errors, the console's
      lock, and that its listings disclose no credential; that the generated
      stub reaches the servicer's methods through the wire, and that the
      generated descriptor is the encoding of the interface file.
    - Schema: the migration makes the tables the models declare, and its
      downgrade undoes it, next to whatever else the database holds; it runs
      in a transaction, and what the script entered is left whatever raises.
    - Stores: the idempotency store refines the contract of one key, holds
      it exclusively, frees it after a holder that died; the limiter admits
      exactly its limit to one caller alone; a revocation is visible at once.
    - Breaker and retries: refinement of the documented three-state machine,
      the discipline of the retry loop, and the lost probe, a defect.
    - Secrets: round trips of encryption, tokens and OAuth states, soundness
      of their verification, the errors of each, and that redaction leaves
      no registered secret in text or log records.

    ** Fuel and bounds

    [provider_loop] recurses at most once (a second round needs
    [refreshed = false], and sets it): fuel 2, shown enough by
    [provider_loop_terminates].  [retry_loop] recurses on [max_retries + 1].
    The JSON parser takes the length of the text as fuel, enough by
    [loads_dumps].  [run_task] only builds witnesses.

    The clock of World.v does not run backwards, and its database answers
    queries of single rows and the count of active grants exactly, from what
    is committed and what the session has written; its one Redis, read at
    that clock, answers as documented or loses the answer; every other reply,
    whether a failed commit took effect and whether a command whose answer
    was lost was executed, is arbitrary.  Exceptions outside
    [Exception] (a cancelled task) are the killed tasks of that file; in the
    sequential theorems a coroutine is not cancelled.

    ** Not modelled

    SQLAlchemy's engine and its mapping (sessions are effects, and
    [db/session.py] is what they are asked for); Alembic and protobuf
    themselves ([serialize] of Descriptor.v is the published encoding, of
    which only the one file is needed); uvicorn, grpc.aio and FastAPI themselves (parsing of requests, routing,
    validation of bodies); reading the environment in [get_settings]; the
    static console page; the listening loops behind [serve]. *)

From stdpp Require Import base tactics list gmap strings numbers.
From Stdlib Require Import ZArith Lia.

(** ** Notations of the development *)

Declare Scope cred_scope.
Delimit Scope cred_scope with cred.

(** ** Proof automation shared by every file *)

Create HintDb cred.
#[global] Create Rewrite HintDb cred_rw.
#[global] Create Rewrite HintDb cred_run.

(** Split conjunctions in the goal and finish the easy conjuncts. *)
Ltac splits := repeat match goal with |- _ /\ _ => split end.

(** A digit: prove the goal for each of the values an integer below [k] can
    take, by [tac]. *)
Ltac below_cases n k tac :=
  let Hn := fresh "Hn" in
  assert (Hn : (n < k)%nat) by lia; revert Hn; generalize n; clear;
  let m := fresh "m" in intros m Hn;
  repeat (destruct m as [|m]; [solve [tac]|try lia]).

Tactic Notation "digit_cases" constr(d) constr(k) "by" tactic(tac) :=
  match type of d with
  | Z => rewrite <- (Z2Nat.id d) by lia; below_cases (Z.to_nat d) k tac
  | N => rewrite <- (N2Nat.id d) by lia; below_cases (N.to_nat d) k tac
  end.

(** ** Lists *)

(** An element of [t] followed by [e]: the last, or an earlier one. *)
Lemma split_snoc {A} (t t1 t2 : list A) x e :
  (t ++ [e] = t1 ++ x :: t2)%list -> (t2 = [] /\ x = e /\ t1 = t) \/
  exists t2', t2 = (t2' ++ [e])%list /\ t = (t1 ++ x :: t2')%list.
Proof.
  destruct t2 as [|z t2' _] using rev_ind; intros E.
  - apply app_inj_tail in E as [-> ->]. by left.
  - right. exists t2'. rewrite app_comm_cons, app_assoc in E. by apply app_inj_tail in E as [-> ->].
Qed.
