(* ===== verification/PyStr.v ===== *)
(** * Python [str] and [bytes] operations used by the broker

    A Python [str] is its UTF-8 encoding, a Rocq [string]; a Python [bytes]
    is a [list byte].  Substring search, replacement, prefix tests and
    splitting on an ASCII separator agree with Python on valid UTF-8 because
    the encoding is self-synchronising; [py_len] counts code points. *)

From Stdlib Require Import Ascii.
From Stdlib Require Strings.Byte.
From stdpp Require Import base tactics list strings numbers pretty.
From S2P Require Import Prelude.
Open Scope string_scope.

Abbreviation byte := Byte.byte.
Abbreviation bytes := (list Byte.byte).

#[export] Instance byte_eq_dec : EqDecision byte := Byte.byte_eq_dec.

(** ** Searching *)

(** [s.startswith(p)]. *)
Fixpoint startswith (p s : string) : bool :=
  match p, s with
  | EmptyString, _ => true
  | String a p', String b s' => Ascii.eqb a b && startswith p' s'
  | String _ _, EmptyString => false
  end.

(** [needle in s]. *)
Fixpoint contains (needle s : string) : bool :=
  startswith needle s ||
  match s with
  | EmptyString => false
  | String _ s' => contains needle s'
  end.

(** One left-to-right pass of [s.replace(old, new)]; [skip] counts the
    characters of a match that are still to be dropped. *)
Fixpoint replace_go (old new : string) (skip : nat) (s : string) : string :=
  match s with
  | EmptyString => EmptyString
  | String c s' =>
      match skip with
      | S k => replace_go old new k s'
      | O => if startswith old s
             then new +:+ replace_go old new (String.length old - 1) s'
             else String c (replace_go old new 0 s')
      end
  end.

(** [s.replace(old, new)] for a non-empty [old]. *)
Definition replace (old new s : string) : string := replace_go old new 0 s.

(** [s.split(sep)] for a one-character separator. *)
Fixpoint split_on (sep : ascii) (s : string) : list string :=
  match s with
  | EmptyString => [EmptyString]
  | String c s' =>
      if Ascii.eqb c sep then EmptyString :: split_on sep s'
      else match split_on sep s' with
           | [] => [String c EmptyString]
           | w :: ws => String c w :: ws
           end
  end.

(** [c in s] for a single character. *)
Fixpoint has_char (c : ascii) (s : string) : bool :=
  match s with
  | EmptyString => false
  | String d s' => Ascii.eqb d c || has_char c s'
  end.

(** ** Lengths and encodings *)

Definition is_continuation (c : ascii) : bool :=
  let n := N_of_ascii c in (128 <=? n)%N && (n <? 192)%N.

(** [len(s)]: the number of code points. *)
Fixpoint py_len (s : string) : Z :=
  match s with
  | EmptyString => 0
  | String c s' => (if is_continuation c then 0 else 1) + py_len s'
  end%Z.

(** [s.encode()]: a [str] is represented by its encoding. *)
Definition encode (s : string) : bytes := String.list_byte_of_string s.

Definition in_range (lo hi : N) (c : byte) : bool :=
  let n := Byte.to_N c in (lo <=? n)%N && (n <=? hi)%N.

(** Well-formed UTF-8 (table 3-7 of the Unicode standard), which is what
    the strict decoder accepts. *)
Fixpoint utf8_valid (b : bytes) : bool :=
  match b with
  | [] => true
  | c :: b1 =>
      if in_range 0 127 c then utf8_valid b1 else
      match b1 with
      | [] => false
      | d :: b2 =>
          if in_range 194 223 c && in_range 128 191 d then utf8_valid b2 else
          match b2 with
          | [] => false
          | e :: b3 =>
              let second :=
                if in_range 224 224 c then in_range 160 191 d
                else if in_range 237 237 c then in_range 128 159 d
                else in_range 225 239 c && in_range 128 191 d in
              if second && in_range 128 191 e then utf8_valid b3 else
              match b3 with
              | [] => false
              | f :: b4 =>
                  let second :=
                    if in_range 240 240 c then in_range 144 191 d
                    else if in_range 244 244 c then in_range 128 143 d
                    else in_range 241 243 c && in_range 128 191 d in
                  second && in_range 128 191 e && in_range 128 191 f && utf8_valid b4
              end
          end
      end
  end.

(** [b.decode("utf-8")]; [None] is [UnicodeDecodeError]. *)
Definition decode_utf8 (b : bytes) : option string :=
  if utf8_valid b then Some (String.string_of_list_byte b) else None.

(** ** Numbers in text *)

Definition is_space (c : ascii) : bool :=
  let n := N_of_ascii c in
  (n =? 32)%N || ((9 <=? n)%N && (n <=? 13)%N) || ((28 <=? n)%N && (n <=? 31)%N).

Fixpoint lstrip (s : string) : string :=
  match s with
  | EmptyString => EmptyString
  | String c s' => if is_space c then lstrip s' else s
  end.

Fixpoint rstrip (s : string) : string :=
  match s with
  | EmptyString => EmptyString
  | String c s' =>
      match rstrip s' with
      | EmptyString => if is_space c then EmptyString else String c EmptyString
      | t => String c t
      end
  end.

(** [s.strip()] on ASCII white space. *)
Definition strip (s : string) : string := rstrip (lstrip s).

Definition digit_value (c : ascii) : option Z :=
  let n := Z.of_N (N_of_ascii c) in
  if (48 <=? n)%Z && (n <=? 57)%Z then Some (n - 48)%Z
  else if (97 <=? n)%Z && (n <=? 122)%Z then Some (n - 87)%Z
  else if (65 <=? n)%Z && (n <=? 90)%Z then Some (n - 55)%Z
  else None.

(** Digits of [base] with single underscores between them; [gap] says that
    a digit must come next. *)
Fixpoint parse_digits (base acc : Z) (gap : bool) (s : string) : option Z :=
  match s with
  | EmptyString => if gap then None else Some acc
  | String c s' =>
      if Ascii.eqb c "_"%char then
        if gap then None else parse_digits base acc true s'
      else match digit_value c with
           | Some d => if (d <? base)%Z
                       then parse_digits base (acc * base + d)%Z false s'
                       else None
           | None => None
           end
  end.

Definition drop_base_prefix (base : Z) (s : string) : string :=
  match s with
  | String z (String x s') =>
      if (base =? 16)%Z && Ascii.eqb z "0"%char
         && (Ascii.eqb x "x"%char || Ascii.eqb x "X"%char)
      then match s' with
           | String u s'' => if Ascii.eqb u "_"%char then s'' else s'
           | EmptyString => s'
           end
      else s
  | _ => s
  end.

(** [int(s, base)] for [base] 10 or 16 on ASCII text; [None] is
    [ValueError]. *)
Definition int_of_str (base : Z) (s : string) : option Z :=
  match strip s with
  | String c s' =>
      if Ascii.eqb c "-"%char
      then Z.opp <$> parse_digits base 0 true (drop_base_prefix base s')
      else if Ascii.eqb c "+"%char
      then parse_digits base 0 true (drop_base_prefix base s')
      else parse_digits base 0 true (drop_base_prefix base (String c s'))
  | EmptyString => None
  end.

(** ** Lemmas *)

(** *** Prefixes and substrings *)

Lemma startswith_app p s : startswith p (p +:+ s) = true.
Proof. induction p; simpl; [done|]. by rewrite Ascii.eqb_refl. Qed.

Lemma startswith_app_inv p s : startswith p s = true -> exists t, s = p +:+ t.
Proof.
  revert s; induction p as [|a p IH]; intros [|b s]; simpl; try done; eauto.
  rewrite andb_true_iff. intros [->%Ascii.eqb_eq [t ->]%IH]. by exists t.
Qed.

Lemma startswith_nil_r p : startswith p "" = true -> p = "".
Proof. by destruct p. Qed.

Lemma contains_startswith n s : startswith n s = true -> contains n s = true.
Proof. destruct s; simpl; intros ->; done. Qed.

Lemma contains_cons n c s :
  contains n (String c s) = true ->
  startswith n (String c s) = true \/ contains n s = true.
Proof. intros [H|H]%orb_true_iff; auto. Qed.

Lemma contains_cons_r n c s : contains n s = true -> contains n (String c s) = true.
Proof. cbn [contains]. intros ->. by rewrite orb_true_r. Qed.

Lemma has_char_app c s t : has_char c (s +:+ t) = has_char c s || has_char c t.
Proof. induction s as [|d s IH]; simpl; [done|]. by rewrite IH, orb_assoc. Qed.

Lemma append_cons c s t : String c s +:+ t = String c (s +:+ t).
Proof. done. Qed.

Lemma append_nil_r s : s +:+ "" = s.
Proof. induction s as [|c s IH]; [done|]. by rewrite append_cons, IH. Qed.

Lemma append_assoc s t u : (s +:+ t) +:+ u = s +:+ (t +:+ u).
Proof. induction s as [|c s IH]; [done|]. by rewrite !append_cons, IH. Qed.

Lemma length_append s t : String.length (s +:+ t) = String.length s + String.length t.
Proof. induction s as [|c s IH]; [done|]. rewrite append_cons. simpl. by rewrite IH. Qed.

(** *** Splitting *)

Lemma split_on_app sep w s :
  has_char sep w = false ->
  split_on sep (w +:+ String sep s) = w :: split_on sep s.
Proof.
  induction w as [|c w IH]; simpl.
  - by rewrite Ascii.eqb_refl.
  - intros [Hc Hw]%orb_false_iff. by rewrite Hc, IH.
Qed.

Lemma split_on_last sep w : has_char sep w = false -> split_on sep w = [w].
Proof.
  induction w as [|c w IH]; simpl; [done|].
  intros [Hc Hw]%orb_false_iff. by rewrite Hc, IH.
Qed.

(** Joining what [split] returned gives the string back. *)
Fixpoint join_with (sep : ascii) (ws : list string) : string :=
  match ws with
  | [] => ""
  | [w] => w
  | w :: ws' => w +:+ String sep (join_with sep ws')
  end.

Lemma split_on_not_nil sep s : split_on sep s <> [].
Proof. destruct s as [|c s]; simpl; repeat case_match; done. Qed.

Lemma join_split sep s : join_with sep (split_on sep s) = s.
Proof.
  induction s as [|c s IH]; simpl; [done|].
  pose proof (split_on_not_nil sep s).
  destruct (Ascii.eqb c sep) eqn:E.
  - apply Ascii.eqb_eq in E as ->. destruct (split_on sep s); [done|]. by rewrite <- IH.
  - destruct (split_on sep s) as [|w [|w' ws]]; [done|by subst|]. by rewrite <- IH.
Qed.

(** *** Encodings *)

Lemma encode_decode s : utf8_valid (encode s) = true -> decode_utf8 (encode s) = Some s.
Proof.
  unfold decode_utf8. intros ->. by rewrite String.string_of_list_byte_of_string.
Qed.

Lemma decode_encode b s : decode_utf8 b = Some s -> encode s = b.
Proof.
  unfold decode_utf8, encode. destruct (utf8_valid b); intros; simplify_eq.
  by rewrite String.list_byte_of_string_of_list_byte.
Qed.

#[export] Hint Resolve startswith_app contains_startswith contains_cons_r : cred.
#[global] Hint Rewrite has_char_app : cred_rw.

(** [a or b] of an optional string. *)
Definition str_or (a : option string) (b : string) : string :=
  match a with
  | Some s => if String.eqb s "" then b else s
  | None => b
  end.

(** *** Characters of a string *)

Fixpoint str_all (P : ascii -> bool) (s : string) : bool :=
  match s with
  | EmptyString => true
  | String c s' => P c && str_all P s'
  end.

Definition is_ascii (c : ascii) : bool := (N_of_ascii c <? 128)%N.

Lemma str_all_app P s t : str_all P (s +:+ t) = str_all P s && str_all P t.
Proof. induction s as [|c s IH]; simpl; [done|]. by rewrite IH, andb_assoc. Qed.

Lemma str_all_impl (P Q : ascii -> bool) s :
  (forall c, P c = true -> Q c = true) -> str_all P s = true -> str_all Q s = true.
Proof.
  intros HPQ. induction s as [|c s IH]; simpl; [done|].
  intros [Hc Hs]%andb_true_iff. by rewrite HPQ, IH.
Qed.

Lemma has_char_all c P s : str_all P s = true -> P c = false -> has_char c s = false.
Proof.
  intros Hs Hc. induction s as [|d s IH]; simpl in *; [done|].
  apply andb_true_iff in Hs as [Hd Hs]. rewrite IH by done.
  rewrite orb_false_r. apply Ascii.eqb_neq. intros ->. congruence.
Qed.

Lemma lstrip_id s : str_all (fun c => negb (is_space c)) s = true -> lstrip s = s.
Proof. destruct s as [|c s]; simpl; [done|]. by destruct (is_space c). Qed.

Lemma rstrip_id s : str_all (fun c => negb (is_space c)) s = true -> rstrip s = s.
Proof.
  induction s as [|c s IH]; simpl; [done|]. intros [Hc Hs]%andb_true_iff.
  rewrite (IH Hs). destruct (is_space c); [done|]. by destruct s.
Qed.

Lemma strip_id s : str_all (fun c => negb (is_space c)) s = true -> strip s = s.
Proof. intros H. unfold strip. by rewrite lstrip_id, rstrip_id. Qed.

Lemma startswith_has_char c p s :
  has_char c p = true -> startswith p s = true -> has_char c s = true.
Proof.
  intros Hc [t ->]%startswith_app_inv. rewrite has_char_app. by rewrite Hc.
Qed.

(** A substring brings its characters along. *)
Lemma contains_has_char c n s :
  has_char c n = true -> contains n s = true -> has_char c s = true.
Proof.
  intros Hc. induction s as [|d s IH].
  - simpl. rewrite orb_false_r. intros H%startswith_nil_r. by subst.
  - intros [H|H]%contains_cons; [by eapply startswith_has_char|].
    simpl. rewrite IH by done. apply orb_true_r.
Qed.

Lemma contains_char_absent c n s :
  has_char c n = true -> has_char c s = false -> contains n s = false.
Proof.
  intros Hn Hs. destruct (contains n s) eqn:E; [|done].
  by rewrite (contains_has_char c n s) in Hs.
Qed.

(** Replacing a string that does not occur changes nothing. *)
Lemma replace_absent old new s : contains old s = false -> replace old new s = s.
Proof.
  unfold replace. induction s as [|c s IH]; [done|]. intros H.
  cbn [contains] in H. apply orb_false_iff in H as [H1 H2].
  cbn [replace_go]. by rewrite H1, IH.
Qed.

(** *** Decimal numbers *)

Definition is_digit (c : ascii) : bool :=
  let n := N_of_ascii c in (48 <=? n)%N && (n <=? 57)%N.

Lemma is_digit_not_space c : is_digit c = true -> is_space c = false.
Proof.
  unfold is_digit, is_space. intros [?%N.leb_le ?%N.leb_le]%andb_true_iff.
  repeat match goal with |- context [(?a =? ?b)%N] => destruct (N.eqb_spec a b) end;
  repeat match goal with |- context [(?a <=? ?b)%N] => destruct (N.leb_spec a b) end;
  simpl; done || lia.
Qed.

Lemma pretty_N_char_spec x :
  (x < 10)%N ->
  digit_value (pretty_N_char x) = Some (Z.of_N x) /\
  is_digit (pretty_N_char x) = true /\
  Ascii.eqb (pretty_N_char x) "_"%char = false.
Proof.
  intros Hx. digit_cases x 10%nat by (by vm_compute).
Qed.

Lemma parse_digits_snoc x g s :
  (0 < x)%N ->
  parse_digits 10 0 g (pretty_N_go x s) = parse_digits 10 (Z.of_N x) false s.
Proof.
  revert g s. induction (N.lt_wf_0 x) as [x _ IH]. intros g s Hx.
  rewrite pretty_N_go_step by done.
  destruct (pretty_N_char_spec (x `mod` 10)) as (Hd & _ & Hu); [by apply N.mod_lt|].
  assert (Hdm : x = (10 * (x / 10) + x mod 10)%N) by (apply N.div_mod; lia).
  assert (Hm : (x mod 10 < 10)%N) by (apply N.mod_lt; lia).
  destruct (decide (x / 10 = 0)%N) as [Hz|Hz].
  - rewrite Hz, pretty_N_go_0. simpl. rewrite Hu, Hd. rewrite Hz in Hdm.
    destruct (Z.ltb_spec (Z.of_N (x `mod` 10)) 10); [|lia]. f_equal. lia.
  - assert (x / 10 < x)%N by (apply N.div_lt; lia).
    rewrite IH by lia. simpl. rewrite Hu, Hd.
    destruct (Z.ltb_spec (Z.of_N (x `mod` 10)) 10); [|lia]. f_equal. lia.
Qed.

Lemma pretty_N_go_digits x s :
  str_all is_digit s = true -> str_all is_digit (pretty_N_go x s) = true.
Proof.
  revert s. induction (N.lt_wf_0 x) as [x _ IH]. intros s Hs.
  destruct (decide (0 < x)%N) as [Hx|Hx].
  - rewrite pretty_N_go_step by done. apply IH; [apply N.div_lt; lia|].
    simpl. destruct (pretty_N_char_spec (x `mod` 10)) as (_ & -> & _); [by apply N.mod_lt|done].
  - assert (x = 0)%N as -> by lia. by rewrite pretty_N_go_0.
Qed.

Lemma pretty_N_digits (x : N) : str_all is_digit (pretty x) = true.
Proof.
  unfold pretty, pretty_N. case_decide; [done|]. by apply pretty_N_go_digits.
Qed.

Lemma pretty_N_parse (x : N) : parse_digits 10 0 true (pretty x) = Some (Z.of_N x).
Proof.
  unfold pretty, pretty_N. case_decide as Hx; [by subst|].
  by rewrite parse_digits_snoc by lia.
Qed.

Definition is_signed_digit (c : ascii) : bool := is_digit c || Ascii.eqb c "-".

Lemma pretty_Z_pos p : pretty (Z.pos p) = pretty (N.pos p).
Proof. done. Qed.

Lemma pretty_Z_neg p : pretty (Z.neg p) = String "-" (pretty (N.pos p)).
Proof. done. Qed.

Lemma pretty_Z_signed_digits (z : Z) : str_all is_signed_digit (pretty z) = true.
Proof.
  assert (H : forall n : N, str_all is_signed_digit (pretty n) = true).
  { intros n. eapply str_all_impl, pretty_N_digits. unfold is_signed_digit. by intros c ->. }
  destruct z; [done| |].
  - rewrite pretty_Z_pos. apply H.
  - rewrite pretty_Z_neg. cbn [str_all]. by rewrite H.
Qed.

Lemma pretty_Z_no_char (z : Z) c : is_signed_digit c = false -> has_char c (pretty z) = false.
Proof. apply has_char_all, pretty_Z_signed_digits. Qed.

Lemma pretty_Z_strip (z : Z) : strip (pretty z) = pretty z.
Proof.
  apply strip_id. eapply str_all_impl, pretty_Z_signed_digits.
  unfold is_signed_digit. intros c [H|H]%orb_true_iff.
  - by rewrite is_digit_not_space.
  - by apply Ascii.eqb_eq in H as ->.
Qed.

(** An unsigned decimal numeral starts with a digit. *)
Lemma pretty_N_head (n : N) :
  exists c s, pretty n = String c s /\ Ascii.eqb c "-" = false /\ Ascii.eqb c "+" = false.
Proof.
  pose proof (pretty_N_digits n) as H. pose proof (pretty_N_parse n) as Hp.
  destruct (pretty n) as [|c s]; [done|]. simpl in H. apply andb_true_iff in H as [H _].
  exists c, s. repeat split; apply Ascii.eqb_neq; intros ->; done.
Qed.

Lemma drop_base_prefix_10 s : drop_base_prefix 10 s = s.
Proof. destruct s as [|? [|? ?]]; done. Qed.

(** [int(str(z)) == z]. *)
Lemma int_of_str_pretty (z : Z) : int_of_str 10 (pretty z) = Some z.
Proof.
  unfold int_of_str. rewrite pretty_Z_strip. destruct z as [|p|p]; [done| |].
  - rewrite pretty_Z_pos. pose proof (pretty_N_parse (N.pos p)) as Hp.
    destruct (pretty_N_head (N.pos p)) as (c & s & E & Hm & Hs). rewrite E in *.
    by rewrite Hm, Hs, drop_base_prefix_10.
  - rewrite pretty_Z_neg, Ascii.eqb_refl, drop_base_prefix_10.
    by rewrite (pretty_N_parse (N.pos p)).
Qed.
