(* ===== verification/Errors.v ===== *)
(** * Exceptions

    [src/credbroker/errors.py] (the broker's error hierarchy) together with
    the exception classes of the libraries that some handler of the broker
    names in an [except] clause.  An exception value carries its class, the
    text [str(exc)] and the numeric status some classes hold. *)

From stdpp Require Import base tactics option strings.
From S2P Require Import Prelude.
Open Scope string_scope.

Inductive exc_class :=
(* errors.py *)
| CredBrokerError | UnknownAgentError | UnknownToolError | PolicyDeniedError
| GrantScopeMismatchError | NoConnectedAccountError | ConcurrencyLimitError
| RateLimitedError | GrantNotFoundError | GrantExpiredError | GrantRevokedError
| GrantTokenInvalidError | IdempotencyConflictError | ProviderUnavailableError
| ProviderCallError | OAuthFlowError
(* Python *)
| PyException | ValueError | BinasciiError | UnicodeDecodeError | JSONDecodeError
| LookupError | KeyError | TypeError | AttributeError | OverflowErr | PyAssertionError
| OSError | RuntimeErr | NotImplementedErr
(* httpx *)
| HttpxHTTPError | HttpxTransportError | HttpxTimeoutException | HttpxDecodingError
(* boto, PyJWT, cryptography *)
| ClientError | BotoCoreError | PyJWTError | InvalidTokenError | ExpiredSignatureError
| InvalidKeyError | InvalidTag
(* SQLAlchemy, redis, FastAPI, grpc *)
| SQLAlchemyError | IntegrityError | StaleDataError | MultipleResultsFound
| RedisError | HTTPException | GrpcAbortError
(* anything else *)
| OtherError.

#[export] Instance exc_class_eq_dec : EqDecision exc_class.
Proof. solve_decision. Defined.

(** The direct base class, [None] at the root. *)
Definition base_class (c : exc_class) : option exc_class :=
  match c with
  | PyException => None
  | UnknownAgentError | UnknownToolError | PolicyDeniedError
  | GrantScopeMismatchError | NoConnectedAccountError | ConcurrencyLimitError
  | RateLimitedError | GrantNotFoundError | GrantExpiredError | GrantRevokedError
  | GrantTokenInvalidError | IdempotencyConflictError | ProviderUnavailableError
  | ProviderCallError | OAuthFlowError => Some CredBrokerError
  | BinasciiError | UnicodeDecodeError | JSONDecodeError => Some ValueError
  | KeyError => Some LookupError
  | NotImplementedErr => Some RuntimeErr
  | HttpxTransportError | HttpxDecodingError => Some HttpxHTTPError
  | HttpxTimeoutException => Some HttpxTransportError
  | InvalidTokenError | InvalidKeyError => Some PyJWTError
  | ExpiredSignatureError => Some InvalidTokenError
  | IntegrityError | StaleDataError | MultipleResultsFound => Some SQLAlchemyError
  | _ => Some PyException
  end.

(** [issubclass(c, d)]: climb at most the height of the hierarchy. *)
Fixpoint subclass_within (n : nat) (c d : exc_class) : bool :=
  bool_decide (c = d) ||
  match n with
  | O => false
  | S n' => match base_class c with
            | Some b => subclass_within n' b d
            | None => false
            end
  end.

Definition issubclass (c d : exc_class) : bool := subclass_within 4 c d.

(** An exception: its class, its text and the numeric code some carry. *)
Record exn := Exc {
  exn_class : exc_class;
  exn_msg : string;           (* str(exc) *)
  exn_status : option Z       (* the code of ProviderCallError, HTTPException, AbortError *)
}.

#[export] Instance exn_eq_dec : EqDecision exn.
Proof. solve_decision. Defined.

Definition raise_of (c : exc_class) (msg : string) : exn := Exc c msg None.

(** [isinstance(exc, c)]. *)
Definition isinstance (e : exn) (c : exc_class) : bool := issubclass (exn_class e) c.

(** [except (c1, c2, ...)]. *)
Definition caught_by (cs : list exc_class) (e : exn) : bool :=
  existsb (isinstance e) cs.

(** [type(exc).__name__]. *)
Definition class_name (c : exc_class) : string :=
  match c with
  | CredBrokerError => "CredBrokerError"
  | UnknownAgentError => "UnknownAgentError"
  | UnknownToolError => "UnknownToolError"
  | PolicyDeniedError => "PolicyDeniedError"
  | GrantScopeMismatchError => "GrantScopeMismatchError"
  | NoConnectedAccountError => "NoConnectedAccountError"
  | ConcurrencyLimitError => "ConcurrencyLimitError"
  | RateLimitedError => "RateLimitedError"
  | GrantNotFoundError => "GrantNotFoundError"
  | GrantExpiredError => "GrantExpiredError"
  | GrantRevokedError => "GrantRevokedError"
  | GrantTokenInvalidError => "GrantTokenInvalidError"
  | IdempotencyConflictError => "IdempotencyConflictError"
  | ProviderUnavailableError => "ProviderUnavailableError"
  | ProviderCallError => "ProviderCallError"
  | OAuthFlowError => "OAuthFlowError"
  | PyException => "Exception"
  | ValueError => "ValueError"
  | BinasciiError => "Error"
  | UnicodeDecodeError => "UnicodeDecodeError"
  | JSONDecodeError => "JSONDecodeError"
  | LookupError => "LookupError"
  | KeyError => "KeyError"
  | TypeError => "TypeError"
  | AttributeError => "AttributeError"
  | OverflowErr => "OverflowError"
  | PyAssertionError => "AssertionError"
  | OSError => "OSError"
  | RuntimeErr => "RuntimeError"
  | NotImplementedErr => "NotImplementedError"
  | HttpxHTTPError => "HTTPError"
  | HttpxTransportError => "TransportError"
  | HttpxTimeoutException => "TimeoutException"
  | HttpxDecodingError => "DecodingError"
  | ClientError => "ClientError"
  | BotoCoreError => "BotoCoreError"
  | PyJWTError => "PyJWTError"
  | InvalidTokenError => "InvalidTokenError"
  | ExpiredSignatureError => "ExpiredSignatureError"
  | InvalidKeyError => "InvalidKeyError"
  | InvalidTag => "InvalidTag"
  | SQLAlchemyError => "SQLAlchemyError"
  | IntegrityError => "IntegrityError"
  | StaleDataError => "StaleDataError"
  | MultipleResultsFound => "MultipleResultsFound"
  | RedisError => "RedisError"
  | HTTPException => "HTTPException"
  | GrpcAbortError => "AbortError"
  | OtherError => "Error"
  end.

(** [table.get(type(exc))]: exact classes only. *)
Definition lookup_class {A} (table : list (exc_class * A)) (c : exc_class) : option A :=
  snd <$> List.find (fun kv => bool_decide (kv.1 = c)) table.

(** A Python call returns a value or raises. *)
Inductive res (A : Type) : Type :=
| Ok (a : A)
| Exn (e : exn).
Arguments Ok {A} a.
Arguments Exn {A} e.

Definition res_bind {A B} (m : res A) (f : A -> res B) : res B :=
  match m with Ok a => f a | Exn e => Exn e end.

Definition res_map {A B} (f : A -> B) (m : res A) : res B :=
  res_bind m (fun a => Ok (f a)).

Definition is_ok {A} (m : res A) : bool := match m with Ok _ => true | Exn _ => false end.

(** [None] raises. *)
Definition or_raise {A} (o : option A) (e : exn) : res A :=
  match o with Some a => Ok a | None => Exn e end.

Lemma isinstance_exception e : isinstance e PyException = true.
Proof. destruct e as [c ? ?]. by destruct c. Qed.

#[export] Hint Resolve isinstance_exception : cred.
