(* ===== verification/Json.v ===== *)
(** * JSON values and [json.dumps]

    The values Python's [json] module and protobuf's [json_format] produce:
    a [dict] is its items in insertion order, a [float] its IEEE-754 datum
    ([spec_float]).  [json_dumps] is [json.dumps] with [ensure_ascii], the
    default; how a float is printed ([float.__repr__]) and how a container
    is shown by [str()] are left to the runtime. *)

From Stdlib Require Import Ascii SpecFloat.
From stdpp Require Import base tactics list strings numbers pretty sorting.
From S2P Require Import Prelude PyStr Errors.
#[local] Set Warnings "-register-all".

Open Scope string_scope.

#[local] Unset Elimination Schemes.
Inductive json :=
| JNull
| JBool (b : bool)
| JInt (z : Z)
| JFloat (f : spec_float)
| JStr (s : string)
| JArr (l : list json)
| JObj (l : list (string * json)).
#[local] Set Elimination Schemes.

(** [dict] as a Python value: the items, keys distinct. *)
Abbreviation dict := (list (string * json)).

Section JsonInd.
Variable P : json -> Prop.
Hypothesis HNull : P JNull.
Hypothesis HBool : forall b, P (JBool b).
Hypothesis HInt : forall z, P (JInt z).
Hypothesis HFloat : forall f, P (JFloat f).
Hypothesis HStr : forall s, P (JStr s).
Hypothesis HArr : forall l, Forall P l -> P (JArr l).
Hypothesis HObj : forall l, Forall (fun kv => P kv.2) l -> P (JObj l).

Fixpoint json_ind (j : json) : P j :=
  match j with
  | JNull => HNull
  | JBool b => HBool b
  | JInt z => HInt z
  | JFloat f => HFloat f
  | JStr s => HStr s
  | JArr l =>
      HArr l ((fix go l : Forall P l :=
                 match l with
                 | [] => Forall_nil_2 P
                 | x :: l' => Forall_cons_2 P x l' (json_ind x) (go l')
                 end) l)
  | JObj l =>
      HObj l ((fix go l : Forall (fun kv => P kv.2) l :=
                 match l with
                 | [] => Forall_nil_2 _
                 | kv :: l' => Forall_cons_2 _ kv l' (json_ind kv.2) (go l')
                 end) l)
  end.
End JsonInd.

(** [d.get(k)]. *)
Fixpoint dict_get (k : string) (d : dict) : option json :=
  match d with
  | [] => None
  | (k', v) :: d' => if String.eqb k k' then Some v else dict_get k d'
  end.

(** [bool(v)]. *)
Definition truthy (j : json) : bool :=
  match j with
  | JNull => false
  | JBool b => b
  | JInt z => negb (z =? 0)%Z
  | JFloat (S754_zero _) => false
  | JFloat _ => true
  | JStr s => negb (String.eqb s "")
  | JArr l => match l with [] => false | _ => true end
  | JObj l => match l with [] => false | _ => true end
  end.

(** What the Python runtime prints for a float and reads from a float
    literal, what it prints for a container that [str()] renders through
    [repr], and for a string that a message shows with [!r]. *)
Class PyRepr := {
  float_repr : spec_float -> string;
  float_of_text : string -> spec_float;
  container_repr : json -> string;
  str_repr : string -> string
}.

(** A runtime for the witnesses, which print no float. *)
Definition example_repr : PyRepr := {|
  float_repr _ := "0.0"; float_of_text _ := S754_zero false; container_repr _ := "{}";
  str_repr s := s
|}.

(** ** [json.dumps] *)

(** Code points of a UTF-8 string, read off the lead bytes. *)
Fixpoint code_points (s : string) : list Z :=
  let low c := Z.land (Z.of_N (N_of_ascii c)) 63 in
  match s with
  | EmptyString => []
  | String a s1 =>
      let n := Z.of_N (N_of_ascii a) in
      if (n <? 192)%Z then n :: code_points s1
      else match s1 with
           | EmptyString => [n]
           | String b s2 =>
               if (n <? 224)%Z
               then (Z.land n 31 * 64 + low b)%Z :: code_points s2
               else match s2 with
                    | EmptyString => [n]
                    | String c s3 =>
                        if (n <? 240)%Z
                        then (Z.land n 15 * 4096 + low b * 64 + low c)%Z :: code_points s3
                        else match s3 with
                             | EmptyString => [n]
                             | String d s4 =>
                                 (Z.land n 7 * 262144 + low b * 4096 + low c * 64 + low d)%Z
                                   :: code_points s4
                             end
                    end
           end
  end.

Definition hex_digit (n : Z) : ascii :=
  ascii_of_N (Z.to_N (if (n <? 10)%Z then 48 + n else 87 + n)).

(** [n] lower-case hexadecimal digits of [z]. *)
Fixpoint hex_fixed (n : nat) (z : Z) (acc : string) : string :=
  match n with
  | O => acc
  | S n' => hex_fixed n' (z / 16) (String (hex_digit (z mod 16)) acc)
  end.

Definition escape_unit (z : Z) : string := "\u" +:+ hex_fixed 4 z "".

Definition escape_char (z : Z) : string :=
  if (z =? 34)%Z then String "\" (String (ascii_of_nat 34) "")
  else if (z =? 92)%Z then "\\"
  else if (z =? 10)%Z then "\n"
  else if (z =? 13)%Z then "\r"
  else if (z =? 9)%Z then "\t"
  else if (z =? 8)%Z then "\b"
  else if (z =? 12)%Z then "\f"
  else if (32 <=? z)%Z && (z <=? 126)%Z then String (ascii_of_N (Z.to_N z)) ""
  else if (z <? 65536)%Z then escape_unit z
  else let v := (z - 65536)%Z in
       escape_unit (55296 + Z.land (Z.shiftr v 10) 1023)
       +:+ escape_unit (56320 + Z.land v 1023).

Definition quote : string := String (ascii_of_nat 34) "".

Definition dump_str (s : string) : string :=
  quote +:+ fold_right (fun z t => escape_char z +:+ t) "" (code_points s) +:+ quote.

Fixpoint join_str (sep : string) (ws : list string) : string :=
  match ws with
  | [] => ""
  | [w] => w
  | w :: ws' => w +:+ sep +:+ join_str sep ws'
  end.

Definition key_le (p q : string * string) : Prop := String.le p.1 q.1.

#[export] Instance key_le_dec : RelDecision key_le.
Proof. intros p q. unfold key_le. apply _. Defined.

Section Dumps.
Context `{PyRepr}.

Definition dump_float (f : spec_float) : string :=
  match f with
  | S754_nan => "NaN"
  | S754_infinity false => "Infinity"
  | S754_infinity true => "-Infinity"
  | _ => float_repr f
  end.

(** [json.dumps(j, sort_keys=sort_keys, separators=(item_sep, key_sep))]. *)
Fixpoint json_dumps (sort_keys : bool) (item_sep key_sep : string) (j : json) : string :=
  match j with
  | JNull => "null"
  | JBool true => "true"
  | JBool false => "false"
  | JInt z => pretty z
  | JFloat f => dump_float f
  | JStr s => dump_str s
  | JArr l => "[" +:+ join_str item_sep (map (json_dumps sort_keys item_sep key_sep) l) +:+ "]"
  | JObj l =>
      let items := map (fun kv => (kv.1, json_dumps sort_keys item_sep key_sep kv.2)) l in
      let items := if sort_keys then merge_sort key_le items else items in
      "{" +:+ join_str item_sep (map (fun kv => dump_str kv.1 +:+ key_sep +:+ kv.2) items) +:+ "}"
  end.

(** [str(j)]. *)
Definition py_str (j : json) : string :=
  match j with
  | JNull => "None"
  | JBool true => "True"
  | JBool false => "False"
  | JInt z => pretty z
  | JFloat f => float_repr f
  | JStr s => s
  | JArr _ | JObj _ => container_repr j
  end.
End Dumps.

(** [int(j)]. *)
Definition py_int (j : json) : res Z :=
  match j with
  | JInt z => Ok z
  | JBool b => Ok (if b then 1 else 0)%Z
  | JFloat (S754_zero _) => Ok 0%Z
  | JFloat (S754_finite s m e) =>
      let a := if (0 <=? e)%Z then (Z.pos m * 2 ^ e)%Z else Z.shiftr (Z.pos m) (- e) in
      Ok (if s then - a else a)%Z
  | JFloat S754_nan => Exn (raise_of ValueError "cannot convert float NaN to integer")
  | JFloat (S754_infinity _) =>
      Exn (raise_of OverflowErr "cannot convert float infinity to integer")
  | JStr s => or_raise (int_of_str 10 s)
                (raise_of ValueError "invalid literal for int() with base 10")
  | JNull | JArr _ | JObj _ =>
      Exn (raise_of TypeError "int() argument must be a string, a bytes-like object or a real number")
  end.

(** ** Canonical serialisation *)

(** The same logical value: dictionaries equal up to the order of their
    items, at every level. *)
Inductive json_equiv : json -> json -> Prop :=
| equiv_refl j : json_equiv j j
| equiv_arr l l' : Forall2 json_equiv l l' -> json_equiv (JArr l) (JArr l')
| equiv_obj l m l' :
    Forall2 (fun a b => a.1 = b.1 /\ json_equiv a.2 b.2) l m ->
    m ≡ₚ l' -> json_equiv (JObj l) (JObj l').

(** Distinct keys at every level, as in any Python [dict]. *)
Inductive json_wf : json -> Prop :=
| wf_null : json_wf JNull
| wf_bool b : json_wf (JBool b)
| wf_int z : json_wf (JInt z)
| wf_float f : json_wf (JFloat f)
| wf_str s : json_wf (JStr s)
| wf_arr l : Forall json_wf l -> json_wf (JArr l)
| wf_obj l : NoDup (l.*1) -> Forall (fun kv => json_wf kv.2) l -> json_wf (JObj l).

#[export] Instance key_le_trans : Transitive key_le.
Proof. intros ???. unfold key_le. apply transitivity. Qed.

#[export] Instance key_le_total : Total key_le.
Proof. intros p q. unfold key_le. apply (total String.le). Qed.

(** Two lists of items with the same distinct keys sort to the same list. *)
Lemma sort_items_perm (l l' : list (string * string)) :
  NoDup (l.*1) -> l ≡ₚ l' -> merge_sort key_le l = merge_sort key_le l'.
Proof.
  intros Hnd Hp. apply (StronglySorted_unique_strong key_le).
  - intros [k1 v1] [k2 v2] H1 H2 Hle1 Hle2. simpl in *.
    assert (k1 = k2) as -> by (apply (anti_symm String.le); auto).
    rewrite merge_sort_Permutation in H1. rewrite merge_sort_Permutation, <- Hp in H2.
    f_equal. apply list_elem_of_lookup in H1 as [i Hi], H2 as [j Hj].
    assert (i = j) as ->; [|congruence].
    eapply NoDup_lookup; [exact Hnd| |]; rewrite list_lookup_fmap; [rewrite Hi|rewrite Hj]; done.
  - apply (StronglySorted_merge_sort key_le).
  - apply (StronglySorted_merge_sort key_le).
  - by rewrite !merge_sort_Permutation.
Qed.

Lemma dump_items_equiv `{PyRepr} (f : json -> string) l m :
  Forall2 (fun a b => a.1 = b.1 /\ f a.2 = f b.2) l m ->
  map (fun kv : string * json => (kv.1, f kv.2)) l = map (fun kv => (kv.1, f kv.2)) m.
Proof. induction 1 as [|[a x] [b y] l m [Ha Hx] _ IH]; simpl in *; congruence. Qed.

(** With [sort_keys], the text depends only on the logical value. *)
Lemma dumps_sorted_equiv `{PyRepr} isep ksep j j' :
  json_wf j -> json_equiv j j' -> json_dumps true isep ksep j = json_dumps true isep ksep j'.
Proof.
  revert j'. induction j as [| | | | |l IH|l IH] using json_ind; intros j' Hwf Heq; inversion Heq; subst; try done.
  - inversion Hwf as [| | | | |? Hwl|]; subst. simpl. do 3 f_equal.
    match goal with H : Forall2 _ _ _ |- _ => clear - IH H Hwl; revert IH Hwl; induction H end;
      intros IH Hwl; inversion IH; inversion Hwl; subst; simpl; f_equal; auto.
  - inversion Hwf as [| | | | | |? Hnd Hwl]; subst. simpl. do 4 f_equal.
    assert (Hf : Forall2 (fun a b => a.1 = b.1 /\
              json_dumps true isep ksep a.2 = json_dumps true isep ksep b.2) l m).
    { match goal with H : Forall2 _ l m |- _ => clear - IH H Hwl; revert IH Hwl; induction H as [|a b l m [Hk Hv]] end;
        intros IH Hwl; inversion IH; inversion Hwl; subst; constructor; auto. }
    rewrite (dump_items_equiv _ _ _ Hf). apply sort_items_perm.
    + rewrite <- list_fmap_compose. unfold compose. simpl.
      replace ((fun x : string * json => x.1) <$> m) with (l.*1); [done|].
      clear - Hf. induction Hf as [|a b l m [Hk _] _ IH]; simpl; [done|]. by f_equal.
    + by apply fmap_Permutation.
Qed.

(** ** Hexadecimal digits *)

#[local] Open Scope Z_scope.

Definition is_hex (c : ascii) : bool :=
  let n := N_of_ascii c in
  ((48 <=? n)%N && (n <=? 57)%N) || ((97 <=? n)%N && (n <=? 102)%N).

Lemma hex_digit_spec d :
  0 <= d < 16 ->
  digit_value (hex_digit d) = Some d /\ is_hex (hex_digit d) = true /\
  Ascii.eqb (hex_digit d) "_" = false.
Proof.
  intros Hd. digit_cases d 16%nat by (by vm_compute).
Qed.

Lemma hex_fixed_all n z acc :
  str_all is_hex acc = true -> str_all is_hex (hex_fixed n z acc) = true.
Proof.
  revert z acc. induction n as [|n IH]; intros z acc Hacc; [done|]. apply IH.
  simpl. destruct (hex_digit_spec (z mod 16)) as (_ & -> & _); [apply Z.mod_pos_bound; lia|done].
Qed.

Lemma hex_fixed_length n z acc :
  String.length (hex_fixed n z acc) = (n + String.length acc)%nat.
Proof. revert z acc. induction n as [|n IH]; intros z acc; simpl; [done|]. rewrite IH. simpl. lia. Qed.
