(* ===== verification/JsonParse.v ===== *)
(** * [json.loads]

    The JSON decoder of Python's standard library: the scanner of strings
    with their escapes and surrogate pairs, of numbers, arrays and objects.
    The recursion over nested values takes the length of the text as fuel,
    and [loads_dumps] shows that this is enough for every text that
    [json.dumps] prints.  How a float literal is read is left to the
    runtime, as its printing is. *)

From Stdlib Require Import Ascii SpecFloat.
From stdpp Require Import base tactics list strings numbers pretty.
From S2P Require Import Prelude PyStr Errors Json.
#[local] Set Warnings "-register-all".
Open Scope string_scope.

(** ** Dictionaries built item by item *)

(** [d[k] = v]. *)
Fixpoint dict_set (k : string) (v : json) (d : dict) : dict :=
  match d with
  | [] => [(k, v)]
  | (k', v') :: d' => if String.eqb k k' then (k', v) :: d' else (k', v') :: dict_set k v d'
  end.

(** [dict(pairs)]. *)
Definition dict_of_pairs (ps : list (string * json)) : dict :=
  foldl (fun d kv => dict_set kv.1 kv.2 d) [] ps.

(** ** Strings *)

Definition chr_byte (z : Z) : ascii := ascii_of_N (Z.to_N z).

(** The UTF-8 form of a code point. *)
Definition utf8_char (z : Z) : string :=
  (if z <? 128 then String (chr_byte z) ""
   else if z <? 2048 then
     String (chr_byte (192 + z / 64)) (String (chr_byte (128 + z mod 64)) "")
   else if z <? 65536 then
     String (chr_byte (224 + z / 4096)) (String (chr_byte (128 + z / 64 mod 64))
       (String (chr_byte (128 + z mod 64)) ""))
   else
     String (chr_byte (240 + z / 262144)) (String (chr_byte (128 + z / 4096 mod 64))
       (String (chr_byte (128 + z / 64 mod 64)) (String (chr_byte (128 + z mod 64)) ""))))%Z.

Definition hex_value (c : ascii) : option Z :=
  let n := Z.of_N (N_of_ascii c) in
  (if (48 <=? n) && (n <=? 57) then Some (n - 48)
   else if (97 <=? n) && (n <=? 102) then Some (n - 87)
   else if (65 <=? n) && (n <=? 70) then Some (n - 55)
   else None)%Z.

Definition hex4 (a b c d : ascii) : option Z :=
  match hex_value a, hex_value b, hex_value c, hex_value d with
  | Some a, Some b, Some c, Some d => Some (((a * 16 + b) * 16 + c) * 16 + d)%Z
  | _, _, _, _ => None
  end.

Definition is_high (u : Z) : bool := (55296 <=? u)%Z && (u <=? 56319)%Z.
Definition is_low (u : Z) : bool := (56320 <=? u)%Z && (u <=? 57343)%Z.

Definition join_surrogates (u v : Z) : Z :=
  (65536 + Z.shiftl (u - 55296) 10 + (v - 56320))%Z.

Definition backslash : ascii := "\"%char.
Definition dquote : ascii := ascii_of_nat 34.

Definition escape_value (e : ascii) : option string :=
  if Ascii.eqb e dquote then Some (String dquote "")
  else if Ascii.eqb e "\" then Some (String "\" "")
  else if Ascii.eqb e "/" then Some "/"
  else if Ascii.eqb e "b" then Some (String (ascii_of_nat 8) "")
  else if Ascii.eqb e "f" then Some (String (ascii_of_nat 12) "")
  else if Ascii.eqb e "n" then Some (String (ascii_of_nat 10) "")
  else if Ascii.eqb e "r" then Some (String (ascii_of_nat 13) "")
  else if Ascii.eqb e "t" then Some (String (ascii_of_nat 9) "")
  else None.

Definition prepend (w : string) (r : option (string * string)) : option (string * string) :=
  match r with Some (s, t) => Some (w +:+ s, t) | None => None end.

(** The text after an opening quote: the string and what follows it. *)
Fixpoint scan_string (s : string) : option (string * string) :=
  match s with
  | EmptyString => None
  | String c s1 =>
      if Ascii.eqb c dquote then Some ("", s1)
      else if Ascii.eqb c backslash then
        match s1 with
        | EmptyString => None
        | String e s2 =>
            if Ascii.eqb e "u" then
              match s2 with
              | String a (String b (String c (String d s3))) =>
                  match hex4 a b c d with
                  | None => None
                  | Some u =>
                      match s3 with
                      | String x (String y (String a' (String b' (String c' (String d' s4))))) =>
                          if is_high u && Ascii.eqb x backslash && Ascii.eqb y "u" then
                            match hex4 a' b' c' d' with
                            | None => None
                            | Some v =>
                                if is_low v
                                then prepend (utf8_char (join_surrogates u v)) (scan_string s4)
                                else prepend (utf8_char u) (scan_string s3)
                            end
                          else prepend (utf8_char u) (scan_string s3)
                      | _ => prepend (utf8_char u) (scan_string s3)
                      end
                  end
              | _ => None
              end
            else match escape_value e with
                 | Some w => prepend w (scan_string s2)
                 | None => None
                 end
        end
      else if (N_of_ascii c <? 32)%N then None
      else prepend (String c "") (scan_string s1)
  end.

(** ** Numbers *)

(** What follows the character [c]. *)
Definition chop (c : ascii) (s : string) : option string :=
  match s with
  | String c' s' => if Ascii.eqb c' c then Some s' else None
  | EmptyString => None
  end.

(** The longest prefix of digits. *)
Fixpoint span_digits (s : string) : string * string :=
  match s with
  | String c s' => if is_digit c then let '(d, r) := span_digits s' in (String c d, r) else ("", s)
  | EmptyString => ("", "")
  end.

Definition scan_fraction (s : string) : string * string :=
  match chop "." s with
  | Some s1 =>
      let '(d, r) := span_digits s1 in
      if String.eqb d "" then ("", s) else (String "." d, r)
  | None => ("", s)
  end.

Definition scan_exponent (s : string) : string * string :=
  match s with
  | String e s1 =>
      if Ascii.eqb e "e" || Ascii.eqb e "E" then
        let '(sign, s2) :=
          match s1 with
          | String c s2 => if Ascii.eqb c "+" || Ascii.eqb c "-" then (String c "", s2) else ("", s1)
          | EmptyString => ("", s1)
          end in
        let '(d, r) := span_digits s2 in
        if String.eqb d "" then ("", s) else (String e (sign +:+ d), r)
      else ("", s)
  | EmptyString => ("", s)
  end.

(** The integer part: ["0"] or digits that do not start with it. *)
Definition scan_int (s : string) : option (string * string) :=
  match s with
  | String c s' =>
      if Ascii.eqb c "0" then Some ("0", s')
      else if is_digit c then Some (span_digits s)
      else None
  | EmptyString => None
  end.

Section Loads.
Context `{PyRepr}.

Definition scan_number (s : string) : option (json * string) :=
  let '(sign, s1) := match chop "-" s with Some s1 => ("-", s1) | None => ("", s) end in
  match scan_int s1 with
  | None => None
  | Some (i, s2) =>
      let '(frac, s3) := scan_fraction s2 in
      let '(exp, s4) := scan_exponent s3 in
      let int_text := sign +:+ i in
      if String.eqb frac "" && String.eqb exp "" then
        match int_of_str 10 int_text with
        | Some z => Some (JInt z, s4)
        | None => None
        end
      else Some (JFloat (float_of_text (int_text +:+ frac +:+ exp)), s4)
  end.

(** ** Values *)

Definition is_json_space (c : ascii) : bool :=
  Ascii.eqb c " " || Ascii.eqb c (ascii_of_nat 9) || Ascii.eqb c (ascii_of_nat 10)
  || Ascii.eqb c (ascii_of_nat 13).

Fixpoint skip_space (s : string) : string :=
  match s with
  | String c s' => if is_json_space c then skip_space s' else s
  | EmptyString => EmptyString
  end.

Fixpoint strip_prefix (p s : string) : option string :=
  match p, s with
  | EmptyString, _ => Some s
  | String a p', String b s' => if Ascii.eqb a b then strip_prefix p' s' else None
  | String _ _, EmptyString => None
  end.

(** [true], [null], [NaN] and the like. *)
Definition scan_literal (s : string) : option (json * string) :=
  match strip_prefix "null" s with Some r => Some (JNull, r) | None =>
  match strip_prefix "true" s with Some r => Some (JBool true, r) | None =>
  match strip_prefix "false" s with Some r => Some (JBool false, r) | None =>
  match strip_prefix "NaN" s with Some r => Some (JFloat S754_nan, r) | None =>
  match strip_prefix "Infinity" s with Some r => Some (JFloat (S754_infinity false), r) | None =>
  match strip_prefix "-Infinity" s with Some r => Some (JFloat (S754_infinity true), r) | None =>
  None end end end end end end.

Fixpoint scan_value (fuel : nat) (s : string) : option (json * string) :=
  match fuel with
  | O => None
  | S fuel' =>
      match s with
      | EmptyString => None
      | String c s1 =>
          if Ascii.eqb c dquote then
            match scan_string s1 with Some (w, r) => Some (JStr w, r) | None => None end
          else if Ascii.eqb c "{" then
            match chop "}" (skip_space s1) with
            | Some r => Some (JObj [], r)
            | None => match scan_members fuel' (skip_space s1) with
                      | Some (ps, r) => Some (JObj (dict_of_pairs ps), r)
                      | None => None
                      end
            end
          else if Ascii.eqb c "[" then
            match chop "]" (skip_space s1) with
            | Some r => Some (JArr [], r)
            | None => match scan_items fuel' (skip_space s1) with
                      | Some (l, r) => Some (JArr l, r)
                      | None => None
                      end
            end
          else match scan_literal s with
               | Some x => Some x
               | None => scan_number s
               end
      end
  end
with scan_items (fuel : nat) (s : string) : option (list json * string) :=
  match fuel with
  | O => None
  | S fuel' =>
      match scan_value fuel' s with
      | None => None
      | Some (x, s1) =>
          match chop "]" (skip_space s1), chop "," (skip_space s1) with
          | Some r, _ => Some ([x], r)
          | None, Some s2 =>
              match scan_items fuel' (skip_space s2) with
              | Some (l, r) => Some (x :: l, r)
              | None => None
              end
          | None, None => None
          end
      end
  end
with scan_members (fuel : nat) (s : string) : option (list (string * json) * string) :=
  match fuel with
  | O => None
  | S fuel' =>
      match chop dquote s with
      | None => None
      | Some s1 =>
          match scan_string s1 with
          | None => None
          | Some (k, s2) =>
              match chop ":" (skip_space s2) with
              | None => None
              | Some s3 =>
                  match scan_value fuel' (skip_space s3) with
                  | None => None
                  | Some (v, s4) =>
                      match chop "}" (skip_space s4), chop "," (skip_space s4) with
                      | Some r, _ => Some ([(k, v)], r)
                      | None, Some s5 =>
                          match scan_members fuel' (skip_space s5) with
                          | Some (ps, r) => Some ((k, v) :: ps, r)
                          | None => None
                          end
                      | None, None => None
                      end
                  end
              end
          end
      end
  end.

(** [json.loads(s)]; a [JSONDecodeError] is a [ValueError]. *)
Definition json_loads (s : string) : res json :=
  or_raise
    (match scan_value (String.length s) (skip_space s) with
     | Some (j, r) => if String.eqb (skip_space r) "" then Some j else None
     | None => None
     end)
    (raise_of ValueError "Expecting value").
End Loads.

(** ** Lemmas *)

Section Strings.
#[local] Open Scope Z_scope.

(** A code point that is no surrogate. *)
Definition scalar (z : Z) : Prop := 0 <= z < 55296 \/ 57344 <= z < 1114112.

Definition ord (a : ascii) : Z := Z.of_N (N_of_ascii a).

Lemma ord_bounds a : 0 <= ord a < 256.
Proof. unfold ord. pose proof (N_ascii_bounded a). lia. Qed.

Lemma chr_ord a : chr_byte (ord a) = a.
Proof. unfold chr_byte, ord. by rewrite N2Z.id, ascii_N_embedding. Qed.

Lemma chr_byte_eq a z : z = ord a -> chr_byte z = a.
Proof. intros ->. apply chr_ord. Qed.

Lemma in_range_ord lo hi a :
  in_range lo hi (byte_of_ascii a) = true <-> Z.of_N lo <= ord a <= Z.of_N hi.
Proof.
  unfold in_range, ord. replace (Byte.to_N (byte_of_ascii a)) with (N_of_ascii a).
  - rewrite andb_true_iff, !N.leb_le. lia.
  - destruct a as [[] [] [] [] [] [] [] []]; reflexivity.
Qed.

Lemma in_range_false lo hi a :
  in_range lo hi (byte_of_ascii a) = false -> ~ (Z.of_N lo <= ord a <= Z.of_N hi).
Proof. intros H H'. apply in_range_ord in H'. congruence. Qed.

Definition utf8 (zs : list Z) : string := fold_right (fun z t => utf8_char z +:+ t) "" zs.

Ltac byte_arith := Z.div_mod_to_equations; lia.

Lemma land_low x k : 0 <= k -> Z.land x (2 ^ k - 1) = x mod 2 ^ k.
Proof. intros Hk. by rewrite <- (Z.land_ones x k Hk), Z.ones_equiv. Qed.

Lemma land_63 x : Z.land x 63 = x mod 64.
Proof. apply (land_low x 6). lia. Qed.
Lemma land_31 x : Z.land x 31 = x mod 32.
Proof. apply (land_low x 5). lia. Qed.
Lemma land_15 x : Z.land x 15 = x mod 16.
Proof. apply (land_low x 4). lia. Qed.
Lemma land_7 x : Z.land x 7 = x mod 8.
Proof. apply (land_low x 3). lia. Qed.

(** Choose the branch of comparisons that [lia] decides. *)
Ltac pick :=
  repeat match goal with
  | |- context [?x <? ?y] =>
      first [ rewrite (proj2 (Z.ltb_lt x y)) by lia | rewrite (proj2 (Z.ltb_ge x y)) by lia ]
  end.

Lemma code_points_1 a s : ord a < 192 -> code_points (String a s) = ord a :: code_points s.
Proof. intros. cbn [code_points]. fold (ord a). by pick. Qed.

Lemma code_points_2 a b s : 192 <= ord a < 224 -> 128 <= ord b < 192 ->
  code_points (String a (String b s)) = ((ord a - 192) * 64 + (ord b - 128)) :: code_points s.
Proof.
  intros. cbn [code_points]. fold (ord a) (ord b). pick. rewrite land_31, land_63. f_equal. byte_arith.
Qed.

Lemma code_points_3 a b c s : 224 <= ord a < 240 -> 128 <= ord b < 192 -> 128 <= ord c < 192 ->
  code_points (String a (String b (String c s))) =
    ((ord a - 224) * 4096 + (ord b - 128) * 64 + (ord c - 128)) :: code_points s.
Proof.
  intros. cbn [code_points]. fold (ord a) (ord b) (ord c). pick.
  rewrite land_15, !land_63. f_equal. byte_arith.
Qed.

Lemma code_points_4 a b c d s :
  240 <= ord a < 248 -> 128 <= ord b < 192 -> 128 <= ord c < 192 -> 128 <= ord d < 192 ->
  code_points (String a (String b (String c (String d s)))) =
    ((ord a - 240) * 262144 + (ord b - 128) * 4096 + (ord c - 128) * 64 + (ord d - 128))
      :: code_points s.
Proof.
  intros. cbn [code_points]. fold (ord a) (ord b) (ord c) (ord d). pick.
  rewrite land_7, !land_63. f_equal. byte_arith.
Qed.

Lemma utf8_char_1 a : ord a < 128 -> utf8_char (ord a) = String a "".
Proof. intros. unfold utf8_char. pick. by rewrite chr_ord. Qed.

Lemma utf8_char_2 a b : 194 <= ord a < 224 -> 128 <= ord b < 192 ->
  utf8_char ((ord a - 192) * 64 + (ord b - 128)) = String a (String b "").
Proof.
  intros. unfold utf8_char. pick.
  rewrite (chr_byte_eq a), (chr_byte_eq b); [done|byte_arith..].
Qed.

Lemma utf8_char_3 a b c : 224 <= ord a < 240 -> 128 <= ord b < 192 -> 128 <= ord c < 192 ->
  2048 <= (ord a - 224) * 4096 + (ord b - 128) * 64 ->
  utf8_char ((ord a - 224) * 4096 + (ord b - 128) * 64 + (ord c - 128)) =
    String a (String b (String c "")).
Proof.
  intros. unfold utf8_char. pick.
  rewrite (chr_byte_eq a), (chr_byte_eq b), (chr_byte_eq c); [done|byte_arith..].
Qed.

Lemma utf8_char_4 a b c d :
  240 <= ord a < 248 -> 128 <= ord b < 192 -> 128 <= ord c < 192 -> 128 <= ord d < 192 ->
  65536 <= (ord a - 240) * 262144 + (ord b - 128) * 4096 ->
  utf8_char ((ord a - 240) * 262144 + (ord b - 128) * 4096 + (ord c - 128) * 64 + (ord d - 128)) =
    String a (String b (String c (String d ""))).
Proof.
  intros. unfold utf8_char. pick.
  rewrite (chr_byte_eq a), (chr_byte_eq b), (chr_byte_eq c), (chr_byte_eq d); [done|byte_arith..].
Qed.

Lemma encode_cons a s : encode (String a s) = byte_of_ascii a :: encode s.
Proof. reflexivity. Qed.

(** Read the ranges off a validity check. *)
Ltac ranges :=
  repeat match goal with
  | H : (_ && _)%bool = true |- _ => apply andb_true_iff in H as [? H]
  | H : in_range _ _ (byte_of_ascii _) = true |- _ => apply in_range_ord in H; simpl in H
  | H : in_range _ _ (byte_of_ascii _) = false |- _ => apply in_range_false in H; simpl in H
  end.

(** Decoding and encoding again gives a valid text back. *)
Lemma utf8_code_points s :
  utf8_valid (encode s) = true -> utf8 (code_points s) = s /\ Forall scalar (code_points s).
Proof.
  remember (String.length s) as n eqn:Hn. revert s Hn.
  induction n as [n IH] using lt_wf_ind. intros s Hn Hv. subst n.
  assert (IH' : forall t, (String.length t < String.length s)%nat ->
    utf8_valid (encode t) = true -> utf8 (code_points t) = t /\ Forall scalar (code_points t)).
  { intros t Ht. by apply (IH (String.length t)). } clear IH.
  destruct s as [|a s]; [by split|]. rewrite encode_cons in Hv. cbn [utf8_valid] in Hv.
  destruct (in_range 0 127 (byte_of_ascii a)) eqn:E1.
  { ranges. destruct (IH' s) as [H1 H2]; [simpl; lia|done|].
    rewrite code_points_1 by lia. unfold utf8. cbn [fold_right]. fold (utf8 (code_points s)).
    rewrite H1, utf8_char_1 by lia. split; [done|]. constructor; [left; lia|done]. }
  destruct s as [|b s]; [done|]. rewrite encode_cons in Hv.
  cbn beta iota in Hv.
  destruct (in_range 194 223 (byte_of_ascii a) && in_range 128 191 (byte_of_ascii b))%bool eqn:E2.
  { ranges. destruct (IH' s) as [H1 H2]; [simpl; lia|done|].
    rewrite code_points_2 by lia. unfold utf8. cbn [fold_right]. fold (utf8 (code_points s)).
    rewrite H1, utf8_char_2 by lia. split; [done|]. constructor; [left; lia|done]. }
  destruct s as [|c s]; [done|]. rewrite encode_cons in Hv.
  cbn beta iota in Hv.
  match type of Hv with (if ?x && in_range 128 191 (byte_of_ascii c) then _ else _) = true =>
    destruct (x && in_range 128 191 (byte_of_ascii c))%bool eqn:E3 end.
  { apply andb_true_iff in E3 as [E3 E4].
    destruct (IH' s) as [H1 H2]; [simpl; lia|done|].
    assert (224 <= ord a < 240 /\ 128 <= ord b < 192 /\
      2048 <= (ord a - 224) * 4096 + (ord b - 128) * 64 /\ (ord a = 237 -> ord b < 160)) as (?&?&?&?).
    { destruct (in_range 224 224 (byte_of_ascii a)) eqn:E5; [ranges; lia|].
      destruct (in_range 237 237 (byte_of_ascii a)) eqn:E6; ranges; lia. }
    ranges. rewrite code_points_3 by lia. unfold utf8. cbn [fold_right]. fold (utf8 (code_points s)).
    rewrite H1, utf8_char_3 by lia. split; [done|]. constructor; [unfold scalar; lia|done]. }
  destruct s as [|d s]; [done|]. rewrite encode_cons in Hv. cbn beta iota in Hv. clear E3.
  rewrite !andb_true_iff in Hv. destruct Hv as [[[E3 E4] E5] Hv].
  destruct (IH' s) as [H1 H2]; [simpl; lia|done|].
  assert (240 <= ord a < 245 /\ 128 <= ord b < 192 /\
    65536 <= (ord a - 240) * 262144 + (ord b - 128) * 4096 /\ (ord a = 244 -> ord b < 144)) as (?&?&?&?).
  { destruct (in_range 240 240 (byte_of_ascii a)) eqn:E6; [ranges; lia|].
    destruct (in_range 244 244 (byte_of_ascii a)) eqn:E7; ranges; lia. }
  ranges. rewrite code_points_4 by lia. unfold utf8. cbn [fold_right]. fold (utf8 (code_points s)).
  rewrite H1, utf8_char_4 by lia. split; [done|]. constructor; [unfold scalar; lia|done].
Qed.

(** *** Escapes *)

Lemma ord_chr z : 0 <= z < 256 -> ord (chr_byte z) = z.
Proof.
  intros Hz. unfold ord, chr_byte. rewrite N_ascii_embedding by lia. lia.
Qed.

Lemma hex_value_digit n : 0 <= n < 16 -> hex_value (hex_digit n) = Some n.
Proof.
  intros Hn. digit_cases n 16%nat by (by vm_compute).
Qed.

(** The four digits of a 16-bit number. *)
Definition hex_text (z : Z) : string := hex_fixed 4 z "".

Lemma hex4_text z : 0 <= z < 65536 ->
  exists a b c d, hex_text z = String a (String b (String c (String d ""))) /\
    hex4 a b c d = Some z.
Proof.
  intros Hz. unfold hex_text. cbn [hex_fixed]. do 4 eexists. split; [reflexivity|].
  unfold hex4. rewrite !hex_value_digit by byte_arith. f_equal. byte_arith.
Qed.

Lemma scan_unicode a b c d u t : hex4 a b c d = Some u ->
  is_high u = false ->
  scan_string (String "\" (String "u" (String a (String b (String c (String d t)))))) =
    prepend (utf8_char u) (scan_string t).
Proof.
  intros Hx Hh. cbn [scan_string]. rewrite Hx, Hh. cbn.
  by destruct t as [|? [|? [|? [|? [|? [|? ?]]]]]].
Qed.

Lemma scan_unicode_pair a b c d u a' b' c' d' v t :
  hex4 a b c d = Some u -> hex4 a' b' c' d' = Some v -> is_high u = true -> is_low v = true ->
  scan_string (String "\" (String "u" (String a (String b (String c (String d
    (String "\" (String "u" (String a' (String b' (String c' (String d' t)))))))))))) =
    prepend (utf8_char (join_surrogates u v)) (scan_string t).
Proof. intros Hx Hy Hh Hl. cbn [scan_string]. rewrite Hx, Hh. cbn. by rewrite Hy, Hl. Qed.

(** A scanned escape for a code point outside the surrogates. *)
Lemma scan_escape_unit z t : 0 <= z < 65536 -> is_high z = false ->
  scan_string (escape_unit z +:+ t) = prepend (utf8_char z) (scan_string t).
Proof.
  intros Hz Hh. destruct (hex4_text z Hz) as (a & b & c & d & Ht & Hx).
  unfold escape_unit. fold (hex_text z). rewrite Ht. by apply (scan_unicode a b c d).
Qed.

Lemma scan_plain c t : c <> dquote -> c <> backslash -> (32 <= N_of_ascii c)%N ->
  scan_string (String c t) = prepend (String c "") (scan_string t).
Proof.
  intros H1 H2 H3. cbn [scan_string].
  destruct (Ascii.eqb_spec c dquote); [done|]. destruct (Ascii.eqb_spec c backslash); [done|].
  by destruct (N.ltb_spec (N_of_ascii c) 32); [lia|].
Qed.

Lemma land_1023 x : Z.land x 1023 = x mod 1024.
Proof. apply (land_low x 10). lia. Qed.

Lemma scan_surrogates z t : 65536 <= z < 1114112 ->
  scan_string ((escape_unit (55296 + Z.land (Z.shiftr (z - 65536) 10) 1023) +:+
    escape_unit (56320 + Z.land (z - 65536) 1023)) +:+ t) =
  prepend (utf8_char z) (scan_string t).
Proof.
  intros Hz. rewrite !land_1023, Z.shiftr_div_pow2 by lia. change (2 ^ 10) with 1024.
  set (u := 55296 + _). set (v := 56320 + _).
  assert (Hu : u = 55296 + (z - 65536) / 1024) by (unfold u; byte_arith).
  assert (Hv : 56320 <= v < 57344) by (unfold v; byte_arith).
  destruct (hex4_text u ltac:(byte_arith)) as (a & b & c & d & Ht & Hx).
  destruct (hex4_text v ltac:(lia)) as (a' & b' & c' & d' & Ht' & Hx').
  unfold escape_unit. fold (hex_text u) (hex_text v). rewrite Ht, Ht'.
  assert (Hj : z = join_surrogates u v).
  { unfold join_surrogates. rewrite Z.shiftl_mul_pow2 by lia. unfold u, v. byte_arith. }
  rewrite Hj. apply (scan_unicode_pair a b c d u a' b' c' d' v); [done|done| |].
  - unfold is_high. destruct (Z.leb_spec 55296 u), (Z.leb_spec u 56319); try done; byte_arith.
  - unfold is_low. destruct (Z.leb_spec 56320 v), (Z.leb_spec v 57343); try done; lia.
Qed.

Lemma scan_escape_char z t : scalar z ->
  scan_string (escape_char z +:+ t) = prepend (utf8_char z) (scan_string t).
Proof.
  intros Hz. unfold escape_char, scalar in *.
  repeat match goal with |- context [(z =? ?n)%Z] => destruct (Z.eqb_spec z n) as [->|?]; [done|] end.
  destruct (Z.leb_spec 32 z); cbn [andb]; [destruct (Z.leb_spec z 126)|].
  - change (ascii_of_N (Z.to_N z)) with (chr_byte z). rewrite append_cons.
    change ("" +:+ t) with t. pose proof (ord_chr z ltac:(lia)) as Ho.
    rewrite scan_plain; [|intros E; rewrite E in Ho; vm_compute in Ho; lia
      |intros E; rewrite E in Ho; vm_compute in Ho; lia|unfold ord in Ho; lia].
    unfold utf8_char. by pick.
  - destruct (Z.ltb_spec z 65536).
    + apply scan_escape_unit; [lia|]. unfold is_high.
      destruct (Z.leb_spec 55296 z), (Z.leb_spec z 56319); try done; lia.
    + apply scan_surrogates. lia.
  - pick. apply scan_escape_unit; [lia|]. unfold is_high. by destruct (Z.leb_spec 55296 z); [lia|].
Qed.

(** A dumped string is scanned back. *)
Lemma scan_dump_str s rest : utf8_valid (encode s) = true ->
  exists body, dump_str s +:+ rest = String dquote body /\ scan_string body = Some (s, rest).
Proof.
  intros Hv. destruct (utf8_code_points s Hv) as [Hs Hsc]. unfold dump_str.
  eexists. split; [unfold quote at 1; by rewrite append_assoc, append_cons|].
  change ("" +:+ ?x) with x. rewrite <- Hs at 2. clear Hs Hv. revert Hsc.
  generalize (code_points s). intros zs Hsc. unfold utf8.
  induction Hsc as [|z zs Hz _ IH]; cbn [fold_right]; [done|].
  rewrite !append_assoc, (scan_escape_char z) by done. rewrite append_assoc in IH. rewrite IH. done.
Qed.
End Strings.



(** *** Numbers *)

(** What may follow a value inside a dumped text. *)
Definition after (rest : string) : Prop :=
  rest = "" \/ exists c t, rest = String c t /\ (c = ","%char \/ c = "]"%char \/ c = "}"%char).

Lemma span_digits_app d rest : str_all is_digit d = true -> after rest ->
  span_digits (d +:+ rest) = (d, rest).
Proof.
  intros Hd Hr. induction d as [|c d IH].
  - change ("" +:+ rest) with rest.
    by destruct Hr as [->|(c & t & -> & [-> | [-> | ->]])].
  - simpl in Hd. apply andb_true_iff in Hd as [Hc Hd]. rewrite append_cons. cbn [span_digits].
    by rewrite Hc, (IH Hd).
Qed.

Lemma pretty_N_go_head x s : (0 < x)%N ->
  exists c t, pretty_N_go x s = String c t /\ c <> "0"%char.
Proof.
  revert s. induction (N.lt_wf_0 x) as [x _ IH]. intros s Hx.
  rewrite pretty_N_go_step by done.
  assert (Hdm : x = (10 * (x / 10) + x mod 10)%N) by (apply N.div_mod; lia).
  destruct (decide (x / 10 = 0)%N) as [Hz|Hz].
  - rewrite Hz, pretty_N_go_0. do 2 eexists. split; [done|]. rewrite Hz in Hdm.
    assert (x mod 10 < 10)%N by (apply N.mod_lt; lia).
    destruct (pretty_N_char_spec (x `mod` 10)) as (Hd & _ & _); [done|].
    intros E. rewrite E in Hd. change (digit_value "0") with (Some 0%Z) in Hd. injection Hd as Hd. lia.
  - apply IH; [apply N.div_lt; lia|by apply N.neq_0_lt_0].
Qed.

Lemma scan_int_pretty (n : N) rest : after rest ->
  scan_int (pretty n +:+ rest) = Some (pretty n, rest).
Proof.
  intros Hr. pose proof (pretty_N_digits n) as Hd. destruct (decide (n = 0)%N) as [->|Hn]; [done|].
  assert (exists c t, pretty n = String c t /\ c <> "0"%char) as (c & t & E & Hc).
  { unfold pretty, pretty_N. rewrite decide_False by done. apply pretty_N_go_head. lia. }
  rewrite E in *. rewrite append_cons. cbn [scan_int].
  destruct (Ascii.eqb_spec c "0"); [done|]. simpl in Hd. apply andb_true_iff in Hd as [Hc' Hd].
  rewrite Hc'. rewrite <- append_cons, span_digits_app; [done| |done]. simpl. by rewrite Hc'.
Qed.

Lemma no_fraction rest : after rest -> scan_fraction rest = ("", rest).
Proof. by intros [->|(c & t & -> & [-> | [-> | ->]])]. Qed.

Lemma no_exponent rest : after rest -> scan_exponent rest = ("", rest).
Proof. by intros [->|(c & t & -> & [-> | [-> | ->]])]. Qed.

Lemma skip_after rest : after rest -> skip_space rest = rest.
Proof. by intros [->|(c & t & -> & [-> | [-> | ->]])]. Qed.

Section RoundTrip.
Context `{Hrepr : PyRepr}.

Lemma scan_number_pretty (z : Z) rest : after rest ->
  scan_number (pretty z +:+ rest) = Some (JInt z, rest).
Proof.
  intros Hr. pose proof (int_of_str_pretty z) as Hz. unfold scan_number.
  assert (exists (n : N) sign, pretty z = sign +:+ pretty n /\
    match chop "-" (pretty z +:+ rest) with
    | Some s1 => ("-", s1)
    | None => ("", pretty z +:+ rest)
    end = (sign, pretty n +:+ rest)) as (n & sign & E & ->).
  { destruct z as [|p|p].
    - by exists 0%N, "".
    - exists (N.pos p), "". rewrite pretty_Z_pos. split; [done|].
      destruct (pretty_N_head (N.pos p)) as (c & s & E & Hm & _). rewrite E, append_cons.
      cbn [chop]. by rewrite Hm.
    - exists (N.pos p), "-". by rewrite pretty_Z_neg. }
  rewrite scan_int_pretty, no_fraction, no_exponent by done. cbn. by rewrite <- E, Hz.
Qed.

(** *** Values *)

(** How a text that opens no string, object or array is read. *)
Definition scan_other (s : string) : option (json * string) :=
  match scan_literal s with
  | Some x => Some x
  | None => scan_number s
  end.

(** A float that reads back from what is printed for it. *)
Definition float_reads_back (f : spec_float) : Prop :=
  forall rest, after rest -> scan_other (dump_float f +:+ rest) = Some (JFloat f, rest).

(** The values a text carries without loss: valid strings, distinct keys. *)
Inductive json_plain : json -> Prop :=
| plain_null : json_plain JNull
| plain_bool b : json_plain (JBool b)
| plain_int z : json_plain (JInt z)
| plain_float f : float_reads_back f -> json_plain (JFloat f)
| plain_str s : utf8_valid (encode s) = true -> json_plain (JStr s)
| plain_arr l : Forall json_plain l -> json_plain (JArr l)
| plain_obj l :
    NoDup (l.*1) ->
    Forall (fun kv => utf8_valid (encode kv.1) = true /\ json_plain kv.2) l ->
    json_plain (JObj l).

Abbreviation dumps := (json_dumps false ", " ": ").

(** The head of a dumped value: no space, no closing bracket. *)
Definition value_head (s : string) : Prop :=
  exists c t, s = String c t /\ is_json_space c = false /\ c <> "]"%char.

Lemma scan_other_head s x : scan_other s = Some x ->
  value_head s /\ forall fuel, scan_value (S fuel) s = Some x.
Proof.
  intros H. destruct s as [|c t]; [by vm_compute in H|].
  assert (Hc : c <> dquote /\ c <> "{"%char /\ c <> "["%char /\ c <> "]"%char /\
               is_json_space c = false).
  { assert (Hne : forall c', scan_other (String c' t) = None -> c <> c') by (intros c' E ->; congruence).
    repeat split; try (apply Hne; done).
    unfold is_json_space. rewrite !orb_false_iff, !Ascii.eqb_neq.
    repeat split; apply Hne; done. }
  destruct Hc as (H1 & H2 & H3 & H4 & H5). split; [by exists c, t|]. intros fuel.
  cbn [scan_value].
  destruct (Ascii.eqb_spec c dquote); [done|]. destruct (Ascii.eqb_spec c "{"); [done|].
  by destruct (Ascii.eqb_spec c "["); [done|].
Qed.

Lemma scan_literal_pretty (z : Z) rest : scan_literal (pretty z +:+ rest) = None.
Proof.
  assert (Hd : forall n : N, exists c s, pretty n = String c s /\ is_digit c = true).
  { intros n. destruct (pretty_N_head n) as (c & s & E & _). exists c, s. split; [done|].
    pose proof (pretty_N_digits n) as H'. rewrite E in H'. by apply andb_true_iff in H' as [? _]. }
  assert (Hne : forall c c', is_digit c = true -> is_digit c' = false -> Ascii.eqb c' c = false).
  { intros c c' H1 H2. apply Ascii.eqb_neq. congruence. }
  destruct z as [|p|p]; [done| |].
  - rewrite pretty_Z_pos. destruct (Hd (N.pos p)) as (c & s & -> & Hc). rewrite append_cons.
    unfold scan_literal. cbn [strip_prefix]. by rewrite !(Hne c) by done.
  - rewrite pretty_Z_neg. destruct (Hd (N.pos p)) as (c & s & -> & Hc). rewrite !append_cons.
    unfold scan_literal. cbn [strip_prefix]. by rewrite !(Hne c) by done.
Qed.

(** Fuel a value needs: one for it and one for each of its parts. *)
Fixpoint json_fuel (j : json) : nat :=
  match j with
  | JArr l => S (fold_right (fun x n => S (json_fuel x + n)) O l)
  | JObj l => S (fold_right (fun kv n => S (json_fuel kv.2 + n)) O l)
  | _ => 1
  end.

Definition reads_back (j : json) : Prop :=
  value_head (dumps j) /\
  forall fuel rest, (json_fuel j <= fuel)%nat -> after rest ->
    scan_value fuel (dumps j +:+ rest) = Some (j, rest).

Lemma other_reads_back j :
  json_fuel j = 1%nat ->
  (forall rest, after rest -> scan_other (dumps j +:+ rest) = Some (j, rest)) -> reads_back j.
Proof.
  intros Hf H. split.
  - destruct (scan_other_head (dumps j) (j, "")) as [? _]; [|done].
    specialize (H "" ltac:(by left)). by rewrite append_nil_r in H.
  - intros [|fuel] rest Hfuel Hr; [lia|]. by apply scan_other_head, H.
Qed.

Lemma skip_value_head s rest : value_head s -> skip_space (s +:+ rest) = s +:+ rest.
Proof. intros (c & t & -> & Hc & _). rewrite append_cons. cbn [skip_space]. by rewrite Hc. Qed.

Lemma after_closing c rest :
  c = ","%char \/ c = "]"%char \/ c = "}"%char -> after (String c rest).
Proof. intros H. right. by exists c, rest. Qed.

Lemma value_head_app s t : value_head s -> value_head (s +:+ t).
Proof. intros (c & u & -> & H). exists c, (u +:+ t). by rewrite append_cons. Qed.

Lemma join_str_cons sep x y ws :
  join_str sep (x :: y :: ws) = x +:+ sep +:+ join_str sep (y :: ws).
Proof. done. Qed.

Lemma value_head_join (sep : string) w ws : value_head w -> value_head (join_str sep (w :: ws)).
Proof. destruct ws; [done|]. rewrite join_str_cons. apply value_head_app. Qed.

(** The items of an array, after the opening bracket. *)
Lemma scan_items_dumps l x rest fuel :
  Forall reads_back (x :: l) ->
  (fold_right (fun x n => S (json_fuel x + n)) O (x :: l) <= fuel)%nat ->
  scan_items fuel (join_str ", " (map dumps (x :: l)) +:+ String "]" rest) =
    Some (x :: l, rest).
Proof.
  revert x fuel. induction l as [|y l IH]; intros x fuel Hall Hfuel;
    inversion Hall as [|? ? [_ Hx] Hl]; subst;
    (destruct fuel as [|fuel]; [simpl in Hfuel; lia|]); cbn [scan_items].
  - cbn [map join_str]. rewrite Hx; [done|simpl in Hfuel; lia|apply after_closing; auto].
  - cbn [map]. rewrite join_str_cons, !append_assoc. change (map dumps (y :: l)) with (map dumps (y :: l)).
    set (T := join_str ", " (dumps y :: map dumps l) +:+ String "]" rest).
    change (", " +:+ T) with (String "," (String " " T)).
    rewrite Hx; [|simpl in Hfuel; lia|apply after_closing; auto].
    change (skip_space (String "," (String " " T))) with (String "," (String " " T)).
    cbn -[scan_items skip_space]. change (skip_space (String " " T)) with (skip_space T).
    unfold T. rewrite skip_value_head.
    + change (dumps y :: map dumps l) with (map dumps (y :: l)).
      rewrite IH; [done|done|simpl in *; lia].
    + apply value_head_join. inversion Hl as [|? ? [? _] ?]; subst. done.
Qed.

(** The members of an object, after the opening brace. *)
Definition dump_member (kv : string * json) : string := dump_str kv.1 +:+ ": " +:+ dumps kv.2.

Lemma value_head_quote s : value_head (String dquote s).
Proof. by exists dquote, s. Qed.

Lemma value_head_dump_str s : value_head (dump_str s).
Proof. apply value_head_quote. Qed.

Lemma value_head_members kvs kv : value_head (join_str ", " (map dump_member (kv :: kvs))).
Proof. apply value_head_join, value_head_app, value_head_dump_str. Qed.

(** One member: the key, the colon and the value, up to what follows it. *)
Lemma scan_member k v rest fuel :
  utf8_valid (encode k) = true -> reads_back v -> (json_fuel v <= fuel)%nat -> after rest ->
  scan_members (S fuel) (dump_member (k, v) +:+ rest) =
    match chop "}" (skip_space rest), chop "," (skip_space rest) with
    | Some r, _ => Some ([(k, v)], r)
    | None, Some s5 =>
        match scan_members fuel (skip_space s5) with
        | Some (ps, r) => Some ((k, v) :: ps, r)
        | None => None
        end
    | None, None => None
    end.
Proof.
  intros Hk [Hh Hv] Hfuel Hr. unfold dump_member. cbn [fst snd]. rewrite !append_assoc.
  set (T := dumps v +:+ rest).
  destruct (scan_dump_str k (": " +:+ T) Hk) as (body & -> & Hb). cbn [scan_members].
  change (chop dquote (String dquote body)) with (Some body). cbn beta iota. rewrite Hb.
  change (chop ":" (skip_space (": " +:+ T))) with (Some (String " " T)). cbn beta iota.
  change (skip_space (String " " T)) with (skip_space T). unfold T.
  by rewrite skip_value_head, Hv.
Qed.

Lemma scan_members_dumps l kv rest fuel :
  Forall (fun kv => utf8_valid (encode kv.1) = true /\ reads_back kv.2) (kv :: l) ->
  (fold_right (fun kv n => S (json_fuel kv.2 + n)) O (kv :: l) <= fuel)%nat ->
  scan_members fuel (join_str ", " (map dump_member (kv :: l)) +:+ String "}" rest) =
    Some (kv :: l, rest).
Proof.
  revert kv fuel. induction l as [|kv' l IH]; intros [k v] fuel Hall Hfuel;
    inversion Hall as [|? ? [Hk Hv] Hl]; subst; simpl in Hk, Hv;
    (destruct fuel as [|fuel]; [simpl in Hfuel; lia|]).
  - cbn [map join_str]. rewrite scan_member; [done|done|done|simpl in Hfuel; lia|].
    apply after_closing; auto.
  - cbn [map]. rewrite join_str_cons, !append_assoc.
    set (T := join_str ", " (dump_member kv' :: map dump_member l) +:+ String "}" rest).
    change (", " +:+ T) with (String "," (String " " T)).
    rewrite scan_member; [|done|done|simpl in Hfuel; lia|apply after_closing; auto].
    change (skip_space (String "," (String " " T))) with (String "," (String " " T)).
    cbn -[scan_members skip_space]. change (skip_space (String " " T)) with (skip_space T).
    unfold T. change (dump_member kv' :: map dump_member l) with (map dump_member (kv' :: l)).
    rewrite skip_value_head by apply value_head_members.
    rewrite IH; [done|done|simpl in *; lia].
Qed.

(** *** Distinct keys build the same dictionary *)

Lemma dict_set_absent k v d : k ∉ d.*1 -> dict_set k v d = (d ++ [(k, v)])%list.
Proof.
  induction d as [|[k' v'] d IH]; intros Hk; [done|]. simpl in *.
  rewrite not_elem_of_cons in Hk. destruct Hk as [Hne Hk].
  destruct (String.eqb_spec k k'); [done|]. by rewrite IH.
Qed.

Lemma dict_of_pairs_id ps : NoDup (ps.*1) -> dict_of_pairs ps = ps.
Proof.
  unfold dict_of_pairs. change ps with ([] ++ ps)%list at 1 3. generalize (@nil (string * json)).
  induction ps as [|[k v] ps IH]; intros d Hnd; [by rewrite app_nil_r|]. simpl.
  rewrite dict_set_absent.
  - change ((k, v) :: ps) with ([(k, v)] ++ ps)%list. rewrite app_assoc. apply IH.
    by rewrite <- app_assoc.
  - rewrite fmap_app, fmap_cons, NoDup_app in Hnd. destruct Hnd as (_ & Hd & _).
    intros Hk. apply (Hd k Hk). left.
Qed.

(** *** The round trip *)

Lemma json_plain_ind' (P : json -> Prop) j :
  (forall j, json_plain j ->
     match j with
     | JArr l => Forall P l
     | JObj l => Forall (fun kv => P kv.2) l
     | _ => True
     end -> P j) ->
  json_plain j -> P j.
Proof.
  intros Hstep. induction j as [| | | | |l IH|l IH] using json_ind; intros Hp; apply Hstep; try done;
    inversion Hp as [| | | | |? Hl|? _ Hl]; subst.
  - clear - IH Hl. induction Hl; inversion IH; subst; constructor; auto.
  - clear - IH Hl. induction Hl as [|? ? [? ?]]; inversion IH; subst; constructor; auto.
Qed.

Lemma dumps_obj l : dumps (JObj l) = "{" +:+ join_str ", " (map dump_member l) +:+ "}".
Proof. cbn [json_dumps]. by rewrite map_map. Qed.

Lemma plain_reads_back j : json_plain j -> reads_back j.
Proof.
  apply json_plain_ind'. clear j. intros j Hp Hsub.
  destruct Hp as [|b|z|f Hf|s Hs|l Hl|l Hnd Hl].
  - by apply other_reads_back.
  - apply other_reads_back; [done|]. by destruct b.
  - apply other_reads_back; [done|]. intros rest Hr. unfold scan_other. cbn [json_dumps].
    by rewrite scan_literal_pretty, scan_number_pretty.
  - by apply other_reads_back.
  - split; [apply value_head_dump_str|]. intros [|fuel] rest Hfuel Hr; [simpl in Hfuel; lia|].
    cbn [json_dumps]. destruct (scan_dump_str s rest Hs) as (body & -> & Hb).
    cbn [scan_value]. change (Ascii.eqb dquote dquote) with true. cbn beta iota. by rewrite Hb.
  - split; [do 2 eexists; split; [done|]; done|].
    intros [|fuel] rest Hfuel Hr; [simpl in Hfuel; lia|]. cbn [json_dumps].
    destruct l as [|x l]; [done|]. rewrite !append_assoc, append_cons.
    change ("" +:+ ?s) with s. change ("]" +:+ rest) with (String "]" rest).
    set (T := join_str ", " (map dumps (x :: l)) +:+ String "]" rest).
    assert (HT : value_head T).
    { apply value_head_app, value_head_join. inversion Hsub as [|? ? [? _] ?]; subst. done. }
    cbn [scan_value]. cbn -[scan_items skip_space chop].
    assert (skip_space T = T) as -> by (rewrite <- (append_nil_r T); by apply skip_value_head).
    assert (chop "]" T = None) as ->.
    { destruct HT as (c & t & -> & _ & Hc). cbn. by destruct (Ascii.eqb_spec c "]"). }
    unfold T. rewrite scan_items_dumps; [done|done|simpl in *; lia].
  - split; [do 2 eexists; split; [done|]; done|].
    intros [|fuel] rest Hfuel Hr; [simpl in Hfuel; lia|]. rewrite dumps_obj.
    destruct l as [|kv l]; [done|]. rewrite !append_assoc, append_cons.
    change ("" +:+ ?s) with s. change ("}" +:+ rest) with (String "}" rest).
    set (T := join_str ", " (map dump_member (kv :: l)) +:+ String "}" rest).
    assert (exists b, T = String dquote b) as (b & HT).
    { unfold T. cbn [map]. destruct l; [cbn [map join_str]|cbn [map]; rewrite join_str_cons];
        by eexists. }
    cbn [scan_value]. cbn -[scan_members skip_space chop].
    assert (skip_space T = T /\ chop "}" T = None) as [-> ->] by by rewrite HT.
    unfold T. rewrite scan_members_dumps; [|clear - Hl Hsub|simpl in *; lia].
    + by rewrite dict_of_pairs_id.
    + apply Forall_and in Hl as [Hl _]. by apply Forall_and.
Qed.

Lemma fuel_join {A} (need : A -> nat) (text : A -> string) x l :
  Forall (fun a => need a <= String.length (text a))%nat (x :: l) ->
  (fold_right (fun a n => S (need a + n)) O (x :: l) <=
     S (String.length (join_str ", " (map text (x :: l)))))%nat.
Proof.
  revert x. induction l as [|y l IH]; intros x Hall; inversion Hall as [|? ? Hx Hl]; subst.
  - simpl. lia.
  - cbn [map fold_right]. rewrite join_str_cons, !length_append. specialize (IH y Hl).
    cbn [map fold_right] in IH. change (String.length ", ") with 2%nat. lia.
Qed.

(** The length of the text is fuel enough. *)
Lemma json_fuel_bound j : json_plain j -> (json_fuel j <= String.length (dumps j))%nat.
Proof.
  apply (json_plain_ind' (fun j => json_fuel j <= String.length (dumps j))%nat).
  clear j. intros j Hp Hsub. destruct (plain_reads_back j Hp) as [(c & t & Hh & _) _].
  assert (1 <= String.length (dumps j))%nat by (rewrite Hh; simpl; lia).
  destruct j as [| | | | |l|l]; try done.
  - cbn [json_fuel json_dumps]. destruct l as [|x l]; [simpl; lia|].
    pose proof (fuel_join json_fuel dumps x l Hsub) as Hf. rewrite !length_append.
    change (String.length "[") with 1%nat. change (String.length "]") with 1%nat. lia.
  - cbn [json_fuel]. rewrite dumps_obj. destruct l as [|x l]; [simpl; lia|].
    pose proof (fuel_join (fun kv => json_fuel kv.2) dump_member x l) as Hf. rewrite !length_append.
    change (String.length "{") with 1%nat. change (String.length "}") with 1%nat.
    enough (Forall (fun a => json_fuel a.2 <= String.length (dump_member a))%nat (x :: l))
      by (specialize (Hf ltac:(done)); lia).
    eapply Forall_impl; [exact Hsub|]. intros kv Hkv. cbn beta in Hkv |- *. unfold dump_member.
    rewrite !length_append. lia.
Qed.

(** [json.loads(json.dumps(j)) == j]. *)
Lemma loads_dumps j : json_plain j -> json_loads (dumps j) = Ok j.
Proof.
  intros Hp. destruct (plain_reads_back j Hp) as [Hh Hr]. unfold json_loads.
  assert (skip_space (dumps j) = dumps j) as ->.
  { rewrite <- (append_nil_r (dumps j)). by apply skip_value_head. }
  specialize (Hr (String.length (dumps j)) "" (json_fuel_bound j Hp) ltac:(by left)).
  rewrite append_nil_r in Hr. by rewrite Hr.
Qed.
End RoundTrip.
