(* ===== verification/Hashing.v ===== *)
(** * [hashlib.sha256] and [hmac]

    The standard library's SHA-256 (FIPS 180-4) and HMAC (RFC 2104) on byte
    strings, words as integers modulo 2^32, with the published test vectors. *)

From stdpp Require Import base tactics list strings numbers.
From S2P Require Import Prelude PyStr Json.
Open Scope string_scope.
#[local] Open Scope Z_scope.

Definition w32 (z : Z) : Z := z mod 2 ^ 32.
Definition rotr (n x : Z) : Z := Z.lor (Z.shiftr x n) (w32 (Z.shiftl x (32 - n))).

Definition ch (x y z : Z) : Z := Z.lxor (Z.land x y) (Z.land (2 ^ 32 - 1 - x) z).
Definition maj (x y z : Z) : Z := Z.lxor (Z.lxor (Z.land x y) (Z.land x z)) (Z.land y z).
Definition Sigma0 (x : Z) : Z := Z.lxor (Z.lxor (rotr 2 x) (rotr 13 x)) (rotr 22 x).
Definition Sigma1 (x : Z) : Z := Z.lxor (Z.lxor (rotr 6 x) (rotr 11 x)) (rotr 25 x).
Definition sigma0 (x : Z) : Z := Z.lxor (Z.lxor (rotr 7 x) (rotr 18 x)) (Z.shiftr x 3).
Definition sigma1 (x : Z) : Z := Z.lxor (Z.lxor (rotr 17 x) (rotr 19 x)) (Z.shiftr x 10).

(** FIPS 180-4 takes its constants from the fractional parts of roots of the
    first primes: 32 bits of the square roots of eight of them for the
    initial digest, of the cube roots of sixty-four for the rounds. *)
Definition is_prime (n : nat) : bool :=
  forallb (fun d => negb (Nat.eqb (n mod d) 0)) (seq 2 (n - 2)).

Definition first_primes (n : nat) : list Z :=
  map Z.of_nat (firstn n (List.filter is_prime (seq 2 310))).

(** The largest [r] below [2^bits] with [r^3 <= n], bit by bit. *)
Fixpoint cube_root (bits : nat) (n r : Z) : Z :=
  match bits with
  | O => r
  | S b =>
      let r' := r + 2 ^ Z.of_nat b in
      cube_root b n (if r' * r' * r' <=? n then r' else r)
  end.

Definition round_constants : list Z :=
  Eval vm_compute in map (fun p => w32 (cube_root 36 (p * 2 ^ 96) 0)) (first_primes 64).

Record digest_state := DS { da : Z; db : Z; dc : Z; dd : Z; de : Z; df : Z; dg : Z; dh : Z }.

Definition initial_digest : digest_state :=
  Eval vm_compute in
    match map (fun p => w32 (Z.sqrt (p * 2 ^ 64))) (first_primes 8) with
    | [a; b; c; d; e; f; g; h] => DS a b c d e f g h
    | _ => DS 0 0 0 0 0 0 0 0
    end.

Definition sha_round (s : digest_state) (k w : Z) : digest_state :=
  let t1 := w32 (dh s + Sigma1 (de s) + ch (de s) (df s) (dg s) + k + w) in
  let t2 := w32 (Sigma0 (da s) + maj (da s) (db s) (dc s)) in
  DS (w32 (t1 + t2)) (da s) (db s) (dc s) (w32 (dd s + t1)) (de s) (df s) (dg s).

(** The 64 rounds; [ws] holds the next sixteen words of the schedule. *)
Fixpoint sha_rounds (ks : list Z) (ws : list Z) (s : digest_state) : digest_state :=
  match ks, ws with
  | k :: ks', w :: ws' =>
      let next := w32 (sigma1 (nth 14 ws 0) + nth 9 ws 0 + sigma0 (nth 1 ws 0) + w) in
      sha_rounds ks' (ws' ++ [next])%list (sha_round s k w)
  | _, _ => s
  end.

Definition add_digest (s t : digest_state) : digest_state :=
  DS (w32 (da s + da t)) (w32 (db s + db t)) (w32 (dc s + dc t)) (w32 (dd s + dd t))
     (w32 (de s + de t)) (w32 (df s + df t)) (w32 (dg s + dg t)) (w32 (dh s + dh t)).

Definition compress (s : digest_state) (block : list Z) : digest_state :=
  add_digest s (sha_rounds round_constants block s).

Definition byte_Z (b : byte) : Z := Z.of_N (Byte.to_N b).
Definition Z_byte (z : Z) : byte := default Byte.x00 (Byte.of_N (Z.to_N (z mod 256))).

(** Big-endian words of four bytes. *)
Fixpoint words_of (b : bytes) : list Z :=
  match b with
  | x :: y :: z :: w :: b' =>
      (((byte_Z x * 256 + byte_Z y) * 256 + byte_Z z) * 256 + byte_Z w) :: words_of b'
  | _ => []
  end.

(** [n] big-endian bytes of [z]. *)
Fixpoint be_bytes (n : nat) (z : Z) (acc : bytes) : bytes :=
  match n with
  | O => acc
  | S n' => be_bytes n' (z / 256) (Z_byte z :: acc)
  end.

Definition sha_pad (msg : bytes) : bytes :=
  let len := Z.of_nat (length msg) in
  (msg ++ [Byte.x80] ++ replicate (Z.to_nat ((55 - len) mod 64)) Byte.x00
     ++ be_bytes 8 (len * 8) [])%list.

(** Sixteen words at a time. *)
Fixpoint sha_blocks (fuel : nat) (ws : list Z) (s : digest_state) : digest_state :=
  match fuel, ws with
  | S fuel', _ :: _ => sha_blocks fuel' (drop 16 ws) (compress s (take 16 ws))
  | _, _ => s
  end.

Definition sha256_state (msg : bytes) : digest_state :=
  let ws := words_of (sha_pad msg) in sha_blocks (length ws) ws initial_digest.

Definition digest_words (s : digest_state) : list Z :=
  [da s; db s; dc s; dd s; de s; df s; dg s; dh s].

(** [hashlib.sha256(msg).digest()] *)
Definition sha256 (msg : bytes) : bytes :=
  flat_map (fun w => be_bytes 4 w []) (digest_words (sha256_state msg)).

(** The text of a digest. *)
Definition hexdigest (ws : list Z) : string :=
  fold_right (fun w t => hex_fixed 8 w t) "" ws.

(** [hashlib.sha256(msg).hexdigest()] *)
Definition sha256_hex (msg : bytes) : string := hexdigest (digest_words (sha256_state msg)).

(** [hmac.new(key, msg, hashlib.sha256).hexdigest()] *)
Definition hmac_key (key : bytes) : bytes :=
  let key := if (64 <? Z.of_nat (length key)) then sha256 key else key in
  (key ++ replicate (64 - length key)%nat Byte.x00)%list.

Definition xor_bytes (m : Z) (b : bytes) : bytes := map (fun x => Z_byte (Z.lxor (byte_Z x) m)) b.

Definition hmac_sha256_hex (key msg : bytes) : string :=
  let k := hmac_key key in
  sha256_hex (xor_bytes 0x5c k ++ sha256 (xor_bytes 0x36 k ++ msg))%list.

(** ** Test vectors *)

Example sha256_abc : sha256_hex (encode "abc") =
  "ba7816bf8f01cfea414140de5dae2223b00361a396177a9cb410ff61f20015ad".
Proof. vm_compute. reflexivity. Qed.

Example sha256_two_blocks :
  sha256_hex (encode "abcdbcdecdefdefgefghfghighijhijkijkljklmklmnlmnomnopnopq") =
  "248d6a61d20638b8e5c026930c3e6039a33ce45964ff2167f6ecedd419db06c1".
Proof. vm_compute. reflexivity. Qed.

Example hmac_rfc4231_2 : hmac_sha256_hex (encode "Jefe") (encode "what do ya want for nothing?") =
  "5bdcc146bf60754e6a042426089575c75a003f089d2739839dec58b964ec3843".
Proof. vm_compute. reflexivity. Qed.

Example hmac_rfc4231_6 :
  hmac_sha256_hex (replicate 131 Byte.xaa)
    (encode "Test Using Larger Than Block-Size Key - Hash Key First") =
  "60e431591ee0b67f0d8a26aacbf5b77f8e0bc6213728c5140546040f0ee37f54".
Proof. vm_compute. reflexivity. Qed.

(** ** Lemmas *)

Lemma sha256_hex_length msg : String.length (sha256_hex msg) = 64%nat.
Proof. unfold sha256_hex, hexdigest, digest_words. cbn [fold_right]. by rewrite !hex_fixed_length. Qed.

(** A digest's text is hexadecimal digits only. *)
Lemma sha256_hex_digits msg : str_all is_hex (sha256_hex msg) = true.
Proof. unfold sha256_hex, hexdigest, digest_words. cbn [fold_right]. by repeat apply hex_fixed_all. Qed.

Lemma hmac_hex_digits key msg : str_all is_hex (hmac_sha256_hex key msg) = true.
Proof. apply sha256_hex_digits. Qed.
