(* ===== verification/Base64.v ===== *)
(** * [base64]

    [b64encode]/[b64decode] of the standard library with their URL-safe
    variants.  The decoder is [binascii.a2b_base64] in its default,
    non-strict mode: characters outside the alphabet are skipped and the
    decoder stops at a complete padding. *)

From Stdlib Require Import Ascii.
From stdpp Require Import base tactics list strings numbers.
From S2P Require Import Prelude PyStr Errors Json Hashing.
Open Scope string_scope.
#[local] Open Scope Z_scope.

(** The alphabet: [plus] and [slash] are the characters 62 and 63. *)
Definition b64_char (plus slash : ascii) (n : Z) : ascii :=
  if n <? 26 then ascii_of_N (Z.to_N (65 + n))
  else if n <? 52 then ascii_of_N (Z.to_N (71 + n))
  else if n <? 62 then ascii_of_N (Z.to_N (n - 4))
  else if n =? 62 then plus else slash.

Definition b64_value (plus slash c : ascii) : option Z :=
  let n := Z.of_N (N_of_ascii c) in
  if (65 <=? n) && (n <=? 90) then Some (n - 65)
  else if (97 <=? n) && (n <=? 122) then Some (n - 71)
  else if (48 <=? n) && (n <=? 57) then Some (n + 4)
  else if Ascii.eqb c plus then Some 62
  else if Ascii.eqb c slash then Some 63
  else None.

(** ** Encoding *)

Fixpoint b64_encode (plus slash : ascii) (b : bytes) : string :=
  let e := b64_char plus slash in
  match b with
  | [] => ""
  | [x] =>
      let x := byte_Z x in
      String (e (x / 4)) (String (e (x mod 4 * 16)) "==")
  | [x; y] =>
      let x := byte_Z x in let y := byte_Z y in
      String (e (x / 4)) (String (e (x mod 4 * 16 + y / 16)) (String (e (y mod 16 * 4)) "="))
  | x :: y :: z :: b' =>
      let x := byte_Z x in let y := byte_Z y in let z := byte_Z z in
      String (e (x / 4)) (String (e (x mod 4 * 16 + y / 16))
        (String (e (y mod 16 * 4 + z / 64)) (String (e (z mod 64)) (b64_encode plus slash b'))))
  end.

(** ** Decoding *)

Record b64_state := B64 { quad_pos : Z; leftchar : Z; pads : Z }.

Definition bad_length : exn :=
  raise_of BinasciiError
    "Invalid base64-encoded string: number of data characters cannot be 1 more than a multiple of 4".
Definition bad_padding : exn := raise_of BinasciiError "Incorrect padding".

Fixpoint a2b_base64 (plus slash : ascii) (s : b64_state) (text : string) : res bytes :=
  match text with
  | EmptyString =>
      if quad_pos s =? 0 then Ok []
      else if quad_pos s =? 1 then Exn bad_length
      else Exn bad_padding
  | String c text' =>
      if Ascii.eqb c "=" then
        if (2 <=? quad_pos s) then
          if 4 <=? quad_pos s + (pads s + 1) then Ok []
          else a2b_base64 plus slash (B64 (quad_pos s) (leftchar s) (pads s + 1)) text'
        else a2b_base64 plus slash s text'
      else
        match b64_value plus slash c with
        | None => a2b_base64 plus slash s text'
        | Some v =>
            if quad_pos s =? 0 then a2b_base64 plus slash (B64 1 v 0) text'
            else if quad_pos s =? 1 then
              res_map (cons (Z_byte (leftchar s * 4 + v / 16)))
                (a2b_base64 plus slash (B64 2 (v mod 16) 0) text')
            else if quad_pos s =? 2 then
              res_map (cons (Z_byte (leftchar s * 16 + v / 4)))
                (a2b_base64 plus slash (B64 3 (v mod 4) 0) text')
            else
              res_map (cons (Z_byte (leftchar s * 64 + v)))
                (a2b_base64 plus slash (B64 0 0 0) text')
        end
  end.

Definition b64_start : b64_state := B64 0 0 0.

(** [base64.b64decode(s)] of a [str]. *)
Definition b64decode (s : string) : res bytes :=
  if str_all (fun c => (N_of_ascii c <? 128)%N) s then a2b_base64 "+" "/" b64_start s
  else Exn (raise_of ValueError "string argument should contain only ASCII characters").

(** [base64.urlsafe_b64encode(b).decode()]. *)
Definition urlsafe_b64encode (b : bytes) : string := b64_encode "-" "_" b.

(** The translation [urlsafe_b64decode] applies before decoding: [-] and
    [_] become [+] and [/]; the originals stay valid. *)
Definition from_urlsafe (c : ascii) : ascii :=
  if Ascii.eqb c "-" then "+"%char else if Ascii.eqb c "_" then "/"%char else c.

Fixpoint str_map (f : ascii -> ascii) (s : string) : string :=
  match s with EmptyString => EmptyString | String c s' => String (f c) (str_map f s') end.

(** [base64.urlsafe_b64decode(s)] of [bytes], given as text. *)
Definition urlsafe_b64decode (s : string) : res bytes :=
  a2b_base64 "+" "/" b64_start (str_map from_urlsafe s).

Example b64_hello : urlsafe_b64encode (encode "a?~b>|") = "YT9-Yj58".
Proof. reflexivity. Qed.
Example b64_decode_dirty : urlsafe_b64decode "YT9-*Yj58Q" = Exn bad_length.
Proof. reflexivity. Qed.

(** ** Decoding what was encoded *)

Lemma b64_char_value plus slash n :
  0 <= n < 64 -> b64_value plus slash plus = Some 62 -> b64_value plus slash slash = Some 63 ->
  b64_value plus slash (b64_char plus slash n) = Some n.
Proof.
  intros Hn Hp Hs. unfold b64_char.
  destruct (Z.ltb_spec n 26) as [H1|H1]; [|destruct (Z.ltb_spec n 52) as [H2|H2];
    [|destruct (Z.ltb_spec n 62) as [H3|H3];
      [|destruct (Z.eqb_spec n 62) as [->|H4]; [done|replace n with 63 by lia; done]]]].
  all: unfold b64_value; rewrite N_ascii_embedding by lia; rewrite Z2N.id by lia.
  - destruct (Z.leb_spec 65 (65 + n)), (Z.leb_spec (65 + n) 90); try lia. cbn. f_equal. lia.
  - destruct (Z.leb_spec 65 (71 + n)), (Z.leb_spec (71 + n) 90); try lia. cbn.
    destruct (Z.leb_spec 97 (71 + n)), (Z.leb_spec (71 + n) 122); try lia. cbn. f_equal. lia.
  - destruct (Z.leb_spec 65 (n - 4)); [lia|]. cbn.
    destruct (Z.leb_spec 97 (n - 4)); [lia|]. cbn.
    destruct (Z.leb_spec 48 (n - 4)), (Z.leb_spec (n - 4) 57); try lia. cbn. f_equal. lia.
Qed.

Lemma byte_Z_bounds b : 0 <= byte_Z b < 256.
Proof. unfold byte_Z. pose proof (Byte.to_N_bounded b). lia. Qed.

Lemma Z_byte_Z b : Z_byte (byte_Z b) = b.
Proof.
  unfold Z_byte. rewrite Z.mod_small by apply byte_Z_bounds.
  unfold byte_Z. by rewrite N2Z.id, Byte.of_to_N.
Qed.

Lemma Z_byte_eq z b : z = byte_Z b -> Z_byte z = b.
Proof. intros ->. apply Z_byte_Z. Qed.

Lemma bytes_ind3 (P : bytes -> Prop) :
  P [] -> (forall x, P [x]) -> (forall x y, P [x; y]) ->
  (forall x y z b, P b -> P (x :: y :: z :: b)) -> forall b, P b.
Proof.
  intros H0 H1 H2 H3.
  fix IH 1. intros [|x [|y [|z b]]]; [apply H0|apply H1|apply H2|apply H3, IH].
Qed.

Section RoundTrip.
Context (plus slash : ascii).
Context (Hp : b64_value plus slash plus = Some 62) (Hs : b64_value plus slash slash = Some 63).
Context (Hp' : Ascii.eqb plus "=" = false) (Hs' : Ascii.eqb slash "=" = false).

(** One data character. *)
Lemma a2b_char s n text : 0 <= n < 64 ->
  a2b_base64 plus slash s (String (b64_char plus slash n) text) =
    if quad_pos s =? 0 then a2b_base64 plus slash (B64 1 n 0) text
    else if quad_pos s =? 1 then
      res_map (cons (Z_byte (leftchar s * 4 + n / 16))) (a2b_base64 plus slash (B64 2 (n mod 16) 0) text)
    else if quad_pos s =? 2 then
      res_map (cons (Z_byte (leftchar s * 16 + n / 4))) (a2b_base64 plus slash (B64 3 (n mod 4) 0) text)
    else res_map (cons (Z_byte (leftchar s * 64 + n))) (a2b_base64 plus slash (B64 0 0 0) text).
Proof.
  intros Hn. cbn [a2b_base64]. rewrite b64_char_value by done.
  replace (Ascii.eqb (b64_char plus slash n) "=") with false; [done|].
  symmetry. unfold b64_char. destruct (Z.ltb_spec n 26), (Z.ltb_spec n 52), (Z.ltb_spec n 62); try lia;
    try (apply Ascii.eqb_neq; intros E; apply (f_equal N_of_ascii) in E;
         rewrite N_ascii_embedding in E by lia; change (N_of_ascii "=") with 61%N in E; lia).
  by destruct (n =? 62).
Qed.

Lemma a2b_encode b : a2b_base64 plus slash b64_start (b64_encode plus slash b) = Ok b.
Proof.
  induction b as [|x|x y|x y z b IH] using bytes_ind3; [done| | |];
    cbn [b64_encode]; pose proof (byte_Z_bounds x).
  - rewrite !a2b_char by (Z.div_mod_to_equations; lia). cbn.
    rewrite (Z_byte_eq _ x); [done|]. Z.div_mod_to_equations. lia.
  - pose proof (byte_Z_bounds y).
    rewrite !a2b_char by (Z.div_mod_to_equations; lia). cbn.
    rewrite (Z_byte_eq _ x), (Z_byte_eq _ y); [done|Z.div_mod_to_equations; lia..].
  - pose proof (byte_Z_bounds y). pose proof (byte_Z_bounds z).
    rewrite !a2b_char by (Z.div_mod_to_equations; lia). cbn [quad_pos leftchar b64_start].
    cbn [Z.eqb Pos.eqb]. change (B64 0 0 0) with b64_start. rewrite IH. cbn.
    rewrite (Z_byte_eq _ x), (Z_byte_eq _ y), (Z_byte_eq _ z); [done|Z.div_mod_to_equations; lia..].
Qed.
End RoundTrip.

Lemma from_urlsafe_char n : 0 <= n < 64 -> from_urlsafe (b64_char "-" "_" n) = b64_char "+" "/" n.
Proof.
  intros Hn. unfold b64_char.
  assert (Hid : forall k, 0 <= k < 256 -> k <> 45 -> k <> 95 ->
    from_urlsafe (ascii_of_N (Z.to_N k)) = ascii_of_N (Z.to_N k)).
  { intros k Hk H1 H2. unfold from_urlsafe.
    destruct (Ascii.eqb_spec (ascii_of_N (Z.to_N k)) "-") as [E|_];
      [apply (f_equal N_of_ascii) in E; rewrite N_ascii_embedding in E by lia;
       change (N_of_ascii "-") with 45%N in E; lia|].
    destruct (Ascii.eqb_spec (ascii_of_N (Z.to_N k)) "_") as [E|_]; [|done].
    apply (f_equal N_of_ascii) in E; rewrite N_ascii_embedding in E by lia.
    change (N_of_ascii "_") with 95%N in E; lia. }
  destruct (Z.ltb_spec n 26); [apply Hid; lia|].
  destruct (Z.ltb_spec n 52); [apply Hid; lia|].
  destruct (Z.ltb_spec n 62); [apply Hid; lia|].
  by destruct (n =? 62).
Qed.

Lemma from_urlsafe_encode b : str_map from_urlsafe (b64_encode "-" "_" b) = b64_encode "+" "/" b.
Proof.
  induction b as [|x|x y|x y z b IH] using bytes_ind3; [done| | |];
    cbn [b64_encode str_map]; pose proof (byte_Z_bounds x).
  - by rewrite !from_urlsafe_char by (Z.div_mod_to_equations; lia).
  - pose proof (byte_Z_bounds y). by rewrite !from_urlsafe_char by (Z.div_mod_to_equations; lia).
  - pose proof (byte_Z_bounds y). pose proof (byte_Z_bounds z).
    by rewrite !from_urlsafe_char, IH by (Z.div_mod_to_equations; lia).
Qed.

(** [urlsafe_b64decode(urlsafe_b64encode(b)) == b]. *)
Lemma urlsafe_decode_encode b : urlsafe_b64decode (urlsafe_b64encode b) = Ok b.
Proof.
  unfold urlsafe_b64decode, urlsafe_b64encode. rewrite from_urlsafe_encode. by apply a2b_encode.
Qed.
