(* ===== verification/Uuid.v ===== *)
(** * [uuid.UUID]

    A UUID is a 128-bit integer.  [str(u)] is the canonical 8-4-4-4-12
    hexadecimal form, and [uuid.UUID(s)] accepts what Python's constructor
    accepts: [urn:] and [uuid:] markers, braces and hyphens are dropped, and
    the 32 characters left are read by [int(s, 16)]. *)

From Stdlib Require Import Ascii.
From stdpp Require Import base tactics list strings numbers countable.
From S2P Require Import Prelude PyStr Errors Json.
Open Scope string_scope.
#[local] Open Scope Z_scope.

Record uuid := Uuid { uuid_int : Z; uuid_ok : bool_decide (0 <= uuid_int < 2 ^ 128) }.

(** [uuid.UUID(int=z)]; [None] is [ValueError]. *)
Definition uuid_of_int (z : Z) : option uuid :=
  match decide (bool_decide (0 <= z < 2 ^ 128)) with
  | left H => Some (Uuid z H)
  | right _ => None
  end.

Lemma uuid_eq u v : uuid_int u = uuid_int v -> u = v.
Proof. destruct u, v; simpl; intros ->. f_equal. apply proof_irrel. Qed.

#[export] Instance uuid_eq_dec : EqDecision uuid.
Proof.
  intros u v. refine (cast_if (decide (uuid_int u = uuid_int v))).
  - by apply uuid_eq.
  - congruence.
Defined.

Lemma uuid_of_int_int u : uuid_of_int (uuid_int u) = Some u.
Proof.
  unfold uuid_of_int. destruct (decide _) as [H|H].
  - f_equal. by apply uuid_eq.
  - by destruct (H (uuid_ok u)).
Qed.

#[export] Instance uuid_countable : Countable uuid :=
  inj_countable uuid_int uuid_of_int uuid_of_int_int.

#[export] Instance uuid_inhabited : Inhabited uuid := populate (Uuid 0 I).

Definition take_str (n : nat) (s : string) : string := String.substring 0 n s.
Definition drop_str (n : nat) (s : string) : string :=
  String.substring n (String.length s - n) s.

(** Insert the hyphens of the canonical form in 32 hexadecimal digits. *)
Fixpoint hyphenate (i : nat) (s : string) : string :=
  match s with
  | EmptyString => EmptyString
  | String c s' =>
      let rest := String c (hyphenate (S i) s') in
      if (i =? 8)%nat || (i =? 12)%nat || (i =? 16)%nat || (i =? 20)%nat
      then String "-" rest else rest
  end.

(** [str(u)]. *)
Definition uuid_str (u : uuid) : string := hyphenate 0 (hex_fixed 32 (uuid_int u) "").

Definition is_brace (c : ascii) : bool := Ascii.eqb c "{" || Ascii.eqb c "}".

Fixpoint lstrip_braces (s : string) : string :=
  match s with
  | EmptyString => EmptyString
  | String c s' => if is_brace c then lstrip_braces s' else s
  end.

Fixpoint rstrip_braces (s : string) : string :=
  match s with
  | EmptyString => EmptyString
  | String c s' =>
      match rstrip_braces s' with
      | EmptyString => if is_brace c then EmptyString else String c EmptyString
      | t => String c t
      end
  end.

(** [uuid.UUID(s)] on a string; [None] is [ValueError]. *)
Definition uuid_of_str (s : string) : option uuid :=
  let hex := replace "uuid:" "" (replace "urn:" "" s) in
  let hex := replace "-" "" (rstrip_braces (lstrip_braces hex)) in
  if py_len hex =? 32 then int_of_str 16 hex ≫= uuid_of_int else None.

(** [uuid.UUID(v)] on any JSON value: [None] gives [TypeError], a value
    without [str.replace] gives [AttributeError]. *)
Definition uuid_of_json (j : json) : res uuid :=
  match j with
  | JStr s => or_raise (uuid_of_str s)
                (raise_of ValueError "badly formed hexadecimal UUID string")
  | JNull => Exn (raise_of TypeError
      "one of the hex, bytes, bytes_le, fields, or int arguments must be given")
  | _ => Exn (raise_of AttributeError "object has no attribute 'replace'")
  end.

(** ** The canonical form reads back *)

(** Reading [n] digits continues with the rest of the text. *)
Lemma hex_fixed_parse n z a g rest :
  (0 < n)%nat -> 0 <= z < 16 ^ Z.of_nat n ->
  parse_digits 16 a g (hex_fixed n z rest) = parse_digits 16 (a * 16 ^ Z.of_nat n + z) false rest.
Proof.
  revert z a g rest. induction n as [|n IH]; intros z a g rest Hn Hz; [lia|].
  destruct (hex_digit_spec (z mod 16)) as (Hv & _ & Hu); [apply Z.mod_pos_bound; lia|].
  pose proof (Z.mod_pos_bound z 16 ltac:(lia)) as Hmod.
  pose proof (Z.div_mod z 16 ltac:(lia)) as Hdm.
  assert (Hstep : forall a g, parse_digits 16 a g (String (hex_digit (z mod 16)) rest)
            = parse_digits 16 (a * 16 + z mod 16) false rest).
  { intros a' g'. cbn [parse_digits]. rewrite Hu, Hv.
    by destruct (Z.ltb_spec (z mod 16) 16); [|lia]. }
  simpl hex_fixed. destruct n as [|n].
  - simpl hex_fixed. rewrite Hstep. f_equal. simpl in Hz. change (16 ^ Z.of_nat 1) with 16.
    rewrite Z.mod_small by lia. done.
  - rewrite Nat2Z.inj_succ, Z.pow_succ_r in Hz by lia.
    rewrite IH, Hstep; [|lia|split; [apply Z.div_pos; lia|apply Z.div_lt_upper_bound; lia]].
    f_equal. rewrite (Nat2Z.inj_succ (S n)), (Z.pow_succ_r 16 (Z.of_nat (S n))) by lia.
    rewrite Hdm at 3. ring.
Qed.

Lemma hex_not c : is_hex c = true ->
  is_brace c = false /\ is_space c = false /\ is_continuation c = false /\
  Ascii.eqb c "-" = false /\ Ascii.eqb c "+" = false /\ Ascii.eqb c "x" = false /\
  Ascii.eqb c "X" = false /\ Ascii.eqb c "u" = false.
Proof. destruct c as [[] [] [] [] [] [] [] []]; vm_compute; intros; try discriminate; done. Qed.

Definition is_hex_or_dash (c : ascii) : bool := is_hex c || Ascii.eqb c "-".

Lemma hyphenate_all i s : str_all is_hex s = true -> str_all is_hex_or_dash (hyphenate i s) = true.
Proof.
  revert i. induction s as [|c s IH]; intros i; simpl; [done|].
  intros [Hc Hs]%andb_true_iff. unfold is_hex_or_dash.
  case_match; simpl; rewrite Hc; simpl; by apply IH.
Qed.

Lemma replace_dash_cons c s :
  replace "-" "" (String c s) =
  if Ascii.eqb "-" c then replace "-" "" s else String c (replace "-" "" s).
Proof. unfold replace. cbn [replace_go startswith]. by rewrite andb_true_r. Qed.

Lemma hyphenate_strip i s : str_all is_hex s = true -> replace "-" "" (hyphenate i s) = s.
Proof.
  revert i. induction s as [|c s IH]; intros i; [done|]. cbn [str_all hyphenate].
  intros [Hc Hs]%andb_true_iff. destruct (hex_not c Hc) as (_ & _ & _ & Hd & _).
  rewrite Ascii.eqb_sym in Hd.
  case_match; rewrite ?replace_dash_cons, ?Ascii.eqb_refl, Hd, IH; done.
Qed.

Lemma strip_braces_id s :
  str_all is_hex_or_dash s = true -> rstrip_braces (lstrip_braces s) = s.
Proof.
  assert (Hb : forall c, is_hex_or_dash c = true -> is_brace c = false).
  { intros c [H|H%Ascii.eqb_eq]%orb_true_iff; [by apply hex_not|by subst]. }
  intros Hs. assert (lstrip_braces s = s) as ->.
  { destruct s as [|c s]; simpl in *; [done|]. apply andb_true_iff in Hs as [Hc _]. by rewrite Hb. }
  induction s as [|c s IH]; simpl in *; [done|]. apply andb_true_iff in Hs as [Hc Hs].
  rewrite (IH Hs), (Hb c Hc). by destruct s.
Qed.

Lemma py_len_hex s : str_all is_hex s = true -> py_len s = Z.of_nat (String.length s).
Proof.
  induction s as [|c s IH]; simpl; [done|]. intros [Hc Hs]%andb_true_iff.
  destruct (hex_not c Hc) as (_ & _ & -> & _). rewrite IH by done. lia.
Qed.

Lemma int_of_str_hex s :
  str_all is_hex s = true -> int_of_str 16 s = parse_digits 16 0 true s.
Proof.
  intros Hs. unfold int_of_str. rewrite strip_id.
  2: { eapply str_all_impl, Hs. intros c Hc. by destruct (hex_not c Hc) as (_ & -> & _). }
  destruct s as [|c s]; [done|]. simpl in Hs. apply andb_true_iff in Hs as [Hc Hs].
  destruct (hex_not c Hc) as (_ & _ & _ & -> & -> & _).
  destruct s as [|d s]; simpl; [done|]. simpl in Hs. apply andb_true_iff in Hs as [Hd _].
  destruct (hex_not d Hd) as (_ & _ & _ & _ & _ & -> & -> & _). by rewrite andb_false_r.
Qed.

(** [uuid.UUID(str(u)) == u]. *)
Lemma uuid_of_str_str u : uuid_of_str (uuid_str u) = Some u.
Proof.
  unfold uuid_of_str, uuid_str. set (h := hex_fixed 32 (uuid_int u) "").
  assert (Hh : str_all is_hex h = true) by by apply hex_fixed_all.
  pose proof (hyphenate_all 0 h Hh) as Hd.
  assert (Hu : has_char "u" (hyphenate 0 h) = false).
  { eapply has_char_all; [exact Hd|done]. }
  rewrite (replace_absent "urn:") by by apply (contains_char_absent "u").
  rewrite (replace_absent "uuid:") by by apply (contains_char_absent "u").
  rewrite strip_braces_id, hyphenate_strip, py_len_hex by done.
  unfold h at 1. rewrite hex_fixed_length. simpl Z.of_nat. rewrite Z.eqb_refl.
  rewrite int_of_str_hex by done. unfold h. rewrite hex_fixed_parse; [|lia|].
  - simpl parse_digits. cbn [mbind option_bind]. rewrite Z.mul_0_l, Z.add_0_l. apply uuid_of_int_int.
  - pose proof (uuid_ok u) as Hok. apply bool_decide_unpack in Hok.
    change (16 ^ Z.of_nat 32) with (2 ^ 128). lia.
Qed.

#[export] Instance uuid_str_inj : Inj (=) (=) uuid_str.
Proof.
  intros u v H. apply (f_equal uuid_of_str) in H. rewrite !uuid_of_str_str in H. congruence.
Qed.

Lemma hyphenate_length_32 s : String.length s = 32%nat -> String.length (hyphenate 0 s) = 36%nat.
Proof. do 32 (destruct s as [|? s]; [done|]). by destruct s. Qed.

(** Every canonical form has 36 characters. *)
Lemma uuid_str_length u : String.length (uuid_str u) = 36%nat.
Proof. apply hyphenate_length_32. by rewrite hex_fixed_length. Qed.

Lemma uuid_str_no_char u c :
  is_hex_or_dash c = false -> has_char c (uuid_str u) = false.
Proof. apply has_char_all, hyphenate_all, hex_fixed_all. done. Qed.
