(* ===== verification/Models.v ===== *)
(** * The database schema ([src/credbroker/db/models.py])

    Rows of the four tables, timestamps with their time zone, the tables
    themselves, the constraints of the schema (primary keys, the unique index
    on [grant_token_hash], the foreign keys), which [db_wf] states and
    [db_check] decides, and the queries the services share. *)

From stdpp Require Import base tactics list gmap strings numbers.
From S2P Require Import Prelude PyStr Errors Config Uuid.
Open Scope string_scope.

(** ** Timestamps *)

(** A [datetime]: wall-clock microseconds and the UTC offset, [None] for a
    naive value. *)
Record datetime := DateTime { dt_micros : Z; dt_tz : option Z }.

#[export] Instance datetime_eq_dec : EqDecision datetime.
Proof. solve_decision. Defined.

(** An aware UTC time from microseconds since the epoch. *)
Definition utc (t : Z) : datetime := DateTime t (Some 0%Z).

(** The instant an aware value denotes. *)
Definition instant (d : datetime) : Z := (dt_micros d - default 0 (dt_tz d))%Z.

(** [ensure_aware]: a naive value read from the database is UTC. *)
Definition aware (d : datetime) : datetime :=
  match dt_tz d with
  | None => DateTime (dt_micros d) (Some 0%Z)
  | Some _ => d
  end.

Definition ensure_aware (d : option datetime) : option datetime := aware <$> d.

(** [a <= b]: comparing a naive with an aware value raises [TypeError]. *)
Definition dt_le (a b : datetime) : res bool :=
  match dt_tz a, dt_tz b with
  | Some _, Some _ | None, None => Ok (instant a <=? instant b)%Z
  | _, _ => Exn (raise_of TypeError "can't compare offset-naive and offset-aware datetimes")
  end.

(** [d + timedelta(microseconds=us)]. *)
Definition dt_add (d : datetime) (us : Z) : datetime := DateTime (dt_micros d + us) (dt_tz d).

(** The range of [datetime], years 1 to 9999. *)
Definition dt_min : Z := (-62135596800000000)%Z.
Definition dt_max : Z := 253402300799999999%Z.

(** [d + timedelta(seconds=s)] for a [s] the code did not choose: beyond
    the range of [timedelta] or of [datetime] it raises. *)
Definition dt_plus_seconds (d : datetime) (s : Z) : res datetime :=
  let t := (dt_micros d + seconds s)%Z in
  if (dt_min <=? t)%Z && (t <=? dt_max)%Z then Ok (DateTime t (dt_tz d))
  else Exn (raise_of OverflowErr "date value out of range").

(** [int(d.timestamp())] of an aware value. *)
Definition dt_epoch_seconds (d : datetime) : Z := Z.quot (instant d) 1000000.

(** ** Rows *)

Record ConnectedAccount := {
  acc_id : uuid;
  acc_user_id : uuid;
  acc_provider : string;
  acc_encrypted_access_token : bytes;
  acc_encrypted_refresh_token : option bytes;
  acc_scopes_granted : list string;
  acc_expires_at : option datetime;
  acc_created_at : datetime
}.

Record AgentIdentity := {
  agent_id : uuid;
  agent_user_id : uuid;
  agent_name : string;
  agent_allowed_scopes : list string;
  agent_created_at : datetime
}.

Record Grant := {
  grant_id : uuid;
  grant_agent_id : uuid;
  grant_connected_account_id : uuid;
  grant_tool_name : string;
  grant_scope : string;
  grant_token_hash : string;
  grant_issued_at : datetime;
  grant_expires_at : datetime;
  grant_revoked_at : option datetime
}.

Record ToolCallAuditLog := {
  log_id : uuid;
  log_grant_id : uuid;
  log_tool_name : string;
  log_arguments_hash : string;
  log_status : string;
  log_latency_ms : Z;
  log_called_at : datetime
}.

#[export] Instance account_eq_dec : EqDecision ConnectedAccount.
Proof. solve_decision. Defined.
#[export] Instance agent_eq_dec : EqDecision AgentIdentity.
Proof. solve_decision. Defined.
#[export] Instance grant_eq_dec : EqDecision Grant.
Proof. solve_decision. Defined.
#[export] Instance audit_eq_dec : EqDecision ToolCallAuditLog.
Proof. solve_decision. Defined.

(** [grant.revoked_at = t]. *)
Definition set_revoked_at (t : option datetime) (g : Grant) : Grant := {|
  grant_id := grant_id g;
  grant_agent_id := grant_agent_id g;
  grant_connected_account_id := grant_connected_account_id g;
  grant_tool_name := grant_tool_name g;
  grant_scope := grant_scope g;
  grant_token_hash := grant_token_hash g;
  grant_issued_at := grant_issued_at g;
  grant_expires_at := grant_expires_at g;
  grant_revoked_at := t
|}.

(** The columns a credential refresh assigns, one by one. *)
Definition set_access_token (b : bytes) (a : ConnectedAccount) : ConnectedAccount := {|
  acc_id := acc_id a; acc_user_id := acc_user_id a; acc_provider := acc_provider a;
  acc_encrypted_access_token := b;
  acc_encrypted_refresh_token := acc_encrypted_refresh_token a;
  acc_scopes_granted := acc_scopes_granted a; acc_expires_at := acc_expires_at a;
  acc_created_at := acc_created_at a
|}.

Definition set_refresh_token (b : bytes) (a : ConnectedAccount) : ConnectedAccount := {|
  acc_id := acc_id a; acc_user_id := acc_user_id a; acc_provider := acc_provider a;
  acc_encrypted_access_token := acc_encrypted_access_token a;
  acc_encrypted_refresh_token := Some b;
  acc_scopes_granted := acc_scopes_granted a; acc_expires_at := acc_expires_at a;
  acc_created_at := acc_created_at a
|}.

Definition set_expires_at (t : option datetime) (a : ConnectedAccount) : ConnectedAccount := {|
  acc_id := acc_id a; acc_user_id := acc_user_id a; acc_provider := acc_provider a;
  acc_encrypted_access_token := acc_encrypted_access_token a;
  acc_encrypted_refresh_token := acc_encrypted_refresh_token a;
  acc_scopes_granted := acc_scopes_granted a; acc_expires_at := t;
  acc_created_at := acc_created_at a
|}.

(** ** Tables *)

(** The rows of each table, oldest first. *)
Record database := Database {
  db_accounts : list ConnectedAccount;
  db_agents : list AgentIdentity;
  db_grants : list Grant;
  db_audit : list ToolCallAuditLog
}.

Definition empty_db : database := Database [] [] [] [].

(** The constraints the schema declares: primary keys, the unique index on
    [grant_token_hash], the foreign keys. *)
Record db_wf (db : database) : Prop := {
  wf_account_key : NoDup (acc_id <$> db_accounts db);
  wf_agent_key : NoDup (agent_id <$> db_agents db);
  wf_grant_key : NoDup (grant_id <$> db_grants db);
  wf_audit_key : NoDup (log_id <$> db_audit db);
  wf_token_unique : NoDup (grant_token_hash <$> db_grants db);
  wf_grant_agent : Forall (fun g => grant_agent_id g ∈ agent_id <$> db_agents db) (db_grants db);
  wf_grant_account :
    Forall (fun g => grant_connected_account_id g ∈ acc_id <$> db_accounts db) (db_grants db);
  wf_audit_grant : Forall (fun r => log_grant_id r ∈ grant_id <$> db_grants db) (db_audit db)
}.

(** The database decides them, and refuses a commit that breaks one. *)
Definition db_check (db : database) : bool :=
  bool_decide (NoDup (acc_id <$> db_accounts db))
  && bool_decide (NoDup (agent_id <$> db_agents db))
  && bool_decide (NoDup (grant_id <$> db_grants db))
  && bool_decide (NoDup (log_id <$> db_audit db))
  && bool_decide (NoDup (grant_token_hash <$> db_grants db))
  && forallb (fun g => bool_decide (grant_agent_id g ∈ agent_id <$> db_agents db)) (db_grants db)
  && forallb (fun g => bool_decide (grant_connected_account_id g ∈ acc_id <$> db_accounts db))
       (db_grants db)
  && forallb (fun r => bool_decide (log_grant_id r ∈ grant_id <$> db_grants db)) (db_audit db).

(** *** Queries *)

(** [select(AgentIdentity).where(AgentIdentity.name == name)]. *)
Definition agents_named (name : string) (agents : list AgentIdentity) : list AgentIdentity :=
  List.filter (fun a => String.eqb (agent_name a) name) agents.

(** The accounts of one user at one provider. *)
Definition accounts_of (user : uuid) (provider : string) (accounts : list ConnectedAccount)
  : list ConnectedAccount :=
  List.filter (fun a => bool_decide (acc_user_id a = user) && String.eqb (acc_provider a) provider)
    accounts.

(** [select(Grant).where(Grant.grant_token_hash == token_hash)]. *)
Definition grants_hashed (token_hash : string) (grants : list Grant) : list Grant :=
  List.filter (fun g => String.eqb (grant_token_hash g) token_hash) grants.

(** ** Lemmas *)

Lemma forallb_Forall {A} (P : A -> Prop) `{!forall x, Decision (P x)} l :
  forallb (fun x => bool_decide (P x)) l = true <-> Forall P l.
Proof.
  rewrite List.forallb_forall, List.Forall_forall. split; intros Hl x Hx.
  - by apply (bool_decide_eq_true_1 _), Hl.
  - by apply bool_decide_eq_true_2, Hl.
Qed.

Lemma db_check_wf db : db_check db = true <-> db_wf db.
Proof.
  unfold db_check. rewrite !andb_true_iff, !bool_decide_eq_true, !forallb_Forall. split.
  - intros [[[[[[[? ?] ?] ?] ?] ?] ?] ?]. by split.
  - intros []. by repeat split.
Qed.

Lemma aware_spec d : is_Some (dt_tz (aware d)) /\ instant (aware d) = instant d.
Proof. destruct d as [us [tz|]]; simpl; eauto. Qed.

Lemma dt_le_utc a t : is_Some (dt_tz a) -> dt_le a (utc t) = Ok (instant a <=? t)%Z.
Proof. intros [z Hz]. unfold dt_le, utc, instant. simpl. rewrite Hz. f_equal. f_equal. simpl. lia. Qed.

Lemma empty_db_wf : db_wf empty_db.
Proof. split; constructor. Qed.

(** A unique column selects at most one row. *)
Lemma no_row {A B} `{EqDecision B} (f : A -> B) b l :
  b ∉ (f <$> l) -> List.filter (fun x => bool_decide (f x = b)) l = [].
Proof.
  induction l as [|x l IH]; [done|]. rewrite fmap_cons, not_elem_of_cons. intros [Hne Hl].
  cbn. rewrite bool_decide_eq_false_2 by congruence. by apply IH.
Qed.

Lemma lone_row {A B} `{EqDecision B} (f : A -> B) b l x :
  NoDup (f <$> l) -> x ∈ l -> f x = b -> List.filter (fun x => bool_decide (f x = b)) l = [x].
Proof.
  intros Hnd Hx <-. induction Hx as [x l|x y l Hx IH]; apply list.NoDup_cons in Hnd as [Hni Hnd]; cbn.
  - rewrite bool_decide_eq_true_2 by done. f_equal. by apply no_row.
  - rewrite bool_decide_eq_false_2; [by apply IH|]. intros E. destruct Hni. rewrite E.
    by apply list_elem_of_fmap_2.
Qed.

Lemma grants_hashed_unique h l g :
  NoDup (grant_token_hash <$> l) -> g ∈ l -> grant_token_hash g = h -> grants_hashed h l = [g].
Proof.
  intros Hnd Hg Hh. rewrite <- (lone_row grant_token_hash h l g Hnd Hg Hh). unfold grants_hashed.
  apply List.filter_ext. intros x. destruct (String.eqb_spec (grant_token_hash x) h) as [E|E].
  - by rewrite bool_decide_eq_true_2.
  - by rewrite bool_decide_eq_false_2.
Qed.
