(* ===== verification/Schema.v ===== *)
(** * The schema and its migration ([src/alembic/], [src/credbroker/db/models.py])

    The tables as the models declare them, the operations of the initial
    migration, and what PostgreSQL makes of such operations: a table or an
    index needs a free name, a foreign key a target, an index columns, and a
    table that others refer to cannot be dropped. *)

From stdpp Require Import base tactics list gmap strings.
From S2P Require Import Prelude PyStr Config.
Open Scope string_scope.

(** ** Schemas *)

Inductive sql_type := SqlUuid | SqlText | SqlTextArray | SqlBytes | SqlTimestamptz | SqlInteger.

#[export] Instance sql_type_eq_dec : EqDecision sql_type.
Proof. solve_decision. Defined.

(** A column; [col_foreign] is the column of another table it refers to. *)
Record column := Column {
  col_name : string;
  col_type : sql_type;
  col_nullable : bool;
  col_primary : bool;
  col_foreign : option (string * string)
}.

#[export] Instance column_eq_dec : EqDecision column.
Proof. solve_decision. Defined.

Record index := Index { ix_table : string; ix_columns : list string; ix_unique : bool }.

#[export] Instance index_eq_dec : EqDecision index.
Proof. solve_decision. Defined.

(** Tables and indexes by name. *)
Record schema := Schema {
  sc_tables : gmap string (list column);
  sc_indexes : gmap string index
}.

Definition empty_schema : schema := Schema ∅ ∅.

(** ** Operations *)

Inductive ddl :=
| CreateTable (name : string) (columns : list column)
| CreateIndex (name : string) (ix : index)
| DropTable (name : string).

(** Tables and indexes share their names. *)
Definition unused (s : schema) (name : string) : Prop :=
  sc_tables s !! name = None /\ sc_indexes s !! name = None.

(** The column of another table is there, and is its key. *)
Definition target_ok (tables : gmap string (list column)) (target : string * string) : Prop :=
  match tables !! target.1 with
  | Some columns => Exists (fun c => col_name c = target.2 /\ col_primary c = true) columns
  | None => False
  end.

Definition foreign_ok (tables : gmap string (list column)) (c : column) : Prop :=
  match col_foreign c with Some target => target_ok tables target | None => True end.

Definition index_ok (tables : gmap string (list column)) (ix : index) : Prop :=
  match tables !! ix_table ix with
  | Some columns => Forall (fun n => n ∈ map col_name columns) (ix_columns ix)
  | None => False
  end.

Definition refers_to (name : string) (c : column) : Prop :=
  match col_foreign c with Some target => target.1 = name | None => False end.

#[export] Instance target_ok_dec tables target : Decision (target_ok tables target).
Proof. unfold target_ok. destruct (tables !! target.1); apply _. Defined.
#[export] Instance foreign_ok_dec tables c : Decision (foreign_ok tables c).
Proof. unfold foreign_ok. destruct (col_foreign c); apply _. Defined.
#[export] Instance index_ok_dec tables ix : Decision (index_ok tables ix).
Proof. unfold index_ok. destruct (tables !! ix_table ix); apply _. Defined.
#[export] Instance refers_to_dec name c : Decision (refers_to name c).
Proof. unfold refers_to. destruct (col_foreign c); apply _. Defined.
#[export] Instance unused_dec s name : Decision (unused s name).
Proof. unfold unused. apply _. Defined.

(** One operation; [None] is an error of the database. *)
Definition apply_ddl (op : ddl) (s : schema) : option schema :=
  match op with
  | CreateTable name columns =>
      if decide (unused s name /\ Forall (foreign_ok (sc_tables s)) columns)
      then Some (Schema (<[name := columns]> (sc_tables s)) (sc_indexes s))
      else None
  | CreateIndex name ix =>
      if decide (unused s name /\ index_ok (sc_tables s) ix)
      then Some (Schema (sc_tables s) (<[name := ix]> (sc_indexes s)))
      else None
  | DropTable name =>
      if decide (is_Some (sc_tables s !! name) /\
                 map_Forall (fun _ columns => Forall (fun c => ~ refers_to name c) columns)
                   (delete name (sc_tables s)))
      then Some (Schema (delete name (sc_tables s))
                   (filter (fun kv => ix_table kv.2 <> name) (sc_indexes s)))
      else None
  end.

Fixpoint apply_all (ops : list ddl) (s : schema) : option schema :=
  match ops with
  | [] => Some s
  | op :: ops' => match apply_ddl op s with Some s' => apply_all ops' s' | None => None end
  end.

(** ** The migration ([versions/0001_initial_schema.py]) *)

Definition primary_key (name : string) : column := Column name SqlUuid false true None.
Definition required (name : string) (t : sql_type) : column := Column name t false false None.
Definition optional (name : string) (t : sql_type) : column := Column name t true false None.
Definition reference (name table : string) : column :=
  Column name SqlUuid false false (Some (table, "id")).

Definition upgrade : list ddl := [
  CreateTable "connected_accounts"
    [primary_key "id"; required "user_id" SqlUuid; required "provider" SqlText;
     required "encrypted_access_token" SqlBytes; optional "encrypted_refresh_token" SqlBytes;
     required "scopes_granted" SqlTextArray; optional "expires_at" SqlTimestamptz;
     required "created_at" SqlTimestamptz];
  CreateIndex "ix_connected_accounts_user_id" (Index "connected_accounts" ["user_id"] false);
  CreateTable "agents"
    [primary_key "id"; required "user_id" SqlUuid; required "name" SqlText;
     required "allowed_scopes" SqlTextArray; required "created_at" SqlTimestamptz];
  CreateIndex "ix_agents_user_id" (Index "agents" ["user_id"] false);
  CreateTable "grants"
    [primary_key "id"; reference "agent_id" "agents"; reference "connected_account_id" "connected_accounts";
     required "tool_name" SqlText; required "scope" SqlText; required "grant_token_hash" SqlText;
     required "issued_at" SqlTimestamptz; required "expires_at" SqlTimestamptz;
     optional "revoked_at" SqlTimestamptz];
  CreateIndex "ix_grants_agent_id" (Index "grants" ["agent_id"] false);
  CreateIndex "ix_grants_grant_token_hash" (Index "grants" ["grant_token_hash"] true);
  CreateTable "tool_call_audit_log"
    [primary_key "id"; reference "grant_id" "grants"; required "tool_name" SqlText;
     required "arguments_hash" SqlText; required "status" SqlText; required "latency_ms" SqlInteger;
     required "called_at" SqlTimestamptz];
  CreateIndex "ix_tool_call_audit_log_grant_id" (Index "tool_call_audit_log" ["grant_id"] false);
  CreateIndex "ix_tool_call_audit_log_called_at" (Index "tool_call_audit_log" ["called_at"] false)
].

Definition downgrade : list ddl := [
  DropTable "tool_call_audit_log"; DropTable "grants"; DropTable "agents"; DropTable "connected_accounts"
].

(** ** What the models declare ([db/models.py]) *)

(** [mapped_column]: the column, [index=True] and [unique=True]. *)
Record mapped := Mapped { mp_column : column; mp_index : bool; mp_unique : bool }.

Definition plain (c : column) : mapped := Mapped c false false.
Definition indexed (c : column) : mapped := Mapped c true false.

Definition metadata : list (string * list mapped) := [
  ("connected_accounts",
   [plain (primary_key "id"); indexed (required "user_id" SqlUuid); plain (required "provider" SqlText);
    plain (required "encrypted_access_token" SqlBytes);
    plain (optional "encrypted_refresh_token" SqlBytes);
    plain (required "scopes_granted" SqlTextArray); plain (optional "expires_at" SqlTimestamptz);
    plain (required "created_at" SqlTimestamptz)]);
  ("agents",
   [plain (primary_key "id"); indexed (required "user_id" SqlUuid); plain (required "name" SqlText);
    plain (required "allowed_scopes" SqlTextArray); plain (required "created_at" SqlTimestamptz)]);
  ("grants",
   [plain (primary_key "id"); indexed (reference "agent_id" "agents");
    plain (reference "connected_account_id" "connected_accounts"); plain (required "tool_name" SqlText);
    plain (required "scope" SqlText); Mapped (required "grant_token_hash" SqlText) true true;
    plain (required "issued_at" SqlTimestamptz); plain (required "expires_at" SqlTimestamptz);
    plain (optional "revoked_at" SqlTimestamptz)]);
  ("tool_call_audit_log",
   [plain (primary_key "id"); indexed (reference "grant_id" "grants"); plain (required "tool_name" SqlText);
    plain (required "arguments_hash" SqlText); plain (required "status" SqlText);
    plain (required "latency_ms" SqlInteger); indexed (required "called_at" SqlTimestamptz)])
].

(** The index of a column, under the name SQLAlchemy gives it. *)
Definition mapped_index (table : string) (m : mapped) : list (string * index) :=
  if mp_index m
  then [("ix_" +:+ table +:+ "_" +:+ col_name (mp_column m),
         Index table [col_name (mp_column m)] (mp_unique m))]
  else [].

Definition declared : schema := Schema
  (list_to_map (map (fun t => (t.1, map mp_column t.2)) metadata))
  (list_to_map (flat_map (fun t => flat_map (mapped_index t.1) t.2) metadata)).

(** ** Lemmas *)

(** The names an operation creates. *)
Definition creates (op : ddl) : list string :=
  match op with CreateTable n _ | CreateIndex n _ => [n] | DropTable _ => [] end.

Definition only_creates (op : ddl) : Prop :=
  match op with DropTable _ => False | _ => True end.

(** The first schema next to the second. *)
Definition beside (s1 s2 : schema) : schema :=
  Schema (sc_tables s1 ∪ sc_tables s2) (sc_indexes s1 ∪ sc_indexes s2).

Lemma target_beside t1 t2 target : target_ok t1 target -> target_ok (t1 ∪ t2) target.
Proof.
  unfold target_ok. destruct (t1 !! target.1) eqn:E; [|done]. by rewrite (lookup_union_Some_l _ _ _ _ E).
Qed.

Lemma foreign_beside t1 t2 c : foreign_ok t1 c -> foreign_ok (t1 ∪ t2) c.
Proof. unfold foreign_ok. destruct (col_foreign c); [apply target_beside|done]. Qed.

Lemma index_beside t1 t2 ix : index_ok t1 ix -> index_ok (t1 ∪ t2) ix.
Proof.
  unfold index_ok. destruct (t1 !! ix_table ix) eqn:E; [|done]. by rewrite (lookup_union_Some_l _ _ _ _ E).
Qed.

Lemma unused_beside s1 s2 name : unused s1 name -> unused s2 name -> unused (beside s1 s2) name.
Proof. intros [H1 H2] [H3 H4]. split; cbn; by apply lookup_union_None. Qed.

(** What succeeds on its own succeeds next to anything with other names. *)
Lemma apply_beside op s1 s1' s2 :
  only_creates op -> Forall (unused s2) (creates op) ->
  apply_ddl op s1 = Some s1' -> apply_ddl op (beside s1 s2) = Some (beside s1' s2).
Proof.
  intros Ho Hn. destruct op as [name columns|name ix|name]; [| |done];
    apply Forall_inv in Hn; cbn [apply_ddl]; destruct (decide _) as [[Hu Hok]|]; try done; intros [= <-];
    (rewrite decide_True; [unfold beside; cbn; by rewrite insert_union_l|]);
    (split; [by apply unused_beside|]).
  - eapply Forall_impl; [exact Hok|]. intros c. apply foreign_beside.
  - by apply index_beside.
Qed.

Lemma apply_all_beside ops s1 s1' s2 :
  Forall only_creates ops -> Forall (unused s2) (flat_map creates ops) ->
  apply_all ops s1 = Some s1' -> apply_all ops (beside s1 s2) = Some (beside s1' s2).
Proof.
  revert s1. induction ops as [|op ops IH]; intros s1 Ho Hn; cbn [apply_all flat_map] in *.
  - by intros [= <-].
  - apply Forall_cons in Ho as [Ho Hos]. apply Forall_app in Hn as [Hn Hns].
    destruct (apply_ddl op s1) as [s|] eqn:E; [|done].
    rewrite (apply_beside _ _ _ _ Ho Hn E). by apply IH.
Qed.

Lemma apply_all_app ops ops' s :
  apply_all (ops ++ ops')%list s =
  match apply_all ops s with Some s' => apply_all ops' s' | None => None end.
Proof.
  revert s. induction ops as [|op ops IH]; intros s; [done|]. cbn [app apply_all].
  destruct (apply_ddl op s); [apply IH|done].
Qed.

(** *** A table and its indexes, created and dropped *)

(** Indexes and references point to tables that are there. *)
Record schema_wf (s : schema) : Prop := {
  wf_index : forall n ix, sc_indexes s !! n = Some ix -> is_Some (sc_tables s !! ix_table ix);
  wf_refers : forall n columns c name, sc_tables s !! n = Some columns -> c ∈ columns ->
    refers_to name c -> is_Some (sc_tables s !! name)
}.

Record block := Block {
  bk_table : string;
  bk_columns : list column;
  bk_indexes : list (string * index)
}.

Definition create_block (b : block) : list ddl :=
  CreateTable (bk_table b) (bk_columns b) :: map (fun kv => CreateIndex kv.1 kv.2) (bk_indexes b).

Definition block_ok (b : block) : Prop := Forall (fun kv => ix_table kv.2 = bk_table b) (bk_indexes b).

(** Creating indexes of a table keeps everything else. *)
Lemma create_indexes name l s s' :
  Forall (fun kv : string * index => ix_table kv.2 = name) l ->
  apply_all (map (fun kv => CreateIndex kv.1 kv.2) l) s = Some s' ->
  sc_tables s' = sc_tables s /\
  filter (fun kv => ix_table kv.2 <> name) (sc_indexes s') =
    filter (fun kv => ix_table kv.2 <> name) (sc_indexes s) /\
  (forall n ix, sc_indexes s' !! n = Some ix -> ix_table ix = name \/ sc_indexes s !! n = Some ix).
Proof.
  intros Hl. revert s. induction Hl as [|[n ix] l Hix _ IH]; intros s; cbn [map apply_all].
  { intros [= <-]. split; [done|]. split; [done|]. by right. }
  cbn [apply_ddl]. destruct (decide _) as [[[Hn1 Hn2] Hok]|]; [|done].
  intros E. apply IH in E as (Ht & Hf & Hi). cbn in Ht, Hf, Hi, Hix. split; [done|]. split.
  - rewrite Hf. apply map_filter_insert_not'; [by intros ?|]. cbn in Hn2 |- *. by rewrite Hn2.
  - intros n' ix' E'. destruct (Hi n' ix' E') as [|E'']; [by left|].
    apply lookup_insert_Some in E'' as [[_ <-]|[_ ?]]; [by left|by right].
Qed.

Lemma block_inverse b s s' :
  block_ok b -> schema_wf s -> apply_all (create_block b) s = Some s' ->
  schema_wf s' /\ apply_ddl (DropTable (bk_table b)) s' = Some s.
Proof.
  intros Hb [Hwi Hwr]. unfold create_block. cbn [apply_all apply_ddl].
  destruct (decide _) as [[[Hn _] Hok]|]; [|done]. intros E.
  apply (create_indexes _ _ _ _ Hb) in E as (Ht & Hf & Hi). cbn in Ht, Hf, Hi. split.
  - split.
    + intros n ix E. rewrite Ht. destruct (Hi n ix E) as [->|E'].
      * rewrite lookup_insert_eq. by eexists.
      * apply Hwi in E'. by apply lookup_insert_is_Some'; right.
    + intros n columns c name. rewrite Ht. intros E Hc Href. apply lookup_insert_is_Some'. right.
      apply lookup_insert_Some in E as [[_ <-]|[_ E]]; [|by eapply Hwr].
      rewrite Forall_forall in Hok. specialize (Hok c Hc). unfold foreign_ok, refers_to, target_ok in *.
      destruct (col_foreign c) as [target|]; [|done]. subst. destruct (sc_tables s !! target.1); [by eexists|done].
  - cbn [apply_ddl]. rewrite decide_True.
    + rewrite Ht, Hf, delete_insert_id by done. rewrite map_filter_id; [by destruct s|].
      intros n ix E Et. cbn in Et. apply Hwi in E. rewrite Et, Hn in E. by destruct E.
    + rewrite Ht, lookup_insert_eq, delete_insert_id by done. split; [by eexists|].
      intros n columns E. apply Forall_forall. intros c Hc Href.
      destruct (Hwr n columns c _ E Hc Href) as [? E']. by rewrite Hn in E'.
Qed.

Lemma blocks_inverse bs s s' :
  Forall block_ok bs -> schema_wf s -> apply_all (flat_map create_block bs) s = Some s' ->
  apply_all (map (fun b => DropTable (bk_table b)) (reverse bs)) s' = Some s.
Proof.
  intros Hbs. revert s. induction Hbs as [|b bs Hb _ IH]; intros s Hwf; cbn [flat_map].
  { by intros [= <-]. }
  rewrite apply_all_app. destruct (apply_all (create_block b) s) as [s1|] eqn:E1; [|done].
  intros E2. destruct (block_inverse b s s1 Hb Hwf E1) as [Hwf1 Hdrop].
  rewrite reverse_cons, map_app, apply_all_app, (IH s1 Hwf1 E2). cbn [map apply_all]. by rewrite Hdrop.
Qed.

(** The migration, table by table. *)
Definition blocks : list block :=
  match upgrade with
  | [CreateTable t1 c1; CreateIndex n1 i1; CreateTable t2 c2; CreateIndex n2 i2;
     CreateTable t3 c3; CreateIndex n3 i3; CreateIndex n4 i4;
     CreateTable t4 c4; CreateIndex n5 i5; CreateIndex n6 i6] =>
      [Block t1 c1 [(n1, i1)]; Block t2 c2 [(n2, i2)]; Block t3 c3 [(n3, i3); (n4, i4)];
       Block t4 c4 [(n5, i5); (n6, i6)]]
  | _ => []
  end.

Lemma upgrade_blocks :
  upgrade = flat_map create_block blocks /\
  downgrade = map (fun b => DropTable (bk_table b)) (reverse blocks) /\ Forall block_ok blocks.
Proof. split; [reflexivity|]. split; [reflexivity|]. by repeat constructor. Qed.

Lemma upgrade_empty : apply_all upgrade empty_schema = Some declared.
Proof. vm_compute. reflexivity. Qed.

(** ** Properties *)

(** C39. The migration and the models agree.  In a database with tables of
    its own under other names, [upgrade] succeeds and adds exactly the
    tables, columns, keys, references and indexes that the models declare;
    [downgrade] then succeeds and leaves the database as it was. *)
Theorem migration_matches_models (s : schema) (Hwf : schema_wf s)
    (Hapart : Forall (unused s) (flat_map creates upgrade)) :
  apply_all upgrade s = Some (beside declared s) /\
  apply_all downgrade (beside declared s) = Some s.
Proof.
  assert (Hup : apply_all upgrade s = Some (beside declared s)).
  { assert (E : beside empty_schema s = s).
    { unfold beside. cbn. rewrite !(left_id_L ∅ (∪)). by destruct s. }
    rewrite <- E at 1. apply apply_all_beside; [by repeat constructor|done|exact upgrade_empty]. }
  split; [done|]. destruct upgrade_blocks as (Eu & Ed & Hok). rewrite Ed.
  apply (blocks_inverse blocks s); [done|done|]. by rewrite <- Eu.
Qed.

(** A database in which Alembic keeps its own version table. *)
Definition versioned : schema :=
  Schema {[ "alembic_version" := [Column "version_num" SqlText false true None] ]} ∅.

Lemma migration_matches_models_witness :
  apply_all upgrade versioned = Some (beside declared versioned) /\
  apply_all downgrade (beside declared versioned) = Some versioned.
Proof.
  apply (migration_matches_models versioned).
  - split.
    + intros n ix E. cbn in E. by apply lookup_empty_Some in E.
    + intros n columns c name E Hc Href. cbn in E. apply lookup_singleton_Some in E as [_ <-].
      apply list_elem_of_singleton in Hc as ->. done.
  - apply (bool_decide_unpack _). vm_compute. exact I.
Defined.
