(* ===== verification/Migrations.v ===== *)
(** * Running the migrations ([src/alembic/env.py])

    The script Alembic runs for every command, as the order of its calls into
    Alembic and SQLAlchemy: which database they reach, that migrations run
    only inside a configured transaction, and what is ended when one of the
    calls raises. *)

From stdpp Require Import base tactics list gmap strings.
From S2P Require Import Prelude PyStr Errors Config Schema.
Open Scope string_scope.

(** ** The calls *)

(** The models' tables. *)
Abbreviation tables := (list (string * list mapped)).

Inductive env_call :=
| FileConfig (path : string)
| ConfigureOffline (url : string) (target_metadata : tables) (literal_binds : bool)
    (dialect_opts : list (string * string))
| EngineFromConfig (section : gmap string string)
| Connect
| ConfigureOnline (target_metadata : tables)
| BeginTransaction
| RunMigrations
| EndTransaction (failed : bool)
| Close (failed : bool)
| Dispose.

Section Script.
Context (answer : env_call -> res unit).

(** The calls made, each with its answer, and how it all ended. *)
Abbreviation made := (list (env_call * res unit)).
Abbreviation run := (made * res unit)%type.

Definition call (c : env_call) : run := ([(c, answer c)], answer c).

Definition and_then (a b : run) : run :=
  match a with
  | (calls, Ok _) => let '(calls', r) := b in ((calls ++ calls')%list, r)
  | (calls, Exn e) => (calls, Exn e)
  end.

(** [with enter(): body]: what was entered is left, however the body ended;
    an exception on leaving replaces the body's. *)
Definition within (enter : env_call) (leave : bool -> env_call) (body : run) : run :=
  and_then (call enter)
    (let '(calls, r) := body in
     let c := leave (negb (is_ok r)) in
     ((calls ++ [(c, answer c)])%list, match answer c with Ok _ => r | Exn e => Exn e end)).

Definition or_fail {A} (r : res A) (f : A -> run) : run :=
  match r with Ok a => f a | Exn e => ([], Exn e) end.

(** ** The script *)

(** [get_url]: the settings are read only when the option is not set. *)
Definition get_url (main_option : option string) (get_settings : res Settings) : res string :=
  match main_option with
  | Some url => if String.eqb url "" then res_map database_url get_settings else Ok url
  | None => res_map database_url get_settings
  end.

Section Env.
Context (main_option : option string) (get_settings : res Settings).

Definition run_migrations_offline : run :=
  or_fail (get_url main_option get_settings) (fun url =>
    and_then (call (ConfigureOffline url metadata true [("paramstyle", "named")]))
      (within BeginTransaction EndTransaction (call RunMigrations))).

Definition do_run_migrations : run :=
  and_then (call (ConfigureOnline metadata)) (within BeginTransaction EndTransaction (call RunMigrations)).

(** [section] is the ini file's, if it has one. *)
Definition run_async_migrations (section : option (gmap string string)) : run :=
  let section := default ∅ section in
  or_fail (get_url main_option get_settings) (fun url =>
    and_then (call (EngineFromConfig (<["sqlalchemy.url" := url]> section)))
      (and_then (within Connect Close do_run_migrations) (call Dispose))).

(** The module. *)
Definition env (config_file_name : option string) (section : option (gmap string string)) (offline : bool)
  : run :=
  and_then (match config_file_name with Some path => call (FileConfig path) | None => ([], Ok tt) end)
    (if offline then run_migrations_offline else run_async_migrations section).
End Env.
End Script.

(** ** What is asked of a run *)

(** Leaving a context, which happens whether or not something raised. *)
Definition leaves (c : env_call) : bool :=
  match c with EndTransaction _ | Close _ => true | _ => false end.

(** The contexts entered and not left, the inner one first. *)
Fixpoint left_open (open : list env_call) (calls : list (env_call * res unit)) : list env_call :=
  match calls with
  | [] => open
  | (c, a) :: calls' =>
      left_open
        (match c with
         | BeginTransaction | Connect => if is_ok a then c :: open else open
         | EndTransaction _ => match open with BeginTransaction :: rest => rest | _ => c :: open end
         | Close _ => match open with Connect :: rest => rest | _ => c :: open end
         | _ => open
         end) calls'
  end.

(** After a call has raised, contexts are left and nothing else is done;
    they are told whether their body raised. *)
Fixpoint fail_stop (raised : bool) (calls : list (env_call * res unit)) : bool :=
  match calls with
  | [] => true
  | (c, a) :: calls' =>
      match c with
      | EndTransaction failed | Close failed => Bool.eqb failed raised
      | _ => negb raised
      end && fail_stop (raised || negb (is_ok a)) calls'
  end.

(** Everything the script has to do, in order. *)
Definition steps (main_option : option string) (get_settings : res Settings) (config_file_name : option string)
    (section : option (gmap string string)) (offline : bool) : list env_call :=
  (option_list (FileConfig <$> config_file_name) ++
   match get_url main_option get_settings with
   | Exn _ => []
   | Ok url =>
       if offline then
         [ConfigureOffline url metadata true [("paramstyle", "named")]; BeginTransaction; RunMigrations]
       else
         [EngineFromConfig (<["sqlalchemy.url" := url]> (default ∅ section)); Connect;
          ConfigureOnline metadata; BeginTransaction; RunMigrations; Dispose]
   end)%list.

(** ** What the script does *)

(** The call the run is waiting for, one way and the other. *)
Ltac next_call answer t :=
  lazymatch t with
  | match ?x with _ => _ end => next_call answer x
  | answer ?c => destruct (answer c) as [[]|]
  end.

Ltac each_call answer :=
  repeat (cbn; lazymatch goal with |- ?t => next_call answer t end);
  repeat match goal with |- context [answer ?c] => destruct (answer c) as [[]|] end.

(** Every run of the script, whatever raises: what was entered is left, the
    inner context first, and told whether its body raised; apart from that
    nothing is done after a call that raised; what is done is the beginning
    of the one sequence, in its order (so the migrations only ever run in a
    transaction on a context configured with the models' tables, online over
    a connection to the URL of [get_url]); and when nothing raises, it is all
    of it. *)
Theorem env_runs (answer : env_call -> res unit) (main_option : option string) (get_settings : res Settings)
    (config_file_name : option string) (section : option (gmap string string)) (offline : bool) :
  let '(calls, r) := env answer main_option get_settings config_file_name section offline in
  let all := steps main_option get_settings config_file_name section offline in
  let done := List.filter (fun c => negb (leaves c)) calls.*1 in
  left_open [] calls = [] /\ fail_stop false calls = true /\
  done = take (length done) all /\
  (r = Ok tt -> done = all /\ forallb (fun x => is_ok x.2) calls = true).
Proof.
  unfold env, steps, run_migrations_offline, run_async_migrations, do_run_migrations, within, call, and_then.
  generalize metadata. intros target. unfold or_fail.
  destruct (get_url main_option get_settings) as [url|e];
    [generalize (<["sqlalchemy.url" := url]> (default ∅ section)); intros options|];
    destruct config_file_name as [path|], offline; each_call answer;
    by repeat split.
Qed.
