(* ===== verification/DateText.v ===== *)
(** * [datetime.isoformat]

    The text of a [datetime], as the console writes it: the proleptic
    Gregorian date, the time, microseconds when there are any, and the UTC
    offset of an aware value. *)

From stdpp Require Import base tactics list strings numbers pretty.
From S2P Require Import Prelude PyStr Errors Config Models.
Open Scope string_scope.
#[local] Open Scope Z_scope.

(** [n] decimal digits of [z], zero-padded. *)
Fixpoint decimal_fixed (n : nat) (z : Z) (acc : string) : string :=
  match n with
  | O => acc
  | S n' => decimal_fixed n' (z / 10) (pretty (z mod 10) +:+ acc)
  end.

(** Days since 1970-01-01 of a date, and the date of a day.  A year of the
    computation starts on the first of March; an era is 400 years, 146097
    days. *)
Definition days_of_civil (y m d : Z) : Z :=
  let y' := if m <=? 2 then y - 1 else y in
  let era := y' / 400 in
  let yoe := y' mod 400 in
  let doy := (153 * (if m <=? 2 then m + 9 else m - 3) + 2) / 5 + d - 1 in
  era * 146097 + (yoe * 365 + yoe / 4 - yoe / 100 + doy) - 719468.

Definition civil_of_days (days : Z) : Z * Z * Z :=
  let z := days + 719468 in
  let era := z / 146097 in
  let doe := z mod 146097 in
  let yoe := (doe - doe / 1460 + doe / 36524 - doe / 146096) / 365 in
  let doy := doe - (365 * yoe + yoe / 4 - yoe / 100) in
  let mp := (5 * doy + 2) / 153 in
  let d := doy - (153 * mp + 2) / 5 + 1 in
  let m := if mp <? 10 then mp + 3 else mp - 9 in
  (yoe + era * 400 + (if m <=? 2 then 1 else 0), m, d).

Definition micros_per_day : Z := 86400000000.

(** [HH:MM:SS] of microseconds since midnight, with [.ffffff] when they are
    not whole seconds. *)
Definition clock_text (us : Z) : string :=
  let s := us / 1000000 in
  decimal_fixed 2 (s / 3600) "" +:+ ":" +:+ decimal_fixed 2 (s / 60 mod 60) "" +:+ ":"
    +:+ decimal_fixed 2 (s mod 60) ""
    +:+ (if us mod 1000000 =? 0 then "" else "." +:+ decimal_fixed 6 (us mod 1000000) "").

(** [+HH:MM], with seconds when the offset has them. *)
Definition offset_text (tz : Z) : string :=
  let us := Z.abs tz in
  let s := us / 1000000 in
  (if tz <? 0 then "-" else "+")
    +:+ decimal_fixed 2 (s / 3600) "" +:+ ":" +:+ decimal_fixed 2 (s / 60 mod 60) ""
    +:+ (if us mod 60000000 =? 0 then ""
         else ":" +:+ decimal_fixed 2 (s mod 60) ""
           +:+ (if us mod 1000000 =? 0 then "" else "." +:+ decimal_fixed 6 (us mod 1000000) "")).

Definition isoformat (d : datetime) : string :=
  let '(y, m, day) := civil_of_days (dt_micros d / micros_per_day) in
  decimal_fixed 4 y "" +:+ "-" +:+ decimal_fixed 2 m "" +:+ "-" +:+ decimal_fixed 2 day "" +:+ "T"
    +:+ clock_text (dt_micros d mod micros_per_day)
    +:+ match dt_tz d with Some tz => offset_text tz | None => "" end.

Example iso_epoch : isoformat (utc 0) = "1970-01-01T00:00:00+00:00".
Proof. reflexivity. Qed.

Example iso_leap_day : isoformat (utc 1709217296123456) = "2024-02-29T14:34:56.123456+00:00".
Proof. reflexivity. Qed.

Example iso_naive_west : isoformat (DateTime 1700000000000000 (Some (seconds (-19800)))) =
  "2023-11-14T22:13:20-05:30".
Proof. reflexivity. Qed.

Example iso_first_day : isoformat (DateTime dt_min None) = "0001-01-01T00:00:00".
Proof. reflexivity. Qed.

Example iso_last_microsecond : isoformat (DateTime dt_max None) = "9999-12-31T23:59:59.999999".
Proof. reflexivity. Qed.
