(* ===== verification/Breaker.v ===== *)
(** * The circuit breaker ([src/credbroker/reliability/retry.py])

    [CircuitBreaker] as a record with one function per method.  A method
    that reads the clock takes the reading as an argument; [record_failure]
    takes two, for [_sync] and for [_trip].  The class docstring's contract
    is the abstract machine [abs_breaker] of the second half, which the
    methods refine. *)

From stdpp Require Import base tactics list strings numbers.
From S2P Require Import Prelude Errors.
Open Scope string_scope.
#[local] Open Scope Z_scope.

Inductive cb_state := Closed | Open_ | HalfOpen.

#[export] Instance cb_state_eq_dec : EqDecision cb_state.
Proof. solve_decision. Defined.

(** ["closed"], ["open"], ["half_open"]. *)
Definition state_name (s : cb_state) : string :=
  match s with Closed => "closed" | Open_ => "open" | HalfOpen => "half_open" end.

Record CircuitBreaker := {
  cb_failure_threshold : Z;
  cb_reset : Z;
  cb_st : cb_state;
  cb_failures : Z;
  cb_opened_at : option Z;
  cb_probe_in_flight : bool
}.

#[export] Instance circuit_eq_dec : EqDecision CircuitBreaker.
Proof. solve_decision. Defined.

(** [CircuitBreaker(failure_threshold, reset_seconds)]. *)
Definition new_breaker (failure_threshold reset_seconds : Z) : res CircuitBreaker :=
  if failure_threshold <? 1
  then Exn (raise_of ValueError "failure_threshold must be >= 1")
  else if reset_seconds <? 0
  then Exn (raise_of ValueError "reset_seconds must be >= 0")
  else Ok {| cb_failure_threshold := failure_threshold; cb_reset := reset_seconds;
             cb_st := Closed; cb_failures := 0; cb_opened_at := None;
             cb_probe_in_flight := false |}.

(** [_sync]: open becomes half-open once the reset window has elapsed. *)
Definition sync (now : Z) (b : CircuitBreaker) : CircuitBreaker :=
  match cb_st b, cb_opened_at b with
  | Open_, Some t =>
      if cb_reset b <=? now - t
      then {| cb_failure_threshold := cb_failure_threshold b; cb_reset := cb_reset b;
              cb_st := HalfOpen; cb_failures := cb_failures b;
              cb_opened_at := cb_opened_at b; cb_probe_in_flight := false |}
      else b
  | _, _ => b
  end.

(** The [state] property. *)
Definition state (now : Z) (b : CircuitBreaker) : string * CircuitBreaker :=
  let b := sync now b in (state_name (cb_st b), b).

(** [allow]. *)
Definition allow (now : Z) (b : CircuitBreaker) : bool * CircuitBreaker :=
  let b := sync now b in
  match cb_st b with
  | Open_ => (false, b)
  | HalfOpen =>
      if cb_probe_in_flight b then (false, b)
      else (true, {| cb_failure_threshold := cb_failure_threshold b; cb_reset := cb_reset b;
                     cb_st := cb_st b; cb_failures := cb_failures b;
                     cb_opened_at := cb_opened_at b; cb_probe_in_flight := true |})
  | Closed => (true, b)
  end.

(** [record_success]. *)
Definition record_success (b : CircuitBreaker) : CircuitBreaker :=
  {| cb_failure_threshold := cb_failure_threshold b; cb_reset := cb_reset b;
     cb_st := Closed; cb_failures := 0; cb_opened_at := None; cb_probe_in_flight := false |}.

(** [_trip]. *)
Definition trip (now : Z) (b : CircuitBreaker) : CircuitBreaker :=
  {| cb_failure_threshold := cb_failure_threshold b; cb_reset := cb_reset b;
     cb_st := Open_; cb_failures := cb_failures b; cb_opened_at := Some now;
     cb_probe_in_flight := false |}.

(** [record_failure]. *)
Definition record_failure (now_sync now_trip : Z) (b : CircuitBreaker) : CircuitBreaker :=
  let b := sync now_sync b in
  match cb_st b with
  | Closed =>
      let b := {| cb_failure_threshold := cb_failure_threshold b; cb_reset := cb_reset b;
                  cb_st := cb_st b; cb_failures := cb_failures b + 1;
                  cb_opened_at := cb_opened_at b;
                  cb_probe_in_flight := cb_probe_in_flight b |} in
      if cb_failure_threshold b <=? cb_failures b then trip now_trip b else b
  | _ => trip now_trip b
  end.

(** A call on the breaker by one of its clients. *)
Inductive cb_op :=
| OpAllow (now : Z)
| OpSuccess
| OpFailure (now_sync now_trip : Z).

(** What the calls of a list answer ([None] for a recording), and the
    breaker they leave. *)
Definition cb_step (op : cb_op) (b : CircuitBreaker) : option bool * CircuitBreaker :=
  match op with
  | OpAllow now => let '(r, b') := allow now b in (Some r, b')
  | OpSuccess => (None, record_success b)
  | OpFailure t t' => (None, record_failure t t' b)
  end.

Fixpoint cb_run (ops : list cb_op) (b : CircuitBreaker) : list (option bool) * CircuitBreaker :=
  match ops with
  | [] => ([], b)
  | op :: ops' =>
      let '(r, b1) := cb_step op b in
      let '(rs, b2) := cb_run ops' b1 in (r :: rs, b2)
  end.

(** ** The contract of the class docstring *)

Inductive abs_breaker :=
| AClosed (failures : Z)               (* consecutive failures so far *)
| AOpen (until : Z)                    (* calls are refused before this time *)
| AProbing.                            (* the probe is out, calls are refused *)

(** The abstract machine: closed counts an unbroken run of failures, open
    refuses until its deadline, then one probe goes out. *)
Definition abs_allow (now : Z) (a : abs_breaker) : bool * abs_breaker :=
  match a with
  | AClosed n => (true, AClosed n)
  | AOpen until => if until <=? now then (true, AProbing) else (false, AOpen until)
  | AProbing => (false, AProbing)
  end.

Definition abs_failure (threshold reset now_trip : Z) (a : abs_breaker) : abs_breaker :=
  match a with
  | AClosed n => if threshold <=? n + 1 then AOpen (now_trip + reset) else AClosed (n + 1)
  | _ => AOpen (now_trip + reset)
  end.

Definition abs_step (threshold reset : Z) (op : cb_op) (a : abs_breaker)
  : option bool * abs_breaker :=
  match op with
  | OpAllow now => let '(r, a') := abs_allow now a in (Some r, a')
  | OpSuccess => (None, AClosed 0)
  | OpFailure _ t => (None, abs_failure threshold reset t a)
  end.

Fixpoint abs_run (threshold reset : Z) (ops : list cb_op) (a : abs_breaker)
  : list (option bool) * abs_breaker :=
  match ops with
  | [] => ([], a)
  | op :: ops' =>
      let '(r, a1) := abs_step threshold reset op a in
      let '(rs, a2) := abs_run threshold reset ops' a1 in (r :: rs, a2)
  end.

(** ** Well-formedness and abstraction *)

Record cb_wf (b : CircuitBreaker) : Prop := {
  cb_wf_threshold : 1 <= cb_failure_threshold b;
  cb_wf_reset : 0 <= cb_reset b;
  cb_wf_closed : cb_st b = Closed ->
    0 <= cb_failures b < cb_failure_threshold b /\ cb_opened_at b = None /\
    cb_probe_in_flight b = false;
  cb_wf_open : cb_st b <> Closed -> is_Some (cb_opened_at b);
  cb_wf_probe : cb_probe_in_flight b = true -> cb_st b = HalfOpen
}.

(** A half-open breaker whose probe slot is free refuses nobody whose clock
    is past the deadline: it is still abstractly open. *)
Definition abs_of (b : CircuitBreaker) : abs_breaker :=
  match cb_st b with
  | Closed => AClosed (cb_failures b)
  | Open_ => AOpen (default 0 (cb_opened_at b) + cb_reset b)
  | HalfOpen => if cb_probe_in_flight b then AProbing
                else AOpen (default 0 (cb_opened_at b) + cb_reset b)
  end.

(** The clock readings of a run never go back. *)
Definition op_times (op : cb_op) : list Z :=
  match op with OpAllow t => [t] | OpSuccess => [] | OpFailure t t' => [t; t'] end.

Fixpoint clock_from (t0 : Z) (ops : list cb_op) : Prop :=
  match ops with
  | [] => True
  | op :: ops' =>
      Forall (Z.le t0) (op_times op) /\ clock_from (foldr Z.max t0 (op_times op)) ops'
  end.

(** A half-open breaker was seen half-open at [t0] or before. *)
Definition elapsed_by (t0 : Z) (b : CircuitBreaker) : Prop :=
  cb_st b = HalfOpen -> exists t, cb_opened_at b = Some t /\ cb_reset b <= t0 - t.

(** ** Lemmas *)

Ltac cb_cases b :=
  let th := fresh "th" in let rs := fresh "rs" in let st := fresh "st" in
  let f := fresh "f" in let oa := fresh "oa" in let p := fresh "p" in
  destruct b as [th rs st f oa p];
  unfold record_failure, allow, sync, trip, record_success, abs_of in *;
  simpl in *;
  destruct st, oa, p; simpl in *;
  repeat (case_match; simpl in *; simplify_eq);
  rewrite ?Z.leb_le, ?Z.leb_gt, ?Z.leb_nle in *.

Lemma new_breaker_wf th rs b : new_breaker th rs = Ok b -> cb_wf b.
Proof.
  unfold new_breaker. destruct (Z.ltb_spec th 1), (Z.ltb_spec rs 0); intros; simplify_eq.
  split; simpl; intros; try done; repeat split; lia.
Qed.

Lemma sync_wf now b : cb_wf b -> cb_wf (sync now b).
Proof. intros [H1 H2 H3 H4 H5]. cb_cases b; split; simpl; try done; eauto. Qed.

Lemma allow_wf now b : cb_wf b -> cb_wf (allow now b).2.
Proof.
  intros Hwf. apply (sync_wf now) in Hwf as [H1 H2 H3 H4 H5]. unfold allow.
  destruct (sync now b) as [th rs [] f oa []]; simpl in *; split; simpl; eauto; done.
Qed.

Lemma record_success_wf b : cb_wf b -> cb_wf (record_success b).
Proof. intros [H1 H2 H3 H4 H5]. split; simpl; intros; try done; repeat split; lia. Qed.

Lemma record_failure_wf t t' b : cb_wf b -> cb_wf (record_failure t t' b).
Proof.
  intros Hwf. apply (sync_wf t) in Hwf as [H1 H2 H3 H4 H5]. unfold record_failure.
  destruct (sync t b) as [th rs st f oa p]; simpl in *.
  destruct st; simpl; try (by split; simpl; eauto).
  destruct (Z.leb_spec th (f + 1)); split; simpl; eauto; try done.
  intros _. destruct H3 as (? & ? & ?); auto. repeat split; auto; lia.
Qed.

Lemma cb_step_wf op b : cb_wf b -> cb_wf (cb_step op b).2.
Proof.
  destruct op; simpl; [|apply record_success_wf|apply record_failure_wf].
  intros H. pose proof (allow_wf now b H). by destruct (allow now b).
Qed.

#[export] Hint Resolve new_breaker_wf sync_wf allow_wf record_success_wf record_failure_wf
  cb_step_wf : cred.

Lemma cb_step_params op b :
  cb_failure_threshold (cb_step op b).2 = cb_failure_threshold b /\
  cb_reset (cb_step op b).2 = cb_reset b.
Proof. destruct op; simpl; cb_cases b; auto. Qed.

Lemma allow_sim t0 now b :
  cb_wf b -> elapsed_by t0 b -> t0 <= now ->
  abs_allow now (abs_of b) = ((allow now b).1, abs_of (allow now b).2) /\
  elapsed_by now (allow now b).2.
Proof.
  intros [H1 H2 H3 H4 H5] Hel Hle. unfold elapsed_by in *.
  destruct b as [th rs st f oa p]; simpl in *.
  destruct st; simpl in *.
  - destruct H3 as (_ & -> & ->); [done|]. by split; [|intros ?].
  - destruct H4 as [t ->]; [done|]. unfold allow, sync, abs_of; simpl.
    destruct p; [by discriminate H5|].
    destruct (Z.leb_spec rs (now - t)), (Z.leb_spec (t + rs) now); simpl; try lia;
      (split; [done|]); intros Hh; try done. exists t; split; [done|lia].
  - destruct Hel as (t & -> & Ht); [done|]. unfold allow, sync, abs_of; simpl.
    destruct p; simpl; [split; [done|]; intros _; exists t; split; [done|lia]|].
    destruct (Z.leb_spec (t + rs) now); [|lia]. split; [done|]. intros _.
    exists t; split; [done|lia].
Qed.

Lemma record_failure_sim t0 t t' b :
  cb_wf b ->
  abs_failure (cb_failure_threshold b) (cb_reset b) t' (abs_of b) =
    abs_of (record_failure t t' b) /\
  elapsed_by t0 (record_failure t t' b).
Proof.
  intros [H1 H2 H3 H4 H5]. unfold elapsed_by.
  destruct b as [th rs st f oa p]; simpl in *. destruct st; simpl in *.
  - destruct H3 as (_ & -> & ->); [done|]. unfold record_failure, sync, abs_of; simpl.
    by destruct (Z.leb_spec th (f + 1)).
  - destruct H4 as [o ->]; [done|]. unfold record_failure, sync, abs_of; simpl.
    by destruct (Z.leb_spec rs (t - o)).
  - unfold record_failure, sync, abs_of; simpl. by destruct p.
Qed.

Lemma elapsed_by_mono t t' b : t <= t' -> elapsed_by t b -> elapsed_by t' b.
Proof. intros Hle H Hs. destruct (H Hs) as (o & Ho & ?). exists o. split; [done|lia]. Qed.

Lemma cb_step_sim t0 op b :
  cb_wf b -> elapsed_by t0 b -> Forall (Z.le t0) (op_times op) ->
  abs_step (cb_failure_threshold b) (cb_reset b) op (abs_of b) =
    ((cb_step op b).1, abs_of (cb_step op b).2) /\
  elapsed_by (foldr Z.max t0 (op_times op)) (cb_step op b).2.
Proof.
  intros Hwf Hel Ht. destruct op as [now| |t t']; simpl in *.
  - assert (Hle : t0 <= now) by by inversion Ht. destruct (allow_sim t0 now b) as [Ha He]; auto.
    rewrite Ha. destruct (allow now b) as [r b']; simpl in *. split; [done|].
    by rewrite Z.max_l.
  - split; [done|]. by intros ?.
  - destruct (record_failure_sim t0 t t' b) as [Ha He]; auto. rewrite Ha. split; [done|].
    by eapply (elapsed_by_mono t0); [lia|].
Qed.

Lemma cb_run_sim ops : forall t0 b,
  cb_wf b -> elapsed_by t0 b -> clock_from t0 ops ->
  abs_run (cb_failure_threshold b) (cb_reset b) ops (abs_of b) =
    ((cb_run ops b).1, abs_of (cb_run ops b).2).
Proof.
  induction ops as [|op ops IH]; intros t0 b Hwf Hel Hc; [done|].
  simpl in Hc. destruct Hc as [Ht Hc]. destruct (cb_step_sim t0 op b) as [Hs He]; auto.
  pose proof (cb_step_wf op b Hwf). destruct (cb_step_params op b) as [Hth Hrs].
  cbn [abs_run cb_run]. rewrite Hs. destruct (cb_step op b) as [r b']; simpl in *.
  rewrite <- Hth, <- Hrs. rewrite (IH _ b' ltac:(done) He Hc). by destruct (cb_run ops b').
Qed.

(** Once the probe slot is taken, no reading of the clock frees it. *)
Lemma probing_refuses b ts :
  cb_st b = HalfOpen -> cb_probe_in_flight b = true ->
  cb_run (map OpAllow ts) b = (replicate (length ts) (Some false), b).
Proof.
  intros Hs Hp. induction ts as [|t ts IH]; [done|]. cbn [map cb_run cb_step].
  assert (allow t b = (false, b)) as -> by (unfold allow, sync; rewrite Hs; simpl; by rewrite Hs, Hp).
  rewrite IH. done.
Qed.

(** Before its deadline an open breaker refuses and does not change. *)
Lemma open_refuses b t now :
  cb_st b = Open_ -> cb_opened_at b = Some t -> now < t + cb_reset b ->
  allow now b = (false, b).
Proof.
  intros Hs Ho Hn. unfold allow, sync. rewrite Hs, Ho.
  destruct (Z.leb_spec (cb_reset b) (now - t)); [lia|]. simpl. by rewrite Hs.
Qed.

Lemma open_refuses_run b t ts :
  cb_st b = Open_ -> cb_opened_at b = Some t -> Forall (fun now => now < t + cb_reset b) ts ->
  cb_run (map OpAllow ts) b = (replicate (length ts) (Some false), b).
Proof.
  intros Hs Ho. induction 1 as [|now ts Hn _ IH]; [done|]. cbn [map cb_run cb_step].
  rewrite (open_refuses b t) by done. rewrite IH. done.
Qed.

Lemma cb_run_cons op ops b :
  cb_run (op :: ops) b =
  let r := cb_step op b in ((r.1) :: (cb_run ops r.2).1, (cb_run ops r.2).2).
Proof. simpl. destruct (cb_step op b) as [r b1]; simpl. by destruct (cb_run ops b1). Qed.

Lemma failure_keeps_open t t' b : cb_st b = Open_ -> cb_st (record_failure t t' b) = Open_.
Proof. intros Hs. cb_cases b; done. Qed.

(** Failures at given clock readings. *)
Definition failures_at (ts : list (Z * Z)) : list cb_op := map (fun t => OpFailure t.1 t.2) ts.

Lemma failures_keep_open ts b :
  cb_st b = Open_ -> cb_st (cb_run (failures_at ts) b).2 = Open_.
Proof.
  unfold failures_at. revert b. induction ts as [|[t t'] ts IH]; intros b Hs; [done|]. cbn [map].
  rewrite cb_run_cons. apply IH. by apply failure_keeps_open.
Qed.

Lemma failure_when_closed t t' b :
  cb_st b = Closed ->
  record_failure t t' b =
    let n := cb_failures b + 1 in
    let b' := {| cb_failure_threshold := cb_failure_threshold b; cb_reset := cb_reset b;
                 cb_st := Closed; cb_failures := n; cb_opened_at := cb_opened_at b;
                 cb_probe_in_flight := cb_probe_in_flight b |} in
    if cb_failure_threshold b <=? n then trip t' b' else b'.
Proof. intros Hs. unfold record_failure, sync. rewrite Hs. simpl. by rewrite Hs. Qed.

Lemma failures_from_closed ts : forall b,
  cb_wf b -> cb_st b = Closed ->
  cb_st (cb_run (failures_at ts) b).2 =
    if cb_failures b + Z.of_nat (length ts) <? cb_failure_threshold b then Closed else Open_.
Proof.
  induction ts as [|[t t'] ts IH]; intros b Hwf Hs.
  - destruct (cb_wf_closed b Hwf Hs) as [Hf _]. cbn [length].
    change (Z.of_nat 0) with 0. rewrite Z.add_0_r, (proj2 (Z.ltb_lt _ _)) by lia. done.
  - unfold failures_at. cbn [map length]. rewrite cb_run_cons. cbn [cb_step fst snd].
    pose proof (record_failure_wf t t' b Hwf) as Hwf'.
    revert Hwf'. rewrite failure_when_closed by done. cbn zeta.
    destruct (Z.leb_spec (cb_failure_threshold b) (cb_failures b + 1)); intros Hwf'.
    + rewrite failures_keep_open by done.
      destruct (Z.ltb_spec (cb_failures b + Z.of_nat (S (length ts))) (cb_failure_threshold b)); [lia|done].
    + rewrite IH by done. cbn [cb_failures cb_failure_threshold].
      by replace (cb_failures b + 1 + Z.of_nat (length ts))
        with (cb_failures b + Z.of_nat (S (length ts))) by lia.
Qed.

(** ** Properties *)

(** C30. On any sequence of calls whose clock readings never go back, a fresh
    breaker gives the answers of the documented three-state machine, and
    ends in the state that machine reaches. *)
Theorem breaker_refines_contract (threshold reset t0 : Z) (ops : list cb_op) (b : CircuitBreaker) :
  new_breaker threshold reset = Ok b -> clock_from t0 ops ->
  abs_run threshold reset ops (AClosed 0) = ((cb_run ops b).1, abs_of (cb_run ops b).2).
Proof.
  intros Hb Hc. pose proof (new_breaker_wf _ _ _ Hb) as Hwf. unfold new_breaker in Hb.
  destruct (Z.ltb_spec threshold 1), (Z.ltb_spec reset 0); simplify_eq.
  by apply (cb_run_sim ops t0 _ Hwf).
Qed.

Lemma breaker_refines_contract_witness :
  let ops := [OpFailure 1 1; OpFailure 2 2; OpAllow 3; OpAllow 12; OpAllow 13; OpSuccess; OpAllow 14] in
  let b := {| cb_failure_threshold := 2; cb_reset := 10; cb_st := Closed; cb_failures := 0;
              cb_opened_at := None; cb_probe_in_flight := false |} in
  abs_run 2 10 ops (AClosed 0) = ((cb_run ops b).1, abs_of (cb_run ops b).2) /\
  (cb_run ops b).1 = [None; None; Some false; Some true; Some false; None; Some true].
Proof.
  intros ops b. split; [|reflexivity].
  apply (breaker_refines_contract 2 10 0 ops b); [reflexivity|].
  repeat (split; [repeat constructor; simpl; lia|]). exact I.
Defined.

(** A breaker that opened at [t] refuses every call made before
    [t + reset] and, of the calls made from then on, admits the first and
    refuses all others until an outcome is recorded. *)
Theorem open_admits_one_probe (b : CircuitBreaker) (t t1 : Z) (early late : list Z) :
  cb_st b = Open_ -> cb_opened_at b = Some t ->
  Forall (fun now => now < t + cb_reset b) early -> t + cb_reset b <= t1 ->
  (cb_run (map OpAllow (early ++ t1 :: late)) b).1 =
    (replicate (length early) (Some false) ++
     Some true :: replicate (length late) (Some false))%list.
Proof.
  intros Hs Ho He Ht. induction He as [|now early Hn _ IH]; cbn [map app cb_run cb_step length].
  - unfold allow, sync. rewrite Hs, Ho. destruct (Z.leb_spec (cb_reset b) (t1 - t)); [|lia].
    cbn [cb_st cb_probe_in_flight]. by rewrite probing_refuses.
  - rewrite (open_refuses b t) by done. destruct (cb_run (map OpAllow (early ++ t1 :: late)) b).
    simpl in *. by rewrite IH.
Qed.

Lemma open_admits_one_probe_witness :
  let b := {| cb_failure_threshold := 2; cb_reset := 10; cb_st := Open_; cb_failures := 2;
              cb_opened_at := Some 5; cb_probe_in_flight := false |} in
  (cb_run (map OpAllow [6; 14; 15; 16; 99]) b).1 =
    [Some false; Some false; Some true; Some false; Some false].
Proof.
  apply (open_admits_one_probe {| cb_failure_threshold := 2; cb_reset := 10; cb_st := Open_;
    cb_failures := 2; cb_opened_at := Some 5; cb_probe_in_flight := false |} 5 15 [6; 14] [16; 99]);
    [reflexivity|reflexivity|repeat constructor; simpl; lia|simpl; lia].
Defined.

(** Only an unbroken run of failures trips the breaker, whatever the
    clock reads at each: after a success it stays closed through any number
    of failures below the threshold, and the failure that reaches the
    threshold opens it. *)
Theorem trips_exactly_at_threshold (b : CircuitBreaker) (ts : list (Z * Z)) :
  cb_wf b ->
  cb_st (cb_run (OpSuccess :: failures_at ts) b).2 =
    if Z.of_nat (length ts) <? cb_failure_threshold b then Closed else Open_.
Proof.
  intros Hwf. rewrite cb_run_cons. cbn [cb_step snd].
  by rewrite failures_from_closed by auto with cred.
Qed.

Lemma trips_exactly_at_threshold_witness :
  let b := {| cb_failure_threshold := 2; cb_reset := 10; cb_st := Closed; cb_failures := 1;
              cb_opened_at := None; cb_probe_in_flight := false |} in
  cb_wf b /\ cb_st (cb_run (OpSuccess :: failures_at [(3, 3)]) b).2 = Closed /\
  cb_st (cb_run (OpSuccess :: failures_at [(3, 3); (4, 5)]) b).2 = Open_.
Proof.
  intros b. assert (Hb : cb_wf b) by (split; simpl; intros; try discriminate; repeat split; try lia; done).
  split; [exact Hb|]. split.
  - exact (trips_exactly_at_threshold b [(3, 3)] Hb).
  - exact (trips_exactly_at_threshold b [(3, 3); (4, 5)] Hb).
Defined.
