(* ===== verification/Effects.v ===== *)
(** * Effects and programs

    Every interaction of the broker with something outside a single Python
    expression is an effect: clocks, entropy, the process-wide registries
    (secrets, circuit breakers), log and metrics, Redis, the database, KMS
    and outbound HTTP.  A coroutine is a [prog]: a finite tree of effects,
    each followed by what the code does with the answer, which may be an
    exception.  What the other side does is not part of a program: [interp]
    runs a program against any handler, and the predicate [wp] reasons about
    all answers that an assumption admits. *)

From stdpp Require Import base tactics list strings numbers.
From S2P Require Import Prelude PyStr Errors Json Uuid Config Models Breaker.
Open Scope string_scope.

(** ** Effects *)

(** The series of [src/credbroker/metrics.py]. *)
Inductive metric :=
| GRANTS_ISSUED (tool_name scope : string)
| GRANT_DENIALS (reason : string)
| GRANTS_REVOKED
| INVOCATIONS (tool_name status : string)
| INVOKE_LATENCY (tool_name : string) (latency_ms : Z)
| OAUTH_ACCOUNTS_CONNECTED (provider : string)
| RATE_LIMITED (operation : string).

Inductive log_level := INFO | WARNING | ERROR.

(** An outbound HTTP request: query parameters or form data, and headers. *)
Record http_request := {
  req_method : string;
  req_url : string;
  req_fields : dict;
  req_headers : list (string * string)
}.

(** A response; [resp_json] is what [response.json()] gives. *)
Record http_response := {
  resp_status : Z;
  resp_json : res json
}.

Inductive db_row :=
| RowAccount (a : ConnectedAccount)
| RowAgent (a : AgentIdentity)
| RowGrant (g : Grant)
| RowAudit (r : ToolCallAuditLog).

(** Attribute assignments the session turns into an UPDATE. *)
Inductive db_update :=
| SetRevokedAt (id : uuid) (t : datetime)
| SetAccessToken (id : uuid) (access : bytes)
| SetRefreshToken (id : uuid) (refresh : bytes)
| SetExpiresAt (id : uuid) (expires : option datetime).

Inductive eff :=
(* clocks, in microseconds *)
| EUtcNow | ETime | EMonotonic
(* entropy *)
| EUuid4 | ETokenHex (nbytes : Z) | EUrandom (nbytes : Z)
(* process-wide state *)
| ERegisterSecret (s : string)
| ERegistry | EClearRegistry
| EGetCircuit (provider : string)
| EReadCircuit (provider : string)
| EPutCircuit (provider : string) (b : CircuitBreaker)
| ELog (lvl : log_level) (fmt : string) (args : list string)
| EMetric (m : metric)
(* suspension *)
| EToThread
| ESleep (delay : Z)
(* Redis *)
| ERedisGet (k : string)
| ERedisSet (k v : string) (nx : bool) (ex : Z)
| ERedisDelete (k : string)
| ERedisExists (k : string)
| ERedisIncr (k : string)
| ERedisExpire (k : string) (secs : Z)
(* KMS *)
| EKmsGenerateDataKey (key_id : string)
| EKmsDecrypt (key_id : string) (blob : bytes)
(* HTTP *)
| EHttp (r : http_request)
(* the database session *)
| EDbOpen | EDbClose
| EDbAdd (r : db_row)
| EDbUpdate (u : db_update)
| EDbFlush | EDbCommit | EDbRollback
| EDbAgentForUpdate (id : uuid)
| EDbLatestAccount (user_id : uuid) (provider : string)
| EDbActiveGrants (agent : uuid) (tool_name scope : string) (now : datetime)
| EDbGrantById (id : uuid)
| EDbGrantByHash (token_hash : string)
| EDbGrantRevokedAt (id : uuid)
| EDbAccountById (id : uuid)
| EDbAgentByName (name : string)
| EDbAllAgents | EDbAllAccounts
| EDbRecentGrants (limit : Z)
| EDbRecentAudit (limit : Z).

(** What each effect returns when it does not raise. *)
Definition ans (c : eff) : Type :=
  match c with
  | EUtcNow | ETime | EMonotonic => Z
  | EUuid4 => uuid
  | ETokenHex _ => string
  | EUrandom _ => bytes
  | ERegistry => list string
  | EGetCircuit _ => option CircuitBreaker
  | EReadCircuit _ => CircuitBreaker
  | ERedisGet _ => option string
  | ERedisSet _ _ _ _ => bool
  | ERedisExists _ => Z
  | ERedisIncr _ => Z
  | EKmsGenerateDataKey _ => bytes * bytes
  | EKmsDecrypt _ _ => bytes
  | EHttp _ => http_response
  | EDbAgentForUpdate _ => option AgentIdentity
  | EDbLatestAccount _ _ => option ConnectedAccount
  | EDbActiveGrants _ _ _ _ => Z
  | EDbGrantById _ | EDbGrantByHash _ => option Grant
  | EDbGrantRevokedAt _ => option (option datetime)
  | EDbAccountById _ => option ConnectedAccount
  | EDbAgentByName _ => option AgentIdentity
  | EDbAllAgents => list AgentIdentity
  | EDbAllAccounts => list ConnectedAccount
  | EDbRecentGrants _ => list Grant
  | EDbRecentAudit _ => list ToolCallAuditLog
  | _ => unit
  end%type.

(** Effects at which the coroutine awaits, so that other tasks may run. *)
Definition awaits (c : eff) : bool :=
  match c with
  | EUtcNow | ETime | EMonotonic | EUuid4 | ETokenHex _ | EUrandom _
  | ERegisterSecret _ | ERegistry | EClearRegistry | EGetCircuit _ | EReadCircuit _
  | EPutCircuit _ _
  | ELog _ _ _ | EMetric _ | EDbOpen | EDbAdd _ | EDbUpdate _ => false
  | _ => true
  end.

(** Effects of the database. *)
Definition is_db (c : eff) : bool :=
  match c with
  | EDbOpen | EDbClose | EDbAdd _ | EDbUpdate _ | EDbFlush | EDbCommit | EDbRollback
  | EDbAgentForUpdate _ | EDbLatestAccount _ _ | EDbActiveGrants _ _ _ _ | EDbGrantById _
  | EDbGrantByHash _ | EDbGrantRevokedAt _ | EDbAccountById _ | EDbAgentByName _
  | EDbAllAgents | EDbAllAccounts | EDbRecentGrants _ | EDbRecentAudit _ => true
  | _ => false
  end.

(** Redis commands. *)
Definition is_redis (c : eff) : bool :=
  match c with
  | ERedisGet _ | ERedisSet _ _ _ _ | ERedisDelete _ | ERedisExists _ | ERedisIncr _
  | ERedisExpire _ _ => true
  | _ => false
  end.

(** Effects that may raise: everything served by another process.  The
    others are operations on memory, clocks and entropy. *)
Definition fallible (c : eff) : bool :=
  match c with
  | ERedisGet _ | ERedisSet _ _ _ _ | ERedisDelete _ | ERedisExists _ | ERedisIncr _
  | ERedisExpire _ _ | EKmsGenerateDataKey _ | EKmsDecrypt _ _ | EHttp _
  | EDbClose | EDbFlush | EDbCommit | EDbRollback | EDbAgentForUpdate _
  | EDbLatestAccount _ _ | EDbActiveGrants _ _ _ _ | EDbGrantById _ | EDbGrantByHash _
  | EDbGrantRevokedAt _ | EDbAccountById _ | EDbAgentByName _ | EDbAllAgents | EDbAllAccounts
  | EDbRecentGrants _ | EDbRecentAudit _ => true
  | _ => false
  end.

Definition reply_of (fails : bool) (X : Type) : Type := if fails then res X else X.
Definition reply (c : eff) : Type := reply_of (fallible c) (ans c).

Definition to_res (fails : bool) {X : Type} : reply_of fails X -> res X :=
  match fails with true => fun r => r | false => Ok end.

(** ** Programs *)

Inductive prog (A : Type) : Type :=
| Done (r : res A)
| Vis (c : eff) (k : reply c -> prog A).
Arguments Done {A} r.
Arguments Vis {A} c k.

Definition ret {A} (a : A) : prog A := Done (Ok a).
Definition raise {A} (e : exn) : prog A := Done (Exn e).
Definition lift {A} (r : res A) : prog A := Done r.
Definition perform (c : eff) : prog (ans c) := Vis c (fun a => Done (to_res (fallible c) a)).

Fixpoint bind {A B} (p : prog A) (f : A -> prog B) : prog B :=
  match p with
  | Done (Ok a) => f a
  | Done (Exn e) => Done (Exn e)
  | Vis c k => Vis c (fun r => bind (k r) f)
  end.

(** [try: p]: the exception becomes a value for the [except] clauses. *)
Fixpoint attempt {A} (p : prog A) : prog (res A) :=
  match p with
  | Done r => Done (Ok r)
  | Vis c k => Vis c (fun r => attempt (k r))
  end.

Notation "x <- p ;; q" := (bind p (fun x => q))
  (at level 100, p at next level, right associativity) : cred_scope.
Notation "p ;; q" := (bind p (fun _ => q))
  (at level 100, right associativity) : cred_scope.
Open Scope cred_scope.

(** [async with session_factory() as session: body]. *)
Definition with_session {A} (body : prog A) : prog A :=
  perform EDbOpen ;;
  r <- attempt body ;;
  perform EDbClose ;;
  lift r.

(** [for x in xs: f x]. *)
Fixpoint for_each {A} (xs : list A) (f : A -> prog unit) : prog unit :=
  match xs with
  | [] => ret tt
  | x :: xs' => f x ;; for_each xs' f
  end.

(** ** Running *)

(** An effect with its answer. *)
Record event := Ev { ev_eff : eff; ev_ans : reply ev_eff }.

Definition handler (St : Type) : Type := forall (s : St) (c : eff), reply c * St.

Fixpoint interp {St A} (h : handler St) (p : prog A) (s : St) : list event * res A * St :=
  match p with
  | Done r => ([], r, s)
  | Vis c k =>
      let '(a, s1) := h s c in
      let '(t, r, s2) := interp h (k a) s1 in (Ev c a :: t, r, s2)
  end.

Definition trace_of {St A} (h : handler St) (p : prog A) (s : St) : list event := (interp h p s).1.1.
Definition result_of {St A} (h : handler St) (p : prog A) (s : St) : res A := (interp h p s).1.2.
Definition state_of {St A} (h : handler St) (p : prog A) (s : St) : St := (interp h p s).2.

(** The reply of a dead environment: every service is unreachable. *)
Definition unreachable_service : exn := raise_of OtherError "service unreachable".

Definition dead_reply (c : eff) : reply c :=
  match c with
  | EUtcNow | ETime | EMonotonic => 0%Z
  | EUuid4 => inhabitant
  | ETokenHex _ => ""
  | EUrandom _ => []
  | ERegistry => []
  | EGetCircuit _ => None
  | EReadCircuit _ =>
      {| cb_failure_threshold := 1; cb_reset := 0; cb_st := Closed; cb_failures := 0;
         cb_opened_at := None; cb_probe_in_flight := false |}
  | ERegisterSecret _ | EClearRegistry | EPutCircuit _ _ | ELog _ _ _ | EMetric _
  | EToThread | ESleep _ | EDbOpen | EDbAdd _ | EDbUpdate _ => tt
  | ERedisGet _ | ERedisSet _ _ _ _ | ERedisDelete _ | ERedisExists _ | ERedisIncr _
  | ERedisExpire _ _ | EKmsGenerateDataKey _ | EKmsDecrypt _ _ | EHttp _
  | EDbClose | EDbFlush | EDbCommit | EDbRollback | EDbAgentForUpdate _
  | EDbLatestAccount _ _ | EDbActiveGrants _ _ _ _ | EDbGrantById _ | EDbGrantByHash _
  | EDbGrantRevokedAt _ | EDbAccountById _ | EDbAgentByName _ | EDbAllAgents | EDbAllAccounts
  | EDbRecentGrants _ | EDbRecentAudit _ => Exn unreachable_service
  end.

(** ** Reasoning about every run

    [wp step adm p Q s]: whatever answers [adm] admits, [p] started with
    ghost state [s] ends with a result and ghost state that satisfy [Q],
    where [step] moves the ghost state along the events. *)
Section Logic.
Context {S : Type} (step : S -> event -> S) (adm : S -> event -> Prop).

Fixpoint wp {A} (p : prog A) (Q : S -> res A -> Prop) (s : S) : Prop :=
  match p with
  | Done r => Q s r
  | Vis c k => forall a, adm s (Ev c a) -> wp (k a) Q (step s (Ev c a))
  end.

Lemma wp_mono {A} (p : prog A) (Q Q' : S -> res A -> Prop) s :
  wp p Q s -> (forall s r, Q s r -> Q' s r) -> wp p Q' s.
Proof. revert s. induction p as [r|c k IH]; simpl; intros s Hp HQ; eauto. Qed.

Lemma wp_bind {A B} (p : prog A) (f : A -> prog B) Q s :
  wp p (fun s r => match r with Ok a => wp (f a) Q s | Exn e => Q s (Exn e) end) s ->
  wp (bind p f) Q s.
Proof. revert s. induction p as [[a|e]|c k IH]; simpl; intros s Hp; eauto. Qed.

Lemma wp_attempt {A} (p : prog A) Q s :
  wp p (fun s r => Q s (Ok r)) s -> wp (attempt p) Q s.
Proof. revert s. induction p as [r|c k IH]; simpl; intros s Hp; eauto. Qed.

Lemma wp_conj {A} (p : prog A) (Q Q' : S -> res A -> Prop) s :
  wp p Q s -> wp p Q' s -> wp p (fun s r => Q s r /\ Q' s r) s.
Proof. revert s. induction p as [r|c k IH]; simpl; intros s H1 H2; eauto. Qed.

(** Every run against a handler whose answers [adm] admits. *)
Lemma wp_interp {St A} (h : handler St) (I : St -> S -> Prop) (p : prog A) Q σ s :
  (forall σ s c, I σ s ->
     adm s (Ev c (h σ c).1) /\ I (h σ c).2 (step s (Ev c (h σ c).1))) ->
  I σ s -> wp p Q s ->
  let s' := foldl step s (trace_of h p σ) in
  Q s' (result_of h p σ) /\ I (state_of h p σ) s'.
Proof.
  intros Hh. unfold trace_of, result_of, state_of. revert σ s.
  induction p as [r|c k IH]; intros σ s HI Hp; simpl in *; [auto|].
  destruct (Hh σ s c HI) as [Ha HI']. destruct (h σ c) as [a σ1]; simpl in *.
  specialize (IH a σ1 (step s (Ev c a)) HI' (Hp a Ha)).
  by destruct (interp h (k a) σ1) as [[t r] σ2].
Qed.
End Logic.

(** *** [interp] of a sequence *)

Lemma interp_bind {St A B} (h : handler St) (p : prog A) (f : A -> prog B) σ :
  interp h (bind p f) σ =
  match result_of h p σ with
  | Ok a => let '(t, r, σ') := interp h (f a) (state_of h p σ) in
            ((trace_of h p σ ++ t)%list, r, σ')
  | Exn e => (trace_of h p σ, Exn e, state_of h p σ)
  end.
Proof.
  unfold result_of, trace_of, state_of. revert σ.
  induction p as [[a|e]|c k IH]; intros σ; simpl; [|done|].
  - by destruct (interp h (f a) σ) as [[??]?].
  - destruct (h σ c) as [a σ1]. rewrite (IH a σ1). clear IH.
    destruct (interp h (k a) σ1) as [[t r] σ2]; simpl.
    destruct r; [|done]. by destruct (interp h (f a0) σ2) as [[??]?].
Qed.

Lemma interp_attempt {St A} (h : handler St) (p : prog A) σ :
  interp h (attempt p) σ = (trace_of h p σ, Ok (result_of h p σ), state_of h p σ).
Proof.
  unfold result_of, trace_of, state_of. revert σ.
  induction p as [r|c k IH]; intros σ; simpl; [done|].
  destruct (h σ c) as [a σ1]. rewrite (IH a σ1). by destruct (interp h (k a) σ1) as [[??]?].
Qed.

Lemma result_bind {St A B} (h : handler St) (p : prog A) (f : A -> prog B) σ :
  result_of h (bind p f) σ =
  match result_of h p σ with
  | Ok a => result_of h (f a) (state_of h p σ)
  | Exn e => Exn e
  end.
Proof.
  unfold result_of at 1. rewrite interp_bind. destruct (result_of h p σ); [|done].
  destruct (interp h (f a) (state_of h p σ)) as [[??]?] eqn:E. simpl.
  unfold result_of. by rewrite E.
Qed.

Lemma state_bind {St A B} (h : handler St) (p : prog A) (f : A -> prog B) σ :
  state_of h (bind p f) σ =
  match result_of h p σ with
  | Ok a => state_of h (f a) (state_of h p σ)
  | Exn e => state_of h p σ
  end.
Proof.
  unfold state_of at 1. rewrite interp_bind. destruct (result_of h p σ); [|done].
  destruct (interp h (f a) (state_of h p σ)) as [[??]?] eqn:E. simpl.
  unfold state_of at 1. by rewrite E.
Qed.

Lemma result_lift {St A} (h : handler St) (r : res A) σ : result_of h (lift r) σ = r.
Proof. done. Qed.

Lemma trace_lift {St A} (h : handler St) (r : res A) σ : trace_of h (lift r) σ = [].
Proof. done. Qed.

Lemma state_lift {St A} (h : handler St) (r : res A) σ : state_of h (lift r) σ = σ.
Proof. done. Qed.

Lemma trace_bind {St A B} (h : handler St) (p : prog A) (f : A -> prog B) σ :
  trace_of h (bind p f) σ =
  (trace_of h p σ ++ match result_of h p σ with
                     | Ok a => trace_of h (f a) (state_of h p σ)
                     | Exn e => []
                     end)%list.
Proof.
  unfold trace_of at 1. rewrite interp_bind. destruct (result_of h p σ).
  - destruct (interp h (f a) (state_of h p σ)) as [[??]?] eqn:E. simpl.
    f_equal. unfold trace_of. by rewrite E.
  - simpl. by rewrite app_nil_r.
Qed.

(** Result and final state together. *)
Definition outcome {St A} (h : handler St) (p : prog A) (s : St) : res A * St :=
  (result_of h p s, state_of h p s).

Lemma outcome_bind {St A B} (h : handler St) (p : prog A) (f : A -> prog B) σ :
  outcome h (bind p f) σ =
  match outcome h p σ with
  | (Ok a, σ1) => outcome h (f a) σ1
  | (Exn e, σ1) => (Exn e, σ1)
  end.
Proof. unfold outcome. rewrite result_bind, state_bind. by destruct (result_of h p σ). Qed.

Lemma outcome_ret {St A} (h : handler St) (a : A) σ : outcome h (ret a) σ = (Ok a, σ).
Proof. done. Qed.

Lemma outcome_lift {St A} (h : handler St) (r : res A) σ : outcome h (lift r) σ = (r, σ).
Proof. done. Qed.

Lemma outcome_raise {St A} (h : handler St) e σ : outcome h (raise (A:=A) e) σ = (Exn e, σ).
Proof. done. Qed.

#[global] Hint Rewrite @outcome_ret @outcome_lift @outcome_raise @outcome_bind : cred_run.

(** A sequence that returns: both parts did. *)
Lemma bind_returns {St A B} (h : handler St) (p : prog A) (f : A -> prog B) σ b :
  result_of h (bind p f) σ = Ok b ->
  exists a, result_of h p σ = Ok a /\ result_of h (f a) (state_of h p σ) = Ok b /\
    trace_of h (bind p f) σ = (trace_of h p σ ++ trace_of h (f a) (state_of h p σ))%list.
Proof.
  rewrite result_bind, trace_bind. destruct (result_of h p σ) as [a|e]; [|done]. intros Hb. by exists a.
Qed.

Lemma trace_perform {St} (h : handler St) c σ : trace_of h (perform c) σ = [Ev c (h σ c).1].
Proof. unfold trace_of. simpl. by destruct (h σ c). Qed.

Lemma result_attempt {St A} (h : handler St) (p : prog A) σ :
  result_of h (attempt p) σ = Ok (result_of h p σ).
Proof. unfold result_of at 1. by rewrite interp_attempt. Qed.

Lemma state_attempt {St A} (h : handler St) (p : prog A) σ : state_of h (attempt p) σ = state_of h p σ.
Proof. unfold state_of at 1. by rewrite interp_attempt. Qed.

Lemma trace_attempt {St A} (h : handler St) (p : prog A) σ : trace_of h (attempt p) σ = trace_of h p σ.
Proof. unfold trace_of at 1. by rewrite interp_attempt. Qed.

#[global] Hint Rewrite @result_bind @state_bind @trace_bind : cred_rw.
Lemma result_ret {St A} (h : handler St) (a : A) σ : result_of h (ret a) σ = Ok a.
Proof. done. Qed.

Lemma state_ret {St A} (h : handler St) (a : A) σ : state_of h (ret a) σ = σ.
Proof. done. Qed.

Lemma trace_ret {St A} (h : handler St) (a : A) σ : trace_of h (ret a) σ = [].
Proof. done. Qed.

#[global] Hint Rewrite @result_attempt @state_attempt @trace_attempt : cred_rw.

(** Loops: an invariant holds at every iteration and at an exception. *)
Lemma wp_for_each {S A} step adm (xs : list A) f (I : S -> Prop) (Q : S -> res unit -> Prop) s :
  (forall x s, x ∈ xs -> I s ->
     wp step adm (f x) (fun s r => match r with Ok _ => I s | Exn e => Q s (Exn e) end) s) ->
  (forall s, I s -> Q s (Ok tt)) ->
  I s -> wp step adm (for_each xs f) Q s.
Proof.
  intros Hf HQ. revert s. induction xs as [|x xs IH]; intros s HI; [by apply HQ|].
  simpl. apply wp_bind. eapply wp_mono; [apply Hf; [left|done]|].
  intros s' [[]|e] H; [|done]. apply IH; [|done]. intros y s1 Hy. apply Hf. by right.
Qed.

(** ** Traces: the ghost state is the list of events so far, and every
    answer is admitted *)

Definition any_answer {S} (s : S) (e : event) : Prop := True.
Definition snoc (t : list event) (e : event) : list event := (t ++ [e])%list.

Lemma foldl_snoc t u : foldl snoc t u = (t ++ u)%list.
Proof.
  revert t. induction u as [|e u IH]; intros t; simpl; [by rewrite app_nil_r|].
  rewrite IH. unfold snoc. by rewrite <- app_assoc.
Qed.

(** [wp] with a trace as ghost state bounds every run of every handler. *)
Lemma wp_every_run {St A} (h : handler St) (p : prog A) Q σ :
  wp snoc any_answer p Q [] -> Q (trace_of h p σ) (result_of h p σ).
Proof.
  intros Hp. destruct (wp_interp snoc any_answer h (fun _ _ => True) p Q σ []) as [H _]; auto.
  by rewrite foldl_snoc in H.
Qed.

(** A program with one possible result. *)
Lemma result_always {St A} (h : handler St) (p : prog A) r σ :
  wp snoc any_answer p (fun _ r' => r' = r) [] -> result_of h p σ = r.
Proof. intros Hp. exact (wp_every_run h p (fun _ r' => r' = r) σ Hp). Qed.

(** The same for a ghost state computed from the trace. *)
Lemma wp_every_run_fold {S St A} (step : S -> event -> S) (h : handler St) (p : prog A) Q σ s :
  wp step any_answer p Q s -> Q (foldl step s (trace_of h p σ)) (result_of h p σ).
Proof.
  intros Hp. destruct (wp_interp step any_answer h (fun _ _ => True) p Q σ s) as [H _]; auto.
Qed.

(** ** Looking at a run *)

(** The event's effect raised [e]. *)
Definition ev_raised (e : exn) (ev : event) : Prop :=
  to_res (fallible (ev_eff ev)) (ev_ans ev) = Exn e.

(** Some effect of the run raised [e]. *)
Definition raised_in (t : list event) (e : exn) : Prop := Exists (ev_raised e) t.

(** The events of the kind [P]. *)
Definition events_of (P : eff -> bool) (t : list event) : list event :=
  List.filter (fun e => P (ev_eff e)) t.

Lemma events_of_app P t u : events_of P (t ++ u)%list = (events_of P t ++ events_of P u)%list.
Proof. apply List.filter_app. Qed.

(** A program without effects of the kind [P] that raises only what one of
    its effects raised. *)
Definition calm (P : eff -> bool) {A} (p : prog A) : Prop :=
  forall t Q,
    (forall u r, events_of P u = [] -> (forall e, r = Exn e -> raised_in u e) -> Q (t ++ u)%list r) ->
    wp snoc any_answer p Q t.

Lemma calm_ret P {A} (a : A) : calm P (ret a).
Proof. intros t Q HQ. simpl. rewrite <- (app_nil_r t). by apply HQ. Qed.

Lemma calm_perform P c : P c = false -> calm P (perform c).
Proof.
  intros Hc t Q HQ a _. apply (HQ [Ev c a]).
  - unfold events_of. simpl. by rewrite Hc.
  - intros e He. by apply Exists_cons_hd.
Qed.

Lemma calm_bind P {A B} (p : prog A) (f : A -> prog B) :
  calm P p -> (forall a, calm P (f a)) -> calm P (bind p f).
Proof.
  intros Hp Hf t Q HQ. apply wp_bind, Hp. intros u [a|e] Hu He.
  - apply Hf. intros v r Hv Hr. rewrite <- app_assoc. apply HQ.
    + by rewrite events_of_app, Hu, Hv.
    + intros e' ->. apply Exists_app. right. by apply Hr.
  - apply HQ; [done|]. intros e' [= <-]. by apply He.
Qed.

#[export] Hint Resolve calm_ret calm_perform calm_bind : cred.

(** A program without effects of the kind [P], whatever it raises. *)
Fixpoint avoids (P : eff -> bool) {A} (p : prog A) : Prop :=
  match p with
  | Done _ => True
  | Vis c k => P c = false /\ forall a, avoids P (k a)
  end.

Lemma avoids_bind P {A B} (p : prog A) (f : A -> prog B) :
  avoids P p -> (forall a, avoids P (f a)) -> avoids P (bind p f).
Proof.
  intros Hp Hf. induction p as [[a|e]|c k IH]; simpl in *; [done|done|].
  destruct Hp as [Hc Hk]. split; [done|]. intros a. by apply IH.
Qed.

Lemma avoids_attempt P {A} (p : prog A) : avoids P p -> avoids P (attempt p).
Proof.
  intros Hp. induction p as [r|c k IH]; simpl in *; [done|].
  destruct Hp as [Hc Hk]. split; [done|]. intros a. by apply IH.
Qed.

Lemma avoids_perform P c : P c = false -> avoids P (perform c).
Proof. done. Qed.

Lemma avoids_lift P {A} (r : res A) : avoids P (lift r).
Proof. done. Qed.

Lemma avoids_run P {A} (p : prog A) : avoids P p ->
  forall {St} (h : handler St) σ, events_of P (trace_of h p σ) = [].
Proof.
  intros Hp St h. induction p as [r|c k IH]; intros σ; [done|].
  destruct Hp as [Hc Hk]. unfold trace_of. simpl. destruct (h σ c) as [a σ1].
  specialize (IH a (Hk a) σ1). unfold trace_of in IH. destruct (interp h (k a) σ1) as [[t r] σ2].
  unfold events_of in *. simpl in *. by rewrite Hc.
Qed.

(** Past a program without [P] effects, the [P] events and the result are
    those of the rest. *)
Lemma avoids_then P {St A B} (h : handler St) (p : prog A) (f : A -> prog B) σ
    (Φ : list event -> res B -> Prop) :
  avoids P p -> (forall e, result_of h p σ = Exn e -> Φ [] (Exn e)) ->
  (forall a, result_of h p σ = Ok a ->
     Φ (events_of P (trace_of h (f a) (state_of h p σ))) (result_of h (f a) (state_of h p σ))) ->
  Φ (events_of P (trace_of h (bind p f) σ)) (result_of h (bind p f) σ).
Proof.
  intros Hp He Ha. rewrite result_bind, trace_bind, events_of_app, (avoids_run P p Hp). cbn [app].
  destruct (result_of h p σ) as [a|e]; [by apply Ha|by apply He].
Qed.

(** [wp] of a program whose effects the ghost state ignores. *)
Lemma wp_avoids {S} (step : S -> event -> S) P {A} (p : prog A) Q s :
  (forall s c a, P c = false -> step s (Ev c a) = s) -> avoids P p ->
  (forall r, Q s r) -> wp step any_answer p Q s.
Proof.
  intros Hstep Hp HQ. induction p as [r|c k IH]; [apply HQ|].
  destruct Hp as [Hc Hk]. intros a _. rewrite Hstep by done. by apply IH.
Qed.

(** With a trace as ghost state: it grows, by no [P] events. *)
Lemma wp_avoids_snoc P {A} (p : prog A) Q t :
  avoids P p -> (forall u r, events_of P u = [] -> Q (t ++ u)%list r) ->
  wp snoc any_answer p Q t.
Proof.
  revert t. induction p as [r|c k IH]; intros t Hp HQ.
  - simpl. rewrite <- (app_nil_r t). by apply HQ.
  - destruct Hp as [Hc Hk]. intros a _. apply (IH a); [done|]. intros u r Hu.
    unfold snoc. rewrite <- app_assoc. apply HQ. unfold events_of in *. simpl. by rewrite Hc.
Qed.

(** ... or by anything. *)
Lemma wp_prefix {A} (p : prog A) Q t :
  (forall u r, Q (t ++ u)%list r) -> wp snoc any_answer p Q t.
Proof.
  revert t. induction p as [r|c k IH]; intros t HQ.
  - simpl. rewrite <- (app_nil_r t). by apply HQ.
  - intros a _. apply (IH a). intros u r. unfold snoc. rewrite <- app_assoc. apply HQ.
Qed.

Lemma avoids_weaken (P P' : eff -> bool) {A} (p : prog A) :
  (forall c, P' c = true -> P c = true) -> avoids P p -> avoids P' p.
Proof.
  intros HP Hp. induction p as [r|c k IH]; simpl in *; [done|]. destruct Hp as [Hc Hk].
  split; [|auto]. destruct (P' c) eqn:E; [|done]. by rewrite (HP c E) in Hc.
Qed.

#[export] Hint Resolve avoids_bind avoids_attempt avoids_perform avoids_lift : cred.

(** ** Symbolic execution *)

(** Reduce a program to its next effect. *)
Ltac wp_simpl :=
  cbn [wp bind attempt perform ret raise lift to_res fallible reply reply_of ans] in *.

(** Take the answer of the next effect; an answer that may be an exception
    is split. *)
Ltac wp_ans :=
  let a := fresh "a" in let Ha := fresh "Ha" in
  wp_simpl; intros a Ha; try clear Ha;
  try (cbv [reply reply_of fallible ans] in a);
  try (match type of a with
       | res _ => destruct a as [a|a]
       | unit => destruct a
       end);
  wp_simpl.
