(* ===== verification/Budget.v ===== *)
(** * Budgets: how many effects of a kind a program has left

    [spends adm P n p]: along every run of [p] whose answers are of the kind
    [adm], at most [n] effects are of the kind [P].  [thrifty] says the same
    of everything that may be left of [p], however it got there: whatever was
    answered so far (of the kind [adm0]), from now on [n] are enough. *)

From stdpp Require Import base tactics list strings numbers.
From S2P Require Import Prelude PyStr Errors Json Uuid Config Models Breaker Effects.
Open Scope string_scope.

Fixpoint spends (adm : event -> Prop) (P : eff -> bool) {A} (n : nat) (p : prog A) : Prop :=
  match p with
  | Done _ => True
  | Vis c k =>
      if P c
      then match n with
           | O => False
           | S n' => forall a, adm (Ev c a) -> spends adm P n' (k a)
           end
      else forall a, adm (Ev c a) -> spends adm P n (k a)
  end.

Fixpoint thrifty (adm0 adm : event -> Prop) (P : eff -> bool) (n : nat) {A} (p : prog A) : Prop :=
  match p with
  | Done _ => True
  | Vis c k =>
      spends adm P n (Vis c k) /\ forall a, adm0 (Ev c a) -> thrifty adm0 adm P n (k a)
  end.

(** The effects of the kind [P], counted along a run. *)
Definition tally (P : eff -> bool) (n : nat) (ev : event) : nat :=
  if P (ev_eff ev) then S n else n.

Section Budget.
Context (adm0 adm : event -> Prop) (P : eff -> bool).

Lemma spends_more {A} (p : prog A) n m : n <= m -> spends adm P n p -> spends adm P m p.
Proof.
  revert n m. induction p as [r|c k IH]; intros n m Hn; [done|]. cbn. destruct (P c).
  - destruct n as [|n]; [done|]. destruct m as [|m]; [lia|]. intros Hk a Ha. apply (IH a n); [lia|auto].
  - intros Hk a Ha. apply (IH a n); auto.
Qed.

Lemma spends_avoids {A} (p : prog A) n : avoids P p -> spends adm P n p.
Proof. induction p as [r|c k IH]; [done|]. intros [Hc Hk]. cbn. rewrite Hc. auto. Qed.

Lemma spends_bind {A B} (p : prog A) (f : A -> prog B) n :
  spends adm P n p -> (forall a, spends adm P 0 (f a)) -> spends adm P n (bind p f).
Proof.
  intros Hp Hf. revert n Hp. induction p as [[a|e]|c k IH]; intros n; cbn; [|done|].
  - intros _. apply (spends_more _ 0); [lia|done].
  - destruct (P c); [destruct n; [done|]|]; auto.
Qed.

(** After a program without such effects. *)
Lemma spends_then {A B} (p : prog A) (f : A -> prog B) n :
  avoids P p -> (forall a, spends adm P n (f a)) -> spends adm P n (bind p f).
Proof.
  intros Hp Hf. induction p as [[a|e]|c k IH]; [apply Hf|done|]. destruct Hp as [Hc Hk]. cbn.
  rewrite Hc. auto.
Qed.

Lemma spends_attempt {A} (p : prog A) n : spends adm P n p -> spends adm P n (attempt p).
Proof.
  revert n. induction p as [r|c k IH]; intros n; [done|]. cbn.
  destruct (P c); [destruct n; [done|]|]; auto.
Qed.

(** *** What the complete runs count, no run exceeds *)

Lemma tally_grows {A} (p : prog A) n m :
  wp (tally P) any_answer p (fun k _ => k <= m) n -> n <= m.
Proof.
  revert n. induction p as [r|c k IH]; intros n Hp; [done|].
  specialize (IH (dead_reply c) _ (Hp (dead_reply c) I)). unfold tally in IH. cbn in IH.
  destruct (P c); lia.
Qed.

Lemma spends_tally {A} (p : prog A) n m :
  wp (tally P) any_answer p (fun k _ => k <= n + m) n -> spends adm P m p.
Proof.
  revert n m. induction p as [r|c k IH]; intros n m Hp; [done|].
  pose proof (tally_grows _ _ _ (Hp (dead_reply c) I)) as Hle. unfold tally in Hle. cbn in Hle.
  cbn [spends]. destruct (P c) eqn:E.
  - destruct m as [|m]; [lia|]. intros a _. apply (IH a (S n)).
    specialize (Hp a I). unfold tally in Hp. cbn in Hp. rewrite E in Hp.
    by rewrite <- Nat.add_succ_comm in Hp.
  - intros a _. apply (IH a n). specialize (Hp a I). unfold tally in Hp. cbn in Hp. by rewrite E in Hp.
Qed.

(** ** Whatever is left *)

Lemma thrifty_spends {A} (p : prog A) n : thrifty adm0 adm P n p -> spends adm P n p.
Proof. destruct p as [r|c k]; [done|]. by intros []. Qed.

Lemma thrifty_avoids {A} (p : prog A) n : avoids P p -> thrifty adm0 adm P n p.
Proof.
  intros Hp. induction p as [r|c k IH]; [done|]. split; [by apply spends_avoids|].
  destruct Hp as [Hc Hk]. auto.
Qed.

Lemma thrifty_attempt {A} (p : prog A) n : thrifty adm0 adm P n p -> thrifty adm0 adm P n (attempt p).
Proof.
  induction p as [r|c k IH]; [done|]. intros [Hs Hk]. split; [|auto].
  exact (spends_attempt (Vis c k) n Hs).
Qed.

(** What follows needs nothing. *)
Lemma thrifty_bind {A B} (p : prog A) (f : A -> prog B) n :
  thrifty adm0 adm P n p -> (forall a, spends adm P 0 (f a)) ->
  (forall a, thrifty adm0 adm P n (f a)) -> thrifty adm0 adm P n (bind p f).
Proof.
  intros Hp Hs Hf. induction p as [[a|e]|c k IH]; [apply Hf|done|]. destruct Hp as [Hc Hk].
  split; [|auto]. exact (spends_bind (Vis c k) f n Hc Hs).
Qed.

(** What precedes spends nothing. *)
Lemma thrifty_then {A B} (p : prog A) (f : A -> prog B) n :
  avoids P p -> (forall a, thrifty adm0 adm P n (f a)) -> thrifty adm0 adm P n (bind p f).
Proof.
  intros Hp Hf. induction p as [[a|e]|c k IH]; [apply Hf|done|]. destruct Hp as [Hc Hk].
  split; [|auto]. apply (spends_then (Vis c k)); [done|]. intros a. by apply thrifty_spends.
Qed.

(** What only settles the result. *)
Lemma thrifty_settle {A B} (p : prog A) (f : A -> prog B) n :
  thrifty adm0 adm P n p -> (forall a, avoids P (f a)) -> thrifty adm0 adm P n (bind p f).
Proof.
  intros Hp Hf. apply thrifty_bind; [done| |]; intros a; [by apply spends_avoids|by apply thrifty_avoids].
Qed.

(** An effect whose answer matters. *)
Lemma thrifty_do {B} c (f : ans c -> prog B) n :
  (forall ev, adm ev -> adm0 ev) -> P c = false ->
  (forall a x, adm0 (Ev c a) -> to_res (fallible c) a = Ok x -> thrifty adm0 adm P n (f x)) ->
  thrifty adm0 adm P n (bind (perform c) f).
Proof.
  intros Hsub Hc Hf. assert (Hk : forall a, adm0 (Ev c a) ->
    thrifty adm0 adm P n (bind (Done (to_res (fallible c) a)) f)).
  { intros a Ha. specialize (Hf a). cbn [bind]. destruct (to_res (fallible c) a); [by apply Hf|done]. }
  split; [|exact Hk]. cbn [spends]. rewrite Hc. intros a Ha. by apply thrifty_spends, Hk, Hsub.
Qed.
End Budget.

(** A budget for every run is one for whatever is left of it. *)
Lemma spends_weaken (adm adm' : event -> Prop) P {A} (p : prog A) n :
  (forall ev, adm' ev -> adm ev) -> spends adm P n p -> spends adm' P n p.
Proof.
  intros Ha. revert n. induction p as [r|c k IH]; intros n; [done|]. cbn.
  destruct (P c); [destruct n; [done|]|]; auto.
Qed.

Lemma thrifty_runs adm0 adm P {A} (p : prog A) n :
  spends (fun _ => True) P n p -> thrifty adm0 adm P n p.
Proof.
  revert n. induction p as [r|c k IH]; intros n Hp; [done|].
  split; [by eapply spends_weaken; [|exact Hp]|]. intros a _. apply IH. cbn in Hp.
  destruct (P c); [|by apply Hp]. destruct n as [|n]; [done|]. apply (spends_more _ _ _ n); [lia|]. by apply Hp.
Qed.
