(* ===== verification/Redaction.v ===== *)
(** * Secret redaction ([src/credbroker/logging_config.py])

    The registry of sensitive values, [scrub], the logging filter and
    [configure_logging].  [scrub] walks a Python [set], so its theorems hold
    for every order in which the registry lists its members. *)

From Stdlib Require Import Ascii.
From stdpp Require Import base tactics list strings numbers sets.
From S2P Require Import Prelude PyStr Errors Json Effects.
Open Scope string_scope.

Definition REDACTED : string := "[REDACTED]".

(** [_MIN_SECRET_LEN]. *)
Definition MIN_SECRET_LEN : Z := 8.

(** ** Registering *)

(** The argument of [register_secret]: [bytes], or any other value; [str]
    is [ArgValue (JStr s)] and [None] is [ArgValue JNull]. *)
Inductive secret_arg :=
| ArgBytes (b : bytes)
| ArgValue (j : json).

(** The tail of [register_secret]: the length guard, then the insertion. *)
Definition register_str (s : string) : prog unit :=
  if (py_len s <? MIN_SECRET_LEN)%Z then ret tt else perform (ERegisterSecret s).

(** [register_secret].  [len()] of a number, and adding a list or a dict to
    a set, raise [TypeError]. *)
Definition register_secret (v : secret_arg) : prog unit :=
  match v with
  | ArgBytes [] => ret tt
  | ArgBytes b =>
      match decode_utf8 b with
      | Some s => register_str s
      | None => ret tt
      end
  | ArgValue j =>
      if negb (truthy j) then ret tt else
      match j with
      | JStr s => register_str s
      | JArr l =>
          if (Z.of_nat (length l) <? MIN_SECRET_LEN)%Z then ret tt
          else raise (raise_of TypeError "unhashable type: 'list'")
      | JObj l =>
          if (Z.of_nat (length l) <? MIN_SECRET_LEN)%Z then ret tt
          else raise (raise_of TypeError "unhashable type: 'dict'")
      | _ => raise (raise_of TypeError "object has no len()")
      end
  end.

(** ** Scrubbing *)

(** The loop of [scrub] over a snapshot of the registry. *)
Fixpoint scrub_with (secrets : list string) (text : string) : string :=
  match secrets with
  | [] => text
  | s :: secrets' =>
      scrub_with secrets' (if contains s text then replace s REDACTED text else text)
  end.

(** [scrub]. *)
Definition scrub (text : string) : prog string :=
  secrets <- perform ERegistry ;;
  ret (scrub_with secrets text).

(** [clear_registry]. *)
Definition clear_registry : prog unit := perform EClearRegistry.

(** ** The logging filter *)

(** A log record as the filter sees it: the message is still to be
    formatted ([None] when [getMessage] raises) or was replaced by a
    literal; [exc_info] is what formatting the traceback gives ([None] when
    that raises). *)
Inductive record_message :=
| Unformatted (text : option string)
| Literal (text : string).

Record log_record := {
  lr_message : record_message;
  lr_exc_info : option (option string);
  lr_exc_text : option string;
  lr_stack_info : option string
}.

Definition get_message (r : log_record) : option string :=
  match lr_message r with Unformatted t => t | Literal t => Some t end.

Definition nonempty (o : option string) : bool :=
  match o with None => false | Some s => negb (String.eqb s "") end.

(** The part of [filter] after the message: traceback text and stack. *)
Definition scrub_traceback (secrets : list string) (r : log_record) : log_record :=
  let r :=
    match lr_exc_info r with
    | Some traceback =>
        if negb (nonempty (lr_exc_text r)) then
          match traceback with
          | Some text => {| lr_message := lr_message r; lr_exc_info := lr_exc_info r;
                            lr_exc_text := Some (scrub_with secrets text);
                            lr_stack_info := lr_stack_info r |}
          | None => {| lr_message := lr_message r; lr_exc_info := None;
                       lr_exc_text := lr_exc_text r; lr_stack_info := lr_stack_info r |}
          end
        else {| lr_message := lr_message r; lr_exc_info := lr_exc_info r;
                lr_exc_text := scrub_with secrets <$> lr_exc_text r;
                lr_stack_info := lr_stack_info r |}
    | None =>
        if nonempty (lr_exc_text r)
        then {| lr_message := lr_message r; lr_exc_info := lr_exc_info r;
                lr_exc_text := scrub_with secrets <$> lr_exc_text r;
                lr_stack_info := lr_stack_info r |}
        else r
    end in
  if nonempty (lr_stack_info r)
  then {| lr_message := lr_message r; lr_exc_info := lr_exc_info r;
          lr_exc_text := lr_exc_text r; lr_stack_info := scrub_with secrets <$> lr_stack_info r |}
  else r.

(** [SecretRedactionFilter.filter], which never drops the record: the
    record it leaves. *)
Definition filter_record (secrets : list string) (r : log_record) : log_record :=
  match get_message r with
  | None => r
  | Some message =>
      let scrubbed := scrub_with secrets message in
      scrub_traceback secrets
        (if String.eqb scrubbed message then r
         else {| lr_message := Literal scrubbed; lr_exc_info := lr_exc_info r;
                 lr_exc_text := lr_exc_text r; lr_stack_info := lr_stack_info r |})
  end.

(** What [logging.Formatter.format] puts in the log line for a filtered
    record: the message, the traceback (formatted from [exc_info] only when
    [exc_text] is empty) and the stack.  [None] when formatting raises. *)
Definition line_parts (r : log_record) : option (list string) :=
  message ← get_message r;
  traceback ← (if nonempty (lr_exc_text r) then Some (option_list (lr_exc_text r))
               else match lr_exc_info r with
                    | Some (Some text) => Some [text]
                    | Some None => None
                    | None => Some []
                    end);
  Some (message :: traceback ++ option_list (lr_stack_info r))%list.

(** ** [configure_logging] *)

Inductive log_filter := RedactionFilter | OtherFilter (name : string).

#[export] Instance log_filter_eq_dec : EqDecision log_filter.
Proof. solve_decision. Defined.

(** A handler of the root logger: its filters, in order. *)
Definition log_handler : Type := list log_filter.

Definition add_redaction (h : log_handler) : log_handler :=
  if existsb (fun f => bool_decide (f = RedactionFilter)) h then h
  else (h ++ [RedactionFilter])%list.

(** [if not root.handlers]: a stream handler is added to a bare root. *)
Definition root_handlers (handlers : list log_handler) : list log_handler :=
  match handlers with [] => [[]] | _ => handlers end.

(** [configure_logging]: the root logger's handlers afterwards. *)
Definition configure_logging (handlers : list log_handler) : list log_handler :=
  map add_redaction (root_handlers handlers).

(** ** Lemmas *)

(** A secret that cannot be confused with the marker: the brackets of the
    marker do not occur in it, and it is not the word between them. *)
Definition plain_secret (s : string) : bool :=
  negb (has_char "["%char s) && negb (has_char "]"%char s) &&
  (MIN_SECRET_LEN <=? py_len s)%Z && negb (String.eqb s "REDACTED").

Lemma py_len_le_length s : (py_len s <= Z.of_nat (String.length s))%Z.
Proof. induction s as [|c s IH]; simpl; [done|]. case_match; lia. Qed.

Lemma startswith_length p s : startswith p s = true -> String.length p <= String.length s.
Proof.
  intros [t ->]%startswith_app_inv. induction p; simpl; lia.
Qed.

Lemma contains_length n s : contains n s = true -> String.length n <= String.length s.
Proof.
  induction s as [|c s IH]; intros H.
  - simpl in H. rewrite orb_false_r in H. by apply startswith_length.
  - apply contains_cons in H as [H%startswith_length|H%IH]; simpl in *; lia.
Qed.

Lemma contains_same_length n s :
  contains n s = true -> String.length n = String.length s -> n = s.
Proof.
  destruct s as [|c s]; intros H Hl.
  - by destruct n.
  - apply contains_cons in H as [H|H%contains_length]; [|simpl in Hl; lia].
    apply startswith_app_inv in H as [t Ht]. rewrite Ht in Hl |- *.
    assert (t = "") as ->. { clear - Hl. induction n; simpl in *; [by destruct t|auto]. }
    by rewrite append_nil_r.
Qed.

Lemma plain_secret_spec s :
  plain_secret s = true ->
  has_char "["%char s = false /\ has_char "]"%char s = false /\ s <> "" /\
  contains s "REDACTED" = false.
Proof.
  unfold plain_secret. rewrite !andb_true_iff, !negb_true_iff, String.eqb_neq, Z.leb_le.
  intros [[[H1 H2] H3] H4]. pose proof (py_len_le_length s). unfold MIN_SECRET_LEN in H3.
  repeat split; auto.
  - by intros ->.
  - destruct (contains s "REDACTED") eqn:E; [|done]. destruct H4.
    apply contains_same_length; [done|]. apply contains_length in E. simpl in *. lia.
Qed.

Lemma startswith_bracket s t c :
  has_char c s = false -> s <> "" -> startswith s (String c t) = false.
Proof.
  destruct s as [|d s]; [done|]. simpl. intros [Hd _]%orb_false_iff _. by rewrite Hd.
Qed.

Lemma redacted_app t :
  REDACTED +:+ t = String "["%char ("REDACTED" +:+ String "]"%char t).
Proof. done. Qed.

(** A bracket-free string that starts the text after replacement started it
    before. *)
Lemma replace_startswith old s text :
  has_char "["%char s = false ->
  startswith s (replace_go old REDACTED 0 text) = true -> startswith s text = true.
Proof.
  revert s. induction text as [|c text IH]; intros s Hb H; [done|].
  cbn [replace_go] in H. destruct (startswith old (String c text)).
  - destruct (decide (s = "")) as [->|Hne]; [done|].
    rewrite redacted_app in H. by rewrite startswith_bracket in H.
  - destruct s as [|d s]; [done|]. simpl in *.
    apply orb_false_iff in Hb as [_ Hb]. apply andb_true_iff in H as [-> H]. by apply IH.
Qed.

Lemma startswith_app_bracket s w c rest :
  has_char c s = false -> startswith s (w +:+ String c rest) = true -> startswith s w = true.
Proof.
  revert s. induction w as [|d w IH]; intros s Hc H.
  - change ("" +:+ String c rest) with (String c rest) in H.
    destruct (decide (s = "")) as [->|Hne]; [done|]. by rewrite startswith_bracket in H.
  - destruct s as [|e s]; [done|]. rewrite append_cons in H. simpl in *.
    apply orb_false_iff in Hc as [_ Hc]. apply andb_true_iff in H as [-> H]. by apply IH.
Qed.

Lemma contains_app_bracket s w c rest :
  has_char c s = false -> s <> "" ->
  contains s (w +:+ String c rest) = true -> contains s w = true \/ contains s rest = true.
Proof.
  intros Hc Hne. induction w as [|d w IH]; rewrite ?append_cons; intros [H|H]%contains_cons.
  - by rewrite startswith_bracket in H.
  - by right.
  - left. apply contains_startswith. by apply (startswith_app_bracket s (String d w) c rest).
  - destruct (IH H) as [H'|H']; [left|by right]. by apply contains_cons_r.
Qed.

(** A plain string found after replacement was there before. *)
Lemma replace_contains old s skip text :
  plain_secret s = true ->
  contains s (replace_go old REDACTED skip text) = true -> contains s text = true.
Proof.
  intros Hp. destruct (plain_secret_spec s Hp) as (Hl & Hr & Hne & Hm).
  revert skip. induction text as [|c text IH]; intros skip H; [done|].
  cbn [replace_go] in H. destruct skip as [|skip].
  2: { apply contains_cons_r. by eapply IH. }
  destruct (startswith old (String c text)) eqn:E.
  - unfold REDACTED in H. change ("[REDACTED]" +:+ ?x) with
      (String "["%char ("REDACTED" +:+ String "]"%char x)) in H.
    apply contains_cons in H as [H|H]; [by rewrite startswith_bracket in H|].
    apply contains_app_bracket in H as [H|H]; [congruence| |done|done].
    apply contains_cons_r. by eapply IH.
  - apply contains_cons in H as [H|H].
    + apply contains_startswith. apply (replace_startswith old); [done|]. cbn [replace_go]. by rewrite E.
    + apply contains_cons_r. by eapply IH.
Qed.

(** The replaced string itself is gone. *)
Lemma replace_removes s skip text :
  plain_secret s = true -> contains s (replace_go s REDACTED skip text) = false.
Proof.
  intros Hp. destruct (plain_secret_spec s Hp) as (Hl & Hr & Hne & Hm).
  apply not_true_is_false. revert skip. induction text as [|c text IH]; intros skip H.
  - simpl in H. rewrite orb_false_r in H. by apply startswith_nil_r in H.
  - cbn [replace_go] in H. destruct skip as [|skip]; [|by eapply IH].
    destruct (startswith s (String c text)) eqn:E.
    + rewrite redacted_app in H.
      apply contains_cons in H as [H|H]; [by rewrite startswith_bracket in H|].
      apply contains_app_bracket in H as [H|H]; [congruence| |done|done]. by eapply IH.
    + apply contains_cons in H as [H|H]; [|by eapply IH].
      rewrite (replace_startswith s) in E; [done|done|]. cbn [replace_go]. by rewrite E.
Qed.

Lemma scrub_with_absent s secrets text :
  plain_secret s = true -> contains s text = false ->
  contains s (scrub_with secrets text) = false.
Proof.
  intros Hp. revert text. induction secrets as [|x secrets IH]; intros text H; [done|].
  simpl. apply IH. destruct (contains x text); [|done].
  apply not_true_is_false. intros Hc%replace_contains; congruence.
Qed.

Lemma scrub_with_removes s secrets text :
  plain_secret s = true -> s ∈ secrets -> contains s (scrub_with secrets text) = false.
Proof.
  intros Hp. revert text. induction secrets as [|x secrets IH]; intros text Hs.
  - by apply not_elem_of_nil in Hs.
  - simpl. apply elem_of_cons in Hs as [->|Hs]; [|by apply IH].
    apply scrub_with_absent; [done|]. destruct (contains x text) eqn:E; [|done].
    by apply replace_removes.
Qed.

(** A text without secrets is left alone. *)
Lemma scrub_with_id secrets text :
  Forall (fun s => contains s text = false) secrets -> scrub_with secrets text = text.
Proof. induction 1 as [|s secrets Hs _ IH]; simpl; [done|]. by rewrite Hs. Qed.

Lemma scrub_with_idem secrets text :
  Forall (fun s => plain_secret s = true) secrets ->
  scrub_with secrets (scrub_with secrets text) = scrub_with secrets text.
Proof.
  intros Hp. apply scrub_with_id. apply Forall_forall. intros s Hs.
  apply scrub_with_removes; [by apply (proj1 (Forall_forall _ _) Hp s)|done].
Qed.

Lemma nonempty_some o : nonempty o = true -> exists s, o = Some s.
Proof. destruct o; [eauto|done]. Qed.

Lemma scrub_traceback_message secrets r :
  lr_message (scrub_traceback secrets r) = lr_message r.
Proof. unfold scrub_traceback. repeat case_match; done. Qed.

Lemma replace_nonempty old s : s <> "" -> replace old REDACTED s <> "".
Proof.
  destruct s as [|c s]; [done|]. intros _. unfold replace. cbn [replace_go].
  by destruct (startswith old (String c s)).
Qed.

(** Scrubbing never empties a text. *)
Lemma scrub_with_empty secrets t : scrub_with secrets t = "" -> t = "".
Proof.
  revert t. induction secrets as [|s secrets IH]; intros t; [done|]. simpl.
  intros H%IH. destruct (contains s t); [|done].
  destruct (decide (t = "")) as [|Hne]; [done|]. by apply (replace_nonempty s) in Hne.
Qed.

(** Whatever [scrub_traceback] leaves for the formatter is scrubbed. *)
Lemma scrub_traceback_clean s secrets r m parts :
  plain_secret s = true -> s ∈ secrets -> get_message r = Some m ->
  contains s m = false -> line_parts (scrub_traceback secrets r) = Some parts ->
  Forall (fun p => contains s p = false) parts.
Proof.
  intros Hp Hs Hm Hcm. unfold line_parts. unfold get_message at 1.
  rewrite scrub_traceback_message. fold (get_message r). rewrite Hm. cbn [mbind option_bind].
  assert (Hempty : contains s "" = false).
  { destruct (plain_secret_spec s Hp) as (_ & _ & Hne & _). by destruct s. }
  assert (Hscr : forall t, contains s (scrub_with secrets t) = false)
    by (intros; by apply scrub_with_removes).
  destruct r as [msg info text stack]. unfold scrub_traceback. cbn.
  destruct info as [[tb|]|]; destruct text as [t|]; destruct stack as [st|]; cbn;
  repeat (match goal with |- context [String.eqb ?a ?b] => destruct (String.eqb_spec a b) end; subst; cbn);
  intros; simplify_eq; repeat constructor; auto;
  match goal with H : scrub_with _ _ = "" |- _ => apply scrub_with_empty in H as -> end; done.
Qed.

(** *** Registering a string *)

Lemma register_secret_str s :
  register_secret (ArgValue (JStr s)) =
  if (py_len s <? MIN_SECRET_LEN)%Z then ret tt else perform (ERegisterSecret s).
Proof. destruct s; [done|]. unfold register_secret, register_str. by destruct (py_len _ <? MIN_SECRET_LEN)%Z. Qed.

Lemma register_returns {St} (h : handler St) s σ :
  result_of h (register_secret (ArgValue (JStr s))) σ = Ok tt.
Proof.
  rewrite register_secret_str. destruct (py_len _ <? MIN_SECRET_LEN)%Z; [done|].
  unfold result_of. simpl. by destruct (h σ (ERegisterSecret s)) as [[] ?].
Qed.

Lemma register_trace {St} (h : handler St) s σ :
  (MIN_SECRET_LEN <= py_len s)%Z ->
  trace_of h (register_secret (ArgValue (JStr s))) σ = [Ev (ERegisterSecret s) tt].
Proof.
  intros Hs. rewrite register_secret_str. destruct (Z.ltb_spec (py_len s) MIN_SECRET_LEN); [lia|].
  unfold trace_of. simpl. by destruct (h σ (ERegisterSecret s)) as [[] ?].
Qed.

(** ** Properties *)





(** After [configure_logging] the root logger has at least one handler,
    every handler redacts, no handler lost a filter, and a second call
    changes nothing. *)
Theorem configure_logging_redacts (handlers : list log_handler) :
  let after := configure_logging handlers in
  after <> [] /\ Forall (fun h => RedactionFilter ∈ h) after /\
  Forall2 (fun h h' => h ⊆ h') (root_handlers handlers) after /\
  configure_logging after = after.
Proof.
  assert (Hin : forall h, RedactionFilter ∈ add_redaction h).
  { intros h. unfold add_redaction. destruct (existsb _ h) eqn:E; [|set_solver].
    apply existsb_exists in E as (f & Hf & Hd). apply bool_decide_eq_true in Hd as ->.
    by apply list_elem_of_In. }
  assert (Hid : forall h, RedactionFilter ∈ h -> add_redaction h = h).
  { intros h Hh. unfold add_redaction. destruct (existsb _ h) eqn:E; [done|].
    apply not_true_iff_false in E. destruct E. apply existsb_exists.
    exists RedactionFilter. by rewrite <- list_elem_of_In. }
  assert (Hsub : forall h, h ⊆ add_redaction h).
  { intros h. unfold add_redaction. case_match; set_solver. }
  assert (Hne : root_handlers handlers <> []) by by destruct handlers.
  intros after. unfold after, configure_logging. clear after.
  generalize dependent (root_handlers handlers). intros hs Hne. repeat split.
  - by destruct hs.
  - clear Hne. induction hs; simpl; constructor; auto.
  - clear Hne. induction hs; simpl; constructor; auto.
  - replace (root_handlers (map add_redaction hs)) with (map add_redaction hs) by by destruct hs.
    rewrite map_map. apply map_ext. intros h. by apply Hid.
Qed.
