(* ===== verification/Retry.v ===== *)
(** * Retries ([src/credbroker/reliability/retry.py])

    [default_retryable] and [call_with_retries].  The breaker of a provider
    is a shared object: the methods load it, run the pure method of
    [Breaker] on the clock's readings and store it back, with no await in
    between.  Delays are microseconds. *)

From stdpp Require Import base tactics list strings numbers gmap.
From S2P Require Import Prelude PyStr Errors Json Models Breaker Effects.
Open Scope string_scope.
#[local] Open Scope Z_scope.

(** ** Methods of a shared breaker *)

(** [self._clock()] inside [_sync], which reads it only when open. *)
Definition clock_if_open (b : CircuitBreaker) : prog Z :=
  match cb_st b with Open_ => perform EMonotonic | _ => ret 0 end.

Definition circuit_allow (provider : string) : prog bool :=
  b <- perform (EReadCircuit provider) ;;
  now <- clock_if_open b ;;
  perform (EPutCircuit provider (allow now b).2) ;;
  ret (allow now b).1.

Definition circuit_record_success (provider : string) : prog unit :=
  b <- perform (EReadCircuit provider) ;;
  perform (EPutCircuit provider (record_success b)).

Definition circuit_record_failure (provider : string) : prog unit :=
  b <- perform (EReadCircuit provider) ;;
  now_sync <- clock_if_open b ;;
  now_trip <- perform EMonotonic ;;
  perform (EPutCircuit provider (record_failure now_sync now_trip b)).

(** ** [default_retryable] *)

Definition default_retryable (e : exn) : bool :=
  if caught_by [HttpxTimeoutException; HttpxTransportError] e then true
  else if isinstance e ProviderCallError then
    match exn_status e with
    | Some status => 500 <=? status
    | None => false
    end
  else false.

(** ** [call_with_retries] *)

Definition circuit_open_error : exn :=
  raise_of ProviderUnavailableError "provider temporarily unavailable (circuit breaker open)".

Definition when_circuit {A} (circuit : option string) (f : string -> prog A) (default : A) : prog A :=
  match circuit with Some c => f c | None => ret default end.

(** The [for attempt in range(max_retries + 1)] loop, with [left] attempts
    to go. *)
Fixpoint retry_loop {A} (left : nat) (att : Z) (fn : prog A) (max_retries base_delay : Z)
    (circuit : option string) (retryable : exn -> bool) : prog A :=
  match left with
  | O => raise (raise_of PyAssertionError "unreachable")
  | S left' =>
      allowed <- when_circuit circuit circuit_allow true ;;
      if negb allowed then raise circuit_open_error else
      outcome <- attempt fn ;;
      match outcome with
      | Exn e =>
          if negb (retryable e) then raise e else
          when_circuit circuit circuit_record_failure tt ;;
          if max_retries <=? att then raise e else
          perform (ESleep (base_delay * 2 ^ att)) ;;
          retry_loop left' (att + 1) fn max_retries base_delay circuit retryable
      | Ok result =>
          when_circuit circuit circuit_record_success tt ;;
          ret result
      end
  end.

Definition call_with_retries {A} (fn : prog A) (max_retries base_delay : Z)
    (circuit : option string) (retryable : exn -> bool) : prog A :=
  if max_retries <? 0 then raise (raise_of ValueError "max_retries must be >= 0")
  else if base_delay <? 0 then raise (raise_of ValueError "base_delay must be >= 0")
  else retry_loop (Z.to_nat (max_retries + 1)) 0 fn max_retries base_delay circuit retryable.

(** ** The discipline of one call

    What the caller can see of a run: the answers of the calls it made and
    the delays it slept, in order. *)
Record retry_log := RetryLog {
  rl_answers : list (res http_response);
  rl_delays : list Z
}.

Definition retry_observe (l : retry_log) (e : event) : retry_log :=
  match e with
  | Ev (EHttp _) a => RetryLog (rl_answers l ++ [a])%list (rl_delays l)
  | Ev (ESleep d) _ => RetryLog (rl_answers l) (rl_delays l ++ [d])%list
  | _ => l
  end.

(** The delays before the second, third, ... attempt. *)
Definition backoffs (base : Z) (n : nat) : list Z :=
  map (fun i => base * 2 ^ Z.of_nat i) (seq 0 n).

(** What the docstring promises of the [n + 1] attempts of one call that
    ended in [r]: every answer but the last was a retryable failure, a pause
    of [base * 2^i] followed each, and the result is the last answer or,
    with the circuit open, an error raised instead of the next attempt. *)
Definition disciplined (circuit : option string) (retryable : exn -> bool) (max_retries base : Z)
    (l : retry_log) (r : res http_response) : Prop :=
  let n := length (rl_answers l) in
  Z.of_nat n <= max_retries + 1 /\
  ( (* the circuit refused the next attempt *)
   (circuit <> None /\ r = Exn circuit_open_error /\ rl_delays l = backoffs base n /\
    Forall (fun a => exists e, a = Exn e /\ retryable e = true) (rl_answers l)) \/
   (* the last attempt decided *)
   (exists before, rl_answers l = (before ++ [r])%list /\
    rl_delays l = backoffs base (n - 1) /\
    Forall (fun a => exists e, a = Exn e /\ retryable e = true) before /\
    (forall e, r = Exn e -> retryable e = true -> Z.of_nat n = max_retries + 1))).

(** ** Lemmas *)

Lemma backoffs_snoc base n :
  backoffs base (S n) = (backoffs base n ++ [base * 2 ^ Z.of_nat n])%list.
Proof. unfold backoffs. by rewrite seq_S, map_app. Qed.

Section Observing.
Context {S : Type} (step : S -> event -> S) (adm : S -> event -> Prop).

(** The ghost state ignores the breaker's own effects. *)
Definition ignores_circuit : Prop :=
  forall s e, match ev_eff e with
              | EReadCircuit _ | EPutCircuit _ _ | EGetCircuit _ | EMonotonic => step s e = s
              | _ => True
              end.

Context (Hign : ignores_circuit).

Lemma wp_circuit_allow c Q s :
  (forall b, Q s (Ok b)) -> wp step adm (circuit_allow c) Q s.
Proof.
  intros HQ. wp_ans. rewrite (Hign _ (Ev (EReadCircuit c) a)).
  unfold clock_if_open. destruct (cb_st a); repeat wp_ans;
    rewrite ?(Hign _ (Ev EMonotonic _)), (Hign _ (Ev (EPutCircuit _ _) _)); apply HQ.
Qed.

Lemma wp_circuit_record_success c Q s :
  Q s (Ok tt) -> wp step adm (circuit_record_success c) Q s.
Proof.
  intros HQ. wp_ans. wp_ans. rewrite (Hign _ (Ev (EReadCircuit _) _)), (Hign _ (Ev (EPutCircuit _ _) _)).
  done.
Qed.

Lemma wp_circuit_record_failure c Q s :
  Q s (Ok tt) -> wp step adm (circuit_record_failure c) Q s.
Proof.
  intros HQ. wp_ans. rewrite (Hign _ (Ev (EReadCircuit c) a)).
  unfold clock_if_open. destruct (cb_st a); repeat wp_ans;
    rewrite ?(Hign _ (Ev EMonotonic _)), (Hign _ (Ev (EPutCircuit _ _) _));
    done.
Qed.
End Observing.

Lemma retry_observe_ignores : ignores_circuit retry_observe.
Proof. intros s [[] ?]; done. Qed.

(** The failures so far, when attempt number [k] is about to start. *)
Definition retrying (retryable : exn -> bool) (base : Z) (k : nat) (l : retry_log) : Prop :=
  length (rl_answers l) = k /\ rl_delays l = backoffs base k /\
  Forall (fun a => exists e, a = Exn e /\ retryable e = true) (rl_answers l).

Lemma disciplined_last circuit retryable max_retries base k l r :
  retrying retryable base k l -> Z.of_nat k <= max_retries ->
  (forall e, r = Exn e -> retryable e = true -> Z.of_nat k = max_retries) ->
  disciplined circuit retryable max_retries base
    (RetryLog (rl_answers l ++ [r]) (rl_delays l)) r.
Proof.
  intros (Hlen & Hd & Hf) Hk Hr. unfold disciplined; simpl. rewrite length_app, Hlen. simpl.
  split; [lia|]. right. exists (rl_answers l). repeat split; auto.
  - rewrite Hd. f_equal. lia.
  - intros e He Hre. specialize (Hr e He Hre). lia.
Qed.

Lemma wp_retry_loop circuit retryable max_retries base req left : forall k l,
  Z.of_nat k + Z.of_nat left = max_retries + 1 -> (0 < left)%nat ->
  retrying retryable base k l ->
  wp retry_observe any_answer
    (retry_loop left (Z.of_nat k) (perform (EHttp req)) max_retries base circuit retryable)
    (disciplined circuit retryable max_retries base) l.
Proof.
  induction left as [|left IH]; intros k l Hk Hl Hr; [lia|]. cbn [retry_loop].
  pose proof retry_observe_ignores as Hign.
  assert (Hgo : wp retry_observe any_answer
    (outcome <- attempt (perform (EHttp req)) ;;
     match outcome with
     | Exn e => if negb (retryable e) then raise e else
         when_circuit circuit circuit_record_failure tt ;;
         if max_retries <=? Z.of_nat k then raise e else
         perform (ESleep (base * 2 ^ Z.of_nat k)) ;;
         retry_loop left (Z.of_nat k + 1) (perform (EHttp req)) max_retries base circuit retryable
     | Ok result => when_circuit circuit circuit_record_success tt ;; ret result
     end) (disciplined circuit retryable max_retries base) l).
  { wp_ans.
    - apply wp_bind. assert (disciplined circuit retryable max_retries base
        (RetryLog (rl_answers l ++ [Ok a]) (rl_delays l)) (Ok a))
        by (eapply disciplined_last; eauto; [lia|done]).
      destruct circuit; [apply wp_circuit_record_success; auto|done].
    - destruct (retryable a) eqn:Ea; cbn [negb].
      2: { eapply disciplined_last; eauto; [lia|]. intros e [= ->]. congruence. }
      apply wp_bind.
      assert (Hcont : wp retry_observe any_answer
        (if max_retries <=? Z.of_nat k then raise a else
         perform (ESleep (base * 2 ^ Z.of_nat k)) ;;
         retry_loop left (Z.of_nat k + 1) (perform (EHttp req)) max_retries base circuit retryable)
        (disciplined circuit retryable max_retries base)
        (RetryLog (rl_answers l ++ [Exn a]) (rl_delays l))).
      { destruct (Z.leb_spec max_retries (Z.of_nat k)).
        - eapply disciplined_last; eauto; [lia|]. intros _ _ _. lia.
        - wp_ans. replace (Z.of_nat k + 1) with (Z.of_nat (S k)) by lia. apply IH; [lia|lia|].
          destruct Hr as (Hlen & Hd & Hf). unfold retrying; cbn [retry_observe rl_answers rl_delays].
          rewrite length_app, Hlen, backoffs_snoc, Hd. repeat split; [simpl; lia|].
          apply Forall_app; split; [done|]. constructor; [by exists a|done]. }
      destruct circuit; [apply wp_circuit_record_failure; auto|done]. }
  apply wp_bind. destruct circuit as [c|]; [|done]. cbn [when_circuit].
  apply wp_circuit_allow; [done|]. intros [|]; [done|]. cbn [negb raise wp].
  destruct Hr as (Hlen & Hd & Hf). split; [lia|]. left. rewrite Hlen. auto.
Qed.

(** *** Counting attempts

    An invariant [Inv k] of the ghost state after [k] attempts, kept by the
    function and blind to the breaker and the pauses. *)
Lemma wp_retry_count {S A} (step : S -> event -> S) (Inv : nat -> S -> Prop) (fn : prog A)
    circuit retryable max_retries base :
  ignores_circuit step -> (forall s d a, step s (Ev (ESleep d) a) = s) ->
  (forall k s, Inv k s -> wp step any_answer fn (fun s' _ => Inv (k + 1)%nat s') s) ->
  forall left att k s, Inv k s ->
  wp step any_answer (retry_loop left att fn max_retries base circuit retryable)
    (fun s' _ => exists k', (k' <= k + left)%nat /\ Inv k' s') s.
Proof.
  intros Hign Hsleep Hfn left. induction left as [|left IH]; intros att k s HI.
  { simpl. exists k. split; [lia|done]. }
  cbn [retry_loop]. apply wp_bind.
  assert (Hgo : wp step any_answer
    (outcome <- attempt fn ;;
     match outcome with
     | Exn e => if negb (retryable e) then raise e else
         when_circuit circuit circuit_record_failure tt ;;
         if max_retries <=? att then raise e else
         perform (ESleep (base * 2 ^ att)) ;;
         retry_loop left (att + 1) fn max_retries base circuit retryable
     | Ok result => when_circuit circuit circuit_record_success tt ;; ret result
     end) (fun s' _ => exists k', (k' <= k + Datatypes.S left)%nat /\ Inv k' s') s).
  { apply wp_bind, wp_attempt. eapply wp_mono; [by apply Hfn|]. intros s1 r HI1.
    assert (Hdone : exists k', (k' <= k + Datatypes.S left)%nat /\ Inv k' s1)
      by (exists (k + 1)%nat; split; [lia|done]).
    destruct r as [a|e].
    - apply wp_bind. destruct circuit; [|done]. by apply wp_circuit_record_success.
    - destruct (retryable e); [|done]. cbn [negb]. apply wp_bind.
      assert (Hnext : wp step any_answer
        (if max_retries <=? att then raise e else
         perform (ESleep (base * 2 ^ att)) ;;
         retry_loop left (att + 1) fn max_retries base circuit retryable)
        (fun s' _ => exists k', (k' <= k + Datatypes.S left)%nat /\ Inv k' s') s1).
      { destruct (max_retries <=? att); [done|]. intros u _. destruct u. rewrite Hsleep.
        eapply wp_mono; [by apply (IH _ (k + 1)%nat)|]. intros s2 r2 (k' & Hk & HI2).
        exists k'. split; [lia|done]. }
      destruct circuit; [by apply wp_circuit_record_failure|exact Hnext]. }
  destruct circuit as [c|]; [|exact Hgo]. cbn [when_circuit]. apply wp_circuit_allow; [done|].
  intros [|]; [exact Hgo|]. exists k. split; [lia|done].
Qed.

Lemma wp_call_count {S A} (step : S -> event -> S) (Inv : nat -> S -> Prop) (fn : prog A)
    circuit retryable max_retries base k s :
  ignores_circuit step -> (forall s d a, step s (Ev (ESleep d) a) = s) ->
  (forall k s, Inv k s -> wp step any_answer fn (fun s' _ => Inv (k + 1)%nat s') s) ->
  Inv k s ->
  wp step any_answer (call_with_retries fn max_retries base circuit retryable)
    (fun s' _ => exists k', (k' <= k + Z.to_nat (max_retries + 1))%nat /\ Inv k' s') s.
Proof.
  intros Hign Hsleep Hfn HI. unfold call_with_retries.
  destruct (max_retries <? 0); [exists k; split; [lia|done]|].
  destruct (base <? 0); [exists k; split; [lia|done]|]. by apply wp_retry_count.
Qed.

(** *** Honest memory

    A handler that keeps the breakers in [mem], as the process's dictionary
    does: a read gives the stored breaker, a write stores it. *)
Record honest_circuits {St} (h : handler St) (mem : St -> gmap string CircuitBreaker) : Prop := {
  honest_read : forall σ c b, mem σ !! c = Some b ->
    (h σ (EReadCircuit c)).1 = b /\ mem (h σ (EReadCircuit c)).2 = mem σ;
  honest_put : forall σ c b, mem (h σ (EPutCircuit c b)).2 = <[c := b]> (mem σ);
  honest_clock : forall σ, mem (h σ EMonotonic).2 = mem σ
}.

(** A breaker whose half-open probe is out. *)
Definition probing (b : CircuitBreaker) : Prop :=
  cb_st b = HalfOpen /\ cb_probe_in_flight b = true.

Lemma probing_allow b now : probing b -> allow now b = (false, b).
Proof.
  intros [Hs Hp]. pose proof (probing_refuses b [now] Hs Hp) as H. simpl in H.
  destruct (allow now b). congruence.
Qed.

(** While the probe is out a call is refused and leaves the breaker as it
    is. *)
Lemma probing_call_refused {St A} (h : handler St) mem σ c b (fn : prog A) max_retries base retryable :
  honest_circuits h mem -> mem σ !! c = Some b -> probing b ->
  0 <= max_retries -> 0 <= base ->
  let p := call_with_retries fn max_retries base (Some c) retryable in
  result_of h p σ = Exn circuit_open_error /\
  map ev_eff (trace_of h p σ) = [EReadCircuit c; EPutCircuit c b] /\
  mem (state_of h p σ) = mem σ.
Proof.
  intros Hh Hb Hp Hm Hbase p. unfold p, call_with_retries.
  destruct (Z.ltb_spec max_retries 0); [lia|]. destruct (Z.ltb_spec base 0); [lia|].
  replace (Z.to_nat (max_retries + 1)) with (S (Z.to_nat max_retries)) by lia.
  destruct (honest_read h mem Hh σ c b Hb) as [Hr Hr'].
  unfold result_of, trace_of, state_of. cbn.
  destruct (h σ (EReadCircuit c)) as [b' σ1]; simpl in *. subst b'.
  unfold clock_if_open. rewrite (proj1 Hp). cbn. rewrite probing_allow by done. cbn.
  pose proof (honest_put h mem Hh σ1 c b) as Hput.
  destruct (h σ1 (EPutCircuit c b)) as [u σ2]; simpl in *. cbn.
  repeat split. rewrite Hput, Hr'. by apply insert_id.
Qed.

(** A probe that ends in a failure that is not retryable stays out. *)
Lemma probe_not_returned {St A} (h : handler St) mem σ c b t e (fn : prog A) max_retries base retryable :
  honest_circuits h mem -> mem σ !! c = Some b ->
  cb_st b = Open_ -> cb_opened_at b = Some t ->
  (forall σ, cb_reset b <= (h σ EMonotonic).1 - t) ->
  (forall σ, result_of h fn σ = Exn e /\ mem (state_of h fn σ) = mem σ) -> retryable e = false ->
  0 <= max_retries -> 0 <= base ->
  let p := call_with_retries fn max_retries base (Some c) retryable in
  result_of h p σ = Exn e /\
  exists b', mem (state_of h p σ) !! c = Some b' /\ probing b'.
Proof.
  intros Hh Hb Hs Ho Hclock Hfn Hre Hm Hbase p. unfold p, call_with_retries.
  destruct (Z.ltb_spec max_retries 0); [lia|]. destruct (Z.ltb_spec base 0); [lia|].
  replace (Z.to_nat (max_retries + 1)) with (S (Z.to_nat max_retries)) by lia.
  cbn [retry_loop when_circuit].
  set (b' := {| cb_failure_threshold := cb_failure_threshold b; cb_reset := cb_reset b;
                cb_st := HalfOpen; cb_failures := cb_failures b;
                cb_opened_at := cb_opened_at b; cb_probe_in_flight := true |}).
  assert (Hallow : result_of h (circuit_allow c) σ = Ok true /\
                   mem (state_of h (circuit_allow c) σ) !! c = Some b').
  { destruct (honest_read h mem Hh σ c b Hb) as [Hr Hr'].
    unfold result_of, state_of, circuit_allow. cbn.
    destruct (h σ (EReadCircuit c)) as [b1 σ1]; simpl in *. subst b1.
    unfold clock_if_open. rewrite Hs. cbn. pose proof (Hclock σ1) as Ht.
    destruct (h σ1 EMonotonic) as [now σ2]; simpl in *. cbn.
    assert (allow now b = (true, b')) as ->.
    { unfold b', allow, sync. rewrite Hs, Ho. apply Z.leb_le in Ht as ->. done. }
    cbn. pose proof (honest_put h mem Hh σ2 c b') as Hput.
    destruct (h σ2 (EPutCircuit c b')) as [u σ3]; simpl in *. split; [done|].
    rewrite Hput. by rewrite lookup_insert_eq. }
  destruct Hallow as [Ha1 Ha2].
  rewrite result_bind, state_bind, Ha1. cbn [negb].
  destruct (Hfn (state_of h (circuit_allow c) σ)) as [Hf1 Hf2].
  assert (Hat : forall σ, result_of h (attempt fn) σ = Ok (result_of h fn σ) /\
                          state_of h (attempt fn) σ = state_of h fn σ).
  { intros σ'. unfold result_of, state_of. by rewrite interp_attempt. }
  rewrite result_bind, state_bind. rewrite !(proj1 (Hat _)), (proj2 (Hat _)), Hf1. rewrite Hre.
  split; [done|]. exists b'. split; [|done]. unfold state_of at 1. simpl. by rewrite Hf2.
Qed.

(** ** Properties *)

(** C31. Whatever the provider, the clock and the shared breaker do, one
    call makes at most [1 + max_retries] attempts; every attempt but the
    last failed in a retryable way and was followed by a pause of
    [base_delay * 2^i]; the result is that of the last attempt, and a
    retryable failure is returned only when the attempts are used up; when
    the circuit refuses, the error is [ProviderUnavailableError] and no
    further attempt is made.  Negative arguments are refused before any
    effect. *)
Theorem call_with_retries_disciplined {St} (h : handler St) (σ : St) (req : http_request)
    (max_retries base_delay : Z) (circuit : option string) (retryable : exn -> bool) :
  let p := call_with_retries (perform (EHttp req)) max_retries base_delay circuit retryable in
  if (max_retries <? 0) || (base_delay <? 0)
  then trace_of h p σ = [] /\ exists msg, result_of h p σ = Exn (raise_of ValueError msg)
  else disciplined circuit retryable max_retries base_delay
         (foldl retry_observe (RetryLog [] []) (trace_of h p σ)) (result_of h p σ).
Proof.
  intros p. unfold p, call_with_retries. destruct (Z.ltb_spec max_retries 0); [by split; eauto|].
  destruct (Z.ltb_spec base_delay 0); [by split; eauto|]. cbn [orb].
  apply (wp_every_run_fold retry_observe).
  apply (wp_retry_loop _ _ _ _ _ _ 0); [lia|lia|]. by repeat split.
Qed.

(** C32. A probe that fails in a way that is not retryable (a provider 4xx,
    say) takes the provider down for good: the probe slot is never given
    back, so every later call, whenever it is made and whatever it would do,
    is refused with [ProviderUnavailableError] before its function runs. *)
Theorem lost_probe_blocks_provider {St A B} (h : handler St)
    (mem : St -> gmap string CircuitBreaker) (σ : St) (c : string) (b : CircuitBreaker) (t : Z)
    (e : exn) (fn : prog A) (max_retries base : Z) :
  honest_circuits h mem -> mem σ !! c = Some b ->
  cb_st b = Open_ -> cb_opened_at b = Some t ->
  (forall σ, cb_reset b <= (h σ EMonotonic).1 - t) ->
  (forall σ, result_of h fn σ = Exn e /\ mem (state_of h fn σ) = mem σ) ->
  default_retryable e = false -> 0 <= max_retries -> 0 <= base ->
  let σ1 := state_of h (call_with_retries fn max_retries base (Some c) default_retryable) σ in
  forall (σ2 : St) (later : prog B), mem σ2 !! c = mem σ1 !! c ->
  let p := call_with_retries later max_retries base (Some c) default_retryable in
  result_of h p σ2 = Exn circuit_open_error /\ length (trace_of h p σ2) = 2%nat /\
  mem (state_of h p σ2) = mem σ2.
Proof.
  intros Hh Hb Hs Ho Hclock Hfn Hre Hm Hbase σ1 σ2 later H2 p.
  destruct (probe_not_returned h mem σ c b t e fn max_retries base default_retryable)
    as (_ & b' & Hb' & Hp); auto.
  fold σ1 in Hb'. rewrite Hb' in H2.
  destruct (probing_call_refused h mem σ2 c b' later max_retries base default_retryable)
    as (Hr & Ht & Hmem); auto.
  split; [done|]. split; [|done]. apply (f_equal length) in Ht. by rewrite length_map in Ht.
Qed.

(** A process with one breaker, and a clock at 100 seconds. *)
Definition one_breaker_process : handler (gmap string CircuitBreaker) := fun mem c =>
  match c return reply c * gmap string CircuitBreaker with
  | EReadCircuit k => (default (dead_reply (EReadCircuit k)) (mem !! k), mem)
  | EPutCircuit k b => (tt, <[k := b]> mem)
  | EMonotonic => (100000000, mem)
  | c => (dead_reply c, mem)
  end.

Lemma one_breaker_honest : honest_circuits one_breaker_process id.
Proof. split; simpl; [|done|done]. intros σ c b ->. done. Qed.

Lemma lost_probe_blocks_provider_witness :
  let b := trip 0 {| cb_failure_threshold := 5; cb_reset := 30000000; cb_st := Closed;
                     cb_failures := 5; cb_opened_at := None; cb_probe_in_flight := false |} in
  let not_found := Exc ProviderCallError "drive.read failed with HTTP 404" (Some 404) in
  let σ1 := state_of one_breaker_process
              (call_with_retries (raise (A:=unit) not_found) 3 200000 (Some "google") default_retryable)
              {["google" := b]} in
  result_of one_breaker_process
    (call_with_retries (ret true) 3 200000 (Some "google") default_retryable) σ1 =
  Exn circuit_open_error.
Proof.
  intros b not_found σ1.
  apply (lost_probe_blocks_provider one_breaker_process id {["google" := b]} "google" b 0
           not_found (raise (A:=unit) not_found) 3 200000 one_breaker_honest);
    try reflexivity; try (intros; split; reflexivity).
  - intros σ. vm_compute. congruence.
  - lia.
  - lia.
Defined.
