(* ===== verification/Redis.v ===== *)
(** * What the broker relies on of Redis

    Redis is another process: a handler answers its commands.  [redis_exec]
    writes down what the Redis documentation says of the commands the broker
    sends (GET, SET with NX and EX, DEL, EXISTS, INCR, EXPIRE) on a keyspace
    with deadlines, and [redis_documented] is the hypothesis, used by name,
    that a handler answers so. *)

From stdpp Require Import base tactics list strings numbers gmap pretty.
From S2P Require Import Prelude PyStr Errors Config Effects.
Open Scope string_scope.
#[local] Open Scope Z_scope.

Record redis_entry := RedisEntry {
  re_value : string;
  re_deadline : option Z      (* microseconds *)
}.

#[export] Instance redis_entry_eq_dec : EqDecision redis_entry.
Proof. solve_decision. Defined.

(** The live value of a key at time [now]. *)
Definition redis_live (now : Z) (store : gmap string redis_entry) (k : string) : option redis_entry :=
  match store !! k with
  | Some e => match re_deadline e with
              | Some d => if d <=? now then None else Some e
              | None => Some e
              end
  | None => None
  end.

Definition redis_get (now : Z) (store : gmap string redis_entry) (k : string) : option string :=
  re_value <$> redis_live now store k.

Definition redis_error (msg : string) : exn := raise_of RedisError msg.

(** One command at time [now]; [None] for an effect that is not a Redis
    command. *)
Definition redis_exec (now : Z) (c : eff) (store : gmap string redis_entry)
  : option (reply c * gmap string redis_entry) :=
  match c return option (reply c * gmap string redis_entry) with
  | ERedisGet k => Some (Ok (redis_get now store k), store)
  | ERedisSet k v nx ex =>
      if ex <=? 0 then Some (Exn (redis_error "invalid expire time in 'set' command"), store)
      else if nx && bool_decide (is_Some (redis_live now store k))
      then Some (Ok false, store)
      else Some (Ok true, <[k := RedisEntry v (Some (now + seconds ex))]> store)
  | ERedisDelete k => Some (Ok tt, delete k store)
  | ERedisExists k =>
      Some (Ok (if bool_decide (is_Some (redis_live now store k)) then 1 else 0), store)
  | ERedisIncr k =>
      match redis_live now store k with
      | None => Some (Ok 1, <[k := RedisEntry "1" None]> store)
      | Some e =>
          match int_of_str 10 (re_value e) with
          | Some n => Some (Ok (n + 1), <[k := RedisEntry (pretty (n + 1)) (re_deadline e)]> store)
          | None => Some (Exn (redis_error "value is not an integer or out of range"), store)
          end
      end
  | ERedisExpire k secs =>
      match redis_live now store k with
      | Some e => Some (Ok tt, <[k := RedisEntry (re_value e) (Some (now + seconds secs))]> store)
      | None => Some (Ok tt, store)
      end
  | _ => None
  end.

(** The handler serves Redis as documented: its keyspace is [store], its
    clock [now] (which [time.time()] reads) does not go back, and no other
    client writes. *)
Record redis_documented {St} (h : handler St) (store : St -> gmap string redis_entry)
    (now : St -> Z) : Prop := {
  rd_command : forall σ c a s', redis_exec (now σ) c (store σ) = Some (a, s') ->
    (h σ c).1 = a /\ store (h σ c).2 = s';
  rd_other : forall σ c, redis_exec (now σ) c (store σ) = None -> store (h σ c).2 = store σ;
  rd_clock : forall σ c, now σ <= now (h σ c).2;
  rd_time : forall σ, (h σ ETime).1 = now σ /\ now (h σ ETime).2 = now σ
}.

(** Time stands still for the duration of an operation. *)
Definition redis_prompt {St} (h : handler St) (now : St -> Z) : Prop :=
  forall σ c, now (h σ c).2 = now σ.

(** A Redis process whose clock is set from outside: the instance the
    witnesses run on. *)
Definition redis_process : handler (Z * gmap string redis_entry) := fun σ c =>
  match redis_exec σ.1 c σ.2 with
  | Some (a, s') => (a, (σ.1, s'))
  | None => (match c return reply c with
             | ETime => σ.1
             | ETokenHex _ => "a1b2c3d4"
             | c => dead_reply c
             end, σ)
  end.

Lemma redis_process_documented : redis_documented redis_process snd fst.
Proof.
  split.
  - intros σ c a s' H. unfold redis_process. by rewrite H.
  - intros σ c H. unfold redis_process. by rewrite H.
  - intros σ c. unfold redis_process. by destruct (redis_exec _ _ _) as [[? ?]|].
  - done.
Qed.

Lemma redis_process_prompt : redis_prompt redis_process fst.
Proof. intros σ c. unfold redis_process. by destruct (redis_exec _ _ _) as [[? ?]|]. Qed.

(** ** Lemmas *)

Lemma redis_get_insert now store k v d :
  now < d -> redis_get now (<[k := RedisEntry v (Some d)]> store) k = Some v.
Proof.
  intros Hd. unfold redis_get, redis_live. rewrite lookup_insert_eq. simpl.
  by destruct (Z.leb_spec d now); [lia|].
Qed.

Lemma redis_get_insert_ne now store k k' e :
  k <> k' -> redis_get now (<[k := e]> store) k' = redis_get now store k'.
Proof. intros Hne. unfold redis_get, redis_live. by rewrite lookup_insert_ne. Qed.

Lemma redis_get_delete now store k : redis_get now (delete k store) k = None.
Proof. unfold redis_get, redis_live. by rewrite lookup_delete_eq. Qed.

Lemma redis_get_delete_ne now store k k' :
  k <> k' -> redis_get now (delete k store) k' = redis_get now store k'.
Proof. intros Hne. unfold redis_get, redis_live. by rewrite lookup_delete_ne. Qed.

Lemma redis_live_get now store k :
  is_Some (redis_live now store k) <-> is_Some (redis_get now store k).
Proof. unfold redis_get. by rewrite fmap_is_Some. Qed.

(** Step a program through one Redis command. *)
Section Commands.
Context {St} (h : handler St) (store : St -> gmap string redis_entry) (now : St -> Z).
Context (Hdoc : redis_documented h store now).

Lemma run_perform c σ :
  result_of h (perform c) σ = to_res (fallible c) (h σ c).1 /\
  state_of h (perform c) σ = (h σ c).2.
Proof. unfold result_of, state_of. simpl. by destruct (h σ c). Qed.

Lemma run_command c σ a s' :
  redis_exec (now σ) c (store σ) = Some (a, s') ->
  result_of h (perform c) σ = to_res (fallible c) a /\
  store (state_of h (perform c) σ) = s'.
Proof.
  intros H. destruct (rd_command _ _ _ Hdoc _ _ _ _ H) as [Ha Hs].
  destruct (run_perform c σ) as [Hr Ht]. rewrite Hr, Ht. by rewrite Ha.
Qed.

Lemma run_clock c σ : now σ <= now (state_of h (perform c) σ).
Proof. destruct (run_perform c σ) as [_ ->]. apply (rd_clock _ _ _ Hdoc). Qed.

(** The clock does not go back along a program. *)
Lemma clock_mono {A} (p : prog A) σ : now σ <= now (state_of h p σ).
Proof.
  revert σ. induction p as [r|c k IH]; intros σ; [done|].
  pose proof (rd_clock _ _ _ Hdoc σ c) as Hc. specialize (IH (h σ c).1 (h σ c).2).
  unfold state_of in *. simpl. destruct (h σ c) as [a σ1]. simpl in *.
  destruct (interp h (k a) σ1) as [[t r] σ2]. simpl in *. lia.
Qed.

Lemma run_time σ :
  result_of h (perform ETime) σ = Ok (now σ) /\
  store (state_of h (perform ETime) σ) = store σ /\
  now (state_of h (perform ETime) σ) = now σ.
Proof.
  destruct (run_perform ETime σ) as [Hr Hs]. destruct (rd_time _ _ _ Hdoc σ) as [Ht Hn].
  rewrite Hr, Hs, Hn. repeat split; [by rewrite Ht|by apply (rd_other _ _ _ Hdoc)].
Qed.

(** A command that answers, at the head of a program. *)
Lemma step_command {A} c (f : ans c -> prog A) σ a s' x :
  redis_exec (now σ) c (store σ) = Some (a, s') -> to_res (fallible c) a = Ok x ->
  exists σ1, now σ <= now σ1 /\ store σ1 = s' /\
    result_of h (bind (perform c) f) σ = result_of h (f x) σ1 /\
    state_of h (bind (perform c) f) σ = state_of h (f x) σ1.
Proof.
  intros Hex Hx. destruct (run_command c σ a s' Hex) as [Hr Hs].
  exists (state_of h (perform c) σ). rewrite result_bind, state_bind, Hr, Hx.
  split; [apply run_clock|auto].
Qed.

(** The same when commands take no time. *)
Lemma outcome_command_prompt c σ a s' :
  redis_prompt h now -> redis_exec (now σ) c (store σ) = Some (a, s') ->
  exists σ1, now σ1 = now σ /\ store σ1 = s' /\
    outcome h (perform c) σ = (to_res (fallible c) a, σ1).
Proof.
  intros Hp Hex. destruct (run_command c σ a s' Hex) as [Hr Hs].
  exists (state_of h (perform c) σ). unfold outcome. rewrite Hr.
  split; [|auto]. destruct (run_perform c σ) as [_ ->]. apply Hp.
Qed.

Lemma outcome_other c σ :
  redis_prompt h now -> redis_exec (now σ) c (store σ) = None ->
  exists σ1, now σ1 = now σ /\ store σ1 = store σ /\
    outcome h (perform c) σ = (to_res (fallible c) (h σ c).1, σ1).
Proof.
  intros Hp Hex. destruct (run_perform c σ) as [Hr Hs].
  exists (h σ c).2. unfold outcome. rewrite Hr, Hs. split; [apply Hp|].
  split; [by apply (rd_other _ _ _ Hdoc)|done].
Qed.

(** Reading the clock, at the head of a program. *)
Lemma step_time {A} (f : Z -> prog A) σ :
  exists σ1, now σ1 = now σ /\ store σ1 = store σ /\
    result_of h (bind (perform ETime) f) σ = result_of h (f (now σ)) σ1 /\
    state_of h (bind (perform ETime) f) σ = state_of h (f (now σ)) σ1.
Proof.
  destruct (run_time σ) as (Hr & Hs & Hn). exists (state_of h (perform ETime) σ).
  rewrite result_bind, state_bind, Hr. auto.
Qed.

(** An effect that is not a Redis command, at the head of a program. *)
Lemma step_other {A} c (f : ans c -> prog A) σ :
  redis_exec (now σ) c (store σ) = None ->
  exists σ1, now σ <= now σ1 /\ store σ1 = store σ /\
    result_of h (bind (perform c) f) σ =
      match to_res (fallible c) (h σ c).1 with
      | Ok x => result_of h (f x) σ1
      | Exn e => Exn e
      end /\
    state_of h (bind (perform c) f) σ =
      match to_res (fallible c) (h σ c).1 with
      | Ok x => state_of h (f x) σ1
      | Exn e => σ1
      end.
Proof.
  intros Hex. destruct (run_perform c σ) as [Hr Hs]. exists (state_of h (perform c) σ).
  rewrite result_bind, state_bind, Hr, Hs.
  split; [apply (rd_clock _ _ _ Hdoc)|]. split; [by apply (rd_other _ _ _ Hdoc)|].
  by destruct (to_res _ _).
Qed.
End Commands.

(** [redis_step Hdoc a s' x as (σ1 & Hc & Hs)]: the program's next command
    answers [a], that is [x], and leaves the keyspace [s']. *)
Tactic Notation "redis_step" constr(Hdoc) uconstr(a) uconstr(s') uconstr(x) "as" ident(σ1) ident(Hc) ident(Hs) :=
  match goal with
  | |- context [result_of _ (bind (perform ?c) ?f) ?σ] =>
      destruct (step_command _ _ _ Hdoc c f σ a s' x) as (σ1 & Hc & Hs & -> & ->);
      [|try done|cbv beta]
  end.

Tactic Notation "redis_time" constr(Hdoc) "as" ident(σ1) ident(Hc) ident(Hs) :=
  match goal with
  | |- context [result_of _ (bind (perform ETime) ?f) ?σ] =>
      destruct (step_time _ _ _ Hdoc f σ) as (σ1 & Hc & Hs & -> & ->); cbv beta zeta
  end.

(** The same for [outcome] under [redis_prompt]. *)
Tactic Notation "prompt_step" constr(Hdoc) constr(Hp) uconstr(a) uconstr(s')
    "as" ident(σ1) ident(Hc) ident(Hs) :=
  match goal with
  | |- context [outcome _ (perform ?c) ?σ] =>
      destruct (outcome_command_prompt _ _ _ Hdoc c σ a s' Hp) as (σ1 & Hc & Hs & ->);
      [try done|cbn [to_res fallible]]
  end.
