(* ===== verification/Kms.v ===== *)
(** * Envelope encryption ([src/credbroker/crypto/kms.py])

    [TokenCipher] over an abstract [KeyManager], its two implementations
    (AWS KMS and the local master key) and [build_token_cipher].  AES-GCM
    (package [cryptography]) is a parameter, with the laws its documentation
    states as the named hypothesis [AesGcmLaws]; KMS answers through
    effects.  The client theorems use only [unwraps], the contract of a key
    manager, which both implementations are shown to meet. *)

From stdpp Require Import base tactics list strings numbers pretty.
From S2P Require Import Prelude PyStr Errors Json Hashing Base64 Config Effects Redaction.
Open Scope string_scope.
#[local] Open Scope Z_scope.

(** [AESGCM(key).encrypt(nonce, data, None)] and [.decrypt]. *)
Class AesGcm := {
  aesgcm_encrypt : bytes -> bytes -> bytes -> res bytes;
  aesgcm_decrypt : bytes -> bytes -> bytes -> res bytes
}.

Definition MAGIC : bytes := encode "CB1".
Definition NONCE_SIZE : Z := 12.
Definition GCM_TAG_SIZE : Z := 16.
Definition DATA_KEY_SIZE : Z := 32.
Definition HEADER_SIZE : Z := 5.

Definition len (b : bytes) : Z := Z.of_nat (length b).
(** [b[i:j]] and [b[i:]] for [0 <= i]. *)
Definition slice (i j : Z) (b : bytes) : bytes := take (Z.to_nat (j - i)) (drop (Z.to_nat i) b).
Definition slice_from (i : Z) (b : bytes) : bytes := drop (Z.to_nat i) b.

(** The protocol of key managers. *)
Record KeyManager := {
  generate_data_key : prog (bytes * bytes);
  decrypt_data_key : bytes -> prog bytes
}.

(** ** AWS KMS *)

Definition AwsKmsKeyManager (key_id : string) : KeyManager := {|
  generate_data_key := perform (EKmsGenerateDataKey key_id);
  decrypt_data_key encrypted_key_blob := perform (EKmsDecrypt key_id encrypted_key_blob)
|}.

Section Cipher.
Context `{AesGcm}.

(** ** The local master key *)

Definition local_generate (master : bytes) : prog (bytes * bytes) :=
  plaintext_key <- perform (EUrandom DATA_KEY_SIZE) ;;
  nonce <- perform (EUrandom NONCE_SIZE) ;;
  wrapped <- lift (aesgcm_encrypt master nonce plaintext_key) ;;
  ret (plaintext_key, (nonce ++ wrapped)%list).

Definition local_decrypt (master encrypted_key_blob : bytes) : prog bytes :=
  if len encrypted_key_blob <? NONCE_SIZE + GCM_TAG_SIZE
  then raise (raise_of ValueError "encrypted data key is truncated")
  else
    let nonce := slice 0 NONCE_SIZE encrypted_key_blob in
    let wrapped := slice_from NONCE_SIZE encrypted_key_blob in
    match aesgcm_decrypt master nonce wrapped with
    | Ok key => ret key
    | Exn e =>
        if isinstance e InvalidTag
        then raise (raise_of ValueError "failed to unwrap data key (corrupt blob or wrong master key)")
        else raise e
    end.

Definition LocalKeyManager (master_key : bytes) : res KeyManager :=
  if negb (len master_key =? DATA_KEY_SIZE)
  then Exn (raise_of ValueError
    ("local master key must be " +:+ pretty DATA_KEY_SIZE +:+ " bytes, got " +:+ pretty (len master_key)))
  else Ok {| generate_data_key := local_generate master_key;
             decrypt_data_key := local_decrypt master_key |}.

(** ** [TokenCipher] *)

(** The blob around an encrypted key, a nonce and a ciphertext. *)
Definition blob_layout (encrypted_key nonce ciphertext : bytes) : bytes :=
  (MAGIC ++ be_bytes 2 (len encrypted_key) [] ++ encrypted_key ++ nonce ++ ciphertext)%list.

Definition encrypt (km : KeyManager) (plaintext : string) : prog bytes :=
  register_secret (ArgValue (JStr plaintext)) ;;
  keys <- generate_data_key km ;;
  let '(data_key, encrypted_key) := keys in
  if 65535 <? len encrypted_key
  then raise (raise_of ValueError "encrypted data key too large for blob format")
  else
    nonce <- perform (EUrandom NONCE_SIZE) ;;
    ciphertext <- lift (aesgcm_encrypt data_key nonce (encode plaintext)) ;;
    ret (blob_layout encrypted_key nonce ciphertext).

(** [encrypt] of a value that may not be a string: everything up to
    [plaintext.encode] runs. *)
Definition encrypt_value (km : KeyManager) (v : json) : prog bytes :=
  match v with
  | JStr s => encrypt km s
  | _ =>
      register_secret (ArgValue v) ;;
      keys <- generate_data_key km ;;
      if 65535 <? len keys.2
      then raise (raise_of ValueError "encrypted data key too large for blob format")
      else
        perform (EUrandom NONCE_SIZE) ;;
        raise (raise_of AttributeError "object has no attribute 'encode'")
  end.

(** [_KEY_LEN_STRUCT.unpack_from(blob, len(_MAGIC))]. *)
Definition key_length (blob : bytes) : Z :=
  match slice 3 5 blob with
  | [hi; lo] => byte_Z hi * 256 + byte_Z lo
  | _ => 0
  end.

Definition truncated : exn := raise_of ValueError "credential blob is truncated".

Definition decrypt (km : KeyManager) (blob : bytes) : prog string :=
  if len blob <? HEADER_SIZE then raise truncated
  else if negb (bool_decide (slice 0 3 blob = MAGIC))
  then raise (raise_of ValueError "unknown credential blob version")
  else
    let body_start := HEADER_SIZE + key_length blob in
    if len blob <? body_start + NONCE_SIZE + GCM_TAG_SIZE then raise truncated
    else
      let encrypted_key := slice HEADER_SIZE body_start blob in
      let nonce := slice body_start (body_start + NONCE_SIZE) blob in
      let ciphertext := slice_from (body_start + NONCE_SIZE) blob in
      data_key <- decrypt_data_key km encrypted_key ;;
      match aesgcm_decrypt data_key nonce ciphertext with
      | Exn e =>
          if isinstance e InvalidTag
          then raise (raise_of ValueError "credential blob failed authentication (corrupt)")
          else raise e
      | Ok plaintext_bytes =>
          match decode_utf8 plaintext_bytes with
          | None => raise (raise_of UnicodeDecodeError "invalid utf-8")
          | Some plaintext =>
              register_secret (ArgValue (JStr plaintext)) ;;
              ret plaintext
          end
      end.

(** ** [build_token_cipher] *)

Definition build_token_cipher (settings : Settings) : prog KeyManager :=
  if negb (String.eqb (kms_key_id settings) "") then ret (AwsKmsKeyManager (kms_key_id settings))
  else
    master_key <-
      (if negb (String.eqb (local_master_key_b64 settings) "")
       then lift (b64decode (local_master_key_b64 settings))
       else
         perform (ELog WARNING
           ("no KMS key or local master key configured; using an ephemeral master key "
            +:+ "(dev only — encrypted credentials will not survive a restart)") []) ;;
         perform (EUrandom DATA_KEY_SIZE)) ;;
    lift (LocalKeyManager master_key).
End Cipher.

(** ** What the documentation of AES-GCM states *)

Record AesGcmLaws (gcm : AesGcm) : Prop := {
  gcm_roundtrip : forall key nonce data,
    len key = DATA_KEY_SIZE -> len nonce = NONCE_SIZE -> len data < 2 ^ 31 ->
    exists c, aesgcm_encrypt key nonce data = Ok c /\ len c = len data + GCM_TAG_SIZE /\
      aesgcm_decrypt key nonce c = Ok data;
  gcm_errors : forall key nonce c e,
    aesgcm_decrypt key nonce c = Exn e ->
    isinstance e InvalidTag = true \/ isinstance e ValueError = true
}.

(** A stand-in with these laws, for the witnesses: sixteen zero bytes as
    the tag. *)
Definition toy_tag : bytes := replicate 16 Byte.x00.
#[local] Instance toy_gcm : AesGcm := {|
  aesgcm_encrypt key nonce data := Ok (data ++ toy_tag)%list;
  aesgcm_decrypt key nonce c :=
    let n := (length c - 16)%nat in
    if bool_decide (drop n c = toy_tag) then Ok (take n c)
    else Exn (raise_of InvalidTag "")
|}.

Lemma toy_gcm_laws : AesGcmLaws toy_gcm.
Proof.
  split.
  - intros key nonce data _ _ _. eexists. split; [done|]. split.
    + unfold len, GCM_TAG_SIZE. rewrite length_app. change (length toy_tag) with 16%nat. lia.
    + simpl. rewrite length_app. change (length toy_tag) with 16%nat.
      replace (length data + 16 - 16)%nat with (length data) by lia.
      rewrite drop_app_length, take_app_length. by rewrite bool_decide_true.
  - intros key nonce c e. simpl. case_bool_decide; [done|]. intros [= <-]. by left.
Qed.

(** Entropy of the length asked for. *)
Definition honest_entropy {St} (h : handler St) : Prop :=
  forall σ n, 0 <= n -> len (h σ (EUrandom n)).1 = n.

(** ** The contract of a key manager

    Whatever key it hands out, fresh data keys are 32 bytes, the wrapped key
    fits the blob format, and unwrapping gives the key back at any time. *)
Definition unwraps {St} (h : handler St) (km : KeyManager) : Prop :=
  forall σ key wrapped, result_of h (generate_data_key km) σ = Ok (key, wrapped) ->
    len key = DATA_KEY_SIZE /\ len wrapped <= 65535 /\
    forall σ', result_of h (decrypt_data_key km wrapped) σ' = Ok key.

(** ** Lemmas *)

Lemma len_app a b : len (a ++ b)%list = len a + len b.
Proof. unfold len. rewrite length_app. lia. Qed.

Lemma len_nonneg b : 0 <= len b.
Proof. unfold len. lia. Qed.

Lemma slice_app a b c i j :
  len a = i -> i + len b = j -> slice i j (a ++ b ++ c)%list = b.
Proof.
  unfold len, slice. intros Hi Hj.
  replace (Z.to_nat i) with (length a) by lia. rewrite drop_app_length.
  replace (Z.to_nat (j - i)) with (length b) by lia. apply take_app_length.
Qed.

Lemma slice_from_app a b i : len a = i -> slice_from i (a ++ b)%list = b.
Proof.
  unfold len, slice_from. intros Hi. replace (Z.to_nat i) with (length a) by lia. apply drop_app_length.
Qed.

Lemma slice_from_split i j b : 0 <= i -> i <= j ->
  slice_from i b = (slice i j b ++ slice_from j b)%list.
Proof.
  intros Hi Hj. unfold slice, slice_from.
  rewrite <- (take_drop (Z.to_nat (j - i)) (drop (Z.to_nat i) b)) at 1. f_equal.
  rewrite drop_drop. f_equal. lia.
Qed.

Lemma slice_len i j b : 0 <= i -> i <= j -> j <= len b -> len (slice i j b) = j - i.
Proof. unfold len, slice. intros. rewrite length_take, length_drop. lia. Qed.

Lemma slice_from_len i b : 0 <= i -> i <= len b -> len (slice_from i b) = len b - i.
Proof. unfold len, slice_from. intros. rewrite length_drop. lia. Qed.

Lemma byte_Z_byte z : byte_Z (Z_byte z) = z mod 256.
Proof.
  unfold Z_byte, byte_Z. pose proof (Z.mod_pos_bound z 256).
  destruct (Byte.of_N (Z.to_N (z mod 256))) as [b|] eqn:E.
  - apply Byte.to_of_N in E. simpl. rewrite E. lia.
  - apply Byte.of_N_None_iff in E. lia.
Qed.

Lemma be_bytes_2 z : 0 <= z <= 65535 ->
  exists hi lo, be_bytes 2 z [] = [hi; lo] /\ byte_Z hi * 256 + byte_Z lo = z.
Proof.
  intros Hz. cbn [be_bytes]. do 2 eexists. split; [done|]. rewrite !byte_Z_byte.
  Z.div_mod_to_equations. lia.
Qed.

Lemma be_bytes_2_of hi lo : be_bytes 2 (byte_Z hi * 256 + byte_Z lo) [] = [hi; lo].
Proof.
  pose proof (byte_Z_bounds hi). pose proof (byte_Z_bounds lo). cbn [be_bytes].
  assert (Hmod : forall z b, z mod 256 = byte_Z b -> Z_byte z = b).
  { intros z b E. unfold Z_byte. rewrite E. unfold byte_Z. by rewrite N2Z.id, Byte.of_to_N. }
  f_equal; [apply Hmod|f_equal; apply Hmod]; Z.div_mod_to_equations; lia.
Qed.

(** Where the parts of a blob are found again. *)
Lemma blob_parts ek nonce ct :
  len ek <= 65535 -> len nonce = NONCE_SIZE -> GCM_TAG_SIZE <= len ct ->
  let blob := blob_layout ek nonce ct in
  let start := HEADER_SIZE + key_length blob in
  (len blob <? HEADER_SIZE) = false /\ slice 0 3 blob = MAGIC /\
  (len blob <? start + NONCE_SIZE + GCM_TAG_SIZE) = false /\
  slice HEADER_SIZE start blob = ek /\ slice start (start + NONCE_SIZE) blob = nonce /\
  slice_from (start + NONCE_SIZE) blob = ct.
Proof.
  intros Hk Hn Hc. cbn zeta. pose proof (len_nonneg ek).
  destruct (be_bytes_2 (len ek)) as (hi & lo & Hb & Hv); [lia|].
  assert (E : blob_layout ek nonce ct = (MAGIC ++ [hi; lo] ++ ek ++ nonce ++ ct)%list)
    by (unfold blob_layout; by rewrite Hb).
  assert (Hkl : key_length (blob_layout ek nonce ct) = len ek).
  { unfold key_length. by rewrite E, (slice_app MAGIC [hi; lo]). }
  rewrite Hkl, E, !len_app. change (len MAGIC) with 3. change (len [hi; lo]) with 2.
  unfold NONCE_SIZE, GCM_TAG_SIZE, HEADER_SIZE in *. rewrite Hn.
  repeat split; try (apply Z.ltb_ge; lia).
  - rewrite app_assoc. apply slice_app; [done|lia].
  - rewrite !app_assoc, <- (app_assoc _ nonce). apply slice_app; [|lia].
    rewrite !len_app. done.
  - rewrite !app_assoc. apply slice_from_app. rewrite !len_app, Hn. change (len MAGIC) with 3. 
    change (len [hi; lo]) with 2. lia.
Qed.

(** A blob that passes the guards is laid out so. *)
Lemma blob_reassembled blob :
  let start := HEADER_SIZE + key_length blob in
  HEADER_SIZE <= len blob -> slice 0 3 blob = MAGIC -> start + NONCE_SIZE + GCM_TAG_SIZE <= len blob ->
  blob = blob_layout (slice HEADER_SIZE start blob) (slice start (start + NONCE_SIZE) blob)
           (slice_from (start + NONCE_SIZE) blob) /\
  len (slice start (start + NONCE_SIZE) blob) = NONCE_SIZE /\
  GCM_TAG_SIZE <= len (slice_from (start + NONCE_SIZE) blob).
Proof.
  cbn zeta. intros Hh Hm. unfold HEADER_SIZE, NONCE_SIZE, GCM_TAG_SIZE in *.
  assert (Hkey : exists hi lo, slice 3 5 blob = [hi; lo]).
  { pose proof (slice_len 3 5 blob ltac:(lia) ltac:(lia) Hh) as Hl. unfold len in Hl.
    destruct (slice 3 5 blob) as [|hi [|lo [|]]]; simpl in Hl; try lia. eauto. }
  destruct Hkey as (hi & lo & Hkey). pose proof (byte_Z_bounds hi). pose proof (byte_Z_bounds lo).
  assert (Hk : key_length blob = byte_Z hi * 256 + byte_Z lo) by (unfold key_length; by rewrite Hkey).
  set (start := 5 + key_length blob). intros Hlen.
  split; [|rewrite slice_len, slice_from_len by lia; lia].
  unfold blob_layout. rewrite slice_len by lia. replace (start - 5) with (key_length blob) by lia.
  rewrite Hk, be_bytes_2_of, <- Hkey, <- Hm.
  rewrite <- (slice_from_split start), <- (slice_from_split 5), <- (slice_from_split 3),
    <- (slice_from_split 0) by lia. done.
Qed.

Section Correct.
Context `{gcm : AesGcm} (Hgcm : AesGcmLaws gcm).
Context {St} (h : handler St).

Lemma run_entropy n σ :
  result_of h (perform (EUrandom n)) σ = Ok (h σ (EUrandom n)).1.
Proof. unfold result_of. simpl. by destruct (h σ (EUrandom n)). Qed.

(** [decrypt] of a laid-out blob, given the key manager's answer. *)
Lemma decrypt_layout km ek nonce ct key p σ :
  len ek <= 65535 -> len nonce = NONCE_SIZE -> GCM_TAG_SIZE <= len ct ->
  result_of h (decrypt_data_key km ek) σ = Ok key ->
  aesgcm_decrypt key nonce ct = Ok (encode p) -> utf8_valid (encode p) = true ->
  result_of h (decrypt km (blob_layout ek nonce ct)) σ = Ok p.
Proof.
  intros Hk Hn Hc Hdk Hdec Hv. destruct (blob_parts ek nonce ct Hk Hn Hc) as (E1 & E2 & E3 & E4 & E5 & E6).
  unfold decrypt. rewrite E1, E2, bool_decide_true by done. cbn [negb]. rewrite E3, E4, E5, E6.
  rewrite result_bind, Hdk, Hdec, encode_decode by done. rewrite result_bind, register_returns. done.
Qed.

(** What [encrypt] returns. *)
Lemma encrypt_layout km p σ blob :
  honest_entropy h -> unwraps h km -> len (encode p) < 2 ^ 31 ->
  result_of h (encrypt km p) σ = Ok blob ->
  exists ek nonce ct key, blob = blob_layout ek nonce ct /\ len ek <= 65535 /\
    len nonce = NONCE_SIZE /\ len ct = len (encode p) + GCM_TAG_SIZE /\
    aesgcm_decrypt key nonce ct = Ok (encode p) /\
    forall σ', result_of h (decrypt_data_key km ek) σ' = Ok key.
Proof.
  intros He Hkm Hp Hr. unfold encrypt in Hr. rewrite result_bind, register_returns, result_bind in Hr.
  set (σ1 := state_of h (register_secret _) σ) in Hr.
  destruct (result_of h (generate_data_key km) σ1) as [[key ek]|e] eqn:Eg; [|done].
  destruct (Hkm σ1 key ek Eg) as (Hkey & Hek & Hun).
  destruct (Z.ltb_spec 65535 (len ek)); [lia|]. rewrite result_bind, run_entropy, result_bind in Hr.
  set (σ2 := state_of h (generate_data_key km) σ1) in *. set (nonce := (h σ2 (EUrandom NONCE_SIZE)).1) in *.
  assert (Hnonce : len nonce = NONCE_SIZE) by by apply He.
  destruct (gcm_roundtrip gcm Hgcm key nonce (encode p) Hkey Hnonce Hp) as (ct & Ec & Hl & Hd).
  unfold result_of at 1 in Hr. cbn in Hr. rewrite Ec in Hr. injection Hr as <-.
  by exists ek, nonce, ct, key.
Qed.

(** *** The two key managers keep the contract *)

Lemma local_decrypt_layout master nonce wrapped key σ :
  len nonce = NONCE_SIZE -> GCM_TAG_SIZE <= len wrapped ->
  aesgcm_decrypt master nonce wrapped = Ok key ->
  result_of h (local_decrypt master (nonce ++ wrapped)%list) σ = Ok key.
Proof.
  intros Hn Hw Hd. unfold local_decrypt. rewrite len_app.
  destruct (Z.ltb_spec (len nonce + len wrapped) (NONCE_SIZE + GCM_TAG_SIZE)); [lia|].
  rewrite (slice_from_app nonce wrapped) by done.
  replace (slice 0 NONCE_SIZE (nonce ++ wrapped)) with nonce; [by rewrite Hd|].
  symmetry. by apply (slice_app [] nonce wrapped).
Qed.

Lemma local_generate_spec master σ :
  honest_entropy h -> len master = DATA_KEY_SIZE ->
  exists key wrapped, result_of h (local_generate master) σ = Ok (key, wrapped) /\
    len key = DATA_KEY_SIZE /\ len wrapped = NONCE_SIZE + DATA_KEY_SIZE + GCM_TAG_SIZE /\
    forall σ', result_of h (local_decrypt master wrapped) σ' = Ok key.
Proof.
  intros He Hm. unfold local_generate. rewrite result_bind, run_entropy, result_bind, run_entropy.
  set (σ1 := state_of h _ σ). set (key := (h σ (EUrandom DATA_KEY_SIZE)).1).
  set (nonce := (h σ1 (EUrandom NONCE_SIZE)).1).
  assert (Hk : len key = DATA_KEY_SIZE) by by apply He.
  assert (Hn : len nonce = NONCE_SIZE) by by apply He.
  destruct (gcm_roundtrip gcm Hgcm master nonce key Hm Hn) as (w & Ew & Hl & Hd).
  { rewrite Hk. done. }
  exists key, (nonce ++ w)%list. rewrite result_bind. unfold lift, result_of at 1. cbn. rewrite Ew.
  repeat split; [done|rewrite len_app, Hn, Hl, Hk; lia|].
  intros σ'. apply local_decrypt_layout; [done| |done]. rewrite Hl. pose proof (len_nonneg key). lia.
Qed.

Lemma local_unwraps master km :
  honest_entropy h -> LocalKeyManager master = Ok km -> unwraps h km.
Proof.
  unfold LocalKeyManager. intros He. destruct (Z.eqb_spec (len master) DATA_KEY_SIZE) as [Hm|]; [|done].
  intros [= <-] σ key wrapped. cbn [generate_data_key decrypt_data_key negb].
  destruct (local_generate_spec master σ He Hm) as (k & w & -> & Hk & Hw & Hd).
  intros [= <- <-]. repeat split; [done| |done].
  rewrite Hw. done.
Qed.

(** AWS: the service unwraps what it wrapped under the same key, and a
    wrapped key is at most 6144 bytes (the quota of the KMS API). *)
Definition kms_documented (key_id : string) : Prop :=
  forall σ key wrapped, (h σ (EKmsGenerateDataKey key_id)).1 = Ok (key, wrapped) ->
    len key = DATA_KEY_SIZE /\ len wrapped <= 6144 /\
    forall σ', (h σ' (EKmsDecrypt key_id wrapped)).1 = Ok key.

Lemma aws_unwraps key_id : kms_documented key_id -> unwraps h (AwsKmsKeyManager key_id).
Proof.
  intros Hk σ key wrapped. cbn [generate_data_key decrypt_data_key AwsKmsKeyManager].
  assert (Hres : forall c σ, result_of h (perform c) σ = to_res (fallible c) (h σ c).1).
  { intros c s. unfold result_of. simpl. by destruct (h s c). }
  intros E. pose proof (eq_trans (eq_sym (Hres (EKmsGenerateDataKey key_id) σ)) E) as E'.
  destruct (Hk σ key wrapped E') as (H1 & H2 & H3). repeat split; [done|lia|].
  intros σ'. etrans; [apply (Hres (EKmsDecrypt key_id wrapped))|apply H3].
Qed.

(** Every outcome of [decrypt] under the local key manager. *)
Lemma local_decrypt_errors master blob e σ :
  result_of h (local_decrypt master blob) σ = Exn e -> isinstance e ValueError = true.
Proof.
  unfold local_decrypt. destruct (_ <? _); [by intros [= <-]|].
  destruct (aesgcm_decrypt _ _ _) as [k|e'] eqn:E; [done|].
  apply (gcm_errors gcm Hgcm) in E as [E|E]; rewrite ?E; [by intros [= <-]|].
  destruct (isinstance e' InvalidTag); intros [= <-]; done.
Qed.

Lemma decrypt_errors km blob e σ :
  (forall b e σ, result_of h (decrypt_data_key km b) σ = Exn e -> isinstance e ValueError = true) ->
  result_of h (decrypt km blob) σ = Exn e -> isinstance e ValueError = true.
Proof.
  intros Hkm. unfold decrypt. destruct (_ <? _); [by intros [= <-]|].
  case_bool_decide; cbn [negb]; [|by intros [= <-]].
  destruct (_ <? _); [by intros [= <-]|]. rewrite result_bind.
  destruct (result_of h (decrypt_data_key km _) σ) as [k|e'] eqn:E; [|intros [= <-]; by eapply Hkm].
  destruct (aesgcm_decrypt _ _ _) as [b|e'] eqn:Ed.
  - destruct (decode_utf8 b); [|by intros [= <-]]. by rewrite result_bind, register_returns.
  - apply (gcm_errors gcm Hgcm) in Ed as [Ed|Ed]; rewrite ?Ed; [by intros [= <-]|].
    destruct (isinstance e' InvalidTag); intros [= <-]; done.
Qed.

(** What [decrypt] accepts, and that it registers what it returns. *)
Lemma decrypt_accepts km blob p σ :
  result_of h (decrypt km blob) σ = Ok p ->
  exists ek nonce ct, blob = blob_layout ek nonce ct /\ len nonce = NONCE_SIZE /\
    GCM_TAG_SIZE <= len ct /\
    (MIN_SECRET_LEN <= py_len p -> In (Ev (ERegisterSecret p) tt) (trace_of h (decrypt km blob) σ)).
Proof.
  unfold decrypt. destruct (Z.ltb_spec (len blob) HEADER_SIZE); [done|].
  case_bool_decide as Hmagic; cbn [negb]; [|done].
  set (start := HEADER_SIZE + key_length blob).
  destruct (Z.ltb_spec (len blob) (start + NONCE_SIZE + GCM_TAG_SIZE)) as [|Hlen]; [done|].
  rewrite result_bind, trace_bind.
  destruct (result_of h (decrypt_data_key km _) σ) as [k|e'] eqn:E; [|done].
  destruct (aesgcm_decrypt _ _ _) as [b|e'] eqn:Ed; [|by destruct (isinstance e' InvalidTag)].
  destruct (decode_utf8 b) as [q|]; [|done]. rewrite result_bind, trace_bind, register_returns.
  intros [= <-].
  exists (slice HEADER_SIZE start blob), (slice start (start + NONCE_SIZE) blob),
    (slice_from (start + NONCE_SIZE) blob).
  destruct (blob_reassembled blob H Hmagic Hlen) as (H1 & H2 & H3).
  repeat split; [exact H1|exact H2|exact H3|]. intros Hq.
  apply in_app_iff. right. apply in_app_iff. left. rewrite register_trace by done. by left.
Qed.
End Correct.

(** ** Properties *)

(** C26. Envelope encryption is lossless, for any key manager that unwraps
    what it wrapped: what [encrypt] returns, [decrypt] turns back into the
    same credential, at any later time. *)
Theorem cipher_roundtrip (gcm : AesGcm) {St} (h : handler St) (km : KeyManager)
    (plaintext : string) (blob : bytes) (σ : St)
    (Hgcm : AesGcmLaws gcm) (Hentropy : honest_entropy h) (Hkm : unwraps h km)
    (Hutf8 : utf8_valid (encode plaintext) = true) (Hsize : len (encode plaintext) < 2 ^ 31)
    (Henc : result_of h (encrypt km plaintext) σ = Ok blob) :
  forall σ', result_of h (decrypt km blob) σ' = Ok plaintext.
Proof.
  intros σ'.
  destruct (encrypt_layout Hgcm h km plaintext σ blob Hentropy Hkm Hsize Henc)
    as (ek & nonce & ct & key & -> & Hek & Hn & Hct & Hd & Hun).
  apply (decrypt_layout h km ek nonce ct key); try done.
  rewrite Hct. pose proof (len_nonneg (encode plaintext)). lia.
Qed.

(** A KMS that wraps the all-zero key as four bytes. *)
Definition toy_kms : handler unit := fun σ c =>
  match c return reply c * unit with
  | EUrandom n => (replicate (Z.to_nat n) Byte.x01, tt)
  | EKmsGenerateDataKey _ => (Ok (replicate 32 Byte.x00, encode "wrap"), tt)
  | EKmsDecrypt _ _ => (Ok (replicate 32 Byte.x00), tt)
  | c => (dead_reply c, tt)
  end.

Lemma toy_kms_entropy : honest_entropy toy_kms.
Proof. intros σ n Hn. unfold len. simpl. rewrite length_replicate. lia. Qed.

Lemma toy_kms_documented : kms_documented toy_kms "alias/credbroker".
Proof. intros [] key wrapped. simpl. intros [= <- <-]. done. Qed.

Lemma cipher_roundtrip_witness :
  result_of toy_kms (decrypt (AwsKmsKeyManager "alias/credbroker")
    (blob_layout (encode "wrap") (replicate 12 Byte.x01) (encode "ya29.token" ++ toy_tag)%list)) tt =
  Ok "ya29.token".
Proof.
  apply (cipher_roundtrip toy_gcm toy_kms (AwsKmsKeyManager "alias/credbroker") "ya29.token" _ tt
    toy_gcm_laws toy_kms_entropy (aws_unwraps toy_kms _ toy_kms_documented));
    [reflexivity|reflexivity|vm_compute; reflexivity].
Defined.

(** With the local master key no service is involved and nothing can
    fail: every master key of 32 bytes gives a key manager, encryption
    returns a blob of 93 bytes plus the plaintext, and decryption returns
    the plaintext; a master key of any other length is refused. *)
Theorem local_cipher_roundtrip (gcm : AesGcm) {St} (h : handler St) (master : bytes)
    (plaintext : string) (σ : St)
    (Hgcm : AesGcmLaws gcm) (Hentropy : honest_entropy h)
    (Hutf8 : utf8_valid (encode plaintext) = true) (Hsize : len (encode plaintext) < 2 ^ 31) :
  if len master =? DATA_KEY_SIZE then
    exists km blob, LocalKeyManager master = Ok km /\
      result_of h (encrypt km plaintext) σ = Ok blob /\ len blob = 93 + len (encode plaintext) /\
      forall σ', result_of h (decrypt km blob) σ' = Ok plaintext
  else exists e, LocalKeyManager master = Exn e /\ isinstance e ValueError = true.
Proof.
  unfold LocalKeyManager. destruct (Z.eqb_spec (len master) DATA_KEY_SIZE) as [Hm|]; cbn [negb]; [|by eexists].
  set (km := {| generate_data_key := _ |}). pose proof (len_nonneg (encode plaintext)) as Hp.
  set (σ1 := state_of h (register_secret (ArgValue (JStr plaintext))) σ).
  destruct (local_generate_spec Hgcm h master σ1 Hentropy Hm) as (key & ek & Eg & Hkey & Hek & Hun).
  set (σ2 := state_of h (local_generate master) σ1). set (nonce := (h σ2 (EUrandom NONCE_SIZE)).1).
  assert (Hn : len nonce = NONCE_SIZE) by by apply Hentropy.
  destruct (gcm_roundtrip gcm Hgcm key nonce (encode plaintext) Hkey Hn Hsize) as (ct & Ec & Hl & Hd).
  exists km, (blob_layout ek nonce ct). split; [done|].
  split; [|split].
  - unfold encrypt. rewrite result_bind, register_returns, result_bind. fold σ1.
    change (generate_data_key km) with (local_generate master). rewrite Eg.
    rewrite Hek. cbn [Z.ltb]. change (65535 <? _) with false. cbn iota.
    rewrite result_bind, run_entropy, result_bind. fold σ2 nonce. unfold lift, result_of at 1. cbn. by rewrite Ec.
  - unfold blob_layout, NONCE_SIZE, GCM_TAG_SIZE, DATA_KEY_SIZE in *. rewrite !len_app, Hek, Hl, Hn. change (len MAGIC) with 3.
    change (len (be_bytes 2 (12 + 32 + 16) [])) with 2. lia.
  - intros σ'. apply (decrypt_layout h km ek nonce ct key); try done; [|
      unfold NONCE_SIZE, GCM_TAG_SIZE, DATA_KEY_SIZE in *; lia]. by rewrite Hek.
Qed.

Lemma local_cipher_roundtrip_witness :
  exists km blob, LocalKeyManager (replicate 32 Byte.x07) = Ok km /\
    result_of toy_kms (encrypt km "1//refresh") tt = Ok blob /\ len blob = 103 /\
    forall σ', result_of toy_kms (decrypt km blob) σ' = Ok "1//refresh".
Proof.
  apply (local_cipher_roundtrip toy_gcm toy_kms (replicate 32 Byte.x07) "1//refresh" tt
    toy_gcm_laws toy_kms_entropy); reflexivity.
Defined.


