(* ===== verification/Tokens.v ===== *)
(** * Grant tokens ([src/credbroker/grants/tokens.py])

    [hash_token], [sign_grant_token] and [verify_grant_token].  RS256 JWTs
    are PyJWT's: a parameter, with what its documentation states about
    encoding and decoding as the named hypothesis [PyJwtLaws]. *)

From Stdlib Require Import Ascii SpecFloat.
From stdpp Require Import base tactics list strings numbers pretty sets.
From S2P Require Import Prelude PyStr Errors Json JsonParse Hashing Uuid Config Models Effects.
Open Scope string_scope.
#[local] Open Scope Z_scope.

(** [jwt.encode(payload, key, algorithm)] and [jwt.decode(token, key,
    algorithms=[algorithm], issuer=issuer, options={"require": require})]
    at a time in microseconds. *)
Class PyJwt := {
  jwt_encode : dict -> string -> string -> res string;
  jwt_decode : string -> string -> string -> string -> list string -> Z -> res dict
}.

Definition ALGORITHM : string := "RS256".
Definition REQUIRED_CLAIMS : list string := ["iss"; "sub"; "jti"; "iat"; "exp"].

Record GrantClaims := {
  claims_grant_id : uuid;
  claims_agent_id : uuid;
  claims_tool_name : string;
  claims_scope : string
}.

Definition hash_token (token : string) : string := sha256_hex (encode token).

Section Tokens.
Context `{PyJwt} `{PyRepr}.

(** The payload [sign_grant_token] signs. *)
Definition grant_payload (settings : Settings) (grant_id agent_id : uuid)
    (tool_name scope : string) (issued_at expires_at : datetime) : dict := [
  ("iss", JStr (jwt_issuer settings));
  ("sub", JStr (uuid_str agent_id));
  ("jti", JStr (uuid_str grant_id));
  ("tool", JStr tool_name);
  ("scope", JStr scope);
  ("iat", JInt (dt_epoch_seconds issued_at));
  ("exp", JInt (dt_epoch_seconds expires_at))
].

Definition sign_grant_token (settings : Settings) (grant_id agent_id : uuid)
    (tool_name scope : string) (issued_at expires_at : datetime) : res string :=
  jwt_encode (grant_payload settings grant_id agent_id tool_name scope issued_at expires_at)
    (jwt_private_key_pem settings) ALGORITHM.

(** [payload[k]]. *)
Definition dict_index (k : string) (d : dict) : res json :=
  or_raise (dict_get k d) (raise_of KeyError k).

(** The claims of a decoded payload, fields read in the constructor's
    order. *)
Definition claims_of (payload : dict) : res GrantClaims :=
  res_bind (dict_index "jti" payload) (fun jti =>
  res_bind (uuid_of_json jti) (fun gid =>
  res_bind (dict_index "sub" payload) (fun sub =>
  res_bind (uuid_of_json sub) (fun aid =>
  res_bind (dict_index "tool" payload) (fun tool =>
  res_bind (dict_index "scope" payload) (fun scope =>
  Ok {| claims_grant_id := gid; claims_agent_id := aid;
        claims_tool_name := py_str tool; claims_scope := py_str scope |})))))).

(** [verify_grant_token] at the time PyJWT reads. *)
Definition verify_at (token : string) (settings : Settings) (now : Z) : res GrantClaims :=
  match jwt_decode token (jwt_public_key_pem settings) ALGORITHM (jwt_issuer settings)
          REQUIRED_CLAIMS now with
  | Exn e =>
      if isinstance e ExpiredSignatureError
      then Exn (raise_of GrantExpiredError "grant token has expired")
      else if caught_by [PyJWTError; ValueError] e
      then Exn (raise_of GrantTokenInvalidError "grant token is invalid")
      else Exn e
  | Ok payload =>
      match claims_of payload with
      | Ok c => Ok c
      | Exn e =>
          if caught_by [KeyError; ValueError; TypeError] e
          then Exn (raise_of GrantTokenInvalidError "grant token claims are malformed")
          else Exn e
      end
  end.

Definition verify_grant_token (token : string) (settings : Settings) : prog GrantClaims :=
  now <- perform EUtcNow ;;
  lift (verify_at token settings now).
End Tokens.

(** ** What PyJWT's documentation states of a key pair *)

Record PyJwtLaws `{PyRepr} (jwt : PyJwt) (private_key public_key : string) : Prop := {
  (* a serialisable payload is signed *)
  jwt_signs : forall payload, json_plain (JObj payload) ->
    is_ok (jwt_encode payload private_key ALGORITHM) = true;
  (* a signed payload with the required claims, the expected issuer and
     integer times is returned until [exp], and expired from then on *)
  jwt_verifies : forall payload token issuer now iat exp,
    jwt_encode payload private_key ALGORITHM = Ok token -> json_plain (JObj payload) ->
    Forall (fun c => is_Some (dict_get c payload)) REQUIRED_CLAIMS ->
    dict_get "iss" payload = Some (JStr issuer) ->
    dict_get "iat" payload = Some (JInt iat) -> dict_get "exp" payload = Some (JInt exp) ->
    iat * 1000000 <= now ->
    jwt_decode token public_key ALGORITHM issuer REQUIRED_CLAIMS now =
      if exp * 1000000 <=? now then Exn (raise_of ExpiredSignatureError "Signature has expired")
      else Ok payload;
  (* every failure to decode is one of its errors, or that of an
     unparseable key *)
  jwt_errors : forall token issuer require now e,
    jwt_decode token public_key ALGORITHM issuer require now = Exn e ->
    caught_by [PyJWTError; ValueError] e = true
}.

(** ** Lemmas *)

Section Correct.
Context `{repr : PyRepr} (jwt : PyJwt).

Lemma hex_or_dash_utf8 s : str_all is_hex_or_dash s = true -> utf8_valid (encode s) = true.
Proof.
  induction s as [|c s IH]; [done|]. cbn [str_all]. intros [Hc Hs]%andb_true_iff.
  rewrite encode_cons. cbn [utf8_valid].
  replace (in_range 0 127 (byte_of_ascii c)) with true; [by apply IH|].
  symmetry. apply in_range_ord. unfold is_hex_or_dash, is_hex, ord in *.
  rewrite !orb_true_iff, !andb_true_iff, !N.leb_le in Hc.
  destruct Hc as [Hc|Hc]; [lia|]. apply Ascii.eqb_eq in Hc as ->. simpl. lia.
Qed.

Lemma uuid_str_utf8 u : utf8_valid (encode (uuid_str u)) = true.
Proof. apply hex_or_dash_utf8, hyphenate_all, hex_fixed_all. done. Qed.

Lemma grant_payload_plain settings gid aid tool scope t1 t2 :
  Forall (fun s => utf8_valid (encode s) = true) [jwt_issuer settings; tool; scope] ->
  json_plain (JObj (grant_payload settings gid aid tool scope t1 t2)).
Proof.
  intros Hs. rewrite !Forall_cons in Hs. destruct Hs as (H1 & H2 & H3 & _).
  unfold grant_payload. constructor.
  - simpl. by apply (bool_decide_unpack _).
  - repeat (constructor; [split; [done|constructor; auto using uuid_str_utf8]|]). constructor.
Qed.

Lemma epoch_seconds_le d : 0 <= instant d -> dt_epoch_seconds d * 1000000 <= instant d.
Proof.
  intros Hd. unfold dt_epoch_seconds. rewrite Z.quot_div_nonneg by lia.
  pose proof (Z.div_mod (instant d) 1000000). pose proof (Z.mod_pos_bound (instant d) 1000000). lia.
Qed.

Lemma claims_of_payload settings gid aid tool scope t1 t2 :
  claims_of (grant_payload settings gid aid tool scope t1 t2) =
  Ok {| claims_grant_id := gid; claims_agent_id := aid; claims_tool_name := tool; claims_scope := scope |}.
Proof.
  unfold claims_of, grant_payload, dict_index. cbn -[uuid_str uuid_of_str].
  by rewrite !uuid_of_str_str.
Qed.

(** How the claims of a payload can fail to be read. *)
Definition claim_error (payload : dict) (e : exn) : Prop :=
  caught_by [KeyError; ValueError; TypeError] e = true \/
  exn_class e = AttributeError /\
    exists c v, c ∈ ["jti"; "sub"] /\ dict_get c payload = Some v /\ forall s, v <> JStr s.

Lemma dict_index_error k payload e : dict_index k payload = Exn e -> claim_error payload e.
Proof.
  unfold dict_index. destruct (dict_get k payload); [done|]. intros [= <-]. by left.
Qed.

Lemma uuid_claim_error k v payload e :
  k ∈ ["jti"; "sub"] -> dict_index k payload = Ok v -> uuid_of_json v = Exn e -> claim_error payload e.
Proof.
  intros Hk Hv He. unfold dict_index in Hv.
  destruct (dict_get k payload) as [w|] eqn:E; [|done]. injection Hv as ->.
  destruct v; simpl in He; try (injection He as <-).
  5: { destruct (uuid_of_str s); [done|]. injection He as <-. by left. }
  1: by left.
  all: right; split; [done|]; by eexists k, _.
Qed.

Lemma claims_of_errors payload e : claims_of payload = Exn e -> claim_error payload e.
Proof.
  unfold claims_of. intros Hc.
  repeat match type of Hc with
  | res_bind (dict_index ?k _) _ = _ =>
      let E := fresh "E" in
      destruct (dict_index k payload) eqn:E; cbn [res_bind] in Hc;
      [|injection Hc as <-; by eapply dict_index_error]
  | res_bind (uuid_of_json ?v) _ = _ =>
      let E := fresh "E" in
      destruct (uuid_of_json v) eqn:E; cbn [res_bind] in Hc;
      [|injection Hc as <-; eapply uuid_claim_error; [|eassumption..]; set_solver]
  end.
  done.
Qed.
End Correct.

(** ** Properties *)

(** C28. A signed grant token reads back: from the moment of issuance until
    the second its [exp] names, verification returns exactly the grant,
    agent, tool and scope it was signed for, and from then on
    [GrantExpiredError]; the token's last second is at most one second
    before the expiry recorded with the grant. *)
Theorem grant_token_roundtrip `{repr : PyRepr} (jwt : PyJwt) (settings : Settings)
    (gid aid : uuid) (tool scope : string) (issued expires : datetime) (now : Z)
    (Hjwt : PyJwtLaws jwt (jwt_private_key_pem settings) (jwt_public_key_pem settings))
    (Hutf8 : Forall (fun s => utf8_valid (encode s) = true) [jwt_issuer settings; tool; scope])
    (Hpast : 0 <= instant issued <= now) (Hexp : 0 <= instant expires) :
  exists token, sign_grant_token settings gid aid tool scope issued expires = Ok token /\
    verify_at token settings now =
      (if dt_epoch_seconds expires * 1000000 <=? now
       then Exn (raise_of GrantExpiredError "grant token has expired")
       else Ok {| claims_grant_id := gid; claims_agent_id := aid;
                  claims_tool_name := tool; claims_scope := scope |}) /\
    instant expires - 1000000 < dt_epoch_seconds expires * 1000000 <= instant expires.
Proof.
  pose proof (grant_payload_plain settings gid aid tool scope issued expires Hutf8) as Hplain.
  pose proof (jwt_signs jwt _ _ Hjwt _ Hplain) as Hs. unfold sign_grant_token.
  destruct (jwt_encode _ _ _) as [token|e] eqn:E; [|done]. exists token. split; [done|]. split.
  - unfold verify_at.
    rewrite (jwt_verifies jwt _ _ Hjwt _ token (jwt_issuer settings) now (dt_epoch_seconds issued)
      (dt_epoch_seconds expires) E Hplain); try done.
    + destruct (_ <=? now); [done|]. by rewrite claims_of_payload.
    + repeat (constructor; [by eexists|]). constructor.
    + pose proof (epoch_seconds_le issued). lia.
  - split; [|by apply epoch_seconds_le]. unfold dt_epoch_seconds. rewrite Z.quot_div_nonneg by lia.
    pose proof (Z.div_mod (instant expires) 1000000).
    pose proof (Z.mod_pos_bound (instant expires) 1000000). lia.
Qed.

(** A stand-in with the laws, for the witnesses: the payload's text. *)
Definition toy_decode (token : string) (now : Z) : res dict :=
  match @json_loads example_repr token with
  | Ok (JObj p) =>
      match dict_get "exp" p with
      | Some (JInt exp) =>
          if exp * 1000000 <=? now
          then Exn (raise_of ExpiredSignatureError "Signature has expired")
          else Ok p
      | _ => Exn (raise_of InvalidTokenError "missing exp")
      end
  | _ => Exn (raise_of InvalidTokenError "not enough segments")
  end.

Definition toy_jwt : PyJwt := {|
  jwt_encode p _ _ := Ok (@json_dumps example_repr false ", " ": " (JObj p));
  jwt_decode token _ _ _ _ now := toy_decode token now
|}.

Lemma toy_jwt_laws priv pub : @PyJwtLaws example_repr toy_jwt priv pub.
Proof.
  split.
  - done.
  - intros payload token issuer now iat exp. cbn [jwt_encode jwt_decode toy_jwt].
    intros Hok Hp _ _ _ Hexp _.
    assert (token = @json_dumps example_repr false ", " ": " (JObj payload)) as -> by congruence.
    unfold toy_decode. rewrite (@loads_dumps example_repr) by done.
    by rewrite Hexp.
  - intros token issuer require now e. cbn [jwt_decode toy_jwt]. unfold toy_decode.
    destruct (json_loads token) as [[| | | | | |p]|]; try (by intros [= <-]).
    destruct (dict_get "exp" p) as [[]|]; try (by intros [= <-]).
    destruct (_ <=? now); by intros [= <-].
Qed.

Definition example_uuid (z : Z) : uuid := default inhabitant (uuid_of_int z).

Lemma grant_token_roundtrip_witness :
  exists token,
    @sign_grant_token toy_jwt default_settings (example_uuid 7) (example_uuid 8) "drive.read" "read"
      (utc 1700000000000000) (utc 1700000300000000) = Ok token /\
    @verify_at toy_jwt example_repr token default_settings 1700000001000000 =
      Ok {| claims_grant_id := example_uuid 7; claims_agent_id := example_uuid 8;
            claims_tool_name := "drive.read"; claims_scope := "read" |}.
Proof.
  destruct (@grant_token_roundtrip example_repr toy_jwt default_settings (example_uuid 7)
    (example_uuid 8) "drive.read" "read" (utc 1700000000000000) (utc 1700000300000000)
    1700000001000000 (toy_jwt_laws _ _)) as (token & H1 & H2 & _).
  - repeat constructor.
  - vm_compute; split; discriminate.
  - vm_compute; discriminate.
  - exists token. split; [exact H1|exact H2].
Defined.

(** C29. Verification is total in its errors: whatever text is presented,
    the only exceptions are [GrantExpiredError] and
    [GrantTokenInvalidError], except for a token this broker's key signed
    whose [jti] or [sub] is not a string. *)
Theorem verify_errors `{repr : PyRepr} (jwt : PyJwt) (settings : Settings) (token : string)
    (now : Z) (e : exn)
    (Hjwt : PyJwtLaws jwt (jwt_private_key_pem settings) (jwt_public_key_pem settings))
    (Hfail : verify_at token settings now = Exn e) :
  exn_class e = GrantExpiredError \/ exn_class e = GrantTokenInvalidError \/
  exn_class e = AttributeError /\
    exists payload c v, jwt_decode token (jwt_public_key_pem settings) ALGORITHM
        (jwt_issuer settings) REQUIRED_CLAIMS now = Ok payload /\
      c ∈ ["jti"; "sub"] /\ dict_get c payload = Some v /\ forall s, v <> JStr s.
Proof.
  unfold verify_at in Hfail.
  destruct (jwt_decode token _ _ _ _ now) as [payload|e'] eqn:Ed.
  2: { apply (jwt_errors jwt _ _ Hjwt) in Ed. rewrite Ed in Hfail.
       destruct (isinstance e' _); injection Hfail as <-; auto. }
  destruct (claims_of payload) as [c|e'] eqn:Ec; [done|].
  apply claims_of_errors in Ec as [Hc|[Hc (k & v & H1 & H2 & H3)]].
  - rewrite Hc in Hfail. injection Hfail as <-. auto.
  - destruct (caught_by _ e'); injection Hfail as <-; [auto|]. right. right. split; [done|].
    exists payload, k, v. auto.
Qed.

Lemma verify_errors_witness :
  let e := raise_of GrantTokenInvalidError "grant token is invalid" in
  @verify_at toy_jwt example_repr "not-a-token" default_settings 0 = Exn e /\
  (exn_class e = GrantExpiredError \/ exn_class e = GrantTokenInvalidError \/
   exn_class e = AttributeError).
Proof.
  intros e. assert (H : @verify_at toy_jwt example_repr "not-a-token" default_settings 0 = Exn e)
    by reflexivity.
  split; [exact H|].
  destruct (@verify_errors example_repr toy_jwt default_settings "not-a-token" 0 e
    (toy_jwt_laws _ _) H) as [H1|[H1|[H1 _]]]; auto.
Defined.
