(* ===== verification/Tools.v ===== *)
(** * Tool adapters ([src/credbroker/tools/])

    The adapter interface, the registry with [register_tool], [get_tool] and
    [configure_tools], and the Google Drive adapter. *)

From stdpp Require Import base tactics list strings numbers gmap pretty.
From S2P Require Import Prelude PyStr Errors Json Config Effects.
Open Scope string_scope.
#[local] Open Scope Z_scope.

(** ** The interface *)

(** An adapter: its class attributes, [call], and what [configure] makes of
    [call] ([None] for the default no-op). *)
Record ToolAdapter := {
  tool_name : string;
  tool_provider : string;
  tool_scope : string;
  tool_side_effectful : bool;
  tool_call : string -> dict -> prog json;
  tool_reconfigured : Settings -> option (string -> dict -> prog json)
}.

Definition configure (settings : Settings) (t : ToolAdapter) : ToolAdapter :=
  match tool_reconfigured t settings with
  | None => t
  | Some call => {| tool_name := tool_name t; tool_provider := tool_provider t;
                    tool_scope := tool_scope t; tool_side_effectful := tool_side_effectful t;
                    tool_call := call; tool_reconfigured := tool_reconfigured t |}
  end.

(** [TOOL_REGISTRY]. *)
Abbreviation registry := (gmap string ToolAdapter).

Definition register_tool (t : ToolAdapter) (r : registry) : registry := <[tool_name t := t]> r.

Definition get_tool (r : registry) (name : string) : res ToolAdapter :=
  or_raise (r !! name) (raise_of UnknownToolError ("unknown tool: " +:+ name)).

Definition configure_tools (settings : Settings) (r : registry) : registry :=
  configure settings <$> r.

(** ** Google Drive ([tools/drive.py]) *)

Definition DRIVE_API_DEFAULT : string := "https://www.googleapis.com/drive/v3".
Definition DRIVE_FIELDS : string := "nextPageToken,files(id,name,mimeType,modifiedTime)".

Section Drive.
Context `{PyRepr}.

(** [if v := arguments.get(k): params[p] = str(v)]. *)
Definition optional_param (k p : string) (arguments : dict) : dict :=
  match dict_get k arguments with
  | Some v => if truthy v then [(p, JStr (py_str v))] else []
  | None => []
  end.

Definition drive_params (arguments : dict) : res dict :=
  res_map (fun size =>
    ([("pageSize", JInt size); ("fields", JStr DRIVE_FIELDS)]
       ++ optional_param "query" "q" arguments
       ++ optional_param "page_token" "pageToken" arguments)%list)
    (py_int (default (JInt 25) (dict_get "page_size" arguments))).

Definition drive_request (base_url access_token : string) (params : dict) : http_request := {|
  req_method := "GET";
  req_url := base_url +:+ "/files";
  req_fields := params;
  req_headers := [("Authorization", "Bearer " +:+ access_token)]
|}.

Definition drive_error (status : Z) : exn :=
  Exc ProviderCallError ("drive.read failed with HTTP " +:+ pretty status) (Some status).

Definition drive_call (base_url access_token : string) (arguments : dict) : prog json :=
  params <- lift (drive_params arguments) ;;
  response <- perform (EHttp (drive_request base_url access_token params)) ;;
  if 400 <=? resp_status response then raise (drive_error (resp_status response))
  else lift (resp_json response).

Definition drive_base_url (settings : Settings) : string :=
  if String.eqb (drive_api_base_url settings) "" then DRIVE_API_DEFAULT
  else drive_api_base_url settings.

Definition DriveListFilesTool : ToolAdapter := {|
  tool_name := "drive.read";
  tool_provider := "google";
  tool_scope := "read";
  tool_side_effectful := false;
  tool_call := drive_call DRIVE_API_DEFAULT;
  tool_reconfigured settings := Some (drive_call (drive_base_url settings))
|}.

(** The registry after [credbroker.tools] is imported. *)
Definition TOOL_REGISTRY : registry := register_tool DriveListFilesTool ∅.
End Drive.

(** ** Properties *)

(** One call of [drive.read] makes at most one request: a GET of the
    file list with the caller's token as bearer, none when [page_size] is
    not a number; the outcome is decided by the answer alone, and on an
    error status it carries the status and nothing of the body. *)
Theorem drive_call_spec `{PyRepr} {St} (h : handler St) (σ : St)
    (base_url access_token : string) (arguments : dict) :
  let p := drive_call base_url access_token arguments in
  match drive_params arguments with
  | Exn e => trace_of h p σ = [] /\ result_of h p σ = Exn e
  | Ok params =>
      exists a, trace_of h p σ = [Ev (EHttp (drive_request base_url access_token params)) a] /\
        result_of h p σ =
          match a with
          | Exn e => Exn e
          | Ok response =>
              if 400 <=? resp_status response then Exn (drive_error (resp_status response))
              else resp_json response
          end
  end.
Proof.
  cbn zeta. unfold drive_call, trace_of, result_of.
  destruct (drive_params arguments) as [params|e]; [|done]. cbn.
  destruct (h σ _) as [a σ']. exists a. destruct a as [response|e]; [|done]. cbn.
  by destruct (400 <=? resp_status response).
Qed.

(** Configuring the tools keeps the registry's names, providers and
    scopes, and afterwards [drive.read] calls the configured endpoint, or
    Google's when none is configured; configuring twice is configuring
    once more. *)
Theorem configure_tools_spec `{PyRepr} (settings settings' : Settings) :
  let r := configure_tools settings TOOL_REGISTRY in
  (exists t, get_tool r "drive.read" = Ok t /\ tool_provider t = "google" /\
     tool_scope t = "read" /\ tool_call t = drive_call (drive_base_url settings)) /\
  (forall name e, get_tool r name = Exn e <-> get_tool TOOL_REGISTRY name = Exn e) /\
  configure_tools settings' r = configure_tools settings' TOOL_REGISTRY.
Proof.
  cbn zeta. unfold configure_tools, TOOL_REGISTRY, register_tool, get_tool.
  rewrite !fmap_insert, !fmap_empty. split; [|split].
  - eexists. rewrite lookup_insert_eq. by repeat split.
  - intros name e. cbn [tool_name DriveListFilesTool].
    destruct (decide (name = "drive.read")) as [->|Hne].
    + by rewrite !lookup_insert_eq.
    + by rewrite !lookup_insert_ne.
  - done.
Qed.
