(* ===== verification/OAuthState.v ===== *)
(** * The OAuth state parameter ([src/credbroker/oauth/state.py])

    [make_state] and [verify_state] over HMAC-SHA256 and URL-safe base64. *)

From Stdlib Require Import Ascii.
From stdpp Require Import base tactics list strings numbers pretty.
From S2P Require Import Prelude PyStr Errors Json JsonParse Hashing Base64 Uuid Config Effects.
Open Scope string_scope.
#[local] Open Scope Z_scope.

Definition NONCE_BYTES : Z := 16.
Definition bar : ascii := "|"%char.

(** [_sign]. *)
Definition sign (secret payload : string) : string := hmac_sha256_hex (encode secret) (encode payload).

Definition state_payload (user_id expiry nonce : string) : string :=
  user_id +:+ "|" +:+ expiry +:+ "|" +:+ nonce.

Definition signed_state (settings : Settings) (user_id expiry nonce : string) : string :=
  let payload := state_payload user_id expiry nonce in
  payload +:+ "|" +:+ sign (oauth_state_secret settings) payload.

Definition make_state (settings : Settings) (user_id : string) : prog string :=
  if has_char bar user_id then raise (raise_of ValueError "user_id must not contain '|'")
  else
    time <- perform ETime ;;
    let expiry_epoch := time / 1000000 + oauth_state_ttl_seconds settings in
    nonce <- perform (ETokenHex NONCE_BYTES) ;;
    ret (urlsafe_b64encode (encode (signed_state settings user_id (pretty expiry_epoch) nonce))).

Definition malformed_state : exn := raise_of OAuthFlowError "malformed oauth state".
Definition state_mismatch : exn := raise_of OAuthFlowError "oauth state signature mismatch".
Definition state_expired : exn := raise_of OAuthFlowError "oauth state expired".

Definition verify_state (settings : Settings) (state : string) : prog string :=
  match urlsafe_b64decode state with
  | Exn e => if caught_by [BinasciiError; UnicodeDecodeError; ValueError] e
             then raise malformed_state else raise e
  | Ok raw =>
      match decode_utf8 raw with
      | None => raise malformed_state
      | Some decoded =>
          match split_on bar decoded with
          | [user_id; expiry_str; nonce; signature] =>
              let expected := sign (oauth_state_secret settings) (state_payload user_id expiry_str nonce) in
              if negb (String.eqb signature expected) then raise state_mismatch
              else
                match int_of_str 10 expiry_str with
                | None => raise malformed_state
                | Some expiry_epoch =>
                    time <- perform ETime ;;
                    if expiry_epoch * 1000000 <? time then raise state_expired
                    else ret user_id
                end
          | _ => raise malformed_state
          end
      end
  end.

(** ** Lemmas *)

Lemma utf8_valid_app b c : utf8_valid b = true -> utf8_valid c = true -> utf8_valid (b ++ c)%list = true.
Proof.
  intros Hb Hc. remember (length b) as n eqn:Hn. revert b Hn Hb.
  induction n as [n IH] using lt_wf_ind. intros b Hn Hb. subst n.
  assert (IH' : forall d, (length d < length b)%nat -> utf8_valid d = true -> utf8_valid (d ++ c)%list = true).
  { intros d Hd. by apply (IH (length d)). } clear IH.
  destruct b as [|x b]; [done|]. cbn [utf8_valid app] in *.
  destruct (in_range 0 127 x); [apply IH'; [simpl; lia|done]|].
  destruct b as [|y b]; [done|]. cbn [app] in *.
  destruct (in_range 194 223 x && in_range 128 191 y)%bool; [apply IH'; [simpl; lia|done]|].
  destruct b as [|z b]; [done|]. cbn [app] in *.
  match type of Hb with (if ?q then utf8_valid _ else _) = true =>
    destruct q; [apply IH'; [simpl; lia|done]|] end.
  destruct b as [|w b]; [done|]. cbn [app] in *. rewrite !andb_true_iff in *.
  destruct Hb as [Hb1 Hb2]. split; [done|]. apply IH'; [simpl; lia|done].
Qed.

Lemma encode_app s t : encode (s +:+ t) = (encode s ++ encode t)%list.
Proof.
  induction s as [|c s IH]; [done|]. rewrite append_cons, !encode_cons. cbn [app]. by rewrite IH.
Qed.

(** ASCII text is valid UTF-8. *)
Lemma ascii_utf8 s : str_all is_ascii s = true -> utf8_valid (encode s) = true.
Proof.
  induction s as [|c s IH]; [done|]. cbn [str_all]. intros [Hc Hs]%andb_true_iff.
  rewrite encode_cons. cbn [utf8_valid].
  replace (in_range 0 127 (byte_of_ascii c)) with true; [by apply IH|].
  symmetry. apply in_range_ord. unfold is_ascii, ord in *. apply N.ltb_lt in Hc. lia.
Qed.

Lemma hex_ascii s : str_all is_hex s = true -> str_all is_ascii s = true.
Proof.
  apply str_all_impl. intros c. unfold is_hex, is_ascii.
  rewrite orb_true_iff, !andb_true_iff, !N.leb_le, N.ltb_lt. lia.
Qed.

Lemma signed_digit_ascii c : is_signed_digit c = true -> is_ascii c = true.
Proof.
  unfold is_signed_digit, is_digit, is_ascii.
  rewrite orb_true_iff, andb_true_iff, !N.leb_le, N.ltb_lt.
  intros [H|H]; [lia|]. apply Ascii.eqb_eq in H as ->. done.
Qed.

Lemma pretty_Z_ascii (z : Z) : str_all is_ascii (pretty z) = true.
Proof. eapply str_all_impl, pretty_Z_signed_digits. apply signed_digit_ascii. Qed.

(** The four fields are found again. *)
Lemma split_signed settings uid expiry nonce :
  has_char bar uid = false -> has_char bar expiry = false -> has_char bar nonce = false ->
  split_on bar (signed_state settings uid expiry nonce) =
  [uid; expiry; nonce; sign (oauth_state_secret settings) (state_payload uid expiry nonce)].
Proof.
  intros Hu He Hn. unfold signed_state, state_payload at 1. rewrite !append_assoc.
  do 3 (match goal with |- context ["|" +:+ ?s] => change ("|" +:+ s) with (String bar s) end;
        rewrite split_on_app by done).
  rewrite split_on_last; [done|]. unfold sign.
  eapply has_char_all; [apply hmac_hex_digits|done].
Qed.

Lemma signed_state_utf8 settings uid (expiry : Z) nonce :
  utf8_valid (encode uid) = true -> str_all is_hex nonce = true ->
  utf8_valid (encode (signed_state settings uid (pretty expiry) nonce)) = true.
Proof.
  intros Hu Hn. unfold signed_state, state_payload, sign.
  repeat (rewrite encode_app; apply utf8_valid_app);
    try done; apply ascii_utf8; auto using pretty_Z_ascii, hex_ascii, hmac_hex_digits.
Qed.

Lemma verify_signed settings uid (expiry : Z) nonce :
  has_char bar uid = false -> utf8_valid (encode uid) = true -> str_all is_hex nonce = true ->
  verify_state settings (urlsafe_b64encode (encode (signed_state settings uid (pretty expiry) nonce))) =
  (time <- perform ETime ;;
   if expiry * 1000000 <? time then raise state_expired else ret uid).
Proof.
  intros Hb Hu Hn. unfold verify_state. rewrite urlsafe_decode_encode.
  rewrite encode_decode by by apply signed_state_utf8.
  rewrite split_signed; [|done|by apply pretty_Z_no_char|by eapply has_char_all].
  rewrite String.eqb_refl. cbn [negb]. by rewrite int_of_str_pretty.
Qed.

Lemma a2b_errors plus slash s text e :
  a2b_base64 plus slash s text = Exn e -> e = bad_length \/ e = bad_padding.
Proof.
  revert s e. induction text as [|c text IH]; intros s e; cbn [a2b_base64].
  - destruct (quad_pos s =? 0); [done|]. destruct (quad_pos s =? 1); intros [= <-]; auto.
  - assert (Hmap : forall (x : byte) r, (forall e, r = Exn e -> e = bad_length \/ e = bad_padding) ->
      res_map (cons x) r = Exn e -> e = bad_length \/ e = bad_padding).
    { intros x [b|e'] Hr; cbn; [done|]. intros [= <-]. by apply Hr. }
    destruct (Ascii.eqb c "=").
    + destruct (2 <=? quad_pos s); [|apply IH]. destruct (4 <=? _); [done|apply IH].
    + destruct (b64_value plus slash c); [|apply IH].
      destruct (quad_pos s =? 0); [apply IH|].
      destruct (quad_pos s =? 1); [|destruct (quad_pos s =? 2)]; apply Hmap; intros e'; apply IH.
Qed.

(** The text a state was signed over. *)
Lemma signed_of_parts settings decoded uid expiry nonce signature :
  split_on bar decoded = [uid; expiry; nonce; signature] ->
  signature = sign (oauth_state_secret settings) (state_payload uid expiry nonce) ->
  decoded = signed_state settings uid expiry nonce.
Proof.
  intros Hsp ->. rewrite <- (join_split bar decoded), Hsp. cbn [join_with].
  unfold signed_state. set (sg := sign _ _). unfold state_payload. by rewrite !append_assoc.
Qed.

(** ** Properties *)

(** C35. A minted state is accepted, for the user it was minted for, until
    [oauth_state_ttl_seconds] after the second it was minted in, and is
    reported expired from then on. *)
Theorem state_roundtrip {St} (h : handler St) (settings : Settings) (user_id state : string) (σ : St)
    (Hhex : forall σ n, str_all is_hex (h σ (ETokenHex n)).1 = true)
    (Hutf8 : utf8_valid (encode user_id) = true)
    (Hmint : result_of h (make_state settings user_id) σ = Ok state) :
  let expiry := ((h σ ETime).1 / 1000000 + oauth_state_ttl_seconds settings)%Z in
  forall σ', result_of h (verify_state settings state) σ' =
    if expiry * 1000000 <? (h σ' ETime).1 then Exn state_expired else Ok user_id.
Proof.
  intros expiry σ'. unfold make_state in Hmint.
  destruct (has_char bar user_id) eqn:Hb; [done|]. unfold result_of in Hmint. cbn in Hmint.
  pose proof (Hhex (h σ ETime).2 NONCE_BYTES) as Hn. subst expiry.
  destruct (h σ ETime) as [time σ1]. cbn in *.
  destruct (h σ1 (ETokenHex NONCE_BYTES)) as [nonce σ2]. cbn in *. injection Hmint as <-.
  rewrite verify_signed by done. unfold result_of. cbn.
  destruct (h σ' ETime) as [time' σ3]. cbn. by destruct (_ <? time').
Qed.

(** A process whose clock shows the state and whose nonces are fixed. *)
Definition clock_process : handler Z := fun t c =>
  match c return reply c * Z with
  | ETime => (t, t)
  | ETokenHex _ => ("00112233445566778899aabbccddeeff", t)
  | c => (dead_reply c, t)
  end.

Lemma state_roundtrip_witness :
  exists state, result_of clock_process (make_state default_settings "u-1") 1700000000000000 = Ok state /\
    result_of clock_process (verify_state default_settings state) 1700000100000000 = Ok "u-1" /\
    result_of clock_process (verify_state default_settings state) 1700000601000000 = Exn state_expired.
Proof.
  destruct (result_of clock_process (make_state default_settings "u-1") 1700000000000000)
    as [state|e] eqn:E; [|discriminate E].
  exists state. split; [reflexivity|].
  pose proof (state_roundtrip clock_process default_settings "u-1" state 1700000000000000
    (fun _ _ => eq_refl) eq_refl E) as H.
  split; [exact (H 1700000100000000)|exact (H 1700000601000000)].
Defined.

(** C36. Only what this broker signed is accepted: whatever text arrives and
    whenever, a state verifies for a user only if it decodes to
    [user|expiry|nonce|signature] with the signature the secret gives for
    exactly that user, expiry and nonce, and the expiry has not passed; and
    every other text is refused with one of three fixed [OAuthFlowError]s,
    which show nothing of it. *)
Theorem verify_state_sound {St} (h : handler St) (settings : Settings) (state : string) (σ : St) :
  match result_of h (verify_state settings state) σ with
  | Ok user_id =>
      exists raw expiry_str nonce expiry,
        urlsafe_b64decode state = Ok raw /\
        decode_utf8 raw = Some (signed_state settings user_id expiry_str nonce) /\
        int_of_str 10 expiry_str = Some expiry /\ (h σ ETime).1 <= expiry * 1000000
  | Exn e => e = malformed_state \/ e = state_mismatch \/ e = state_expired
  end.
Proof.
  unfold verify_state. destruct (urlsafe_b64decode state) as [raw|e] eqn:E.
  2: { unfold urlsafe_b64decode in E. apply a2b_errors in E as [-> | ->]; by left. }
  destruct (decode_utf8 raw) as [decoded|] eqn:Ed; [|by left].
  destruct (split_on bar decoded) as [|uid [|expiry_str [|nonce [|signature [|]]]]] eqn:Es;
    try (by left).
  destruct (String.eqb_spec signature (sign (oauth_state_secret settings) (state_payload uid expiry_str nonce)))
    as [Hsig|]; cbn [negb]; [|by right; left].
  destruct (int_of_str 10 expiry_str) as [expiry|] eqn:Ei; [|by left].
  unfold result_of. cbn. destruct (h σ ETime) as [time σ'] eqn:Et. cbn.
  destruct (Z.ltb_spec (expiry * 1000000) time); cbn; [by right; right|].
  exists raw, expiry_str, nonce, expiry. repeat split; [|done|done].
  by rewrite Ed, (signed_of_parts settings decoded uid expiry_str nonce signature).
Qed.
