(* ===== verification/Google.v ===== *)
(** * The Google OAuth client ([src/credbroker/oauth/google.py])

    The consent URL and the two calls of the token endpoint, with the parser
    of its responses. *)

From Stdlib Require Import Ascii.
From stdpp Require Import base tactics list strings numbers pretty.
From S2P Require Import Prelude PyStr Errors Json JsonParse Hashing Config Models Effects Redaction.
Open Scope string_scope.
#[local] Open Scope Z_scope.

Definition GOOGLE_AUTH_URL : string := "https://accounts.google.com/o/oauth2/v2/auth".
Definition GOOGLE_TOKEN_URL : string := "https://oauth2.googleapis.com/token".
Definition DEFAULT_SCOPES : list string := ["https://www.googleapis.com/auth/drive.readonly"].

(** ** [urllib.parse.urlencode] *)

Definition url_safe (c : ascii) : bool :=
  let n := N_of_ascii c in
  is_digit c || ((65 <=? n)%N && (n <=? 90)%N) || ((97 <=? n)%N && (n <=? 122)%N)
  || Ascii.eqb c "_" || Ascii.eqb c "." || Ascii.eqb c "-" || Ascii.eqb c "~".

Definition upper_hex_digit (n : Z) : ascii :=
  ascii_of_N (Z.to_N (if n <? 10 then 48 + n else 55 + n)).

(** [quote_plus]. *)
Fixpoint quote_plus (s : string) : string :=
  match s with
  | EmptyString => ""
  | String c s' =>
      if url_safe c then String c (quote_plus s')
      else if Ascii.eqb c " " then String "+" (quote_plus s')
      else String "%" (String (upper_hex_digit (ord c / 16))
             (String (upper_hex_digit (ord c mod 16)) (quote_plus s')))
  end.

Definition urlencode (params : list (string * string)) : string :=
  join_str "&" (map (fun kv => quote_plus kv.1 +:+ "=" +:+ quote_plus kv.2) params).

(** ** [str.split()] *)

Definition py_is_space (z : Z) : bool :=
  ((9 <=? z) && (z <=? 13)) || ((28 <=? z) && (z <=? 32)) || (z =? 133) || (z =? 160)
  || (z =? 5760) || ((8192 <=? z) && (z <=? 8202)) || (z =? 8232) || (z =? 8233)
  || (z =? 8239) || (z =? 8287) || (z =? 12288).

(** The words of a text, the current one accumulated in reverse. *)
Fixpoint split_spaces (word : list Z) (zs : list Z) : list string :=
  let emit rest := match word with [] => rest | _ => utf8 (rev word) :: rest end in
  match zs with
  | [] => emit []
  | z :: zs' => if py_is_space z then emit (split_spaces [] zs') else split_spaces (z :: word) zs'
  end.

Definition py_split (s : string) : list string := split_spaces [] (code_points s).

(** ** The client *)

Record TokenResponse := {
  access_token : string;
  refresh_token : option json;   (* annotated [str | None]; any truthy value passes *)
  expires_in : option Z;
  token_scopes : list string
}.

Definition redirect_uri (settings : Settings) : string :=
  public_base_url settings +:+ "/oauth/google/callback".

Definition build_authorize_url (settings : Settings) (state : string) : string :=
  GOOGLE_AUTH_URL +:+ "?" +:+ urlencode [
    ("client_id", google_client_id settings);
    ("redirect_uri", redirect_uri settings);
    ("response_type", "code");
    ("scope", join_str " " DEFAULT_SCOPES);
    ("state", state);
    ("access_type", "offline");
    ("prompt", "consent")].

Section Client.
Context `{PyRepr}.

Definition endpoint_status_error (status : Z) : exn :=
  raise_of OAuthFlowError ("google token endpoint returned HTTP " +:+ pretty status).
Definition endpoint_not_json : exn :=
  raise_of OAuthFlowError "google token endpoint returned a non-JSON response".
Definition endpoint_no_token : exn :=
  raise_of OAuthFlowError "google token endpoint response is missing access_token".
Definition no_attribute_get : exn := raise_of AttributeError "object has no attribute 'get'".

(** [int(expires_in) if expires_in is not None else None]. *)
Definition parse_expiry (j : json) : res (option Z) :=
  match j with JNull => Ok None | _ => res_map Some (py_int j) end.

(** [payload.get("refresh_token") or None]. *)
Definition payload_refresh (payload : dict) : option json :=
  match dict_get "refresh_token" payload with
  | Some v => if truthy v then Some v else None
  | None => None
  end.

Definition payload_scopes (payload : dict) : list string :=
  py_split (py_str (default (JStr "") (dict_get "scope" payload))).

Definition parse_token_response (response : http_response) : prog TokenResponse :=
  let status := resp_status response in
  if (status <? 200) || (300 <=? status) then raise (endpoint_status_error status)
  else
    match resp_json response with
    | Exn e => if isinstance e ValueError then raise endpoint_not_json else raise e
    | Ok (JObj payload) =>
        match dict_get "access_token" payload with
        | Some (JStr access) =>
            if String.eqb access "" then raise endpoint_no_token
            else
              let refresh := payload_refresh payload in
              register_secret (ArgValue (JStr access)) ;;
              register_secret (ArgValue (default JNull refresh)) ;;
              expires <- lift (parse_expiry (default JNull (dict_get "expires_in" payload))) ;;
              ret {| access_token := access; refresh_token := refresh;
                     expires_in := expires; token_scopes := payload_scopes payload |}
        | _ => raise endpoint_no_token
        end
    | Ok _ => raise no_attribute_get
    end.

(** A POST of form data to the token endpoint. *)
Definition token_request (fields : list (string * string)) : http_request := {|
  req_method := "POST";
  req_url := GOOGLE_TOKEN_URL;
  req_fields := map (fun kv => (kv.1, JStr kv.2)) fields;
  req_headers := []
|}.

Definition exchange_code (settings : Settings) (code : string) : prog TokenResponse :=
  response <- perform (EHttp (token_request [
    ("client_id", google_client_id settings);
    ("client_secret", google_client_secret settings);
    ("code", code);
    ("grant_type", "authorization_code");
    ("redirect_uri", redirect_uri settings)])) ;;
  parse_token_response response.

Definition refresh_access_token (settings : Settings) (refresh : string) : prog TokenResponse :=
  response <- perform (EHttp (token_request [
    ("client_id", google_client_id settings);
    ("client_secret", google_client_secret settings);
    ("refresh_token", refresh);
    ("grant_type", "refresh_token")])) ;;
  parse_token_response response.
End Client.

Section Outcome.
Context `{PyRepr}.

(** The errors of the parser, with what they show: the status, or nothing. *)
Inductive token_error (response : http_response) : exn -> Prop :=
| TE_status : token_error response (endpoint_status_error (resp_status response))
| TE_not_json : token_error response endpoint_not_json
| TE_no_token : token_error response endpoint_no_token
| TE_not_a_dict j : resp_json response = Ok j -> (forall d, j <> JObj d) ->
    token_error response no_attribute_get
| TE_decode e : resp_json response = Exn e -> isinstance e ValueError = false ->
    token_error response e
| TE_refresh e d v : resp_json response = Ok (JObj d) -> dict_get "refresh_token" d = Some v ->
    (forall s, v <> JStr s) -> exn_class e = TypeError -> token_error response e
| TE_expiry e d v : resp_json response = Ok (JObj d) -> dict_get "expires_in" d = Some v ->
    py_int v = Exn e -> token_error response e.

(** Registering what [payload.get("refresh_token") or None] gives. *)
Lemma register_refresh {St} (h : handler St) (o : option json) σ :
  match result_of h (register_secret (ArgValue (default JNull o))) σ with
  | Ok _ => forall s, o = Some (JStr s) -> MIN_SECRET_LEN <= py_len s ->
      In (Ev (ERegisterSecret s) tt) (trace_of h (register_secret (ArgValue (default JNull o))) σ)
  | Exn e => exn_class e = TypeError /\ exists v, o = Some v /\ forall s, v <> JStr s
  end.
Proof.
  destruct o as [j|]; [|by intros s].
  change (default JNull (Some j)) with j.
  assert (Hstr : (exists s, j = JStr s) \/ forall s, j <> JStr s) by (destruct j; eauto; by right).
  destruct Hstr as [[s ->]|Hj].
  - rewrite register_returns. intros s' [= <-] Hs. rewrite register_trace by done. by left.
  - unfold register_secret. destruct (truthy j); cbn [negb]; [|by intros s [= Hs]; destruct (Hj s)].
    destruct j; try (split; [done|by eexists]); try (by destruct (Hj s));
      destruct (_ <? _)%Z; try (split; [done|by eexists]); by intros s [= Hs].
Qed.
End Outcome.

(** ** Properties *)

