(* ===== verification/Router.v ===== *)
(** * The OAuth connect flow ([src/credbroker/oauth/router.py])

    The authorize and callback handlers.  FastAPI has parsed the parameters
    by the time a handler runs; an [HTTPException] carries its status and
    detail. *)

From Stdlib Require Import Ascii.
From stdpp Require Import base tactics list strings numbers.
From S2P Require Import Prelude PyStr Errors Json Base64 Uuid Config Models Effects Redaction Kms.
From S2P Require Import OAuthState Google.
Open Scope string_scope.
#[local] Open Scope Z_scope.

Definition PROVIDER : string := "google".

Definition http_exception (status : Z) (detail : string) : exn := Exc HTTPException detail (Some status).

(** [_require_google]. *)
Definition require_google (provider : string) : res unit :=
  if String.eqb provider PROVIDER then Ok tt
  else Exn (http_exception 404 ("unknown provider: " +:+ provider)).

(** The location of the 307 redirect. *)
Definition authorize (settings : Settings) (provider : string) (user_id : uuid) : prog string :=
  lift (require_google provider) ;;
  state <- make_state settings (uuid_str user_id) ;;
  ret (build_authorize_url settings state).

(** [re.fullmatch(r"[a-z_]{1,64}", error)]. *)
Definition vetted_error (error : string) : bool :=
  str_all (fun c => Ascii.eqb c "_" || ((97 <=? N_of_ascii c)%N && (N_of_ascii c <=? 122)%N)) error
  && (1 <=? Z.of_nat (String.length error)) && (Z.of_nat (String.length error) <=? 64).

Record callback_response := {
  connected_account_id : string;
  cr_provider : string;
  cr_scopes : list string
}.

Section Callback.
Context `{PyRepr} `{AesGcm}.

Definition no_user_id : exn := http_exception 400 "oauth state carries no valid user id".

(** The [try] block: the verified user and the exchanged tokens. *)
Definition identify (settings : Settings) (code state : string) : prog (uuid * TokenResponse) :=
  user <- verify_state settings state ;;
  user_id <- lift (or_raise (uuid_of_str user)
                     (raise_of ValueError "badly formed hexadecimal UUID string")) ;;
  token <- exchange_code settings code ;;
  ret (user_id, token).

Definition account_of (account_id user_id : uuid) (token : TokenResponse) (access : bytes)
    (refresh : option bytes) (expires : option datetime) (created : datetime) : ConnectedAccount := {|
  acc_id := account_id;
  acc_user_id := user_id;
  acc_provider := PROVIDER;
  acc_encrypted_access_token := access;
  acc_encrypted_refresh_token := refresh;
  acc_scopes_granted := token_scopes token;
  acc_expires_at := expires;
  acc_created_at := created
|}.

(** [utcnow() + timedelta(seconds=...)] when the token expires. *)
Definition expiry_of (token : TokenResponse) : prog (option datetime) :=
  match expires_in token with
  | Some s => now <- perform EUtcNow ;; expires <- lift (dt_plus_seconds (utc now) s) ;; ret (Some expires)
  | None => ret None
  end.

(** The row; its defaults ([uuid4], [utcnow]) are drawn at the flush. *)
Definition store_account (user_id : uuid) (token : TokenResponse) (access : bytes)
    (refresh : option bytes) (expires : option datetime) : prog uuid :=
  with_session
    (account_id <- perform EUuid4 ;;
     created <- perform EUtcNow ;;
     perform (EDbAdd (RowAccount (account_of account_id user_id token access refresh expires (utc created)))) ;;
     perform EDbFlush ;;
     perform EDbCommit ;;
     ret account_id).

(** Everything after the [try] block. *)
Definition connect (km : KeyManager) (user_id : uuid) (token : TokenResponse) : prog callback_response :=
  perform EToThread ;;
  encrypted_access <- encrypt km (access_token token) ;;
  encrypted_refresh <-
    (match refresh_token token with
     | Some v => perform EToThread ;; b <- encrypt_value km v ;; ret (Some b)
     | None => ret None
     end) ;;
  expires <- expiry_of token ;;
  account_id <- store_account user_id token encrypted_access encrypted_refresh expires ;;
  perform (EMetric (OAUTH_ACCOUNTS_CONNECTED PROVIDER)) ;;
  perform (ELog INFO "connected %s account %s for user %s"
             [PROVIDER; uuid_str account_id; uuid_str user_id]) ;;
  ret {| connected_account_id := uuid_str account_id; cr_provider := PROVIDER;
         cr_scopes := token_scopes token |}.

Definition callback (settings : Settings) (km : KeyManager) (provider : string)
    (code state error : option string) : prog callback_response :=
  lift (require_google provider) ;;
  match error with
  | Some error =>
      let safe_error := if vetted_error error then error else "unknown_error" in
      raise (http_exception 400 ("provider reported: " +:+ safe_error))
  | None =>
      match code, state with
      | Some code, Some state =>
          r <- attempt (identify settings code state) ;;
          match r with
          | Ok (user_id, token) => connect km user_id token
          | Exn e =>
              if isinstance e OAuthFlowError then raise (http_exception 400 (exn_msg e))
              else if isinstance e ValueError then raise no_user_id
              else raise e
          end
      | _, _ => raise (http_exception 422 "missing code or state parameter")
      end
  end.
End Callback.

(** ** Lemmas *)

Definition is_http (c : eff) : bool := match c with EHttp _ => true | _ => false end.
Definition is_commit (c : eff) : bool := match c with EDbCommit => true | _ => false end.
(** Whatever leaves the process for the provider, the database or Redis. *)
Definition is_outbound (c : eff) : bool := is_http c || is_db c || is_redis c.

(** A key manager talks to no provider, no database and no Redis. *)
Definition km_local (km : KeyManager) : Prop :=
  avoids is_outbound (generate_data_key km) /\ forall b, avoids is_outbound (decrypt_data_key km b).

Lemma outbound_db c : is_db c = true -> is_outbound c = true.
Proof. unfold is_outbound. intros ->. by rewrite orb_true_r. Qed.

Lemma commit_outbound c : is_commit c = true -> is_outbound c = true.
Proof. by destruct c. Qed.

Lemma register_avoids v : avoids is_outbound (register_secret v).
Proof.
  unfold register_secret, register_str. destruct v as [[|]|j].
  - done.
  - destruct (decode_utf8 _); [by destruct (_ <? _)%Z|done].
  - destruct (truthy j); cbn [negb]; [|done]. destruct j; try done; by destruct (_ <? _)%Z.
Qed.

Lemma aws_local key_id : km_local (AwsKmsKeyManager key_id).
Proof. split; [|intros b]; by apply avoids_perform. Qed.

Lemma local_local `{AesGcm} master km : LocalKeyManager master = Ok km -> km_local km.
Proof.
  unfold LocalKeyManager. destruct (negb _); [done|]. intros [= <-]. split.
  - do 2 (apply avoids_bind; [done|intros ?]). apply avoids_bind; [done|]. done.
  - intros b. cbn [decrypt_data_key]. unfold local_decrypt. destruct (_ <? _)%Z; [done|].
    destruct (aesgcm_decrypt _ _ _); [done|]. by destruct (isinstance _ _).
Qed.

Section Lemmas.
Context `{PyRepr} `{AesGcm} (km : KeyManager) (Hkm : km_local km).

Lemma encrypt_avoids s : avoids is_outbound (encrypt km s).
Proof.
  apply avoids_bind; [apply register_avoids|intros _]. apply avoids_bind; [apply Hkm|intros [k ek]].
  destruct (_ <? _)%Z; [done|]. apply avoids_bind; [done|intros n]. by apply avoids_bind.
Qed.

Lemma encrypt_value_avoids v : avoids is_outbound (encrypt_value km v).
Proof.
  destruct v; try apply encrypt_avoids;
    (apply avoids_bind; [apply register_avoids|intros _]; apply avoids_bind; [apply Hkm|intros k];
     destruct (_ <? _)%Z; [done|by apply avoids_bind]).
Qed.

Lemma verify_avoids settings state : avoids is_outbound (verify_state settings state).
Proof.
  unfold verify_state. destruct (urlsafe_b64decode state) as [raw|e]; [|by destruct (caught_by _ e)].
  destruct (decode_utf8 raw); [|done]. destruct (split_on _ _) as [|? [|? [|? [|? [|]]]]]; try done.
  destruct (negb _); [done|]. destruct (int_of_str _ _); [|done].
  apply avoids_bind; [done|]. intros t. by destruct (_ <? _)%Z.
Qed.

Lemma parse_avoids response : avoids is_outbound (parse_token_response response).
Proof.
  unfold parse_token_response. destruct (_ || _)%bool; [done|].
  destruct (resp_json response) as [[| | | | | |d]|e]; try done; [|by destruct (isinstance e _)].
  destruct (dict_get _ d) as [[| | | |s| |]|]; try done. destruct (String.eqb s ""); [done|].
  do 2 (apply avoids_bind; [apply register_avoids|intros _]). by apply avoids_bind.
Qed.

Lemma identify_avoids P settings code state :
  (forall c, P c = true -> is_outbound c = true) ->
  (forall fields, P (EHttp (token_request fields)) = false) ->
  avoids P (identify settings code state).
Proof.
  intros Hout Hhttp.
  apply avoids_bind; [by eapply avoids_weaken, verify_avoids|intros user].
  apply avoids_bind; [done|intros uid]. apply avoids_bind; [|done].
  apply avoids_bind; [by apply avoids_perform|intros r]. by eapply avoids_weaken, parse_avoids.
Qed.

Lemma identify_avoids_db settings code state : avoids is_db (identify settings code state).
Proof. apply identify_avoids; [apply outbound_db|done]. Qed.

Lemma expiry_avoids token : avoids is_outbound (expiry_of token).
Proof. unfold expiry_of. destruct (expires_in token); [|done]. by repeat (apply avoids_bind; [done|intros ?]). Qed.

(** The database part of a connection that succeeded. *)
Definition stored_events (a : ConnectedAccount) : list event :=
  [Ev EDbOpen tt; Ev (EDbAdd (RowAccount a)) tt; Ev EDbFlush (Ok tt); Ev EDbCommit (Ok tt);
   Ev EDbClose (Ok tt)].

(** Nothing was committed, or the session failed to close afterwards. *)
Definition is_committed (ev : event) : bool :=
  match ev with Ev EDbCommit (Ok _) => true | _ => false end.
Definition not_stored (t : list event) (e : exn) : Prop :=
  existsb is_committed t = false \/ In (Ev EDbClose (Exn e)) t.

Lemma wp_store user_id token access refresh expires :
  wp snoc any_answer
    (account_id <- store_account user_id token access refresh expires ;;
     perform (EMetric (OAUTH_ACCOUNTS_CONNECTED PROVIDER)) ;;
     perform (ELog INFO "connected %s account %s for user %s"
                [PROVIDER; uuid_str account_id; uuid_str user_id]) ;;
     ret {| connected_account_id := uuid_str account_id; cr_provider := PROVIDER;
            cr_scopes := token_scopes token |})
    (fun t r => match r with
      | Ok resp => exists account_id created,
          let a := account_of account_id user_id token access refresh expires created in
          events_of is_db t = stored_events a /\
          resp = {| connected_account_id := uuid_str account_id; cr_provider := PROVIDER;
                    cr_scopes := token_scopes token |}
      | Exn e => not_stored (events_of is_db t) e
      end) [].
Proof.
  unfold store_account, with_session. wp_simpl.
  intros [] _ account_id _ created _ [] _ f _. destruct f as [[]|e]; wp_simpl.
  2: { intros [[]|e'] _; wp_simpl; by left. }
  intros c _. destruct c as [[]|e]; wp_simpl.
  2: { intros [[]|e'] _; wp_simpl; by left. }
  intros [[]|e'] _; wp_simpl.
  - intros [] _ [] _. by exists account_id, (utc created).
  - right. simpl. auto 10.
Qed.

Section Run.
Context {St} (h : handler St).

(** The account of a successful connection: encrypted tokens only. *)
Definition connected (uid : uuid) (tok : TokenResponse) (t : list event) (resp : callback_response) : Prop :=
  exists a, t = stored_events a /\
    acc_user_id a = uid /\ acc_provider a = PROVIDER /\ acc_scopes_granted a = token_scopes tok /\
    (exists σ1, result_of h (encrypt km (access_token tok)) σ1 = Ok (acc_encrypted_access_token a)) /\
    match refresh_token tok, acc_encrypted_refresh_token a with
    | None, None => True
    | Some v, Some b => exists σ2, result_of h (encrypt_value km v) σ2 = Ok b
    | _, _ => False
    end /\
    resp = {| connected_account_id := uuid_str (acc_id a); cr_provider := PROVIDER;
              cr_scopes := token_scopes tok |}.

Definition connect_outcome (uid : uuid) (tok : TokenResponse) (t : list event)
    (r : res callback_response) : Prop :=
  match r with
  | Ok resp => connected uid tok t resp
  | Exn e => not_stored t e
  end.

Lemma nothing_stored e : not_stored [] e.
Proof. by left. Qed.

Lemma avoid_db {A} (p : prog A) : avoids is_outbound p -> avoids is_db p.
Proof. apply avoids_weaken, outbound_db. Qed.

Lemma connect_run uid tok σ :
  connect_outcome uid tok (events_of is_db (trace_of h (connect km uid tok) σ))
    (result_of h (connect km uid tok) σ).
Proof.
  unfold connect. apply avoids_then; [done|intros; apply nothing_stored|intros _ _].
  apply avoids_then; [apply avoid_db, encrypt_avoids|intros; apply nothing_stored|].
  intros access Haccess. set (σ1 := state_of h (perform EToThread) σ) in *.
  apply avoids_then; [|intros; apply nothing_stored|].
  { destruct (refresh_token tok); [|done]. apply avoids_bind; [done|intros _].
    apply avoids_bind; [apply avoid_db, encrypt_value_avoids|done]. }
  intros refresh Hrefresh. set (σ2 := state_of h (encrypt km (access_token tok)) σ1) in *.
  apply avoids_then; [apply avoid_db, expiry_avoids|intros; apply nothing_stored|].
  intros expires _. set (σ3 := state_of h (expiry_of tok) _).
  pose proof (wp_every_run h _ _ σ3 (wp_store uid tok access refresh expires)) as Hw. cbn beta in Hw.
  destruct (result_of h _ σ3) as [resp|e]; [|exact Hw].
  destruct Hw as (account_id & created & Ht & ->). eexists. split; [exact Ht|].
  repeat split; try done; [by exists σ1|]. cbn [acc_encrypted_refresh_token account_of].
  destruct (refresh_token tok) as [v|].
  - rewrite result_bind in Hrefresh. destruct (result_of h (perform EToThread) σ2); [|done].
    apply bind_returns in Hrefresh as (b & Hb & Hr & _). injection Hr as <-. by eexists.
  - by injection Hrefresh as <-.
Qed.
End Run.
End Lemmas.

(** ** Properties *)

(** How the callback may end, with the database events [t]. *)
Definition callback_ends `{PyRepr} `{AesGcm} {St} (h : handler St) (settings : Settings)
    (km : KeyManager) (provider : string) (code state error : option string)
    (t : list event) (r : res callback_response) : Prop :=
  match r with
  | Ok resp =>
      exists c s user uid tok σ1 σ2,
        provider = PROVIDER /\ error = None /\ code = Some c /\ state = Some s /\
        result_of h (verify_state settings s) σ1 = Ok user /\ uuid_of_str user = Some uid /\
        result_of h (exchange_code settings c) σ2 = Ok tok /\ connected km h uid tok t resp
  | Exn e => not_stored t e
  end.


(** A process with a clock, whose provider answers every request with
    tokens. *)
Definition connect_process : handler unit := fun σ c =>
  match c return reply c * unit with
  | ETime => (1700000000000000, tt)
  | ETokenHex _ => ("00112233445566778899aabbccddeeff", tt)
  | EUrandom n => (replicate (Z.to_nat n) Byte.x01, tt)
  | EKmsGenerateDataKey _ => (Ok (replicate 32 Byte.x00, encode "wrap"), tt)
  | EHttp _ => (Ok {| resp_status := 200; resp_json := Ok (JObj [
      ("access_token", JStr "ya29.access"); ("refresh_token", JStr "1//refresh");
      ("expires_in", JInt 3599); ("scope", JStr "drive")]) |}, tt)
  | EDbFlush => (Ok tt, tt) | EDbCommit => (Ok tt, tt) | EDbClose => (Ok tt, tt)
  | c => (dead_reply c, tt)
  end.

Definition minted_state : option string :=
  match result_of connect_process
    (make_state default_settings "00000000-0000-0000-0000-00000000002a") tt with
  | Ok s => Some s
  | Exn _ => None
  end.

