(* ===== verification/Cache.v ===== *)
(** * The Redis-backed caches ([src/credbroker/cache/])

    [GrantCache] (issued and revoked grant-token hashes) and [RateLimiter]
    (fixed-window counters). *)

From stdpp Require Import base tactics list strings numbers gmap pretty.
From S2P Require Import Prelude PyStr Errors Config Effects Redis.
Open Scope string_scope.
#[local] Open Scope Z_scope.

(** ** [GrantCache] *)

Definition ISSUED_PREFIX : string := "grant:".
Definition REVOKED_PREFIX : string := "revoked:".
Definition DEFAULT_REVOKED_TTL_SECONDS : Z := 600.

Definition record_issued (token_hash : string) (ttl_seconds : Z) : prog unit :=
  perform (ERedisSet (ISSUED_PREFIX +:+ token_hash) "1" false ttl_seconds) ;;
  ret tt.

Definition record_revoked (token_hash : string) (ttl_seconds : Z) : prog unit :=
  perform (ERedisSet (REVOKED_PREFIX +:+ token_hash) "1" false ttl_seconds) ;;
  perform (ERedisDelete (ISSUED_PREFIX +:+ token_hash)) ;;
  ret tt.

Definition is_revoked (token_hash : string) : prog bool :=
  n <- perform (ERedisExists (REVOKED_PREFIX +:+ token_hash)) ;;
  ret (negb (n =? 0)).

Definition is_known (token_hash : string) : prog bool :=
  n <- perform (ERedisExists (ISSUED_PREFIX +:+ token_hash)) ;;
  ret (negb (n =? 0)).

(** ** [RateLimiter] *)

Definition RATELIMIT_PREFIX : string := "ratelimit:".

(** [int(time.time() // window_seconds)]. *)
Definition window_of (time window_seconds : Z) : Z := time / seconds window_seconds.

Definition counter_key (key : string) (window_index : Z) : string :=
  RATELIMIT_PREFIX +:+ key +:+ ":" +:+ pretty window_index.

Definition check (key : string) (limit window_seconds : Z) : prog bool :=
  time <- perform ETime ;;
  let counter := counter_key key (window_of time window_seconds) in
  count <- perform (ERedisIncr counter) ;;
  (if count =? 1 then perform (ERedisExpire counter window_seconds) else ret tt) ;;
  ret (count <=? limit).

(** [n] requests against one key, one after the other. *)
Fixpoint checks (n : nat) (key : string) (limit window_seconds : Z) : prog (list bool) :=
  match n with
  | O => ret []
  | S n' =>
      allowed <- check key limit window_seconds ;;
      rest <- checks n' key limit window_seconds ;;
      ret (allowed :: rest)
  end.

(** Commands that change a counter, but for its increments. *)
Definition counter_write (c : eff) : bool :=
  match c with
  | ERedisSet k _ _ _ | ERedisDelete k | ERedisExpire k _ => startswith RATELIMIT_PREFIX k
  | _ => false
  end.

(** ** Lemmas *)

(** The caches never touch the database. *)
Lemma calm_check k l w : calm is_db (check k l w).
Proof.
  repeat (apply calm_bind; [by apply calm_perform|intros]).
  apply calm_bind; [destruct (_ =? 1); auto with cred|auto with cred].
Qed.

Lemma calm_record_issued th ttl : calm is_db (record_issued th ttl).
Proof. apply calm_bind; auto with cred. Qed.

Lemma calm_record_revoked th ttl : calm is_db (record_revoked th ttl).
Proof. apply calm_bind; [by apply calm_perform|]. intros _. apply calm_bind; auto with cred. Qed.

Lemma calm_is_revoked th : calm is_db (is_revoked th).
Proof. apply calm_bind; auto with cred. Qed.

#[export] Hint Resolve calm_check calm_record_issued calm_record_revoked calm_is_revoked : cred.

Lemma prefixes_differ x y : REVOKED_PREFIX +:+ x <> ISSUED_PREFIX +:+ y.
Proof. done. Qed.

Section Documented.
Context {St} (h : handler St) (store : St -> gmap string redis_entry) (now : St -> Z).
Context (Hdoc : redis_documented h store now).

(** What [record_revoked] leaves in Redis. *)
Lemma record_revoked_spec th ttl σ :
  0 < ttl ->
  exists d, let σ' := state_of h (record_revoked th ttl) σ in
  result_of h (record_revoked th ttl) σ = Ok tt /\ now σ <= now σ' /\
  now σ + seconds ttl <= d /\
  store σ' = delete (ISSUED_PREFIX +:+ th)
    (<[REVOKED_PREFIX +:+ th := RedisEntry "1" (Some d)]> (store σ)).
Proof.
  intros Httl. unfold record_revoked. cbn zeta.
  redis_step Hdoc (Ok true)
    (<[REVOKED_PREFIX +:+ th := RedisEntry "1" (Some (now σ + seconds ttl))]> (store σ)) true
    as σ1 Hc1 Hs1.
  { simpl. destruct (Z.leb_spec ttl 0); [lia|done]. }
  exists (now σ + seconds ttl).
  redis_step Hdoc (Ok tt) (delete (ISSUED_PREFIX +:+ th) (store σ1)) tt as σ2 Hc2 Hs2; [done|].
  split; [done|]. split; [unfold state_of; simpl; lia|]. split; [lia|].
  unfold state_of; simpl. by rewrite Hs2, Hs1.
Qed.

(** What [record_issued] leaves in Redis. *)
Lemma record_issued_spec th ttl σ :
  0 < ttl ->
  let σ' := state_of h (record_issued th ttl) σ in
  result_of h (record_issued th ttl) σ = Ok tt /\ now σ <= now σ' /\
  store σ' = <[ISSUED_PREFIX +:+ th := RedisEntry "1" (Some (now σ + seconds ttl))]> (store σ).
Proof.
  intros Httl. unfold record_issued. cbn zeta.
  redis_step Hdoc (Ok true)
    (<[ISSUED_PREFIX +:+ th := RedisEntry "1" (Some (now σ + seconds ttl))]> (store σ)) true
    as σ1 Hc1 Hs1; [|done].
  simpl. destruct (Z.leb_spec ttl 0); [lia|done].
Qed.

Lemma exists_spec k σ :
  let p := (n <- perform (ERedisExists k) ;; ret (negb (n =? 0))) in
  result_of h p σ = Ok (bool_decide (is_Some (redis_get (now σ) (store σ) k))) /\
  store (state_of h p σ) = store σ /\ now σ <= now (state_of h p σ).
Proof.
  cbn zeta.
  redis_step Hdoc (Ok (if bool_decide (is_Some (redis_live (now σ) (store σ) k)) then 1 else 0))
    (store σ) (if bool_decide (is_Some (redis_live (now σ) (store σ) k)) then 1 else 0)
    as σ1 Hc Hs; [done..|].
  split; [|done]. unfold result_of; simpl. f_equal.
  rewrite (bool_decide_ext _ _ (redis_live_get (now σ) (store σ) k)).
  by case_bool_decide.
Qed.

(** The counter [k] holds [n] and lives to the end of the window; [n] is 0
    when there is no counter. *)
Definition counted (k : string) (n : Z) (window_end : Z) (σ : St) : Prop :=
  n = 0 /\ redis_live (now σ) (store σ) k = None \/
  0 < n /\ exists d, store σ !! k = Some (RedisEntry (pretty n) (Some d)) /\ window_end <= d.

(** One [check]: the counter after it, by what it was before. *)
Lemma check_spec key limit w σ n :
  0 < w ->
  let k := counter_key key (window_of (now σ) w) in
  let window_end := (window_of (now σ) w + 1) * seconds w in
  counted k n window_end σ ->
  result_of h (check key limit w) σ = Ok (n + 1 <=? limit) /\
  now σ <= now (state_of h (check key limit w) σ) /\
  counted k (n + 1) window_end (state_of h (check key limit w) σ).
Proof.
  intros Hw k we Hn. unfold check.
  redis_time Hdoc as σ0 Hn0 Hs0. fold k.
  pose proof (Z.mod_pos_bound (now σ) (seconds w)) as Hmod.
  pose proof (Z.div_mod (now σ) (seconds w)) as Hdm.
  assert (Hsw : 0 < seconds w) by (unfold seconds; lia).
  assert (Hend : now σ < we <= now σ + seconds w) by (unfold we, window_of; lia).
  destruct Hn as [[-> Hl]|(Hpos & d & Hd & Hle)].
  - redis_step Hdoc (Ok 1) (<[k := RedisEntry "1" None]> (store σ0)) 1 as σ1 Hc1 Hs1.
    { simpl. by rewrite Hn0, Hs0, Hl. }
    cbn [Z.eqb Pos.eqb].
    redis_step Hdoc (Ok tt) (<[k := RedisEntry "1" (Some (now σ1 + seconds w))]> (store σ1)) tt
      as σ2 Hc2 Hs2.
    { simpl. rewrite Hs1. unfold redis_live. by rewrite lookup_insert_eq. }
    split; [done|]. split; [unfold state_of; simpl; lia|]. right. split; [lia|].
    exists (now σ1 + seconds w). unfold state_of; simpl. rewrite Hs2, lookup_insert_eq.
    split; [done|lia].
  - redis_step Hdoc (Ok (n + 1)) (<[k := RedisEntry (pretty (n + 1)) (Some d)]> (store σ0)) (n + 1)
      as σ1 Hc1 Hs1.
    { simpl. rewrite Hn0, Hs0. unfold redis_live. rewrite Hd. cbn [re_deadline re_value].
      destruct (Z.leb_spec d (now σ)); [lia|]. cbn [re_deadline re_value].
      by rewrite int_of_str_pretty. }
    destruct (Z.eqb_spec (n + 1) 1); [lia|].
    split; [done|]. split; [unfold state_of; simpl; lia|]. right. split; [lia|].
    exists d. unfold state_of; simpl. by rewrite Hs1, lookup_insert_eq.
Qed.

Lemma checks_spec N key limit w σ n :
  0 < w ->
  let k := counter_key key (window_of (now σ) w) in
  let window_end := (window_of (now σ) w + 1) * seconds w in
  counted k n window_end σ ->
  now (state_of h (checks N key limit w) σ) < window_end ->
  result_of h (checks N key limit w) σ =
    Ok (map (fun i => n + Z.of_nat i <=? limit) (seq 1 N)).
Proof.
  intros Hw. revert σ n. induction N as [|N IH]; intros σ n; cbn zeta; intros Hn Hnow; [done|].
  cbn [checks] in *. destruct (check_spec key limit w σ n Hw Hn) as (Hr & Hc & Hn').
  revert Hnow. rewrite result_bind, !state_bind, Hr.
  set (σ1 := state_of h (check key limit w) σ) in *. intros Hnow.
  assert (Hfin : now (state_of h (checks N key limit w) σ1) <
                 (window_of (now σ) w + 1) * seconds w).
  { revert Hnow. rewrite state_bind. by destruct (result_of h (checks N key limit w) σ1). }
  pose proof (clock_mono h store now Hdoc (checks N key limit w) σ1) as Hmono.
  assert (Hsame : window_of (now σ1) w = window_of (now σ) w).
  { unfold window_of in *. assert (0 < seconds w) by (unfold seconds; lia).
    pose proof (Z.mod_pos_bound (now σ) (seconds w)).
    pose proof (Z.div_mod (now σ) (seconds w)).
    symmetry. apply Z.div_unique with (now σ1 - seconds w * (now σ / seconds w)); lia. }
  specialize (IH σ1 (n + 1)). rewrite Hsame in IH. specialize (IH Hn' Hfin).
  rewrite result_bind, IH. cbn [seq map]. rewrite <- (seq_shift N 1), map_map.
  unfold result_of. simpl. f_equal. f_equal. apply map_ext. intros i. f_equal. lia.
Qed.
End Documented.

(** ** Properties *)

(** Within one window, [n] checks of a key with no counter yet admit the
    first [limit] and refuse the rest: the counter is exact, and it cannot
    expire before its window is over. *)
Theorem window_admits_exactly_limit {St} (h : handler St) store now
    (Hdoc : redis_documented h store now) n key limit w σ
    (Hw : 0 < w)
    (Hfresh : redis_live (now σ) (store σ) (counter_key key (window_of (now σ) w)) = None)
    (Hwindow : window_of (now (state_of h (checks n key limit w) σ)) w = window_of (now σ) w) :
  result_of h (checks n key limit w) σ = Ok (map (fun i => Z.of_nat i <=? limit) (seq 1 n)).
Proof.
  apply (checks_spec h store now Hdoc n key limit w σ 0 Hw); [by left|].
  assert (0 < seconds w) by (unfold seconds; lia). rewrite <- Hwindow. unfold window_of.
  pose proof (Z.mod_pos_bound (now (state_of h (checks n key limit w) σ)) (seconds w)).
  pose proof (Z.div_mod (now (state_of h (checks n key limit w) σ)) (seconds w)). lia.
Qed.

Lemma window_admits_exactly_limit_witness :
  result_of redis_process (checks 4 "demo" 2 60) (1000%Z, ∅) = Ok [true; true; false; false].
Proof.
  apply (window_admits_exactly_limit redis_process snd fst redis_process_documented 4 "demo" 2 60
    (1000%Z, ∅)); [lia|by vm_compute|by vm_compute].
Defined.

(** What the fast path sees after a revocation. *)
Definition revoke_then_look (token_hash : string) (issued_ttl revoked_ttl : Z) : prog (bool * bool) :=
  record_issued token_hash issued_ttl ;;
  record_revoked token_hash revoked_ttl ;;
  revoked <- is_revoked token_hash ;;
  known <- is_known token_hash ;;
  ret (revoked, known).

(** A revocation is visible to the very next lookup and to every one
    until its marker expires, and the issued entry is gone at once. *)
Theorem revocation_visible_at_once {St} (h : handler St) store now
    (Hdoc : redis_documented h store now) th issued_ttl revoked_ttl σ
    (Hi : 0 < issued_ttl) (Hr : 0 < revoked_ttl)
    (Hin_time : now (state_of h (revoke_then_look th issued_ttl revoked_ttl) σ) <
                now σ + seconds revoked_ttl) :
  result_of h (revoke_then_look th issued_ttl revoked_ttl) σ = Ok (true, false).
Proof.
  unfold revoke_then_look in *. revert Hin_time.
  destruct (record_issued_spec h store now Hdoc th issued_ttl σ Hi) as (Hr1 & Hn1 & _).
  rewrite result_bind, state_bind, Hr1.
  set (σ1 := state_of h (record_issued th issued_ttl) σ) in *.
  destruct (record_revoked_spec h store now Hdoc th revoked_ttl σ1 Hr) as (d & Hr2 & Hn2 & Hd & Hs2).
  rewrite result_bind, state_bind, Hr2.
  set (σ2 := state_of h (record_revoked th revoked_ttl) σ1) in *. intros Hin.
  match type of Hin with now (state_of _ ?p _) < _ =>
    pose proof (clock_mono h store now Hdoc p σ2) as Hmono end.
  destruct (exists_spec h store now Hdoc (REVOKED_PREFIX +:+ th) σ2) as (Hr3 & Hs3 & Hn3).
  rewrite result_bind. unfold is_revoked at 1. rewrite Hr3.
  set (σ3 := state_of h (is_revoked th) σ2). change (state_of h _ σ2) with σ3 in Hs3, Hn3.
  destruct (exists_spec h store now Hdoc (ISSUED_PREFIX +:+ th) σ3) as (Hr4 & _ & Hn4).
  rewrite result_bind. unfold is_known. rewrite Hr4.
  unfold result_of; simpl. do 2 f_equal.
  - apply bool_decide_eq_true. rewrite Hs2, redis_get_delete_ne by done.
    rewrite redis_get_insert; [done|]. lia.
  - apply bool_decide_eq_false. rewrite Hs3, Hs2, redis_get_delete. by intros [??].
Qed.

Lemma revocation_visible_at_once_witness :
  result_of redis_process (revoke_then_look "ab12" 3600 3600) (1000%Z, ∅) = Ok (true, false).
Proof.
  apply (revocation_visible_at_once redis_process snd fst redis_process_documented);
    [lia|lia|by vm_compute].
Defined.
