(* ===== verification/Idempotency.v ===== *)
(** * The idempotency store ([src/credbroker/reliability/idempotency.py])

    [get], [reserve], [complete] and [release] as programs over Redis, the
    contract of a key as a small state machine ([Unseen], [Pending] with its
    owner, [Completed] with its result), and the refinement between them on
    a Redis that answers as documented. *)

From Stdlib Require Import Ascii SpecFloat.
From stdpp Require Import base tactics list strings numbers gmap pretty.
From S2P Require Import Prelude PyStr Errors Json JsonParse Config Effects Redis.
Open Scope string_scope.
#[local] Open Scope Z_scope.

Definition PENDING_MARKER : string := "__pending__".
Definition RESERVATION_TTL_SECONDS : Z := 60.
Definition KEY_PREFIX : string := "idem:".

Module IdempotencyStore.

(** The store's own state: the window for which a result is kept. *)
Record t := Store { window_seconds : Z }.

Definition new (window : Z) : res t :=
  if window <? 1 then Exn (raise_of ValueError "window_seconds must be >= 1")
  else Ok (Store window).

Definition name (key : string) : string := KEY_PREFIX +:+ key.
Definition pending_value (owner : string) : string := PENDING_MARKER +:+ ":" +:+ owner.

Section Operations.
Context `{PyRepr}.

Definition conflict_error : exn :=
  raise_of IdempotencyConflictError
    "a concurrent call with the same idempotency key is in flight".

(** A JSON [null] is Python's [None]. *)
Definition not_none (j : json) : option json :=
  match j with JNull => None | _ => Some j end.

Definition get (key : string) : prog (option json) :=
  value <- perform (ERedisGet (name key)) ;;
  match value with
  | None => ret None
  | Some v =>
      if startswith PENDING_MARKER v then raise conflict_error
      else lift (res_map not_none (json_loads v))
  end.

Definition reserve (key : string) : prog (option string) :=
  owner <- perform (ETokenHex 16) ;;
  claimed <- perform (ERedisSet (name key) (pending_value owner) true RESERVATION_TTL_SECONDS) ;;
  ret (if claimed then Some owner else None).

(** [value == text]. *)
Definition same_value (value : option string) (text : string) : bool :=
  match value with Some v => String.eqb v text | None => false end.

Definition complete (s : t) (key : string) (result : json) (owner : option string) : prog unit :=
  let write := perform (ERedisSet (name key) (json_dumps false ", " ": " result) false
                          (window_seconds s)) ;; ret tt in
  match owner with
  | None => write
  | Some o =>
      value <- perform (ERedisGet (name key)) ;;
      if same_value value (pending_value o) then write else ret tt
  end.

Definition release (key : string) (owner : option string) : prog unit :=
  value <- perform (ERedisGet (name key)) ;;
  match value with
  | None => ret tt
  | Some v =>
      if negb (startswith PENDING_MARKER v) then ret tt
      else match owner with
           | Some o => if String.eqb v (pending_value o)
                       then perform (ERedisDelete (name key)) ;; ret tt
                       else ret tt
           | None => perform (ERedisDelete (name key)) ;; ret tt
           end
  end.
End Operations.
End IdempotencyStore.
Import IdempotencyStore.

(** Commands that change a key of the store. *)
Definition idem_write (c : eff) : bool :=
  match c with
  | ERedisSet k _ _ _ | ERedisDelete k | ERedisIncr k | ERedisExpire k _ => startswith KEY_PREFIX k
  | _ => false
  end.

(** ** The contract of one key *)

Inductive key_state :=
| Unseen
| Pending (owner : string)
| Completed (result : dict).

Inductive idem_op :=
| OpGet
| OpReserve
| OpComplete (result : dict) (owner : option string)
| OpRelease (owner : option string).

(** What an operation returns: the cached result, the owner token. *)
Inductive idem_answer :=
| Cached (r : option json)
| Reserved (r : option string)
| Nothing.

(** [token] is the owner token a reservation would draw. *)
Definition contract (token : string) (op : idem_op) (st : key_state) : res idem_answer * key_state :=
  match op, st with
  | OpGet, Unseen => (Ok (Cached None), Unseen)
  | OpGet, Pending o => (Exn conflict_error, Pending o)
  | OpGet, Completed r => (Ok (Cached (Some (JObj r))), Completed r)
  | OpReserve, Unseen => (Ok (Reserved (Some token)), Pending token)
  | OpReserve, _ => (Ok (Reserved None), st)
  | OpComplete r None, _ => (Ok Nothing, Completed r)
  | OpComplete r (Some o), Pending o' =>
      (Ok Nothing, if String.eqb o' o then Completed r else st)
  | OpComplete r (Some o), _ => (Ok Nothing, st)
  | OpRelease None, Pending _ => (Ok Nothing, Unseen)
  | OpRelease (Some o), Pending o' => (Ok Nothing, if String.eqb o' o then Unseen else st)
  | OpRelease _, _ => (Ok Nothing, st)
  end.

Section Refinement.
Context `{PyRepr}.

(** The operation of the store, on one key. *)
Definition idem_prog (s : t) (key : string) (op : idem_op) : prog idem_answer :=
  match op with
  | OpGet => r <- get key ;; ret (Cached r)
  | OpReserve => r <- reserve key ;; ret (Reserved r)
  | OpComplete r o => complete s key (JObj r) o ;; ret Nothing
  | OpRelease o => release key o ;; ret Nothing
  end.

(** The value under the key stands for the abstract state. *)
Definition represents (v : option string) (st : key_state) : Prop :=
  match st with
  | Unseen => v = None
  | Pending o => v = Some (pending_value o)
  | Completed r => v = Some (json_dumps false ", " ": " (JObj r)) /\ json_plain (JObj r)
  end.

(** Results an operation stores can be read back. *)
Definition op_plain (op : idem_op) : Prop :=
  match op with OpComplete r _ => json_plain (JObj r) | _ => True end.

Lemma result_not_pending r : startswith PENDING_MARKER (json_dumps false ", " ": " (JObj r)) = false.
Proof. done. Qed.

Lemma pending_startswith o : startswith PENDING_MARKER (pending_value o) = true.
Proof. apply startswith_app. Qed.

Lemma pending_value_inj o o' : pending_value o = pending_value o' -> o = o'.
Proof. intros [= E]. exact E. Qed.

Lemma represents_own v st o :
  represents v st ->
  same_value v (pending_value o) = match st with Pending o' => String.eqb o' o | _ => false end.
Proof.
  intros Hv. destruct st as [|o'|r]; cbn [represents] in Hv; [by subst| |by destruct Hv as [-> _]].
  subst. simpl. destruct (String.eqb_spec o' o) as [->|Hne]; [by apply String.eqb_refl|].
  apply String.eqb_neq. intros E. by apply Hne, pending_value_inj.
Qed.

Context {St} (h : handler St) (store : St -> gmap string redis_entry) (now : St -> Z).
Context (Hdoc : redis_documented h store now) (Hprompt : redis_prompt h now).

Definition value_at (key : string) (σ : St) : option string :=
  redis_get (now σ) (store σ) (name key).

(** The rest of the keyspace is as it was. *)
Definition others_kept (key : string) (σ σ' : St) : Prop :=
  forall k, k <> name key -> store σ' !! k = store σ !! k.

(** The operation ends in [r] and leaves the key in [st], the rest of the
    keyspace untouched. *)
Definition ends_in (p : prog idem_answer) (key : string) (σ : St) (r : res idem_answer)
    (st : key_state) : Prop :=
  exists σ', outcome h p σ = (r, σ') /\ represents (value_at key σ') st /\
    others_kept key σ σ'.

(** GET finds the value under the key; nothing else changes. *)
Ltac get_step key σ σ1 Hn Hs :=
  prompt_step Hdoc Hprompt (Ok (value_at key σ)) (store σ) as σ1 Hn Hs.

Lemma value_at_same key σ σ1 : now σ1 = now σ -> store σ1 = store σ -> value_at key σ1 = value_at key σ.
Proof. intros Hn Hs. unfold value_at. by rewrite Hn, Hs. Qed.

Lemma kept_same key σ σ1 : store σ1 = store σ -> others_kept key σ σ1.
Proof. intros Hs k _. by rewrite Hs. Qed.

(** The program ended where the key and the keyspace are what they were. *)
Lemma ends_unchanged key σ σ1 st (r : res idem_answer) :
  represents (value_at key σ) st -> now σ1 = now σ -> store σ1 = store σ ->
  exists σ', (r, σ1) = (r, σ') /\ represents (value_at key σ') st /\ others_kept key σ σ'.
Proof.
  intros Hst Hn Hs. exists σ1. rewrite (value_at_same key σ σ1 Hn Hs).
  repeat split; [done|]. by apply kept_same.
Qed.

(** SET of a fresh value. *)
Lemma outcome_set key v ttl σ :
  0 < ttl ->
  exists σ1, outcome h (perform (ERedisSet (name key) v false ttl)) σ = (Ok true, σ1) /\
    value_at key σ1 = Some v /\ others_kept key σ σ1.
Proof.
  intros Httl. prompt_step Hdoc Hprompt (Ok true)
    (<[name key := RedisEntry v (Some (now σ + seconds ttl))]> (store σ)) as σ1 Hn Hs.
  { simpl. by destruct (Z.leb_spec ttl 0); [lia|]. }
  exists σ1. split; [done|]. split.
  - unfold value_at. rewrite Hs, Hn. apply redis_get_insert. unfold seconds. lia.
  - intros k Hk. rewrite Hs. by apply lookup_insert_ne.
Qed.

Lemma outcome_delete key σ :
  exists σ1, outcome h (perform (ERedisDelete (name key))) σ = (Ok tt, σ1) /\
    value_at key σ1 = None /\ others_kept key σ σ1.
Proof.
  prompt_step Hdoc Hprompt (Ok tt) (delete (name key) (store σ)) as σ1 Hn Hs.
  exists σ1. split; [done|]. split.
  - unfold value_at. rewrite Hs. apply redis_get_delete.
  - intros k Hk. rewrite Hs. by apply lookup_delete_ne.
Qed.

Lemma get_refines s key σ st token :
  represents (value_at key σ) st ->
  ends_in (idem_prog s key OpGet) key σ (contract token OpGet st).1 (contract token OpGet st).2.
Proof.
  intros Hst. unfold ends_in, idem_prog, get. autorewrite with cred_run. get_step key σ σ1 Hn Hs.
  pose proof (fun r : res idem_answer => ends_unchanged key σ σ1 st r Hst Hn Hs) as Hend.
  destruct st as [|o|r]; cbn [represents] in Hst.
  - rewrite Hst. apply Hend.
  - rewrite Hst, pending_startswith. apply Hend.
  - destruct Hst as [-> Hp]. rewrite result_not_pending, loads_dumps by done. apply Hend.
Qed.

Lemma reserve_refines s key σ st :
  represents (value_at key σ) st ->
  let token := (h σ (ETokenHex 16)).1 in
  ends_in (idem_prog s key OpReserve) key σ
    (contract token OpReserve st).1 (contract token OpReserve st).2.
Proof.
  intros Hst token. unfold ends_in, idem_prog, reserve. autorewrite with cred_run.
  destruct (outcome_other h store now Hdoc (ETokenHex 16) σ Hprompt eq_refl) as (σ0 & Hn0 & Hs0 & ->).
  cbn [to_res fallible]. fold token. autorewrite with cred_run.
  assert (Hlive : is_Some (redis_live (now σ0) (store σ0) (name key)) <-> is_Some (value_at key σ)).
  { rewrite redis_live_get, Hn0, Hs0. done. }
  destruct (decide (is_Some (value_at key σ))) as [Hs|Hs].
  - prompt_step Hdoc Hprompt (Ok false) (store σ0) as σ1 Hn1 Hs1.
    { simpl. by rewrite bool_decide_true by tauto. }
    rewrite Hn0 in Hn1. rewrite Hs0 in Hs1.
    pose proof (fun r : res idem_answer => ends_unchanged key σ σ1 st r Hst Hn1 Hs1) as Hend.
    destruct st; [simpl in Hst; rewrite Hst in Hs; by destruct Hs|apply Hend..].
  - prompt_step Hdoc Hprompt (Ok true) (<[name key := RedisEntry (pending_value token)
      (Some (now σ0 + seconds RESERVATION_TTL_SECONDS))]> (store σ0)) as σ1 Hn1 Hs1.
    { simpl. rewrite bool_decide_false by tauto. done. }
    assert (st = Unseen) as ->.
    { destruct st; [done| |]; cbn [represents] in Hst; destruct Hs; [by rewrite Hst|].
      destruct Hst as [-> _]. done. }
    exists σ1. split; [done|]. simpl. unfold value_at. rewrite Hs1, Hn1. split.
    + apply redis_get_insert. unfold seconds, RESERVATION_TTL_SECONDS. lia.
    + intros k Hk. by rewrite Hs1, lookup_insert_ne, Hs0.
Qed.

Lemma complete_refines s key σ st token r o :
  0 < window_seconds s -> represents (value_at key σ) st -> json_plain (JObj r) ->
  ends_in (idem_prog s key (OpComplete r o)) key σ
    (contract token (OpComplete r o) st).1 (contract token (OpComplete r o) st).2.
Proof.
  intros Hw Hst Hp. unfold ends_in, idem_prog, complete. destruct o as [o|].
  2: { autorewrite with cred_run.
    destruct (outcome_set key (json_dumps false ", " ": " (JObj r)) (window_seconds s) σ Hw)
      as (σ1 & -> & Hv & Hk). autorewrite with cred_run. exists σ1. by repeat split. }
  autorewrite with cred_run. get_step key σ σ1 Hn Hs.
  rewrite (represents_own _ st o Hst).
  pose proof (fun r : res idem_answer => ends_unchanged key σ σ1 st r Hst Hn Hs) as Hend.
  destruct st as [|o'|r']; [apply Hend| |apply Hend]. simpl contract. cbn [fst snd].
  destruct (String.eqb o' o); [|apply Hend].
  destruct (outcome_set key (json_dumps false ", " ": " (JObj r)) (window_seconds s) σ1 Hw)
    as (σ2 & E & Hv & Hk). autorewrite with cred_run. rewrite E. autorewrite with cred_run.
  exists σ2. repeat split; [done|done|]. intros k Hne. by rewrite (Hk k Hne), Hs.
Qed.

Lemma release_refines s key σ st token o :
  represents (value_at key σ) st ->
  ends_in (idem_prog s key (OpRelease o)) key σ
    (contract token (OpRelease o) st).1 (contract token (OpRelease o) st).2.
Proof.
  intros Hst. unfold ends_in, idem_prog, release. autorewrite with cred_run.
  get_step key σ σ1 Hn Hs.
  pose proof (fun r : res idem_answer => ends_unchanged key σ σ1 st r Hst Hn Hs) as Hend.
  assert (Hdel : exists σ', outcome h (perform (ERedisDelete (name key)) ;; ret tt) σ1 = (Ok tt, σ') /\
    value_at key σ' = None /\ others_kept key σ σ').
  { destruct (outcome_delete key σ1) as (σ2 & E & Hv & Hk). autorewrite with cred_run. rewrite E.
    exists σ2. repeat split; [done|]. intros k Hne. by rewrite (Hk k Hne), Hs. }
  destruct st as [|o'|r]; cbn [represents] in Hst.
  - rewrite Hst. destruct o; apply Hend.
  - rewrite Hst, pending_startswith. cbn [negb]. destruct Hdel as (σ' & E & Hv & Hk).
    destruct o as [o|]; cbn [contract fst snd]; [|rewrite E; by exists σ'].
    replace (String.eqb (pending_value o') (pending_value o)) with (String.eqb o' o).
    + destruct (String.eqb o' o); [rewrite E; by exists σ'|apply Hend].
    + destruct (String.eqb_spec o' o) as [->|Hne]; [by rewrite String.eqb_refl|].
      symmetry. apply String.eqb_neq. intros E'. by apply pending_value_inj in E'.
  - destruct Hst as [-> Hp]. rewrite result_not_pending. destruct o; apply Hend.
Qed.

(** Every operation does what the contract says. *)
Lemma op_refines s key op σ st :
  0 < window_seconds s -> op_plain op -> represents (value_at key σ) st ->
  let token := (h σ (ETokenHex 16)).1 in
  ends_in (idem_prog s key op) key σ (contract token op st).1 (contract token op st).2.
Proof.
  intros Hw Hop Hst. destruct op as [| |r o|o]; cbn zeta.
  - by apply get_refines.
  - by apply reserve_refines.
  - by apply complete_refines.
  - by apply release_refines.
Qed.

(** *** Several callers on one key *)

Fixpoint run_ops (s : t) (key : string) (ops : list idem_op) : prog (list (res idem_answer)) :=
  match ops with
  | [] => ret []
  | op :: ops' =>
      a <- attempt (idem_prog s key op) ;;
      rest <- run_ops s key ops' ;;
      ret (a :: rest)
  end.

(** Operations of callers other than the owner [o]. *)
Definition by_others (o : string) (op : idem_op) : Prop :=
  match op with
  | OpGet | OpReserve => True
  | OpComplete r (Some o') => o' <> o /\ json_plain (JObj r)
  | OpRelease (Some o') => o' <> o
  | OpComplete _ None | OpRelease None => False
  end.

(** What they are told while [o] holds the key. *)
Definition told_pending (op : idem_op) : res idem_answer :=
  match op with
  | OpGet => Exn conflict_error
  | OpReserve => Ok (Reserved None)
  | OpComplete _ _ | OpRelease _ => Ok Nothing
  end.

Lemma contract_by_others token o op :
  by_others o op -> contract token op (Pending o) = (told_pending op, Pending o).
Proof.
  destruct op as [| |r [o'|]|[o'|]]; simpl; try done.
  - intros [Hne _]. by destruct (String.eqb_spec o o').
  - intros Hne. by destruct (String.eqb_spec o o').
Qed.

Lemma outcome_attempt {A} (p : prog A) σ :
  outcome h (attempt p) σ = (Ok (outcome h p σ).1, (outcome h p σ).2).
Proof. unfold outcome, result_of at 1, state_of at 1. by rewrite interp_attempt. Qed.

Lemma others_held s key o ops σ :
  0 < window_seconds s -> Forall (by_others o) ops -> represents (value_at key σ) (Pending o) ->
  exists σ', outcome h (run_ops s key ops) σ = (Ok (map told_pending ops), σ') /\
    represents (value_at key σ') (Pending o).
Proof.
  intros Hw Hops. revert σ. induction Hops as [|op ops Hop _ IH]; intros σ Hst; [by exists σ|].
  destruct (op_refines s key op σ (Pending o) Hw) as (σ1 & E & Hst1 & _); [|done|].
  { destruct op as [| |? [?|]|[?|]]; try done. by destruct Hop. }
  rewrite contract_by_others in E, Hst1 by done. cbn [fst snd] in *.
  destruct (IH σ1 Hst1) as (σ2 & E2 & Hst2). exists σ2. split; [|done].
  cbn [run_ops]. autorewrite with cred_run. rewrite outcome_attempt, E. cbn [fst snd].
  autorewrite with cred_run. by rewrite E2.
Qed.

(** *** A holder that never settles its key *)

(** The entry a successful reservation leaves. *)
Lemma reserve_entry key σ :
  value_at key σ = None ->
  store (state_of h (reserve key) σ) !! name key =
    Some (RedisEntry (pending_value (h σ (ETokenHex 16)).1)
            (Some (now (state_of h (reserve key) σ) + seconds RESERVATION_TTL_SECONDS))).
Proof.
  intros Hv. change (state_of h (reserve key) σ) with (outcome h (reserve key) σ).2.
  unfold reserve. autorewrite with cred_run.
  destruct (outcome_other h store now Hdoc (ETokenHex 16) σ Hprompt eq_refl) as (σ0 & Hn0 & Hs0 & ->).
  cbn [to_res fallible]. autorewrite with cred_run.
  prompt_step Hdoc Hprompt (Ok true) (<[name key := RedisEntry (pending_value (h σ (ETokenHex 16)).1)
      (Some (now σ0 + seconds RESERVATION_TTL_SECONDS))]> (store σ0)) as σ1 Hn1 Hs1.
  { simpl. rewrite bool_decide_false; [done|]. rewrite redis_live_get, Hn0, Hs0.
    unfold value_at in Hv. rewrite Hv. by intros [? ?]. }
  rewrite outcome_ret. cbn [snd]. by rewrite Hs1, lookup_insert_eq, Hn1.
Qed.

(** The answer under its wrapper. *)
Lemma outcome_wrapped {A} (F : A -> idem_answer) (p : prog A) σ a σ' :
  outcome h (x <- p ;; ret (F x)) σ = (Ok a, σ') ->
  exists x, outcome h p σ = (Ok x, σ') /\ F x = a.
Proof.
  rewrite outcome_bind. destruct (outcome h p σ) as [[x|e] σ1]; [|done].
  rewrite outcome_ret. intros [= <- <-]. eauto.
Qed.
End Refinement.

(** ** Properties *)


#[local] Existing Instance example_repr.

Lemma plain_example : json_plain (JObj [("files", JArr [JStr "a"])]).
Proof. repeat (constructor; simpl; try done). set_solver. Qed.


(** One of the callers of a key runs: from an unseen key a reservation
    succeeds; while it lives, other callers are told of the conflict and can
    neither reserve, complete nor release, whatever they try; the owner's
    completion then stores the result, and [get] returns that very result,
    through the printed text and back. *)
Theorem reservation_is_exclusive `{PyRepr} {St} (h : handler St) store now
    (Hdoc : redis_documented h store now) (Hprompt : redis_prompt h now)
    (s : IdempotencyStore.t) (key : string) (σ : St) (others : list idem_op) (result : dict)
    (Hwindow : 0 < window_seconds s) (Hunseen : value_at store now key σ = None)
    (Hothers : Forall (by_others (h σ (ETokenHex 16)).1) others)
    (Hplain : json_plain (JObj result)) :
  result_of h
    (owner <- reserve key ;;
     told <- run_ops s key others ;;
     complete s key (JObj result) owner ;;
     cached <- get key ;;
     ret (owner, told, cached)) σ =
  Ok (Some (h σ (ETokenHex 16)).1, map told_pending others, Some (JObj result)).
Proof.
  set (o := (h σ (ETokenHex 16)).1) in *.
  destruct (op_refines h store now Hdoc Hprompt s key OpReserve σ Unseen Hwindow)
    as (σ1 & E1 & Hst1 & _); [done..|].
  apply (outcome_wrapped h Reserved) in E1 as (x & E1 & [= ->]).
  destruct (others_held h store now Hdoc Hprompt s key o others σ1 Hwindow Hothers Hst1)
    as (σ2 & E2 & Hst2).
  destruct (op_refines h store now Hdoc Hprompt s key (OpComplete result (Some o)) σ2 (Pending o) Hwindow)
    as (σ3 & E3 & Hst3 & _); [done..|].
  cbn [contract] in E3, Hst3. rewrite String.eqb_refl in E3, Hst3.
  apply (outcome_wrapped h (fun _ : unit => Nothing)) in E3 as ([] & E3 & _).
  destruct (op_refines h store now Hdoc Hprompt s key OpGet σ3 (Completed result) Hwindow)
    as (σ4 & E4 & _); [done..|].
  apply (outcome_wrapped h Cached) in E4 as (c & E4 & [= ->]).
  change (result_of h ?p σ) with (outcome h p σ).1. autorewrite with cred_run.
  rewrite E1. autorewrite with cred_run. rewrite E2. autorewrite with cred_run.
  match goal with |- context [outcome h ?p σ2] =>
    change (outcome h p σ2) with (outcome h (complete s key (JObj result) (Some o)) σ2) end.
  rewrite E3. autorewrite with cred_run. by rewrite E4.
Qed.

Lemma reservation_is_exclusive_witness :
  result_of redis_process
    (owner <- reserve "k" ;;
     told <- run_ops (Store 3600) "k" [OpGet; OpReserve; OpRelease (Some "stale")] ;;
     complete (Store 3600) "k" (JObj [("files", JArr [JStr "a"])]) owner ;;
     cached <- get "k" ;;
     ret (owner, told, cached)) (1000, ∅) =
  Ok (Some "a1b2c3d4", [Exn conflict_error; Ok (Reserved None); Ok Nothing],
      Some (JObj [("files", JArr [JStr "a"])])).
Proof.
  apply (reservation_is_exclusive redis_process snd fst redis_process_documented
    redis_process_prompt (Store 3600) "k" (1000, ∅) [OpGet; OpReserve; OpRelease (Some "stale")]
    [("files", JArr [JStr "a"])]); [done|reflexivity| |apply plain_example].
  repeat constructor; done.
Defined.

(** C25. A key is never lost to a holder that died.  Until sixty seconds
    after a reservation, and no longer, other callers are told of the
    conflict; from then on the next reservation succeeds, whatever became of
    the first holder, as long as nobody wrote the key in between. *)
Theorem abandoned_key_frees `{PyRepr} {St} (h : handler St) store now
    (Hdoc : redis_documented h store now) (Hprompt : redis_prompt h now)
    (s : IdempotencyStore.t) (key : string) (σ later : St)
    (Hwindow : 0 < window_seconds s) (Hunseen : value_at store now key σ = None)
    (Hkept : store later !! name key = store (state_of h (reserve key) σ) !! name key) :
  let deadline := now (state_of h (reserve key) σ) + 60000000 in
  result_of h (idem_prog s key OpReserve) later =
    Ok (Reserved (if now later <? deadline then None else Some (h later (ETokenHex 16)).1)) /\
  result_of h (idem_prog s key OpGet) later =
    (if now later <? deadline then Exn conflict_error else Ok (Cached None)).
Proof.
  cbn zeta. rewrite (reserve_entry h store now Hdoc Hprompt key σ Hunseen) in Hkept.
  change (seconds RESERVATION_TTL_SECONDS) with 60000000 in Hkept.
  set (deadline := now (state_of h (reserve key) σ) + 60000000) in *. clearbody deadline.
  assert (Hst : represents (value_at store now key later)
            (if now later <? deadline then Pending (h σ (ETokenHex 16)).1 else Unseen)).
  { unfold value_at, redis_get, redis_live. rewrite Hkept. cbn [re_deadline].
    destruct (Z.ltb_spec (now later) deadline), (Z.leb_spec deadline (now later)); try lia; done. }
  pose proof (fun op Hop => op_refines h store now Hdoc Hprompt s key op later _ Hwindow Hop Hst) as Href.
  split.
  - destruct (Href OpReserve I) as (σ' & E & _). apply (f_equal fst) in E. cbn [outcome fst] in E.
    rewrite E. by destruct (_ <? _).
  - destruct (Href OpGet I) as (σ' & E & _). apply (f_equal fst) in E. cbn [outcome fst] in E.
    rewrite E. by destruct (_ <? _).
Qed.

Lemma abandoned_key_frees_witness :
  let σ := (1000, ∅) in
  let reserved := state_of redis_process (reserve "k") σ in
  let late : Z * gmap string redis_entry := (60001000, reserved.2) in
  result_of redis_process (idem_prog (Store 3600) "k" OpReserve) late = Ok (Reserved (Some "a1b2c3d4")).
Proof.
  intros σ reserved late.
  apply (abandoned_key_frees redis_process snd fst redis_process_documented redis_process_prompt
    (Store 3600) "k" σ late); [done|reflexivity|reflexivity].
Defined.

(** [complete] and [release] write nothing unless GET showed a marker this
    caller may act on. *)
Definition is_write (c : eff) : bool :=
  match c with ERedisSet _ _ _ _ | ERedisDelete _ => true | _ => false end.

Definition saw (key value : string) (e : event) : Prop :=
  e = Ev (ERedisGet (name key)) (Ok (Some value)).

Definition quiet_or_saw (key : string) (t : list event) (P : string -> Prop) : Prop :=
  existsb (fun e => is_write (ev_eff e)) t = false \/
  exists v e rest, t = e :: rest /\ saw key v e /\ P v.

(** A holder whose reservation is gone writes nothing: whatever Redis
    answers and whenever, [complete] and [release] called with an owner
    token write only if the GET just before showed that very owner's marker,
    and [release] without a token deletes nothing but a pending marker. *)
Theorem stale_holder_writes_nothing `{PyRepr} {St} (h : handler St) (σ : St)
    (s : IdempotencyStore.t) (key : string) (result : json) (o : string) :
  quiet_or_saw key (trace_of h (complete s key result (Some o)) σ) (fun v => v = pending_value o) /\
  quiet_or_saw key (trace_of h (release key (Some o)) σ) (fun v => v = pending_value o) /\
  quiet_or_saw key (trace_of h (release key None) σ) (fun v => startswith PENDING_MARKER v = true).
Proof.
  repeat split; apply (wp_every_run h _ (fun t _ => quiet_or_saw key t _)); wp_ans; try (by left).
  - destruct a as [v|]; cbn -[startswith String.eqb]; [|by left].
    destruct (String.eqb_spec v (pending_value o)) as [->|]; cbn -[startswith String.eqb]; [|by left].
    wp_ans; right; by eexists _, _, _.
  - destruct a as [v|]; cbn -[startswith String.eqb]; [|by left]. destruct (startswith PENDING_MARKER v); cbn -[startswith String.eqb]; [|by left].
    destruct (String.eqb_spec v (pending_value o)) as [->|]; cbn -[startswith String.eqb]; [|by left].
    wp_ans; right; by eexists _, _, _.
  - destruct a as [v|]; cbn -[startswith String.eqb]; [|by left].
    destruct (startswith PENDING_MARKER v) eqn:E; cbn -[startswith String.eqb]; [|by left].
    wp_ans; right; by eexists _, _, _.
Qed.
