(* ===== verification/Grants.v ===== *)
(** * Issuing and revoking grants ([src/credbroker/grants/service.py])

    [request_grant] and [revoke_grant] as programs, and every branch of them
    as a relation between a run's events and its result. *)

From stdpp Require Import base tactics list strings numbers gmap pretty.
From S2P Require Import Prelude PyStr Errors Json Hashing Uuid Config Models Effects Redis Cache.
From S2P Require Import Tokens Tools.
Open Scope string_scope.
#[local] Open Scope Z_scope.

(** The limiter's window when the caller gives none. *)
Definition DEFAULT_WINDOW_SECONDS : Z := 60.

Record IssuedGrant := {
  issued_token : string;
  issued_grant : Grant
}.

Section Service.
Context `{PyJwt} `{PyRepr}.

Definition rate_limited_error : exn :=
  raise_of RateLimitedError "grant request rate limit exceeded".
Definition unknown_agent_error (agent_id : uuid) : exn :=
  raise_of UnknownAgentError ("unknown agent: " +:+ uuid_str agent_id).
Definition policy_denied_error (tool_name : string) : exn :=
  raise_of PolicyDeniedError ("agent is not permitted to request tool " +:+ str_repr tool_name).
Definition scope_mismatch_error (name scope requested : string) : exn :=
  raise_of GrantScopeMismatchError
    ("tool " +:+ str_repr name +:+ " has scope " +:+ str_repr scope +:+ ", not " +:+ str_repr requested).
Definition no_account_error (provider : string) : exn :=
  raise_of NoConnectedAccountError ("user has no connected account for provider " +:+ str_repr provider).
Definition concurrency_error (active_count : Z) (tool_name : string) : exn :=
  raise_of ConcurrencyLimitError
    ("agent already holds " +:+ pretty active_count +:+ " active grant(s) for " +:+ str_repr tool_name).

(** The grant row for a signed token. *)
Definition new_grant (settings : Settings) (gid agent_id : uuid) (account : ConnectedAccount)
    (tool_name scope token : string) (now : datetime) : Grant := {|
  grant_id := gid;
  grant_agent_id := agent_id;
  grant_connected_account_id := acc_id account;
  grant_tool_name := tool_name;
  grant_scope := scope;
  grant_token_hash := hash_token token;
  grant_issued_at := now;
  grant_expires_at := dt_add now (seconds (grant_token_ttl_seconds settings));
  grant_revoked_at := None
|}.

(** [request_grant]; the two flags say whether a cache and a limiter were
    injected. *)
Definition request_grant (settings : Settings) (tools : registry) (agent_id : uuid)
    (tool_name requested_scope : string) (grant_cache rate_limiter : bool) : prog IssuedGrant :=
  (if rate_limiter then
     allowed <- check ("grants:" +:+ uuid_str agent_id) (grants_per_minute_per_agent settings)
                  DEFAULT_WINDOW_SECONDS ;;
     if negb allowed then
       perform (EMetric (RATE_LIMITED "request_grant")) ;; raise rate_limited_error
     else ret tt
   else ret tt) ;;
  agent <- perform (EDbAgentForUpdate agent_id) ;;
  match agent with
  | None => raise (unknown_agent_error agent_id)
  | Some agent =>
      tool <- lift (get_tool tools tool_name) ;;
      if negb (bool_decide (tool_name ∈ agent_allowed_scopes agent))
      then raise (policy_denied_error tool_name)
      else if negb (String.eqb requested_scope (tool_scope tool))
      then raise (scope_mismatch_error tool_name (tool_scope tool) requested_scope)
      else
        account <- perform (EDbLatestAccount (agent_user_id agent) (tool_provider tool)) ;;
        match account with
        | None => raise (no_account_error (tool_provider tool))
        | Some account =>
            now <- perform EUtcNow ;;
            let now := utc now in
            active_count <- perform (EDbActiveGrants agent_id tool_name requested_scope now) ;;
            if max_active_grants_per_agent_scope settings <=? active_count
            then raise (concurrency_error active_count tool_name)
            else
              gid <- perform EUuid4 ;;
              let expires_at := dt_add now (seconds (grant_token_ttl_seconds settings)) in
              token <- lift (sign_grant_token settings gid agent_id tool_name requested_scope
                               now expires_at) ;;
              let grant := new_grant settings gid agent_id account tool_name requested_scope token now in
              perform (EDbAdd (RowGrant grant)) ;;
              perform EDbCommit ;;
              (if grant_cache
               then record_issued (hash_token token) (grant_token_ttl_seconds settings)
               else ret tt) ;;
              ret {| issued_token := token; issued_grant := grant |}
        end
  end.

Definition grant_not_found_error (gid : uuid) : exn :=
  raise_of GrantNotFoundError ("grant not found: " +:+ uuid_str gid).

Definition revoke_grant (gid : uuid) (grant_cache : bool) : prog Grant :=
  grant <- perform (EDbGrantById gid) ;;
  match grant with
  | None => raise (grant_not_found_error gid)
  | Some grant =>
      grant <-
        (match grant_revoked_at grant with
         | None =>
             now <- perform EUtcNow ;;
             perform (EDbUpdate (SetRevokedAt gid (utc now))) ;;
             perform EDbCommit ;;
             ret (set_revoked_at (Some (utc now)) grant)
         | Some _ => ret grant
         end) ;;
      (if grant_cache then record_revoked (grant_token_hash grant) DEFAULT_REVOKED_TTL_SECONDS
       else ret tt) ;;
      ret grant
  end.
End Service.

(** ** Every branch of [request_grant] *)

Section Outcome.
Context `{PyJwt} `{PyRepr} (settings : Settings) (tools : registry) (agent_id : uuid)
  (tool_name requested : string) (grant_cache rate_limiter : bool).

Abbreviation db := (events_of is_db).

(** The questions asked of the database, with their answers. *)
Definition ev_agent (a : option AgentIdentity) : event := Ev (EDbAgentForUpdate agent_id) (Ok a).
Definition ev_account (a : AgentIdentity) (tool : ToolAdapter) (acc : option ConnectedAccount) : event :=
  Ev (EDbLatestAccount (agent_user_id a) (tool_provider tool)) (Ok acc).
Definition ev_active (now : Z) (n : Z) : event :=
  Ev (EDbActiveGrants agent_id tool_name requested (utc now)) (Ok n).

(** The policy the agent row and the registry decide. *)
Definition tool_allowed (a : AgentIdentity) (tool : ToolAdapter) : Prop :=
  tools !! tool_name = Some tool /\ tool_name ∈ agent_allowed_scopes a /\ requested = tool_scope tool.

(** Everything that must hold for a grant to be written: the database
    events before the write, the token and the row. *)
Inductive permitted : list event -> string -> Grant -> Prop :=
| Permitted a tool acc now n gid token :
    tool_allowed a tool ->
    n < max_active_grants_per_agent_scope settings ->
    sign_grant_token settings gid agent_id tool_name requested (utc now)
      (dt_add (utc now) (seconds (grant_token_ttl_seconds settings))) = Ok token ->
    permitted [ev_agent (Some a); ev_account a tool (Some acc); ev_active now n] token
      (new_grant settings gid agent_id acc tool_name requested token (utc now)).

(** The run [t] ends in [r]: one constructor per branch. *)
Inductive request_outcome (t : list event) : res IssuedGrant -> Prop :=
| RO_rate_limited : rate_limiter = true -> db t = [] -> request_outcome t (Exn rate_limited_error)
| RO_unknown_agent : db t = [ev_agent None] -> request_outcome t (Exn (unknown_agent_error agent_id))
| RO_unknown_tool a :
    db t = [ev_agent (Some a)] -> tools !! tool_name = None ->
    request_outcome t (Exn (raise_of UnknownToolError ("unknown tool: " +:+ tool_name)))
| RO_policy a tool :
    db t = [ev_agent (Some a)] -> tools !! tool_name = Some tool ->
    tool_name ∉ agent_allowed_scopes a ->
    request_outcome t (Exn (policy_denied_error tool_name))
| RO_scope a tool :
    db t = [ev_agent (Some a)] -> tools !! tool_name = Some tool ->
    tool_name ∈ agent_allowed_scopes a -> requested <> tool_scope tool ->
    request_outcome t (Exn (scope_mismatch_error tool_name (tool_scope tool) requested))
| RO_no_account a tool :
    db t = [ev_agent (Some a); ev_account a tool None] -> tool_allowed a tool ->
    request_outcome t (Exn (no_account_error (tool_provider tool)))
| RO_concurrency a tool acc now n :
    db t = [ev_agent (Some a); ev_account a tool (Some acc); ev_active now n] ->
    tool_allowed a tool -> max_active_grants_per_agent_scope settings <= n ->
    request_outcome t (Exn (concurrency_error n tool_name))
| RO_unsigned a tool acc now n gid e :
    db t = [ev_agent (Some a); ev_account a tool (Some acc); ev_active now n] ->
    tool_allowed a tool ->
    sign_grant_token settings gid agent_id tool_name requested (utc now)
      (dt_add (utc now) (seconds (grant_token_ttl_seconds settings))) = Exn e ->
    request_outcome t (Exn e)
| RO_unavailable e :
    Forall (fun ev => match ev_eff ev with EDbAdd _ | EDbUpdate _ | EDbCommit => False | _ => True end) t ->
    raised_in t e -> request_outcome t (Exn e)
| RO_not_committed pre token g e :
    permitted pre token g ->
    db t = (pre ++ [Ev (EDbAdd (RowGrant g)) tt; Ev EDbCommit (Exn e)])%list ->
    request_outcome t (Exn e)
| RO_not_cached pre token g e :
    permitted pre token g -> grant_cache = true ->
    db t = (pre ++ [Ev (EDbAdd (RowGrant g)) tt; Ev EDbCommit (Ok tt)])%list ->
    raised_in t e -> request_outcome t (Exn e)
| RO_issued pre token g :
    permitted pre token g ->
    db t = (pre ++ [Ev (EDbAdd (RowGrant g)) tt; Ev EDbCommit (Ok tt)])%list ->
    request_outcome t (Ok {| issued_token := token; issued_grant := g |}).

(** Events that write nothing. *)
Abbreviation unwritten := (Forall (fun ev =>
  match ev_eff ev with EDbAdd _ | EDbUpdate _ | EDbCommit => False | _ => True end)).

Lemma unwritten_calm u : events_of is_db u = [] -> unwritten u.
Proof.
  induction u as [|[c a] u IH]; [constructor|]. unfold events_of. simpl.
  destruct c; simpl; try done; intros Hu; constructor; simpl; auto.
Qed.

(** Close a branch: evaluate its database events. *)
Ltac db_list Hu := unfold snoc; rewrite ?events_of_app, ?Hu; reflexivity.

Ltac service_down Hu :=
  apply RO_unavailable;
  [unfold snoc; repeat (apply Forall_app; split); [by apply unwritten_calm|..];
     repeat constructor
  |unfold raised_in, snoc; apply Exists_app; right; by apply Exists_cons_hd].

Lemma wp_request_after u :
  db u = [] ->
  wp snoc any_answer
    (request_grant settings tools agent_id tool_name requested grant_cache false)
    request_outcome u.
Proof.
  intros Hu. unfold request_grant. wp_ans; [|service_down Hu].
  destruct a as [a|]; wp_simpl; [|apply RO_unknown_agent; db_list Hu].
  unfold get_tool. destruct (tools !! tool_name) as [tool|] eqn:Etool; cbn [or_raise]; wp_simpl.
  2: { apply (RO_unknown_tool _ a); [db_list Hu|done]. }
  case_bool_decide as Hin; cbn [negb]; wp_simpl; [|apply (RO_policy _ a tool); [db_list Hu|done..]].
  destruct (String.eqb_spec requested (tool_scope tool)) as [Hsc|Hsc]; cbn [negb]; wp_simpl;
    [|apply (RO_scope _ a tool); [db_list Hu|done..]].
  wp_ans; [|service_down Hu].
  assert (Hok : tool_allowed a tool) by done.
  match goal with x : option ConnectedAccount |- _ => destruct x as [acc|] end; wp_simpl;
    [|apply (RO_no_account _ a tool); [db_list Hu|done]].
  intros now _ a0 _. destruct a0 as [n|e]; [|service_down Hu].
  destruct (Z.leb_spec (max_active_grants_per_agent_scope settings) n) as [Hn|Hn]; wp_simpl;
    [apply (RO_concurrency _ a tool acc now); [db_list Hu|done..]|].
  intros gid _. destruct (sign_grant_token settings _ _ _ _ _ _) as [token|e] eqn:Esign; wp_simpl;
    [|apply (RO_unsigned _ a tool acc now n gid); [db_list Hu|done..]].
  pose proof (Permitted a tool acc now n gid token Hok Hn Esign) as Hperm.
  intros a1 _ a2 _. destruct a1, a2 as [[]|e];
    [|eapply RO_not_committed; [exact Hperm|db_list Hu]].
  destruct grant_cache eqn:Ecache; [|wp_simpl; eapply RO_issued; [exact Hperm|db_list Hu]].
  apply wp_bind, calm_record_issued. intros v r Hv Hr. destruct r as [[]|e].
  - eapply RO_issued; [exact Hperm|]. unfold snoc. rewrite !events_of_app, Hu, Hv. reflexivity.
  - eapply RO_not_cached; [exact Hperm|done| |apply Exists_app; right; by apply Hr].
    unfold snoc. rewrite !events_of_app, Hu, Hv. reflexivity.
Qed.

Lemma wp_request :
  wp snoc any_answer
    (request_grant settings tools agent_id tool_name requested grant_cache rate_limiter)
    request_outcome [].
Proof.
  destruct rate_limiter eqn:El; [|by apply wp_request_after].
  unfold request_grant. apply wp_bind, wp_bind, calm_check. intros u [allowed|e] Hu Hr; cbn [app].
  - destruct allowed; cbn [negb].
    + pose proof (wp_request_after u Hu) as Hw. exact Hw.
    + wp_ans. apply RO_rate_limited; [done|]. unfold snoc. by rewrite events_of_app, Hu.
  - apply RO_unavailable; [by apply unwritten_calm|by apply Hr].
Qed.
End Outcome.

(** ** Every branch of [revoke_grant] *)

Section Revocation.
Context (gid : uuid) (grant_cache : bool).

(** The database part of a revocation that leaves the grant [g]. *)
Inductive revoked_in_db : list event -> Grant -> Prop :=
| Revoked_before g t0 :
    grant_revoked_at g = Some t0 ->
    revoked_in_db [Ev (EDbGrantById gid) (Ok (Some g))] g
| Revoked_now g now :
    grant_revoked_at g = None ->
    revoked_in_db
      [Ev (EDbGrantById gid) (Ok (Some g)); Ev EUtcNow now;
       Ev (EDbUpdate (SetRevokedAt gid (utc now))) tt; Ev EDbCommit (Ok tt)]
      (set_revoked_at (Some (utc now)) g).

Definition ev_marker (g : Grant) (a : res bool) : event :=
  Ev (ERedisSet (REVOKED_PREFIX +:+ grant_token_hash g) "1" false DEFAULT_REVOKED_TTL_SECONDS) a.
Definition ev_forget (g : Grant) (a : res unit) : event :=
  Ev (ERedisDelete (ISSUED_PREFIX +:+ grant_token_hash g)) a.

Inductive revoke_outcome : list event -> res Grant -> Prop :=
| RV_missing :
    revoke_outcome [Ev (EDbGrantById gid) (Ok None)] (Exn (grant_not_found_error gid))
| RV_lookup_failed e : revoke_outcome [Ev (EDbGrantById gid) (Exn e)] (Exn e)
| RV_commit_failed g now e :
    grant_revoked_at g = None ->
    revoke_outcome
      [Ev (EDbGrantById gid) (Ok (Some g)); Ev EUtcNow now;
       Ev (EDbUpdate (SetRevokedAt gid (utc now))) tt; Ev EDbCommit (Exn e)] (Exn e)
| RV_uncached t g :
    grant_cache = false -> revoked_in_db t g -> revoke_outcome t (Ok g)
| RV_cached t g b :
    grant_cache = true -> revoked_in_db t g ->
    revoke_outcome (t ++ [ev_marker g (Ok b); ev_forget g (Ok tt)])%list (Ok g)
| RV_marker_failed t g e :
    grant_cache = true -> revoked_in_db t g ->
    revoke_outcome (t ++ [ev_marker g (Exn e)])%list (Exn e)
| RV_forget_failed t g b e :
    grant_cache = true -> revoked_in_db t g ->
    revoke_outcome (t ++ [ev_marker g (Ok b); ev_forget g (Exn e)])%list (Exn e).

Lemma wp_revoke_cache t g :
  revoked_in_db t g ->
  wp snoc any_answer
    ((if grant_cache then record_revoked (grant_token_hash g) DEFAULT_REVOKED_TTL_SECONDS
      else ret tt) ;; ret g) revoke_outcome t.
Proof.
  intros Hg. destruct grant_cache eqn:Ec; [|by apply RV_uncached].
  wp_ans; [|by apply RV_marker_failed].
  wp_ans; unfold snoc; rewrite <- app_assoc; [|by eapply RV_forget_failed].
  match goal with u : unit |- _ => destruct u end. by apply RV_cached.
Qed.

Lemma wp_revoke : wp snoc any_answer (revoke_grant gid grant_cache) revoke_outcome [].
Proof.
  unfold revoke_grant. wp_ans; [|apply RV_lookup_failed].
  destruct a as [g|]; [|apply RV_missing]. destruct (grant_revoked_at g) eqn:Eg; cbn beta iota.
  - apply wp_revoke_cache. by eapply Revoked_before.
  - wp_simpl. intros now _ u _ c _. destruct u, c as [[]|e]; [|by apply RV_commit_failed].
    apply wp_revoke_cache. by apply Revoked_now.
Qed.
End Revocation.

(** ** Properties *)


(** C17. Revoking a grant, on every branch: an unknown id is
    [GrantNotFoundError] without a write; the row is stamped and committed
    only the first time, re-revoking returns it unchanged; and on every call
    the Redis marker is written after, never before, the database says
    revoked. *)
Theorem revoke_grant_every_branch {St} (h : handler St) (σ : St) (gid : uuid) (grant_cache : bool) :
  let p := revoke_grant gid grant_cache in
  revoke_outcome gid grant_cache (trace_of h p σ) (result_of h p σ).
Proof. cbn zeta. apply wp_every_run, wp_revoke. Qed.
