(* ===== verification/AuditLog.v ===== *)
(** * The audit trail ([src/credbroker/invoke/audit.py])

    [hash_arguments] and [record_call]. *)

From stdpp Require Import base tactics list strings numbers.
From S2P Require Import Prelude PyStr Errors Json Hashing Uuid Config Models Effects.
Open Scope string_scope.
#[local] Open Scope Z_scope.

Section Audit.
Context `{PyRepr}.

(** [hash_arguments]. *)
Definition hash_arguments (arguments : dict) : string :=
  sha256_hex (encode (json_dumps true "," ":" (JObj arguments))).

Definition audit_row (id grant_id : uuid) (tool_name : string) (arguments : dict) (status : string)
    (latency_ms : Z) (called_at : datetime) : ToolCallAuditLog := {|
  log_id := id;
  log_grant_id := grant_id;
  log_tool_name := tool_name;
  log_arguments_hash := hash_arguments arguments;
  log_status := status;
  log_latency_ms := latency_ms;
  log_called_at := called_at
|}.

(** [record_call]: the row's defaults ([uuid4], [utcnow]) are drawn at the
    flush of the commit. *)
Definition record_call (grant_id : uuid) (tool_name : string) (arguments : dict) (status : string)
    (latency_ms : Z) : prog ToolCallAuditLog :=
  id <- perform EUuid4 ;;
  called_at <- perform EUtcNow ;;
  let row := audit_row id grant_id tool_name arguments status latency_ms (utc called_at) in
  perform (EDbAdd (RowAudit row)) ;;
  perform EDbCommit ;;
  ret row.
End Audit.

(** ** Properties *)

(** The digest of a call's arguments depends on the arguments only as a
    logical value: dictionaries that differ in the order of their items, at
    any depth, hash alike. *)
Theorem hash_arguments_canonical `{PyRepr} (arguments arguments' : dict)
    (Hwf : json_wf (JObj arguments)) (Heq : json_equiv (JObj arguments) (JObj arguments')) :
  hash_arguments arguments = hash_arguments arguments'.
Proof. unfold hash_arguments. by rewrite (dumps_sorted_equiv "," ":" _ _ Hwf Heq). Qed.

Lemma hash_arguments_canonical_witness :
  let a := [("query", JStr "x"); ("page_size", JInt 5)] in
  let b := [("page_size", JInt 5); ("query", JStr "x")] in
  @hash_arguments example_repr a = @hash_arguments example_repr b.
Proof.
  intros a b. apply (@hash_arguments_canonical example_repr a b).
  - constructor; [by apply (bool_decide_unpack _)|repeat constructor].
  - apply (equiv_obj a a b); [repeat constructor|]. apply Permutation.perm_swap.
Defined.
