(* ===== verification/Invoke.v ===== *)
(** * Tool invocation ([src/credbroker/invoke/service.py])

    [InvokeService.invoke] and its helpers, each a program named as the
    method is.  The service's collaborators are fields of
    [InvokeService]; the optional ones are flags or options.  The HTTP
    client is reached through [EHttp]; who owns it is [ClientState]. *)

From stdpp Require Import base tactics list strings numbers gmap.
From S2P Require Import Prelude PyStr Errors Json JsonParse Hashing Uuid Config Models Breaker.
From S2P Require Import Effects Redaction Retry Redis Kms Tokens Tools Google Cache Idempotency.
From S2P Require Import Grants AuditLog.
Import IdempotencyStore.
Open Scope string_scope.
#[local] Open Scope Z_scope.

(** [REFRESH_EXPIRY_MARGIN], one minute. *)
Definition REFRESH_EXPIRY_MARGIN : Z := seconds 60.

Inductive call_status := Success | Failed | Denied.

#[export] Instance call_status_eq_dec : EqDecision call_status.
Proof. solve_decision. Defined.

Definition status_text (s : call_status) : string :=
  match s with Success => "success" | Failed => "failed" | Denied => "denied" end.

(** [oc_result]: Python's [None] is [None], and [Some JNull] when the
    provider's JSON was [null]. *)
Record InvokeOutcome := {
  oc_status : call_status;
  oc_result : option json;
  oc_error : option string;
  oc_latency_ms : Z;
  oc_from_cache : bool;
  oc_denied_reason : option string
}.

Record InvokeService := {
  svc_settings : Settings;
  svc_tools : registry;
  svc_cipher : KeyManager;
  svc_grant_cache : bool;
  svc_rate_limiter : bool;
  svc_idempotency_store : option IdempotencyStore.t
}.

(** [_elapsed_ms]: whole milliseconds since [start], at least zero. *)
Definition elapsed_ms (start : Z) : prog Z :=
  now <- perform EMonotonic ;;
  ret (Z.max 0 (Z.quot (now - start) 1000)).

(** [_outcome]. *)
Definition outcome_of (status : call_status) (result : option json) (error : option string)
    (denied_reason : option string) (start : Z) (from_cache : bool) : prog InvokeOutcome :=
  error <- (match error with Some e => s <- scrub e ;; ret (Some s) | None => ret None end) ;;
  latency <- elapsed_ms start ;;
  ret {| oc_status := status; oc_result := result; oc_error := error; oc_latency_ms := latency;
         oc_from_cache := from_cache; oc_denied_reason := denied_reason |}.

Definition denied (error reason : string) (start : Z) : prog InvokeOutcome :=
  outcome_of Denied None (Some error) (Some reason) start false.
Definition failed (error : string) (start : Z) : prog InvokeOutcome :=
  outcome_of Failed None (Some error) None start false.
Definition succeeded (result : json) (start : Z) (from_cache : bool) : prog InvokeOutcome :=
  outcome_of Success (Some result) None None start from_cache.

(** [_can_refresh]. *)
Definition can_refresh (account : ConnectedAccount) : bool :=
  match acc_encrypted_refresh_token account with
  | Some _ => String.eqb (acc_provider account) "google"
  | None => false
  end.

Section Service.
Context `{PyJwt} `{PyRepr} `{AesGcm} (svc : InvokeService).

(** [_is_revoked_now]. *)
Definition is_revoked_now (gid : uuid) (token_hash : string) : prog bool :=
  cached <- (if svc_grant_cache svc then is_revoked token_hash else ret false) ;;
  if cached : bool then ret true
  else
    row <- perform (EDbGrantRevokedAt gid) ;;
    match row with
    | None => ret true
    | Some revoked_at => ret (bool_decide (is_Some revoked_at))
    end.

(** [_circuit_for]: the provider's breaker, created on first use. *)
Definition circuit_for (provider : string) : prog unit :=
  circuit <- perform (EGetCircuit provider) ;;
  match circuit with
  | Some _ => ret tt
  | None =>
      b <- lift (new_breaker (circuit_failure_threshold (svc_settings svc))
                   (circuit_reset_seconds (svc_settings svc))) ;;
      perform (EPutCircuit provider b)
  end.

(** [_call_provider]. *)
Definition call_provider (tool : ToolAdapter) (access_token : string) (arguments : dict) : prog json :=
  circuit_for (tool_provider tool) ;;
  call_with_retries (tool_call tool access_token arguments)
    (outbound_max_retries (svc_settings svc)) (outbound_base_delay_seconds (svc_settings svc))
    (Some (tool_provider tool)) default_retryable.

(** [_refresh_credential].  Assigning a column marks it for the next flush. *)
Definition refresh_credential (account : ConnectedAccount) : prog string :=
  perform EToThread ;;
  refresh_token <-
    (match acc_encrypted_refresh_token account with
     | Some b => decrypt (svc_cipher svc) b
     | None => raise (raise_of TypeError "object of type 'NoneType' has no len()")
     end) ;;
  refreshed <- refresh_access_token (svc_settings svc) refresh_token ;;
  perform EToThread ;;
  access <- encrypt (svc_cipher svc) (Google.access_token refreshed) ;;
  perform (EDbUpdate (SetAccessToken (acc_id account) access)) ;;
  (match Google.refresh_token refreshed with
   | Some v =>
       perform EToThread ;;
       b <- encrypt_value (svc_cipher svc) v ;;
       perform (EDbUpdate (SetRefreshToken (acc_id account) b))
   | None => ret tt
   end) ;;
  expires <-
    (match expires_in refreshed with
     | Some s => now <- perform EUtcNow ;; e <- lift (dt_plus_seconds (utc now) s) ;; ret (Some e)
     | None => ret None
     end) ;;
  perform (EDbUpdate (SetExpiresAt (acc_id account) expires)) ;;
  perform EDbCommit ;;
  ret (Google.access_token refreshed).

(** [_refresh_or_outcome]. *)
Definition refresh_or_outcome (account : ConnectedAccount) (start : Z) : prog (string + InvokeOutcome) :=
  r <- attempt (refresh_credential account) ;;
  match r with
  | Ok token => ret (inl token)
  | Exn e =>
      let fail msg := o <- failed msg start ;; ret (inr o) in
      if isinstance e OAuthFlowError then fail ("credential refresh failed: " +:+ exn_msg e)
      else if isinstance e HttpxHTTPError then
        fail "credential refresh failed: could not reach the token endpoint"
      else if caught_by [ClientError; ValueError] e then
        fail "stored credential could not be decrypted"
      else raise e
  end.

Definition revoked_outcome (start : Z) : prog InvokeOutcome :=
  denied "grant has been revoked" "revoked" start.

(** What the [except] clauses of the provider call report; [None] when no
    clause matches. *)
Definition provider_failure (tool : ToolAdapter) (e : exn) : option string :=
  if isinstance e ProviderCallError then Some (exn_msg e)
  else if isinstance e ProviderUnavailableError then Some (exn_msg e)
  else if isinstance e HttpxTimeoutException then
    Some (tool_name tool +:+ " timed out contacting the provider")
  else if isinstance e HttpxTransportError then
    Some (tool_name tool +:+ " could not reach the provider")
  else if isinstance e ValueError then Some (tool_name tool +:+ " returned a malformed response")
  else None.

(** A 401 from a provider call. *)
Definition is_401 (e : exn) : bool :=
  isinstance e ProviderCallError && bool_decide (exn_status e = Some 401).

(** What the model does where the source would go on looping; no run gets
    there. *)
Definition out_of_fuel : prog InvokeOutcome := raise (raise_of PyAssertionError "out of fuel").

(** The [while True] loop, with [fuel] iterations to go and [exhausted]
    after them.  It goes round again only after a refresh, and refreshes
    only once. *)
Fixpoint provider_loop (exhausted : prog InvokeOutcome) (fuel : nat) (grant : Grant) (token_hash : string) (tool : ToolAdapter)
    (account : ConnectedAccount) (access_token : string) (refreshed : bool) (arguments : dict)
    (start : Z) : prog InvokeOutcome :=
  match fuel with
  | O => exhausted
  | S fuel' =>
      r <- attempt (call_provider tool access_token arguments) ;;
      match r with
      | Ok result => succeeded result start false
      | Exn e =>
          if is_401 e && negb refreshed && can_refresh account then
            r <- refresh_or_outcome account start ;;
            match r with
            | inr outcome => ret outcome
            | inl access_token =>
                revoked <- is_revoked_now (grant_id grant) token_hash ;;
                if revoked : bool then revoked_outcome start
                else provider_loop exhausted fuel' grant token_hash tool account access_token true
                       arguments start
            end
          else
            match provider_failure tool e with
            | Some msg => failed msg start
            | None => raise e
            end
      end
  end.

(** Step 8: the stored access token, decrypted. *)
Definition stored_access_token (account : ConnectedAccount) (start : Z) : prog (string + InvokeOutcome) :=
  perform EToThread ;;
  r <- attempt (decrypt (svc_cipher svc) (acc_encrypted_access_token account)) ;;
  match r with
  | Ok token => ret (inl token)
  | Exn e =>
      if caught_by [ClientError; ValueError] e
      then o <- failed "stored credential could not be decrypted" start ;; ret (inr o)
      else raise e
  end.

(** Steps 7 and 8: a usable access token and whether it was refreshed, or
    the outcome that ends the call. *)
Definition usable_token (account : ConnectedAccount) (start : Z)
  : prog ((string * bool) + InvokeOutcome) :=
  let stored :=
    r <- stored_access_token account start ;;
    ret (match r with inl token => inl (token, false) | inr o => inr o end) in
  match ensure_aware (acc_expires_at account) with
  | None => stored
  | Some expires_at =>
      now <- perform EUtcNow ;;
      stale <- lift (dt_le expires_at (dt_add (utc now) REFRESH_EXPIRY_MARGIN)) ;;
      if negb stale then stored
      else if can_refresh account then
        r <- refresh_or_outcome account start ;;
        ret (match r with inl token => inl (token, true) | inr o => inr o end)
      else
        now <- perform EUtcNow ;;
        expired <- lift (dt_le expires_at (utc now)) ;;
        if expired : bool then
          o <- failed "connected account credential has expired and cannot be refreshed" start ;;
          ret (inr o)
        else stored
  end.

(** [_execute_call]. *)
Definition execute_call (grant : Grant) (token_hash : string) (tool : ToolAdapter) (arguments : dict)
    (start : Z) : prog InvokeOutcome :=
  account <- perform (EDbAccountById (grant_connected_account_id grant)) ;;
  match account with
  | None => failed "connected account no longer exists" start
  | Some account =>
      r <- usable_token account start ;;
      match r with
      | inr outcome => ret outcome
      | inl (access_token, refreshed) =>
          revoked <- is_revoked_now (grant_id grant) token_hash ;;
          if revoked : bool then revoked_outcome start
          else provider_loop out_of_fuel 2 grant token_hash tool account access_token refreshed arguments start
      end
  end.

Definition conflict_outcome (start : Z) : prog InvokeOutcome :=
  denied "concurrent call with same idempotency key" "idempotency_conflict" start.

(** The idempotency key, bound to the agent and the account. *)
Definition full_key_of (grant : Grant) (tool_name idempotency_key : string) : string :=
  uuid_str (grant_agent_id grant) +:+ ":" +:+ uuid_str (grant_connected_account_id grant)
  +:+ ":" +:+ tool_name +:+ ":" +:+ idempotency_key.

(** [outcome.result or {}]. *)
Definition result_or_empty (o : InvokeOutcome) : json :=
  match oc_result o with
  | Some r => if truthy r then r else JObj []
  | None => JObj []
  end.

(** The call under a reservation: completed on success, released on any
    other end. *)
Definition reserved_call (store : IdempotencyStore.t) (full_key owner : string)
    (call : prog InvokeOutcome) : prog InvokeOutcome :=
  r <- attempt call ;;
  match r with
  | Exn e => release full_key (Some owner) ;; raise e
  | Ok outcome =>
      (match oc_status outcome with
       | Success => complete store full_key (result_or_empty outcome) (Some owner)
       | _ => release full_key (Some owner)
       end) ;;
      ret outcome
  end.

(** Step 6: replay, conflict, or a reserved call. *)
Definition idempotent_call (store : IdempotencyStore.t) (full_key : string) (start : Z)
    (call : prog InvokeOutcome) : prog InvokeOutcome :=
  r <- attempt (get full_key) ;;
  match r with
  | Exn e => if isinstance e IdempotencyConflictError then conflict_outcome start else raise e
  | Ok (Some cached) => succeeded cached start true
  | Ok None =>
      reservation <- reserve full_key ;;
      match reservation with
      | None => conflict_outcome start
      | Some owner => reserved_call store full_key owner call
      end
  end.

(** Steps 5 and 6 on. *)
Definition resolved_tool (grant : Grant) (token_hash tool_name : string) (arguments : dict)
    (idempotency_key : option string) (start : Z) : prog InvokeOutcome :=
  match get_tool (svc_tools svc) tool_name with
  | Exn e => if isinstance e UnknownToolError then denied (exn_msg e) "not_found" start else raise e
  | Ok tool =>
      if negb (String.eqb (grant_scope grant) (tool_scope tool)) then
        denied ("grant scope " +:+ str_repr (grant_scope grant) +:+ " does not match tool scope "
                +:+ str_repr (tool_scope tool)) "scope_mismatch" start
      else
        let call := execute_call grant token_hash tool arguments start in
        match idempotency_key, svc_idempotency_store svc with
        | Some key, Some store =>
            idempotent_call store (full_key_of grant tool_name key) start call
        | _, _ => call
        end
  end.

(** [_invoke_resolved]. *)
Definition invoke_resolved (grant : Grant) (token_hash tool_name : string) (arguments : dict)
    (idempotency_key : option string) (fast_revoked : bool) (start : Z) : prog InvokeOutcome :=
  if fast_revoked || bool_decide (is_Some (grant_revoked_at grant)) then revoked_outcome start
  else
    now <- perform EUtcNow ;;
    expired <- lift (dt_le (aware (grant_expires_at grant)) (utc now)) ;;
    if expired : bool then denied "grant has expired" "expired" start
    else
      allowed <-
        (if svc_rate_limiter svc
         then check ("invoke:" +:+ uuid_str (grant_agent_id grant))
                (invokes_per_minute_per_agent (svc_settings svc)) DEFAULT_WINDOW_SECONDS
         else ret true) ;;
      if negb allowed then
        perform (EMetric (RATE_LIMITED "invoke_tool")) ;;
        denied "invoke rate limit exceeded" "rate_limited" start
      else resolved_tool grant token_hash tool_name arguments idempotency_key start.

(** The [except Exception] backstop of [invoke]. *)
Definition audited_call (grant : Grant) (token_hash tool_name : string) (arguments : dict)
    (idempotency_key : option string) (fast_revoked : bool) (start : Z) : prog InvokeOutcome :=
  r <- attempt (invoke_resolved grant token_hash tool_name arguments idempotency_key fast_revoked start) ;;
  match r with
  | Ok outcome => ret outcome
  | Exn e =>
      message <- scrub (exn_msg e) ;;
      perform (ELog ERROR "unexpected error invoking %s under grant %s: %s: %s"
        [tool_name; uuid_str (grant_id grant); class_name (exn_class e); message]) ;;
      perform EDbRollback ;;
      failed "internal error during tool invocation" start
  end.

(** The body of the session in [invoke]. *)
Definition invoke_in_session (claims : GrantClaims) (token_hash tool_name : string)
    (arguments : dict) (idempotency_key : option string) (start : Z) : prog InvokeOutcome :=
  fast_revoked <- (if svc_grant_cache svc then is_revoked token_hash else ret false) ;;
  grant <- perform (EDbGrantByHash token_hash) ;;
  match grant with
  | None =>
      perform (ELog WARNING "invoke denied: no grant row for presented token (jti=%s)"
                 [uuid_str (claims_grant_id claims)]) ;;
      denied "grant not found" "not_found" start
  | Some grant =>
      outcome <- audited_call grant token_hash tool_name arguments idempotency_key fast_revoked start ;;
      record_call (grant_id grant) tool_name arguments (status_text (oc_status outcome))
        (oc_latency_ms outcome) ;;
      ret outcome
  end.

(** [invoke]. *)
Definition invoke (grant_token tool_name : string) (arguments : dict)
    (idempotency_key : option string) : prog InvokeOutcome :=
  start <- perform EMonotonic ;;
  r <- attempt (verify_grant_token grant_token (svc_settings svc)) ;;
  match r with
  | Exn e =>
      if isinstance e GrantExpiredError then
        perform (ELog WARNING "invoke denied before grant resolution: %s" [exn_msg e]) ;;
        denied (exn_msg e) "expired" start
      else if isinstance e GrantTokenInvalidError then
        perform (ELog WARNING "invoke denied before grant resolution: %s" [exn_msg e]) ;;
        denied (exn_msg e) "invalid_token" start
      else raise e
  | Ok claims =>
      if negb (String.eqb tool_name (claims_tool_name claims)) then
        perform (ELog WARNING "invoke denied: grant %s is bound to tool %r, request named %r"
          [uuid_str (claims_grant_id claims); claims_tool_name claims; tool_name]) ;;
        denied "grant token is not valid for this tool" "tool_mismatch" start
      else
        with_session (invoke_in_session claims (hash_token grant_token) tool_name arguments
                        idempotency_key start)
  end.
End Service.

(** ** Who owns the HTTP client ([_http], [aclose]) *)

(** The client a service holds, by number, and whether it created it. *)
Record ClientState := { cs_client : option nat; cs_owns : bool }.

(** [__init__] with an optional injected client. *)
Definition client_init (injected : option nat) : ClientState :=
  {| cs_client := injected; cs_owns := false |}.

(** [_http]; [fresh] is the client that would be created. *)
Definition client_http (fresh : nat) (s : ClientState) : nat * ClientState :=
  match cs_client s with
  | Some c => (c, s)
  | None => (fresh, {| cs_client := Some fresh; cs_owns := true |})
  end.

(** [aclose]: the client that gets closed, if any. *)
Definition client_aclose (s : ClientState) : option nat * ClientState :=
  match cs_client s with
  | Some c => if cs_owns s then (Some c, {| cs_client := None; cs_owns := false |}) else (None, s)
  | None => (None, s)
  end.
