(* ===== verification/InvokeAudit.v ===== *)
(** * Invocation: audit, outcomes and escapes

    What holds of every run of [InvokeService.invoke]: the shape of the
    outcome, the audit row it leaves, and which exceptions can reach the
    caller. *)

From stdpp Require Import base tactics list strings numbers gmap sets.
From S2P Require Import Prelude PyStr Errors Json JsonParse Hashing Uuid Config Models Breaker.
From S2P Require Import Effects Redaction Retry Redis Kms Tokens Tools OAuthState Google Router.
From S2P Require Import Cache Idempotency Grants AuditLog Invoke.
Import IdempotencyStore.
Open Scope string_scope.
#[local] Open Scope Z_scope.

(** ** The contract of the collaborators *)

(** A request to a provider's API, as opposed to the token endpoint. *)
Definition is_tool_request (c : eff) : bool :=
  match c with EHttp r => negb (String.eqb (req_url r) GOOGLE_TOKEN_URL) | _ => false end.

(** At most one request, and nothing else. *)
Definition one_request {A} (p : prog A) : Prop :=
  match p with
  | Done _ => True
  | Vis c k => is_tool_request c = true /\ forall a, exists r, k a = Done r
  end.

(** An adapter's call makes at most one request to its provider; the key
    manager talks to no provider and no database. *)
Record svc_contract (svc : InvokeService) : Prop := {
  sc_cipher : km_local (svc_cipher svc);
  sc_tools : forall name tool token arguments, svc_tools svc !! name = Some tool ->
    one_request (tool_call tool token arguments)
}.

(** The built-in adapter keeps it, for any base URL. *)
Lemma drive_one_request `{PyRepr} base_url token arguments :
  base_url +:+ "/files" <> GOOGLE_TOKEN_URL -> one_request (drive_call base_url token arguments).
Proof.
  intros Hne. unfold drive_call, one_request, lift. destruct (drive_params arguments) as [params|e]; [|done].
  cbn [bind perform to_res fallible]. split.
  - cbn [is_tool_request req_url drive_request]. by apply negb_true_iff, String.eqb_neq.
  - intros [response|e]; cbn [bind]; [|by eexists]. destruct (400 <=? _); by eexists.
Qed.

Lemma endswith_files base_url : base_url +:+ "/files" <> GOOGLE_TOKEN_URL.
Proof.
  intros E. apply (f_equal (fun s => last (String.list_ascii_of_string s))) in E.
  assert (Hl : forall s, String.list_ascii_of_string (s +:+ "/files") =
                         (String.list_ascii_of_string s ++ String.list_ascii_of_string "/files")%list).
  { induction s as [|c s IH]; [done|]. rewrite append_cons. simpl. by rewrite IH. }
  rewrite Hl, last_app in E. done.
Qed.

Lemma drive_contract `{PyRepr} settings name tool token arguments :
  configure_tools settings TOOL_REGISTRY !! name = Some tool ->
  one_request (tool_call tool token arguments).
Proof.
  unfold configure_tools, TOOL_REGISTRY, register_tool. rewrite fmap_insert, fmap_empty.
  rewrite lookup_insert_Some, lookup_empty. intros [[_ <-]|[_ ?]]; [|done].
  apply drive_one_request, endswith_files.
Qed.

(** ** What invocations never do *)

(** Effects that only [invoke] itself performs. *)
Definition is_audit (c : eff) : bool :=
  match c with EDbAdd _ | EDbGrantByHash _ | EDbOpen | EDbClose => true | _ => false end.

(** ... and the writes of the idempotency step and of the limiter. *)
Definition is_marked (c : eff) : bool := is_audit c || idem_write c || counter_write c.

Lemma unmarked c :
  is_marked c = false -> is_audit c = false /\ idem_write c = false /\ counter_write c = false.
Proof. unfold is_marked. rewrite !orb_false_iff. tauto. Qed.

Lemma avoids_part (P P' : eff -> bool) {A} (p : prog A) :
  (forall c, P c = false -> P' c = false) -> avoids P p -> avoids P' p.
Proof.
  intros HP. apply avoids_weaken. intros c Hc. destruct (P c) eqn:E; [done|]. apply HP in E. congruence.
Qed.

Lemma marked_outbound c : is_marked c = true -> is_outbound c = true.
Proof. by destruct c. Qed.

Lemma marked_audit {A} (p : prog A) : avoids is_marked p -> avoids is_audit p.
Proof. apply avoids_part. by intros c (? & _)%unmarked. Qed.

Lemma avoids_one_request P {A} (p : prog A) :
  (forall c, is_tool_request c = true -> P c = false) -> one_request p -> avoids P p.
Proof.
  intros HP Hp. destruct p as [r|c k]; [done|]. destruct Hp as [Hc Hk]. split; [auto|].
  intros a. by destruct (Hk a) as [r ->].
Qed.

Create HintDb avoids.

(** Walk through a program. *)
Ltac avoid :=
  repeat first
    [ done
    | solve [auto with avoids]
    | apply avoids_bind; [|intros ?]
    | apply avoids_attempt
    | match goal with |- avoids _ (match ?x with _ => _ end) => destruct x end ].

Section Avoids.
Context `{PyJwt} `{PyRepr} `{AesGcm} (svc : InvokeService) (Hsvc : svc_contract svc).

Lemma outcome_avoids status result error reason start cached :
  avoids is_marked (outcome_of status result error reason start cached).
Proof. unfold outcome_of, elapsed_ms, scrub. avoid. Qed.

Lemma is_revoked_avoids th : avoids is_marked (is_revoked th).
Proof. unfold is_revoked. avoid. Qed.

Lemma check_avoids k l w : avoids is_audit (check k l w).
Proof. unfold check. avoid. Qed.

Lemma revoked_now_avoids gid th : avoids is_marked (is_revoked_now svc gid th).
Proof. unfold is_revoked_now. avoid. Qed.

Lemma retry_avoids P {A} left (fn : prog A) att max_retries base circuit retryable :
  (forall c, match c with EReadCircuit _ | EPutCircuit _ _ | EMonotonic | ESleep _ => P c = false
                        | _ => True end) ->
  avoids P fn -> avoids P (retry_loop left att fn max_retries base circuit retryable).
Proof.
  intros HP Hfn. revert att. induction left as [|left IH]; intros att; [done|]. cbn [retry_loop].
  assert (Hclock : forall b, avoids P (clock_if_open b)).
  { intros b. unfold clock_if_open. destruct (cb_st b); try done. apply avoids_perform, (HP EMonotonic). }
  apply avoids_bind.
  { destruct circuit as [c|]; [|done]. cbn [when_circuit]. unfold circuit_allow.
    apply avoids_bind; [apply avoids_perform, (HP (EReadCircuit c))|intros b].
    apply avoids_bind; [done|intros now].
    apply avoids_bind; [apply avoids_perform, (HP (EPutCircuit c _))|done]. }
  intros allowed. destruct (negb allowed); [done|].
  apply avoids_bind; [by apply avoids_attempt|]. intros [a|e].
  - apply avoids_bind; [|done]. destruct circuit as [c|]; [|done].
    apply avoids_bind; [apply avoids_perform, (HP (EReadCircuit c))|intros b].
    apply avoids_perform, (HP (EPutCircuit c _)).
  - destruct (negb (retryable e)); [done|]. apply avoids_bind.
    { destruct circuit as [c|]; [|done].
      apply avoids_bind; [apply avoids_perform, (HP (EReadCircuit c))|intros b].
      apply avoids_bind; [done|intros now].
      apply avoids_bind; [apply avoids_perform, (HP EMonotonic)|intros now'].
      apply avoids_perform, (HP (EPutCircuit c _)). }
    intros _. destruct (_ <=? _); [done|].
    apply avoids_bind; [apply avoids_perform, (HP (ESleep _))|intros _; apply IH].
Qed.

Lemma call_provider_avoids name tool token arguments :
  svc_tools svc !! name = Some tool -> avoids is_marked (call_provider svc tool token arguments).
Proof.
  intros Ht. unfold call_provider, circuit_for. apply avoids_bind; [avoid|intros _].
  unfold call_with_retries. destruct (_ <? _); [done|]. destruct (_ <? _); [done|].
  apply retry_avoids; [by intros []|]. apply avoids_one_request; [by intros []|].
  by eapply (sc_tools svc Hsvc).
Qed.

Lemma decrypt_avoids b : avoids is_outbound (decrypt (svc_cipher svc) b).
Proof.
  unfold decrypt. destruct (_ <? _); [done|]. destruct (negb _); [done|]. destruct (_ <? _); [done|].
  apply avoids_bind; [apply (sc_cipher svc Hsvc)|intros key].
  destruct (aesgcm_decrypt _ _ _); [|by destruct (isinstance _ _)].
  destruct (decode_utf8 _); [|done]. apply avoids_bind; [apply register_avoids|done].
Qed.

Lemma cipher_avoids {A} (p : prog A) : avoids is_outbound p -> avoids is_marked p.
Proof. apply avoids_weaken, marked_outbound. Qed.

Lemma encrypt_marked s : avoids is_marked (encrypt (svc_cipher svc) s).
Proof. apply cipher_avoids, encrypt_avoids, Hsvc. Qed.

Lemma encrypt_value_marked v : avoids is_marked (encrypt_value (svc_cipher svc) v).
Proof. apply cipher_avoids, encrypt_value_avoids, Hsvc. Qed.

Lemma decrypt_marked b : avoids is_marked (decrypt (svc_cipher svc) b).
Proof. apply cipher_avoids, decrypt_avoids. Qed.

Lemma parse_marked response : avoids is_marked (parse_token_response response).
Proof. apply cipher_avoids, parse_avoids. Qed.

#[local] Hint Resolve encrypt_marked encrypt_value_marked decrypt_marked parse_marked outcome_avoids
  is_revoked_avoids revoked_now_avoids : avoids.

Lemma refresh_avoids account : avoids is_marked (refresh_credential svc account).
Proof.
  unfold refresh_credential, refresh_access_token. avoid.
Qed.

#[local] Hint Resolve refresh_avoids : avoids.

Lemma refresh_or_outcome_avoids account start : avoids is_marked (refresh_or_outcome svc account start).
Proof.
  unfold refresh_or_outcome, failed. avoid.
Qed.

#[local] Hint Resolve refresh_or_outcome_avoids : avoids.

Lemma provider_loop_avoids name fuel grant th tool account token refreshed arguments start :
  svc_tools svc !! name = Some tool ->
  avoids is_marked (provider_loop svc out_of_fuel fuel grant th tool account token refreshed arguments start).
Proof.
  intros Ht. revert token refreshed. induction fuel as [|fuel IH]; intros token refreshed; [done|].
  cbn [provider_loop]. unfold succeeded, failed, revoked_outcome, denied.
  apply avoids_bind; [by eapply avoids_attempt, call_provider_avoids|]. intros [r|e]; [apply outcome_avoids|].
  destruct (_ && _)%bool.
  - apply avoids_bind; [apply refresh_or_outcome_avoids|]. intros [t|o]; [|done].
    apply avoids_bind; [apply revoked_now_avoids|]. intros [|]; [apply outcome_avoids|apply IH].
  - destruct (provider_failure tool e); [apply outcome_avoids|done].
Qed.

Lemma usable_avoids account start : avoids is_marked (usable_token svc account start).
Proof.
  unfold usable_token, stored_access_token, failed.
  avoid.
Qed.

Lemma execute_avoids name grant th tool arguments start :
  svc_tools svc !! name = Some tool -> avoids is_marked (execute_call svc grant th tool arguments start).
Proof.
  intros Ht. unfold execute_call, failed, revoked_outcome, denied.
  apply avoids_bind; [done|]. intros [account|]; [|apply outcome_avoids].
  apply avoids_bind; [apply usable_avoids|]. intros [[token refreshed]|o]; [|done].
  apply avoids_bind; [apply revoked_now_avoids|]. intros [|]; [apply outcome_avoids|].
  by eapply provider_loop_avoids.
Qed.

Lemma outcome_audit status result error reason start cached :
  avoids is_audit (outcome_of status result error reason start cached).
Proof. apply marked_audit, outcome_avoids. Qed.

#[local] Hint Resolve outcome_audit : avoids.

Lemma idempotent_avoids store key start call :
  avoids is_audit call -> avoids is_audit (idempotent_call store key start call).
Proof.
  intros Hc. unfold idempotent_call, reserved_call, conflict_outcome, denied, succeeded, get, reserve,
    complete, release. avoid.
Qed.

Lemma resolved_avoids grant th name arguments key fast start :
  avoids is_audit (invoke_resolved svc grant th name arguments key fast start).
Proof.
  unfold invoke_resolved, revoked_outcome, denied. destruct (_ || _)%bool; [apply outcome_audit|].
  do 2 (apply avoids_bind; [done|intros ?]).
  match goal with x : bool |- _ => destruct x end; [apply outcome_audit|].
  apply avoids_bind; [destruct (svc_rate_limiter svc); [apply check_avoids|done]|]. intros allowed.
  destruct (negb allowed); [apply avoids_bind; [done|intros _; apply outcome_audit]|].
  unfold resolved_tool, get_tool, denied. destruct (svc_tools svc !! name) as [tool|] eqn:Et; cbn [or_raise].
  - destruct (negb _); [apply outcome_audit|]. pose proof (marked_audit _ (execute_avoids name grant th tool arguments start Et)).
    destruct key as [key|]; [|done]. destruct (svc_idempotency_store svc); [|done].
    by apply idempotent_avoids.
  - destruct (isinstance _ _); [apply outcome_audit|done].
Qed.
End Avoids.

(** ** The shape of an outcome *)

Definition DENIED_REASONS : list string :=
  ["invalid_token"; "expired"; "revoked"; "not_found"; "tool_mismatch"; "scope_mismatch";
   "rate_limited"; "idempotency_conflict"].

(** What the fields of an outcome promise of each other. *)
Definition outcome_wf (o : InvokeOutcome) : Prop :=
  0 <= oc_latency_ms o /\
  match oc_status o with
  | Success => is_Some (oc_result o) /\ oc_error o = None /\ oc_denied_reason o = None
  | Failed => oc_result o = None /\ is_Some (oc_error o) /\ oc_denied_reason o = None /\
              oc_from_cache o = false
  | Denied => oc_result o = None /\ is_Some (oc_error o) /\ oc_from_cache o = false /\
              exists reason, oc_denied_reason o = Some reason /\ reason ∈ DENIED_REASONS
  end.

(** The error text went through the registry of secrets. *)
Definition scrubbed (t : list event) (o : InvokeOutcome) : Prop :=
  forall e, oc_error o = Some e ->
  exists secrets message, In (Ev ERegistry secrets) t /\ e = scrub_with secrets message.

Definition safe_outcome (t : list event) (o : InvokeOutcome) : Prop :=
  outcome_wf o /\ scrubbed t o.

Lemma safe_outcome_app t u o : safe_outcome t o -> safe_outcome (t ++ u)%list o.
Proof.
  intros [Hw Hs]. split; [done|]. intros e He. destruct (Hs e He) as (secrets & m & Hin & ->).
  exists secrets, m. split; [|done]. apply in_app_iff. by left.
Qed.

(** Whatever outcome [sel] finds in the result of [p] is safe. *)
Definition safe_result {A} (sel : A -> option InvokeOutcome) (t : list event) (r : res A) : Prop :=
  forall a o, r = Ok a -> sel a = Some o -> safe_outcome t o.
Definition safely {A} (sel : A -> option InvokeOutcome) (p : prog A) : Prop :=
  forall t, wp snoc any_answer p (safe_result sel) t.

Definition outcome_in {A} (x : A + InvokeOutcome) : option InvokeOutcome :=
  match x with inl _ => None | inr o => Some o end.
Definition outcome_ok (r : res InvokeOutcome) : option InvokeOutcome :=
  match r with Ok o => Some o | Exn _ => None end.

Lemma safely_bind {A B} sel (p : prog A) (f : A -> prog B) :
  (forall a, safely sel (f a)) -> safely sel (bind p f).
Proof. intros Hf t. apply wp_bind, wp_prefix. intros u [a|e]; [apply Hf|]. by intros a o. Qed.

Lemma safely_then {A B} sel sel' (p : prog A) (f : A -> prog B) :
  safely sel p ->
  (forall a t, (forall o, sel a = Some o -> safe_outcome t o) -> wp snoc any_answer (f a) (safe_result sel') t) ->
  safely sel' (bind p f).
Proof.
  intros Hp Hf t. apply wp_bind. eapply wp_mono; [apply Hp|]. intros t' [a|e] Ha.
  - apply Hf. intros o Ho. by eapply Ha.
  - by intros a o.
Qed.

Lemma safely_attempt {A} sel (p : prog A) :
  safely sel p -> safely (fun r => match r with Ok a => sel a | Exn _ => None end) (attempt p).
Proof.
  intros Hp t. apply wp_attempt. eapply wp_mono; [apply Hp|]. intros t' r Hr a o [= <-].
  destruct r; [|done]. by apply Hr.
Qed.

Lemma safely_raise {A} sel e : safely sel (raise (A:=A) e).
Proof. intros t a o. done. Qed.

Lemma safe_ret t (o : InvokeOutcome) : safe_outcome t o -> safe_result Some t (Ok o).
Proof. intros Ho a o' [= <-] [= <-]. done. Qed.

Lemma safely_outcome status result error reason start cached :
  (forall err lat, 0 <= lat -> (error = None -> err = None) -> (is_Some error -> is_Some err) ->
     outcome_wf {| oc_status := status; oc_result := result; oc_error := err; oc_latency_ms := lat;
                   oc_from_cache := cached; oc_denied_reason := reason |}) ->
  safely Some (outcome_of status result error reason start cached).
Proof.
  intros Hwf t. unfold outcome_of, elapsed_ms, scrub. destruct error as [e|]; wp_simpl.
  - intros secrets _ now _. apply safe_ret. split.
    + apply Hwf; [lia|done|by eexists].
    + intros e' [= <-]. exists secrets, e. split; [|done]. unfold snoc. rewrite !in_app_iff. simpl. auto.
  - intros now _. apply safe_ret. split; [|by intros e']. apply Hwf; [lia|done|by intros []].
Qed.

Lemma safely_denied error reason start :
  reason ∈ DENIED_REASONS -> safely Some (denied error reason start).
Proof.
  intros Hr. apply safely_outcome. intros err lat Hl _ He. split; [done|]. cbn.
  split; [done|]. split; [by apply He|]. split; [done|]. by exists reason.
Qed.

Lemma safely_failed error start : safely Some (failed error start).
Proof.
  apply safely_outcome. intros err lat Hl _ He. split; [done|]. cbn.
  split; [done|]. split; [by apply He|done].
Qed.

Lemma safely_succeeded result start cached : safely Some (succeeded result start cached).
Proof.
  apply safely_outcome. intros err lat Hl He _. split; [done|]. cbn.
  split; [by eexists|]. split; [by apply He|done].
Qed.

Lemma safely_in {A} (p : prog InvokeOutcome) :
  safely Some p -> safely (@outcome_in A) (o <- p ;; ret (inr o)).
Proof.
  intros Hp. apply (safely_then Some); [done|]. intros o t Ho x o' [= <-] [= <-]. by apply Ho.
Qed.

Create HintDb safely.
#[local] Hint Resolve safely_raise safely_failed safely_succeeded safely_bind safely_in : safely.
#[local] Hint Extern 1 (safely _ (denied _ _ _)) => (apply safely_denied; set_solver) : safely.

Section Safe.
Context `{PyJwt} `{PyRepr} `{AesGcm} (svc : InvokeService).

Lemma safely_refresh account start : safely outcome_in (refresh_or_outcome svc account start).
Proof.
  unfold refresh_or_outcome. apply safely_bind. intros [token|e].
  - intros t x o [= <-]. done.
  - repeat match goal with |- safely _ (if ?b then _ else _) => destruct b end; auto with safely.
Qed.

(** Continue after a step that may already have decided the outcome. *)
Lemma safely_or {A} (p : prog (A + InvokeOutcome)) (f : A + InvokeOutcome -> prog InvokeOutcome) :
  safely outcome_in p -> (forall a, safely Some (f (inl a))) -> (forall o, f (inr o) = ret o) ->
  safely Some (bind p f).
Proof.
  intros Hp Hl Hr. apply (safely_then outcome_in); [done|]. intros [a|o] t Ho; [apply Hl|].
  rewrite Hr. by apply safe_ret, Ho.
Qed.

Lemma safely_loop fuel grant th tool account token refreshed arguments start :
  safely Some (provider_loop svc out_of_fuel fuel grant th tool account token refreshed arguments start).
Proof.
  revert token refreshed. induction fuel as [|fuel IH]; intros token refreshed; [apply safely_raise|].
  cbn [provider_loop]. unfold revoked_outcome. apply safely_bind. intros [r|e]; [auto with safely|].
  destruct (_ && _)%bool.
  - apply safely_or; [apply safely_refresh| |done]. intros token'. apply safely_bind.
    intros [|]; auto with safely.
  - destruct (provider_failure tool e); auto with safely.
Qed.

Lemma safely_stored account start : safely outcome_in (stored_access_token svc account start).
Proof.
  unfold stored_access_token. do 2 (apply safely_bind; intros ?).
  match goal with x : res string |- _ => destruct x as [token|e] end.
  - intros t x o [= <-]. done.
  - destruct (caught_by _ e); auto with safely.
Qed.

Lemma safely_relabel {A B} (g : A -> B) (p : prog (A + InvokeOutcome)) :
  safely outcome_in p ->
  safely outcome_in (r <- p ;; ret (match r with inl a => inl (g a) | inr o => inr o end)).
Proof.
  intros Hp. apply (safely_then outcome_in); [done|]. intros [a|o] t Ho x o' [= <-] Ho'; [done|].
  injection Ho' as <-. by apply Ho.
Qed.

Lemma safely_usable account start : safely outcome_in (usable_token svc account start).
Proof.
  unfold usable_token. pose proof (safely_relabel (fun token => (token, false)) _
    (safely_stored account start)) as Hst.
  destruct (ensure_aware (acc_expires_at account)) as [expires|]; [|exact Hst].
  do 2 (apply safely_bind; intros ?). match goal with |- context [negb ?b] => destruct (negb b) end;
    [exact Hst|]. destruct (can_refresh account).
  - apply (safely_relabel (fun token => (token, true))), safely_refresh.
  - do 2 (apply safely_bind; intros ?).
    match goal with |- safely _ (if ?b then _ else _) => destruct b end; [auto with safely|exact Hst].
Qed.

Lemma safely_execute grant th tool arguments start :
  safely Some (execute_call svc grant th tool arguments start).
Proof.
  unfold execute_call, revoked_outcome. apply safely_bind. intros [account|]; [|auto with safely].
  apply safely_or; [apply safely_usable| |done]. intros [token refreshed]. apply safely_bind.
  intros [|]; [auto with safely|apply safely_loop].
Qed.

Lemma safely_idempotent store key start call :
  safely Some call -> safely Some (idempotent_call store key start call).
Proof.
  intros Hc. unfold idempotent_call, conflict_outcome. apply safely_bind. intros [[cached|]|e].
  - auto with safely.
  - apply safely_bind. intros [owner|]; [|auto with safely]. unfold reserved_call.
    apply (safely_then _ _ _ _ (safely_attempt Some _ Hc)). intros [o|e] t Ho.
    + apply wp_bind, wp_prefix. intros u [x|e]; [|by intros a o']. apply safe_ret, safe_outcome_app. by apply Ho.
    + apply safely_bind. intros x. apply safely_raise.
  - destruct (isinstance e _); auto with safely.
Qed.

Lemma safely_resolved grant th name arguments key fast start :
  safely Some (invoke_resolved svc grant th name arguments key fast start).
Proof.
  unfold invoke_resolved, revoked_outcome. destruct (_ || _)%bool; [auto with safely|].
  do 2 (apply safely_bind; intros ?). match goal with x : bool |- _ => destruct x end; [auto with safely|].
  apply safely_bind. intros allowed. destruct (negb allowed); [auto with safely|].
  unfold resolved_tool. destruct (get_tool (svc_tools svc) name) as [tool|e].
  - destruct (negb _); [auto with safely|]. destruct key as [key|]; [|apply safely_execute].
    destruct (svc_idempotency_store svc); [apply safely_idempotent|]; apply safely_execute.
  - destruct (isinstance e _); auto with safely.
Qed.

Lemma safely_audited grant th name arguments key fast start :
  safely Some (audited_call svc grant th name arguments key fast start).
Proof.
  unfold audited_call. apply (safely_then _ _ _ _ (safely_attempt Some _
    (safely_resolved grant th name arguments key fast start))). intros [o|e] t Ho.
  - apply safe_ret. by apply Ho.
  - do 3 (apply safely_bind; intros ?). auto with safely.
Qed.

(** Keep a safe outcome through a program that returns it. *)
Lemma safe_keep {A} (p : prog A) (o : InvokeOutcome) t :
  safe_outcome t o -> wp snoc any_answer (p ;; ret o) (safe_result Some) t.
Proof.
  intros Ho. apply wp_bind, wp_prefix. intros u [x|e]; [|by intros a o'].
  by apply safe_ret, safe_outcome_app.
Qed.

Lemma safely_session body : safely Some body -> safely Some (with_session body).
Proof.
  intros Hb. unfold with_session. apply safely_bind. intros _.
  apply (safely_then _ _ _ _ (safely_attempt Some _ Hb)). intros r t Ho.
  apply wp_bind, wp_prefix. intros u [x|e]; [|by intros a o']. intros a o -> [= <-].
  by apply safe_outcome_app, Ho.
Qed.

Lemma safely_invoke token name arguments key : safely Some (invoke svc token name arguments key).
Proof.
  unfold invoke. apply safely_bind. intros start. apply safely_bind. intros [claims|e].
  - destruct (negb _); [auto with safely|]. apply safely_session. unfold invoke_in_session.
    apply safely_bind. intros fast. apply safely_bind. intros [g|]; [|auto with safely].
    apply (safely_then Some); [apply safely_audited|]. intros o t Ho. apply safe_keep. by apply Ho.
  - destruct (isinstance e _); [auto with safely|]. destruct (isinstance e _); auto with safely.
Qed.
End Safe.

(** ** One audit row, and what escapes *)

(** Effects of [invoke] itself that may raise to its caller. *)
Definition is_session_effect (c : eff) : bool :=
  match c with
  | ERedisExists _ | EDbGrantByHash _ | EDbRollback | EDbCommit | EDbClose => true
  | _ => false
  end.

Definition session_raised (t : list event) (e : exn) : Prop :=
  Exists (fun ev => ev_raised e ev /\ is_session_effect (ev_eff ev) = true) t.

Lemma session_raised_app t u e : session_raised u e -> session_raised (t ++ u)%list e.
Proof. intros Hu. apply Exists_app. by right. Qed.

Lemma session_raised_snoc t ev e :
  ev_raised e ev -> is_session_effect (ev_eff ev) = true -> session_raised (snoc t ev) e.
Proof. intros H1 H2. apply session_raised_app. by apply Exists_cons_hd. Qed.

Lemma snoc3 t a b c : snoc (snoc (snoc t a) b) c = (t ++ [a; b; c])%list.
Proof. unfold snoc. by rewrite <- !app_assoc. Qed.

Lemma wp_outcome status result error reason start cached Q t :
  (forall u o, events_of is_audit u = [] -> oc_status o = status -> Q (t ++ u)%list (Ok o)) ->
  wp snoc any_answer (outcome_of status result error reason start cached) Q t.
Proof.
  intros HQ. unfold outcome_of, elapsed_ms, scrub. destruct error as [e|]; wp_simpl.
  - intros secrets _ now _. unfold snoc. rewrite <- app_assoc. by apply HQ.
  - intros now _. by apply HQ.
Qed.

Section Audited.
Context `{PyJwt} `{PyRepr} `{AesGcm} (svc : InvokeService) (Hsvc : svc_contract svc).
Context (token name : string) (arguments : dict) (key : option string).

Lemma wp_audited grant fast start Q t :
  (forall u o, events_of is_audit u = [] -> Q (t ++ u)%list (Ok o)) ->
  (forall u e, events_of is_audit u = [] -> session_raised u e -> Q (t ++ u)%list (Exn e)) ->
  wp snoc any_answer
    (audited_call svc grant (hash_token token) name arguments key fast start) Q t.
Proof.
  intros Hok Herr. unfold audited_call. apply wp_bind, wp_attempt.
  apply (wp_avoids_snoc is_audit); [by apply resolved_avoids|]. intros u [o|e] Hu; [by apply Hok|].
  wp_simpl. intros secrets _ log _. unfold scrub. intros r _. destruct r as [[]|e'].
  - apply wp_outcome. intros v o Hv _. unfold snoc. rewrite <- !app_assoc. apply Hok.
    rewrite !events_of_app, Hu, Hv. done.
  - unfold snoc. rewrite <- !app_assoc. apply Herr.
    + rewrite !events_of_app, Hu. done.
    + do 3 apply session_raised_app. by apply Exists_cons_hd.
Qed.

(** The audit row of an outcome. *)
Definition outcome_row (g : Grant) (o : InvokeOutcome) (id : uuid) (called_at : Z) : ToolCallAuditLog :=
  audit_row id (grant_id g) name arguments (status_text (oc_status o)) (oc_latency_ms o) (utc called_at).

(** The run left one committed audit row for the grant [g]. *)
Definition audited_once (t : list event) (g : Grant) (o : InvokeOutcome) : Prop :=
  exists id called_at pre,
    let row := Ev (EDbAdd (RowAudit (outcome_row g o id called_at))) tt in
    t = (pre ++ [row; Ev EDbCommit (Ok tt); Ev EDbClose (Ok tt)])%list /\
    events_of is_audit pre = [Ev EDbOpen tt; Ev (EDbGrantByHash (hash_token token)) (Ok (Some g))].

(** No grant was found: nothing to audit. *)
Definition unattributed (t : list event) : Prop :=
  events_of is_audit t = [] \/
  events_of is_audit t = [Ev EDbOpen tt; Ev (EDbGrantByHash (hash_token token)) (Ok None);
                          Ev EDbClose (Ok tt)].

Definition audit_ends (t : list event) (r : res InvokeOutcome) : Prop :=
  match r with
  | Ok o => (exists g, audited_once t g o) \/ (unattributed t /\ oc_status o = Denied)
  | Exn e =>
      session_raised t e \/
      (events_of is_audit t = [] /\ exists now, verify_at token (svc_settings svc) now = Exn e)
  end.

Lemma wp_in_session claims start t :
  events_of is_audit t = [] ->
  wp snoc any_answer
    (with_session (invoke_in_session svc claims (hash_token token) name arguments key start))
    audit_ends t.
Proof.
  intros Ht. unfold with_session. wp_simpl. intros opened _. destruct opened.
  apply wp_bind, wp_attempt. unfold invoke_in_session. apply wp_bind.
  set (closing := fun (s : list event) (r : res InvokeOutcome) => _).
  assert (Hfail : forall s e, session_raised s e -> closing s (Exn e)).
  { intros s e He. unfold closing. intros r _. destruct r as [[]|e']; left.
    - by apply Exists_app; left.
    - by apply session_raised_snoc. }
  assert (Hcache : forall Q, (forall u b, events_of is_audit u = [] -> Q (t ++ [Ev EDbOpen tt] ++ u)%list (Ok b)) ->
    (forall u e, session_raised u e -> Q (t ++ [Ev EDbOpen tt] ++ u)%list (Exn e)) ->
    wp snoc any_answer (if svc_grant_cache svc then is_revoked (hash_token token) else ret false) Q
      (snoc t (Ev EDbOpen tt))).
  { intros Q HQ1 HQ2. destruct (svc_grant_cache svc).
    - intros r _. unfold snoc. rewrite <- app_assoc. destruct r as [n|e]; [by apply HQ1|].
      apply HQ2. by apply Exists_cons_hd.
    - apply (HQ1 []). done. }
  apply Hcache; [|intros u e He; apply Hfail; by do 2 apply session_raised_app].
  intros u fast Hu. intros r _. destruct r as [[g|]|e]; wp_simpl; [| |by apply Hfail, session_raised_snoc].
  - apply wp_bind, wp_audited.
    2: { intros v e _ He. apply Hfail. by apply session_raised_app. }
    intros v o Hv. unfold record_call. wp_simpl. intros id _ at_ _ added _ c _. destruct added.
    destruct c as [[]|e]; [|by apply Hfail, session_raised_snoc]. unfold closing. intros x _.
    destruct x as [[]|e]; [|left; by apply session_raised_snoc]. left. exists g, id, at_.
    eexists. split; [apply snoc3|]. unfold snoc. rewrite !events_of_app, Ht, Hu, Hv. done.
  - intros log _. apply wp_outcome. intros v o Hv Ho. unfold closing. intros x _.
    destruct x as [[]|e]; [|left; by apply session_raised_snoc]. right. split; [|done]. right.
    unfold snoc. rewrite !events_of_app, Ht, Hu, Hv. done.
Qed.

Lemma wp_invoke : wp snoc any_answer (invoke svc token name arguments key) audit_ends [].
Proof.
  unfold invoke. wp_simpl. intros start _. apply wp_bind, wp_attempt. unfold verify_grant_token.
  wp_simpl. intros now _.
  assert (Hd : forall msg args error reason s, events_of is_audit s = [] ->
    wp snoc any_answer (perform (ELog WARNING msg args) ;; denied error reason start) audit_ends s).
  { intros msg args error reason s Hs. wp_simpl. intros log _. apply wp_outcome. intros v o Hv Ho.
    right. split; [|done]. left. unfold snoc. by rewrite !events_of_app, Hs, Hv. }
  destruct (verify_at token (svc_settings svc) now) as [claims|e] eqn:Ev.
  - destruct (negb _); [by apply Hd|]. by apply wp_in_session.
  - destruct (isinstance e GrantExpiredError); [by apply Hd|].
    destruct (isinstance e GrantTokenInvalidError); [by apply Hd|].
    right. split; [done|by exists now].
Qed.
End Audited.

(** ** Properties *)

(** C9. Every invocation that finds its grant leaves exactly one audit row,
    whatever Redis, the database, KMS and the provider answer, and errors
    inside the call included: the run ends by adding the row of the
    returned outcome (its status, its latency, the grant, the tool and the
    arguments) to the session, committing and closing, and no other row is
    added before.  A call without a row returned [denied] and had no grant
    to attribute the row to.  The only exceptions that reach the caller
    come from the session itself (the revocation cache before the grant is
    known, looking the grant up, the rollback after an internal error, the
    final commit and close), or from verification of the token. *)
Theorem invoke_audited_once `{PyJwt} `{PyRepr} `{AesGcm} {St} (h : handler St) (σ : St)
    (svc : InvokeService) (token name : string) (arguments : dict) (key : option string)
    (Hsvc : svc_contract svc) :
  let p := invoke svc token name arguments key in
  let t := trace_of h p σ in
  match result_of h p σ with
  | Ok o => (exists g, audited_once token name arguments t g o) \/
            (unattributed token t /\ oc_status o = Denied)
  | Exn e =>
      session_raised t e \/
      (events_of is_audit t = [] /\ exists now, verify_at token (svc_settings svc) now = Exn e)
  end.
Proof.
  exact (wp_every_run h _ (audit_ends svc token name arguments) σ
    (wp_invoke svc Hsvc token name arguments key)).
Qed.

(** The service of the defaults, with AWS KMS and the built-in tools. *)
Definition example_service : InvokeService := {|
  svc_settings := default_settings;
  svc_tools := @configure_tools default_settings (@TOOL_REGISTRY example_repr);
  svc_cipher := AwsKmsKeyManager "alias/credbroker";
  svc_grant_cache := true;
  svc_rate_limiter := true;
  svc_idempotency_store := Some (IdempotencyStore.Store 3600)
|}.

Lemma example_service_contract : svc_contract example_service.
Proof. split; [apply aws_local|]. intros name tool. by apply drive_contract. Qed.

(** A world where the call of the service above succeeds: the grant of
    [example_token] is active, its account holds an encrypted token, and
    the provider answers an empty list. *)
Definition example_expires : datetime := utc 1700000300000000.
Definition example_token : string :=
  match @sign_grant_token toy_jwt default_settings (example_uuid 7) (example_uuid 8) "drive.read" "read"
          (utc 1700000000000000) example_expires with
  | Ok token => token
  | Exn _ => ""
  end.

Definition example_grant : Grant := {|
  grant_id := example_uuid 7; grant_agent_id := example_uuid 8;
  grant_connected_account_id := example_uuid 9; grant_tool_name := "drive.read";
  grant_scope := "read"; grant_token_hash := hash_token example_token;
  grant_issued_at := utc 1700000000000000; grant_expires_at := example_expires;
  grant_revoked_at := None
|}.

Definition example_account : ConnectedAccount := {|
  acc_id := example_uuid 9; acc_user_id := example_uuid 10; acc_provider := "google";
  acc_encrypted_access_token :=
    blob_layout (encode "wrap") (replicate 12 Byte.x01) (encode "ya29.token" ++ toy_tag)%list;
  acc_encrypted_refresh_token := None; acc_scopes_granted := ["read"]; acc_expires_at := None;
  acc_created_at := utc 1600000000000000
|}.

Definition example_breaker : CircuitBreaker :=
  {| cb_failure_threshold := 5; cb_reset := 30000000; cb_st := Closed; cb_failures := 0;
     cb_opened_at := None; cb_probe_in_flight := false |}.

Definition example_world : handler unit := fun σ c =>
  match c return reply c * unit with
  | EUtcNow | ETime => (1700000001000000, tt)
  | EMonotonic => (5000000, tt)
  | EUuid4 => (example_uuid 11, tt)
  | ETokenHex _ => ("f00d", tt)
  | EGetCircuit _ => (Some example_breaker, tt)
  | EReadCircuit _ => (example_breaker, tt)
  | ERedisGet _ => (Ok None, tt)
  | ERedisSet _ _ _ _ => (Ok true, tt)
  | ERedisDelete _ | ERedisExpire _ _ => (Ok tt, tt)
  | ERedisExists _ => (Ok 0, tt)
  | ERedisIncr _ => (Ok 1, tt)
  | EKmsDecrypt _ _ => (Ok (replicate 32 Byte.x00), tt)
  | EHttp _ => (Ok {| resp_status := 200; resp_json := Ok (JObj [("files", JArr [])]) |}, tt)
  | EDbClose | EDbFlush | EDbCommit | EDbRollback => (Ok tt, tt)
  | EDbGrantByHash _ => (Ok (Some example_grant), tt)
  | EDbGrantRevokedAt _ => (Ok (Some None), tt)
  | EDbAccountById _ => (Ok (Some example_account), tt)
  | c => (dead_reply c, tt)
  end.

Definition example_call : prog InvokeOutcome :=
  @invoke toy_jwt example_repr toy_gcm example_service example_token "drive.read" [] (Some "k1").

Definition example_outcome : InvokeOutcome := {|
  oc_status := Success; oc_result := Some (JObj [("files", JArr [])]); oc_error := None;
  oc_latency_ms := 0; oc_from_cache := false; oc_denied_reason := None
|}.

Lemma example_call_result : result_of example_world example_call tt = Ok example_outcome.
Proof. vm_compute. reflexivity. Qed.

Lemma invoke_audited_once_witness :
  exists g, @audited_once example_repr example_token "drive.read" []
    (trace_of example_world example_call tt) g example_outcome.
Proof.
  pose proof (@invoke_audited_once toy_jwt example_repr toy_gcm unit example_world tt example_service
    example_token "drive.read" [] (Some "k1") example_service_contract) as H.
  cbn zeta in H. change (@invoke toy_jwt example_repr toy_gcm _ _ _ _ _) with example_call in H.
  rewrite example_call_result in H. destruct H as [H|[_ H]]; [exact H|discriminate].
Defined.

(** C10. Whatever outcome an invocation returns is coherent, and its error
    text went through redaction: a success has a result and nothing else; a
    failure has an error message and no result; a denial has a message and
    one of the eight documented reasons; the latency is never negative;
    only a success can come from the idempotency cache; and every error
    text is the output of [scrub] on the secrets registered at that
    moment.  No assumption on the world or the adapters. *)
Theorem invoke_outcome_safe `{PyJwt} `{PyRepr} `{AesGcm} {St} (h : handler St) (σ : St)
    (svc : InvokeService) (token name : string) (arguments : dict) (key : option string) :
  match result_of h (invoke svc token name arguments key) σ with
  | Ok o => outcome_wf o /\ scrubbed (trace_of h (invoke svc token name arguments key) σ) o
  | Exn _ => True
  end.
Proof.
  pose proof (wp_every_run h _ _ σ (safely_invoke svc token name arguments key [])) as Hsafe.
  destruct (result_of h _ σ) as [o|e]; [|done]. by apply (Hsafe o o).
Qed.
