(* ===== verification/InvokeProvider.v ===== *)
(** * Invocation: what reaches the provider

    A monitor over the events of [invoke] that counts requests to the
    provider and to the token endpoint and checks that every provider
    request is sent under a fresh revocation check; and the evidence of
    authorisation that every request rests on. *)

From stdpp Require Import base tactics list strings numbers gmap sets.
From S2P Require Import Prelude PyStr Errors Json JsonParse Hashing Uuid Config Models Breaker Effects.
From S2P Require Import Redaction Retry Redis Kms Tokens Tools OAuthState Google Router Cache.
From S2P Require Import Idempotency Grants AuditLog Invoke InvokeAudit.
Import IdempotencyStore.
Open Scope string_scope.
#[local] Open Scope Z_scope.

(** ** The monitor *)

(** [gd_armed]: the last check of the resolved grant's row, made after the
    last request to the token endpoint, found it not revoked. *)
Record guard := Guard {
  gd_grant : option uuid;
  gd_armed : bool;
  gd_provider : nat;
  gd_token : nat;
  gd_unguarded : bool
}.

Definition guard_start : guard := Guard None false 0 0 false.

Definition observe (s : guard) (ev : event) : guard :=
  match ev with
  | Ev (EDbGrantByHash _) (Ok (Some g)) =>
      Guard (Some (grant_id g)) (gd_armed s) (gd_provider s) (gd_token s) (gd_unguarded s)
  | Ev (EDbGrantRevokedAt gid) answer =>
      Guard (gd_grant s)
        (match answer with Ok (Some None) => bool_decide (gd_grant s = Some gid) | _ => false end)
        (gd_provider s) (gd_token s) (gd_unguarded s)
  | Ev (EHttp r) _ =>
      if is_tool_request (EHttp r)
      then Guard (gd_grant s) (gd_armed s) (S (gd_provider s)) (gd_token s)
             (gd_unguarded s || negb (gd_armed s))
      else Guard (gd_grant s) false (gd_provider s) (S (gd_token s)) (gd_unguarded s)
  | _ => s
  end.

(** [per_call] bounds the requests of one round of attempts. *)
Definition within (per_call : nat) (s : guard) : Prop :=
  gd_unguarded s = false /\ (gd_token s <= 1)%nat /\
  (gd_provider s <= (1 + gd_token s) * per_call)%nat.

(** Effects the monitor looks at. *)
Definition is_guarded (c : eff) : bool :=
  match c with EDbGrantByHash _ | EDbGrantRevokedAt _ | EHttp _ => true | _ => false end.

Lemma observe_other s c a : is_guarded c = false -> observe s (Ev c a) = s.
Proof. by destruct c. Qed.

Lemma observe_circuit : ignores_circuit observe.
Proof. by intros s [[] ?]. Qed.

Lemma guarded_outbound c : is_guarded c = true -> is_outbound c = true.
Proof. by destruct c. Qed.

(** Past a program the monitor does not see. *)
Lemma wp_unseen {A} (p : prog A) Q s :
  avoids is_guarded p -> (forall r, Q s r) -> wp observe any_answer p Q s.
Proof. apply wp_avoids. intros s' c a. apply observe_other. Qed.

Lemma wp_unseen_then {A B} (p : prog A) (f : A -> prog B) Q s :
  avoids is_guarded p -> (forall e, Q s (Exn e)) -> (forall a, wp observe any_answer (f a) Q s) ->
  wp observe any_answer (bind p f) Q s.
Proof. intros Hp He Hf. apply wp_bind, wp_unseen; [done|]. by intros [a|e]. Qed.

Lemma wp_seen c Q s :
  (forall a, Q (observe s (Ev c a)) (to_res (fallible c) a)) ->
  wp observe any_answer (perform c) Q s.
Proof. intros HQ a _. apply HQ. Qed.

Section Guarded.
Context `{PyJwt} `{PyRepr} `{AesGcm} (svc : InvokeService) (Hsvc : svc_contract svc).
Context (gid : uuid).

Abbreviation per_call := (Z.to_nat (outbound_max_retries (svc_settings svc) + 1)).

Lemma outcome_unseen status result error reason start cached :
  avoids is_guarded (outcome_of status result error reason start cached).
Proof. unfold outcome_of, elapsed_ms, scrub. avoid. Qed.

Lemma cipher_unseen {A} (p : prog A) : avoids is_outbound p -> avoids is_guarded p.
Proof. apply avoids_weaken, guarded_outbound. Qed.

Lemma encrypt_unseen s : avoids is_guarded (encrypt (svc_cipher svc) s).
Proof. apply cipher_unseen, encrypt_avoids, Hsvc. Qed.

Lemma encrypt_value_unseen v : avoids is_guarded (encrypt_value (svc_cipher svc) v).
Proof. apply cipher_unseen, encrypt_value_avoids, Hsvc. Qed.

Lemma decrypt_unseen b : avoids is_guarded (decrypt (svc_cipher svc) b).
Proof. by apply cipher_unseen, decrypt_avoids. Qed.

Lemma parse_unseen response : avoids is_guarded (parse_token_response response).
Proof. apply cipher_unseen, parse_avoids. Qed.

#[local] Hint Resolve encrypt_unseen encrypt_value_unseen decrypt_unseen parse_unseen outcome_unseen : avoids.

(** An outcome decided at a point where the monitor is content. *)
Lemma wp_decided {A} (p : prog A) s :
  avoids is_guarded p -> within per_call s ->
  wp observe any_answer p (fun s' _ => within per_call s') s.
Proof. intros Hp Hs. by apply wp_unseen. Qed.

(** *** The revocation check *)

(** Same counts, same grant. *)
Definition recount (s s' : guard) : Prop :=
  gd_grant s' = gd_grant s /\ gd_provider s' = gd_provider s /\ gd_token s' = gd_token s /\
  gd_unguarded s' = gd_unguarded s.

Lemma wp_revoked_now th s Q :
  gd_grant s = Some gid ->
  (forall s', recount s s' -> forall r, (r = Ok false -> gd_armed s' = true) -> Q s' r) ->
  wp observe any_answer (is_revoked_now svc gid th) Q s.
Proof.
  intros Hg HQ. unfold is_revoked_now. apply wp_unseen_then.
  - unfold is_revoked. avoid.
  - intros e. by apply HQ.
  - intros [|]; [by apply HQ|]. wp_ans.
    + destruct a as [[t|]|]; apply HQ; try done. intros _. cbn. by apply bool_decide_eq_true.
    + by apply HQ.
Qed.

(** *** One round of attempts *)

Definition sent (n : nat) (s : guard) : guard :=
  Guard (gd_grant s) (gd_armed s) (n + gd_provider s) (gd_token s) (gd_unguarded s).

Lemma wp_one_request {A} (p : prog A) k s :
  one_request p -> gd_armed s = true ->
  wp observe any_answer p (fun s' _ => exists n, (n <= k + 1)%nat /\ s' = sent n s)
    (sent k s).
Proof.
  intros Hp Ha. destruct p as [r|c f].
  - exists k. split; [lia|done].
  - destruct Hp as [Hc Hf]. intros a _. destruct (Hf a) as [r ->]. exists (S k). split; [lia|].
    destruct c; try done. unfold observe. rewrite Hc. unfold sent. cbn. rewrite Ha. cbn. by rewrite orb_false_r.
Qed.

Lemma wp_call_provider name tool token arguments s Q :
  svc_tools svc !! name = Some tool -> gd_armed s = true ->
  (forall n r, (n <= per_call)%nat -> Q (sent n s) r) ->
  wp observe any_answer (call_provider svc tool token arguments) Q s.
Proof.
  intros Ht Ha HQ. assert (Hs0 : sent 0 s = s) by by destruct s. unfold call_provider. apply wp_unseen_then.
  - unfold circuit_for. avoid.
  - intros e. rewrite <- Hs0. apply HQ. lia.
  - intros _. eapply wp_mono.
    + apply (wp_call_count observe (fun k s' => exists n, (n <= k)%nat /\ s' = sent n s) _ _ _ _ _ 0%nat).
      * apply observe_circuit.
      * done.
      * intros k s' (n & Hn & ->). eapply wp_mono; [apply (wp_one_request _ n)|].
        -- by eapply (sc_tools svc Hsvc).
        -- done.
        -- intros s1 r (n' & Hn' & ->). exists n'. split; [lia|done].
      * exists 0%nat. split; [lia|done].
    + intros s' r (k & Hk & n & Hn & ->). apply HQ. lia.
Qed.

(** *** A refresh *)

Definition refreshed_by (n : nat) (s s' : guard) : Prop :=
  gd_grant s' = gd_grant s /\ gd_provider s' = gd_provider s /\
  gd_token s' = (gd_token s + n)%nat /\ gd_unguarded s' = gd_unguarded s.

Lemma wp_refresh account start s Q :
  (forall s' n r, refreshed_by n s s' -> (n <= 1)%nat ->
     (forall t, r = Ok (inl t) -> n = 1%nat) -> Q s' r) ->
  wp observe any_answer (refresh_or_outcome svc account start) Q s.
Proof.
  intros HQ. unfold refresh_or_outcome.
  set (ends := fun s' (r : res (string + InvokeOutcome)) =>
    exists n, refreshed_by n s s' /\ (n <= 1)%nat /\ forall t, r = Ok (inl t) -> n = 1%nat).
  cut (wp observe any_answer (refresh_or_outcome svc account start) ends s).
  { intros Hw. eapply wp_mono; [exact Hw|]. intros s' r (n & Ha & Hb & Hc). by eapply HQ. }
  apply wp_bind, wp_attempt.
  assert (Hzero : refreshed_by 0 s s) by (unfold refreshed_by; repeat split; lia).
  assert (Herr : forall s' n e, refreshed_by n s s' -> (n <= 1)%nat ->
    wp observe any_answer
      (if isinstance e OAuthFlowError
       then o <- failed ("credential refresh failed: " +:+ exn_msg e) start ;; ret (inr o)
       else if isinstance e HttpxHTTPError
       then o <- failed "credential refresh failed: could not reach the token endpoint" start ;; ret (inr o)
       else if caught_by [ClientError; ValueError] e
       then o <- failed "stored credential could not be decrypted" start ;; ret (inr o)
       else raise e) ends s').
  { intros s' n e Hs Hn. assert (Hd : forall (r : res (string + InvokeOutcome)), (forall t, r <> Ok (inl t)) -> ends s' r).
    { intros r Hr. exists n. split; [done|]. split; [done|]. intros t E. by destruct (Hr t). }
    unfold failed. repeat case_match; try (by apply Hd);
      (apply wp_unseen_then; [apply outcome_unseen|intros ?; by apply Hd|intros o; by apply Hd]). }
  unfold refresh_credential. apply wp_unseen_then; [done|by intros; eapply Herr; [done|lia]|]. intros _.
  apply wp_unseen_then; [avoid|by intros; eapply Herr; [done|lia]|]. intros rt.
  apply wp_bind. unfold refresh_access_token. apply wp_bind, wp_seen. intros answer.
  assert (H1s : refreshed_by 1 s (Guard (gd_grant s) false (gd_provider s) (S (gd_token s)) (gd_unguarded s)))
    by (unfold refreshed_by; repeat split; cbn; lia).
  destruct answer as [answer|e]; [|by eapply Herr].
  apply wp_unseen; [avoid|]. intros [tokens|e]; [|by eapply Herr].
  apply wp_unseen; [avoid|]. intros [t|e]; [by exists 1%nat|by eapply Herr].
Qed.

(** *** The loop and the call *)

(** A call in progress: [n] refreshes so far, the last check good. *)
Definition ready (refreshes rounds : nat) (s : guard) : Prop :=
  gd_grant s = Some gid /\ gd_armed s = true /\ gd_unguarded s = false /\
  gd_token s = refreshes /\ (gd_provider s <= rounds * per_call)%nat.

Lemma wp_loop name fuel th grant tool account token (refreshed : bool) arguments start n rounds s :
  svc_tools svc !! name = Some tool -> grant_id grant = gid -> ready n rounds s ->
  (if refreshed then n <= 1 /\ rounds <= n else n = 0 /\ rounds = 0)%nat ->
  wp observe any_answer
    (provider_loop svc out_of_fuel fuel grant th tool account token refreshed arguments start)
    (fun s' _ => within per_call s') s.
Proof.
  intros Ht Hid. revert token refreshed n rounds s. induction fuel as [|fuel IH];
    intros token refreshed n rounds s (Hg & Ha & Hu & Hn & Hp) Hr.
  { split; [done|]. destruct refreshed; nia. }
  cbn [provider_loop]. apply wp_bind, wp_attempt. eapply wp_call_provider; [done..|].
  intros k r Hk. assert (Hw : within per_call (sent k s)) by (split; [done|]; cbn; destruct refreshed; nia).
  destruct r as [result|e]; [by apply wp_decided; [apply outcome_unseen|]|].
  destruct (is_401 e && negb refreshed && can_refresh account) eqn:E401.
  - destruct refreshed; [by rewrite andb_false_r in E401|].
    apply wp_bind, wp_refresh. intros s1 m r (Hg1 & Hp1 & Ht1 & Hu1) Hm Hmt. cbn in Hg1, Hp1, Ht1, Hu1.
    assert (Hw1 : within per_call s1) by (split; [congruence|]; rewrite Hp1, Ht1; nia).
    destruct r as [[t|o]|e']; [|done|done].
    apply wp_bind. rewrite Hid. eapply wp_revoked_now; [congruence|]. intros s2 (Hg2 & Hp2 & Ht2 & Hu2) r Hr2.
    assert (Hw2 : within per_call s2) by (unfold within; rewrite Hp2, Ht2, Hu2; done).
    destruct r as [[|]|e']; [by apply wp_decided; [apply outcome_unseen|]| |done].
    apply (IH t true m 1%nat); [|rewrite (Hmt t eq_refl); lia].
    repeat split; [congruence|by apply Hr2|congruence|lia|lia].
  - destruct (provider_failure tool e); [by apply wp_decided; [apply outcome_unseen|]|done].
Qed.
Lemma usable_seen account start s Q :
  (forall s' n r, refreshed_by n s s' -> (n <= 1)%nat ->
     (forall t rf, r = Ok (inl (t, rf)) -> if rf : bool then n = 1%nat else n = 0%nat) -> Q s' r) ->
  wp observe any_answer (usable_token svc account start) Q s.
Proof.
  intros HQ. assert (Hzero : refreshed_by 0 s s) by (unfold refreshed_by; repeat split; lia).
  assert (Hst : wp observe any_answer
    (r <- stored_access_token svc account start ;;
     ret (match r with inl token => inl (token, false) | inr o => inr o end)) Q s).
  { apply wp_bind, wp_unseen.
    - unfold stored_access_token, failed. avoid.
    - intros [[t|o]|e]; apply (HQ _ 0%nat); try done; try lia. by intros t' rf [= _ <-]. }
  unfold usable_token. destruct (ensure_aware (acc_expires_at account)) as [expires|]; [|exact Hst].
  apply wp_unseen_then; [done|by intros; apply (HQ _ 0%nat); [|lia|]|]. intros now.
  apply wp_unseen_then; [avoid|by intros; apply (HQ _ 0%nat); [|lia|]|]. intros stale.
  destruct (negb stale); [exact Hst|]. destruct (can_refresh account).
  - apply wp_bind, wp_refresh. intros s' n r Hs Hn Hr. destruct r as [[t|o]|e]; apply (HQ _ n); try done.
    intros t' rf [= _ <-]. by eapply Hr.
  - apply wp_unseen_then; [done|by intros; apply (HQ _ 0%nat); [|lia|]|]. intros now'.
    apply wp_unseen_then; [avoid|by intros; apply (HQ _ 0%nat); [|lia|]|]. intros [|]; [|exact Hst].
    apply wp_unseen_then; [apply outcome_unseen|by intros; apply (HQ _ 0%nat); [|lia|]|]. intros o.
    by apply (HQ _ 0%nat); [|lia|].
Qed.

(** The grant is resolved and nothing was sent. *)
Definition fresh (s : guard) : Prop :=
  gd_grant s = Some gid /\ gd_provider s = 0%nat /\ gd_token s = 0%nat /\ gd_unguarded s = false.

Lemma fresh_within s : fresh s -> within per_call s.
Proof. intros (_ & Hp & Ht & Hu). unfold within. rewrite Hp, Ht. repeat split; [done|lia|lia]. Qed.

Lemma wp_execute name grant th tool arguments start s :
  svc_tools svc !! name = Some tool -> grant_id grant = gid -> fresh s ->
  wp observe any_answer (execute_call svc grant th tool arguments start)
    (fun s' _ => within per_call s') s.
Proof.
  intros Ht Hid Hs. pose proof (fresh_within s Hs) as Hw. destruct Hs as (Hg & Hp & Htk & Hu).
  unfold execute_call. apply wp_unseen_then; [done|done|]. intros [account|];
    [|by apply wp_decided; [apply outcome_unseen|]].
  apply wp_bind, usable_seen. intros s1 n r (Hg1 & Hp1 & Ht1 & Hu1) Hn Hr.
  assert (Hw1 : within per_call s1) by (split; [congruence|]; rewrite Hp1, Ht1; lia).
  destruct r as [[[t rf]|o]|e]; [|done|done].
  apply wp_bind. rewrite Hid. eapply wp_revoked_now; [congruence|]. intros s2 (Hg2 & Hp2 & Ht2 & Hu2) r Hr2.
  assert (Hw2 : within per_call s2) by (unfold within; rewrite Hp2, Ht2, Hu2; done).
  destruct r as [[|]|e]; [by apply wp_decided; [apply outcome_unseen|]| |done].
  apply (wp_loop name _ _ _ _ _ _ _ _ _ n 0%nat); [done|done| |].
  - repeat split; [congruence|by apply Hr2|congruence|lia|lia].
  - specialize (Hr t rf eq_refl). destruct rf; lia.
Qed.

Lemma wp_idempotent store key start call s :
  within per_call s -> wp observe any_answer call (fun s' _ => within per_call s') s ->
  wp observe any_answer (idempotent_call store key start call) (fun s' _ => within per_call s') s.
Proof.
  intros Hw Hc. unfold idempotent_call. apply wp_unseen_then; [unfold get; avoid|done|].
  intros [[cached|]|e]; [by apply wp_decided; [apply outcome_unseen|]| |].
  2: { destruct (isinstance e _); [by apply wp_decided; [apply outcome_unseen|]|done]. }
  apply wp_unseen_then; [unfold reserve; avoid|done|].
  intros [owner|]; [|by apply wp_decided; [apply outcome_unseen|]].
  unfold reserved_call. apply wp_bind, wp_attempt. eapply wp_mono; [exact Hc|]. intros s1 [o|e] Hw1;
    (apply wp_unseen_then; [unfold complete, release; avoid|done|done]).
Qed.

Lemma wp_resolved grant th name arguments key fast start s :
  grant_id grant = gid -> fresh s ->
  wp observe any_answer (invoke_resolved svc grant th name arguments key fast start)
    (fun s' _ => within per_call s') s.
Proof.
  intros Hid Hs. pose proof (fresh_within s Hs) as Hw. unfold invoke_resolved.
  assert (Hd : forall (p : prog InvokeOutcome), avoids is_guarded p ->
    wp observe any_answer p (fun s' _ => within per_call s') s) by (intros p Hp; by apply wp_decided).
  destruct (_ || _)%bool; [apply Hd, outcome_unseen|].
  apply wp_unseen_then; [done|done|]. intros now. apply wp_unseen_then; [done|done|].
  intros [|]; [apply Hd, outcome_unseen|].
  apply wp_unseen_then; [unfold check; destruct (svc_rate_limiter svc); avoid|done|]. intros allowed.
  destruct (negb allowed); [by apply wp_unseen_then; [done|done|intros _; apply Hd, outcome_unseen]|].
  unfold resolved_tool, get_tool. destruct (svc_tools svc !! name) as [tool|] eqn:Et; cbn [or_raise].
  2: { destruct (isinstance _ _); [apply Hd, outcome_unseen|done]. }
  destruct (negb _); [apply Hd, outcome_unseen|].
  pose proof (wp_execute name grant th tool arguments start s Et Hid Hs) as He.
  destruct key as [key|]; [|done]. destruct (svc_idempotency_store svc); [|done]. by apply wp_idempotent.
Qed.
End Guarded.

Section Whole.
Context `{PyJwt} `{PyRepr} `{AesGcm} (svc : InvokeService) (Hsvc : svc_contract svc).

Abbreviation per_call := (Z.to_nat (outbound_max_retries (svc_settings svc) + 1)).

Lemma wp_call_session claims th name arguments key start :
  wp observe any_answer
    (with_session (invoke_in_session svc claims th name arguments key start))
    (fun s' _ => within per_call s') guard_start.
Proof.
  unfold with_session. apply wp_unseen_then; [done|by repeat split; cbn; lia|]. intros _.
  apply wp_bind, wp_attempt.
  cut (wp observe any_answer (invoke_in_session svc claims th name arguments key start)
         (fun s' _ => within per_call s') guard_start).
  { intros Hw. eapply wp_mono; [exact Hw|]. intros s r Hs. by apply wp_unseen_then; [done|done|destruct r]. }
  assert (Hw0 : within per_call guard_start) by (repeat split; cbn; lia).
  unfold invoke_in_session. apply wp_unseen_then; [unfold is_revoked; avoid|done|]. intros fast.
  apply wp_bind, wp_seen. intros a. cbn [to_res fallible] in a |- *. destruct a as [[grant|]|e]; [| |done].
  2: { apply wp_unseen_then; [done|done|]. intros _. by apply wp_decided; [apply outcome_unseen|]. }
  cbn [observe]. set (s := Guard _ _ _ _ _). apply wp_bind. unfold audited_call. apply wp_bind, wp_attempt.
  eapply wp_mono; [apply (wp_resolved svc Hsvc (grant_id grant)); done|]. intros s1 r Hw1.
  assert (Hrec : forall o, wp observe any_answer
    (record_call (grant_id grant) name arguments (status_text (oc_status o)) (oc_latency_ms o) ;; ret o)
    (fun s' _ => within per_call s') s1).
  { intros o. apply wp_unseen_then; [unfold record_call; avoid|done|done]. }
  destruct r as [o|e]; [apply Hrec|]. apply wp_unseen_then; [unfold scrub; avoid|done|]. intros msg.
  do 2 (apply wp_unseen_then; [done|done|intros _]).
  apply wp_unseen; [apply outcome_unseen|]. intros [o|e']; [apply Hrec|done].
Qed.

Lemma wp_guarded token name arguments key :
  wp observe any_answer (invoke svc token name arguments key)
    (fun s' _ => within per_call s') guard_start.
Proof.
  assert (Hw0 : within per_call guard_start) by (repeat split; cbn; lia).
  unfold invoke. apply wp_unseen_then; [done|done|]. intros start.
  apply wp_unseen_then; [unfold verify_grant_token; avoid|done|]. intros [claims|e].
  - destruct (negb _); [|apply wp_call_session]. apply wp_decided; [|done].
    apply avoids_bind; [done|intros _; apply outcome_unseen].
  - apply wp_decided; [|done]. repeat case_match; [..|done];
      (apply avoids_bind; [done|intros _; apply outcome_unseen]).
Qed.
End Whole.

(** ** Properties *)



(** ** The evidence behind a request *)

Definition quiet (t : list event) : Prop := events_of is_http t = [].

Lemma quiet_app t u : quiet t -> quiet u -> quiet (t ++ u)%list.
Proof. unfold quiet. intros Ht Hu. by rewrite events_of_app, Ht, Hu. Qed.

Lemma quiet_snoc t e : quiet t -> is_http (ev_eff e) = false -> quiet (snoc t e).
Proof. intros Ht He. apply quiet_app; [done|]. unfold quiet, events_of. simpl. by rewrite He. Qed.

Lemma in_snoc t e e' : In e t -> In e (snoc t e').
Proof. intros Hin. apply in_app_iff. by left. Qed.

Lemma in_snoc_last t e : In e (snoc t e).
Proof. apply in_app_iff. right. by left. Qed.

Lemma in_app_l t u (e : event) : In e t -> In e (t ++ u)%list.
Proof. intros Hin. apply in_app_iff. by left. Qed.

Create HintDb trace.
#[local] Hint Resolve quiet_app quiet_snoc in_snoc in_snoc_last in_app_l : trace.

Section Evidence.
Context `{PyJwt} `{PyRepr} `{AesGcm} (svc : InvokeService) (Hsvc : svc_contract svc).
Context (token name : string) (key : option string).

(** The token verified and names the tool. *)
Definition presented (t : list event) : Prop :=
  exists verified_at claims, In (Ev EUtcNow verified_at) t /\
    verify_at token (svc_settings svc) verified_at = Ok claims /\ claims_tool_name claims = name.

(** The grant stored under the token's hash was active. *)
Definition active (t : list event) (g : Grant) : Prop :=
  In (Ev (EDbGrantByHash (hash_token token)) (Ok (Some g))) t /\
  grant_revoked_at g = None /\
  (exists now, In (Ev EUtcNow now) t /\ now < instant (grant_expires_at g)) /\
  (svc_grant_cache svc = true ->
     In (Ev (ERedisExists (REVOKED_PREFIX +:+ hash_token token)) (Ok 0)) t).

(** The call was within the agent's rate. *)
Definition unhurried (t : list event) (g : Grant) : Prop :=
  svc_rate_limiter svc = true ->
  exists time n, n <= invokes_per_minute_per_agent (svc_settings svc) /\
    In (Ev (ERedisIncr (counter_key ("invoke:" +:+ uuid_str (grant_agent_id g))
                          (window_of time DEFAULT_WINDOW_SECONDS))) (Ok n)) t.

(** The idempotency key, if any, was reserved. *)
Definition reserved (t : list event) (g : Grant) : Prop :=
  forall k, key = Some k -> is_Some (svc_idempotency_store svc) ->
  exists owner, In (Ev (ERedisSet (IdempotencyStore.name (full_key_of g name k)) (pending_value owner)
                          true RESERVATION_TTL_SECONDS) (Ok true)) t.

Definition authorized (t : list event) : Prop :=
  exists g tool account,
    presented t /\ active t g /\ unhurried t g /\ reserved t g /\
    svc_tools svc !! name = Some tool /\ grant_scope g = tool_scope tool /\
    In (Ev (EDbAccountById (grant_connected_account_id g)) (Ok (Some account))) t.

Lemma presented_app t u : presented t -> presented (t ++ u)%list.
Proof. intros (n & c & Hin & Hv & Hc). exists n, c. auto with trace. Qed.

Lemma active_app t u g : active t g -> active (t ++ u)%list g.
Proof.
  intros (Hin & Hr & (now & Hn & Hlt) & Hc). repeat split; auto with trace. exists now. auto with trace.
Qed.

Lemma unhurried_app t u g : unhurried t g -> unhurried (t ++ u)%list g.
Proof. intros Ht E. destruct (Ht E) as (time & n & Hn & Hin). exists time, n. auto with trace. Qed.

Lemma reserved_app t u g : reserved t g -> reserved (t ++ u)%list g.
Proof. intros Ht k Hk E. destruct (Ht k Hk E) as [o Hin]. exists o. auto with trace. Qed.

#[local] Hint Resolve presented_app active_app unhurried_app reserved_app : trace.

Lemma authorized_app t u : authorized t -> authorized (t ++ u)%list.
Proof.
  intros (g & tool & account & Hp & Ha & Hu & Hr & Ht & Hs & Hin). exists g, tool, account.
  do 6 (split; [by auto with trace|]). auto with trace.
Qed.

Definition warranted {A} (t : list event) (r : res A) : Prop := quiet t \/ authorized t.

Lemma warranted_quiet {A B} t u (r : res A) (r' : res B) : warranted t r -> quiet u -> warranted (t ++ u)%list r'.
Proof. intros [Ht|Ht] Hu; [left; auto with trace|right; by apply authorized_app]. Qed.

(** Programs that send nothing, before, after and instead. *)
Lemma wp_quiet {A} (p : prog A) t : avoids is_http p -> quiet t -> wp snoc any_answer p warranted t.
Proof. intros Hp Ht. apply (wp_avoids_snoc is_http); [done|]. intros u r Hu. left. auto with trace. Qed.

Lemma wp_quiet_then {A B} (p : prog A) (f : A -> prog B) t :
  avoids is_http p -> quiet t ->
  (forall u a, quiet u -> wp snoc any_answer (f a) warranted (t ++ u)%list) ->
  wp snoc any_answer (bind p f) warranted t.
Proof.
  intros Hp Ht Hf. apply wp_bind, (wp_avoids_snoc is_http); [done|]. intros u [a|e] Hu; [by apply Hf|].
  left. auto with trace.
Qed.

Lemma wp_then_quiet {A B} (p : prog A) (f : A -> prog B) t :
  (forall a, avoids is_http (f a)) -> wp snoc any_answer p warranted t ->
  wp snoc any_answer (bind p f) warranted t.
Proof.
  intros Hf Hp. apply wp_bind. eapply wp_mono; [exact Hp|]. intros t' [a|e] Ht; [|done].
  apply (wp_avoids_snoc is_http); [done|]. intros u r Hu. exact (warranted_quiet _ _ (Ok a) r Ht Hu).
Qed.

Lemma wp_attempt_quiet {A B} (p : prog A) (f : res A -> prog B) t :
  (forall a, avoids is_http (f a)) -> wp snoc any_answer p warranted t ->
  wp snoc any_answer (bind (attempt p) f) warranted t.
Proof. intros Hf Hp. apply wp_then_quiet; [done|]. by apply wp_attempt. Qed.

(** With all the evidence, anything may follow. *)
Lemma wp_authorized {A} (p : prog A) t : authorized t -> wp snoc any_answer p warranted t.
Proof. intros Ht. apply wp_prefix. intros u r. right. by apply authorized_app. Qed.

Lemma outcome_quiet status result error reason start cached :
  avoids is_http (outcome_of status result error reason start cached).
Proof. unfold outcome_of, elapsed_ms, scrub. avoid. Qed.

#[local] Hint Resolve outcome_quiet : avoids.

(** *** Along the code *)

Lemma wp_execute_warranted g th tool arguments start t :
  svc_tools svc !! name = Some tool -> grant_scope g = tool_scope tool ->
  presented t -> active t g -> unhurried t g -> reserved t g -> quiet t ->
  wp snoc any_answer (execute_call svc g th tool arguments start) warranted t.
Proof.
  intros Ht Hs Hp Ha Hu Hr Hq. unfold execute_call. intros a _. cbn [to_res fallible bind].
  destruct a as [[account|]|e]; cbn [bind].
  - apply wp_authorized. exists g, tool, account. unfold snoc.
    do 6 (split; [by auto with trace|]). by apply in_snoc_last.
  - apply wp_quiet; [apply outcome_quiet|auto with trace].
  - left. auto with trace.
Qed.
Lemma wp_resolved_tool g th arguments start t :
  presented t -> active t g -> unhurried t g -> quiet t ->
  wp snoc any_answer (resolved_tool svc g th name arguments key start) warranted t.
Proof.
  intros Hp Ha Hu Hq. unfold resolved_tool, get_tool.
  destruct (svc_tools svc !! name) as [tool|] eqn:Et; cbn [or_raise].
  2: { apply wp_quiet; [unfold denied; avoid|done]. }
  destruct (String.eqb_spec (grant_scope g) (tool_scope tool)) as [Hs|]; cbn [negb];
    [|by apply wp_quiet; [apply outcome_quiet|]].
  assert (Hcall : forall t', presented t' -> active t' g -> unhurried t' g -> reserved t' g -> quiet t' ->
    wp snoc any_answer (execute_call svc g th tool arguments start) warranted t')
    by (intros; by eapply wp_execute_warranted).
  destruct key as [k|] eqn:Ek; [|apply Hcall; try done; intros k Hk; congruence].
  destruct (svc_idempotency_store svc) as [store|] eqn:Est;
    [|apply Hcall; try done; intros k' _ [x Hx]; congruence].
  unfold idempotent_call. apply wp_quiet_then; [unfold get; avoid|done|].
  intros u [[cached|]|e] Hqu; [apply wp_quiet; [apply outcome_quiet|auto with trace]| |].
  2: { apply wp_quiet; [unfold conflict_outcome, denied; avoid|auto with trace]. }
  unfold reserve. wp_simpl. intros owner _ claimed _. destruct claimed as [[|]|e]; wp_simpl.
  2: { apply wp_quiet; [apply outcome_quiet|auto 6 with trace]. }
  2: { left. auto 6 with trace. }
  unfold reserved_call. apply wp_attempt_quiet; [intros [o|e]; unfold complete, release; avoid|].
  apply Hcall; auto 6 with trace.
  - unfold snoc. auto 6 with trace.
  - unfold snoc. auto 6 with trace.
  - unfold snoc. auto 6 with trace.
  - intros k' Hk _. assert (k' = k) as -> by congruence. exists owner. apply in_snoc_last.
Qed.

Lemma wp_resolved_warranted g th arguments (fast : bool) start t :
  presented t -> quiet t ->
  In (Ev (EDbGrantByHash (hash_token token)) (Ok (Some g))) t ->
  (svc_grant_cache svc = true -> fast = false ->
     In (Ev (ERedisExists (REVOKED_PREFIX +:+ hash_token token)) (Ok 0)) t) ->
  wp snoc any_answer (invoke_resolved svc g th name arguments key fast start) warranted t.
Proof.
  intros Hp Hq Hg Hf. unfold invoke_resolved.
  destruct fast; [apply wp_quiet; [apply outcome_quiet|done]|]. cbn [orb].
  destruct (grant_revoked_at g) eqn:Erev; [by apply wp_quiet; [apply outcome_quiet|]|]. cbn [is_Some].
  rewrite bool_decide_eq_false_2 by (by intros []).
  intros now _. cbn [to_res fallible bind]. rewrite dt_le_utc by apply aware_spec. cbn [lift bind].
  destruct (Z.leb_spec (instant (aware (grant_expires_at g))) now) as [|Hlive];
    [apply wp_quiet; [apply outcome_quiet|auto with trace]|].
  set (t1 := snoc t (Ev EUtcNow now)).
  assert (Ha : active t1 g).
  { repeat split; unfold t1; auto with trace. exists now.
    rewrite (proj2 (aware_spec _)) in Hlive. auto with trace. }
  assert (Hp1 : presented t1) by (unfold t1, snoc; auto with trace).
  assert (Hq1 : quiet t1) by (unfold t1; auto with trace). clearbody t1.
  destruct (svc_rate_limiter svc) eqn:Erl.
  - unfold check. wp_simpl. intros time _. wp_simpl. intros n _. destruct n as [n|e]; wp_simpl.
    2: { left. auto with trace. }
    set (t2 := snoc (snoc t1 _) _). assert (Hq2 : quiet t2) by (unfold t2; auto with trace).
    apply wp_bind, wp_bind, (wp_avoids_snoc is_http); [destruct (n =? 1); avoid|]. intros u r Hu.
    destruct r as [[]|e]; [|left; auto with trace]. cbn [wp ret].
    destruct (Z.leb_spec n (invokes_per_minute_per_agent (svc_settings svc))); cbn [negb].
    + apply wp_resolved_tool; [unfold t2, snoc; auto 6 with trace..| |auto with trace].
      intros _. exists time, n. split; [done|]. apply in_app_l, in_snoc_last.
    + apply wp_quiet; [split; [done|intros; apply outcome_quiet]|auto with trace].
  - cbn [bind ret negb]. apply wp_resolved_tool; try done. intros E. congruence.
Qed.
(** From the lookup of the grant's row on. *)
Lemma wp_row_warranted arguments (jti : string) (fast : bool) start s :
  quiet s -> presented s ->
  (svc_grant_cache svc = true -> fast = false ->
     In (Ev (ERedisExists (REVOKED_PREFIX +:+ hash_token token)) (Ok 0)) s) ->
  wp snoc any_answer
    (grant <- perform (EDbGrantByHash (hash_token token)) ;;
     match grant with
     | None =>
         perform (ELog WARNING "invoke denied: no grant row for presented token (jti=%s)"
                    [jti]) ;;
         denied "grant not found" "not_found" start
     | Some grant =>
         outcome <- audited_call svc grant (hash_token token) name arguments key fast start ;;
         record_call (grant_id grant) name arguments (status_text (oc_status outcome))
           (oc_latency_ms outcome) ;;
         ret outcome
     end) warranted s.
Proof.
  intros Hqs Hps Hfs row _. cbn [to_res fallible bind]. destruct row as [[g|]|e]; cbn [bind].
  - apply wp_then_quiet; [intros; unfold record_call; avoid|].
    unfold audited_call. apply wp_attempt_quiet; [intros [o|e]; unfold scrub, failed; avoid|].
    apply wp_resolved_warranted; [by apply presented_app|auto with trace|apply in_snoc_last|].
    auto with trace.
  - apply wp_quiet; [split; [done|intros; apply outcome_quiet]|auto with trace].
  - left. auto with trace.
Qed.

Lemma wp_warranted arguments :
  wp snoc any_answer (invoke svc token name arguments key) warranted [].
Proof.
  unfold invoke. wp_simpl. intros start _. apply wp_bind, wp_attempt. unfold verify_grant_token.
  intros now _. cbn [to_res fallible bind lift wp]. set (t := snoc _ (Ev EUtcNow now)).
  assert (Hq : quiet t) by by unfold t.
  assert (Hd : forall msg args error reason,
    wp snoc any_answer (perform (ELog WARNING msg args) ;; denied error reason start) warranted t)
    by (intros; apply wp_quiet; [split; [done|intros; apply outcome_quiet]|done]).
  destruct (verify_at token (svc_settings svc) now) as [claims|e] eqn:Everify.
  2: { repeat case_match; try apply Hd. left. done. }
  destruct (String.eqb_spec name (claims_tool_name claims)) as [Hname|]; cbn [negb]; [|apply Hd].
  assert (Hp : presented t) by (exists now, claims; split; [apply in_snoc_last|done]). clearbody t.
  unfold with_session. intros u _. cbn [to_res fallible bind]. destruct u.
  apply wp_attempt_quiet; [intros; avoid|]. set (t1 := snoc t _).
  assert (Hq1 : quiet t1) by (unfold t1; auto with trace).
  assert (Hp1 : presented t1) by (unfold t1, snoc; by apply presented_app). clearbody t1.
  unfold invoke_in_session.
  destruct (svc_grant_cache svc) eqn:Ec.
  - unfold is_revoked. intros n _. cbn [to_res fallible bind]. destruct n as [n|e]; cbn [bind ret].
    + apply wp_row_warranted; [auto with trace|by apply presented_app|].
      intros _ Hn. apply negb_false_iff, Z.eqb_eq in Hn as ->. apply in_snoc_last.
    + left. auto with trace.
  - apply wp_row_warranted; [done|done|]. intros E. congruence.
Qed.
End Evidence.

(** C11. No request without the whole chain of authorisation.  If a run of
    [invoke] sends anything, to the provider or to the token endpoint, then
    in that run the presented token verified at the time read and names the
    requested tool; the database returned a grant for the token's hash that
    was not revoked and not expired at a time read; the revocation cache,
    if configured, had no marker for it; the agent's counter, if there is a
    limiter, was within its limit; the tool is registered and its scope is
    the grant's; the idempotency key, if given to a service with a store,
    was reserved by this very call; and the account is the grant's. *)
Theorem requests_authorized `{PyJwt} `{PyRepr} `{AesGcm} {St} (h : handler St) (σ : St)
    (svc : InvokeService) (token name : string) (arguments : dict) (key : option string) :
  let t := trace_of h (invoke svc token name arguments key) σ in
  events_of is_http t = [] \/ authorized svc token name key t.
Proof.
  exact (wp_every_run h _ (warranted svc token name key) σ (wp_warranted svc token name key arguments)).
Qed.
