(* ===== verification/InvokeReplay.v ===== *)
(** * Invocation: idempotency keys, termination, the HTTP client

    What the idempotency step of [_invoke_resolved] does on a documented
    Redis, who can share a key, that the provider loop ends within the fuel
    it is given, and which HTTP client a service may close. *)

From Stdlib Require Import Ascii.
From stdpp Require Import base tactics list strings numbers gmap sets.
From S2P Require Import Prelude PyStr Errors Json JsonParse Hashing Uuid Config Models Breaker Effects.
From S2P Require Import Redaction Retry Redis Kms Tokens Tools Google Cache Idempotency Grants.
From S2P Require Import AuditLog Invoke InvokeAudit.
Import IdempotencyStore.
Open Scope string_scope.
#[local] Open Scope Z_scope.

(** ** The idempotency step *)

(** Building an outcome reads the registry for the message, then the clock. *)
Lemma run_outcome {St} (h : handler St) status result error reason start cached σ :
  exists message latency,
    result_of h (outcome_of status result error reason start cached) σ =
      Ok {| oc_status := status; oc_result := result; oc_error := message; oc_latency_ms := latency;
            oc_from_cache := cached; oc_denied_reason := reason |} /\
    (message = None <-> error = None) /\
    map ev_eff (trace_of h (outcome_of status result error reason start cached) σ) =
      match error with Some _ => [ERegistry; EMonotonic] | None => [EMonotonic] end.
Proof.
  unfold outcome_of, elapsed_ms, scrub, result_of, trace_of. destruct error as [e|]; cbn.
  - destruct (h σ ERegistry) as [secrets σ1]; cbn. destruct (h σ1 EMonotonic) as [now σ2]; cbn.
    do 2 eexists. split; [done|]. split; [split; discriminate|done].
  - destruct (h σ EMonotonic) as [now σ1]; cbn. do 2 eexists. split; [done|]. by split.
Qed.

Lemma outcome_result {St A} (h : handler St) (p : prog A) σ r σ' :
  outcome h p σ = (r, σ') -> result_of h p σ = r /\ state_of h p σ = σ'.
Proof. by intros [= <- <-]. Qed.

(** What a caller is told without running the call. *)
Definition replayed (r : dict) (latency : Z) : InvokeOutcome :=
  {| oc_status := Success; oc_result := Some (JObj r); oc_error := None; oc_latency_ms := latency;
     oc_from_cache := true; oc_denied_reason := None |}.

Definition is_conflict (o : InvokeOutcome) : Prop :=
  oc_status o = Denied /\ oc_denied_reason o = Some "idempotency_conflict".

(** The state of the key after the call ended so. *)
Definition settled (r : res InvokeOutcome) (result : dict) : key_state :=
  match r with
  | Ok o => match oc_status o with Success => Completed result | _ => Unseen end
  | Exn _ => Unseen
  end.

Section Replay.
Context `{PyRepr} {St} (h : handler St) (store : St -> gmap string redis_entry) (now : St -> Z).
Context (Hdoc : redis_documented h store now) (Hprompt : redis_prompt h now).
Context (s : IdempotencyStore.t) (key : string) (Hwindow : 0 < window_seconds s).

Abbreviation value := (value_at store now key).

(** An effect outside Redis leaves the key alone. *)
Lemma other_effect c σ :
  redis_exec (now σ) c (store σ) = None ->
  exists σ1, value σ1 = value σ /\ outcome h (perform c) σ = (to_res (fallible c) (h σ c).1, σ1).
Proof.
  intros Hc. destruct (outcome_other h store now Hdoc c σ Hprompt Hc) as (σ1 & Hn & Hs & E).
  exists σ1. split; [by apply value_at_same|done].
Qed.

Lemma get_unseen σ : value σ = None ->
  exists σ1, outcome h (get key) σ = (Ok None, σ1) /\ value σ1 = None.
Proof.
  intros Hv. destruct (get_refines h store now Hdoc Hprompt s key σ Unseen "" Hv) as (σ1 & E & Hst & _).
  apply (outcome_wrapped h Cached) in E as (x & E & [= ->]). by exists σ1.
Qed.

Lemma get_completed σ r : represents (value σ) (Completed r) ->
  exists σ1, outcome h (get key) σ = (Ok (Some (JObj r)), σ1) /\ represents (value σ1) (Completed r).
Proof.
  intros Hv. destruct (get_refines h store now Hdoc Hprompt s key σ _ "" Hv) as (σ1 & E & Hst & _).
  apply (outcome_wrapped h Cached) in E as (x & E & [= ->]). by exists σ1.
Qed.

Lemma get_pending σ o : represents (value σ) (Pending o) ->
  exists σ1, outcome h (get key) σ = (Exn conflict_error, σ1) /\ represents (value σ1) (Pending o).
Proof.
  intros Hv. destruct (get_refines h store now Hdoc Hprompt s key σ _ "" Hv) as (σ1 & E & Hst & _).
  exists σ1. split; [|done]. revert E. unfold idem_prog. rewrite outcome_bind.
  destruct (outcome h (get key) σ) as [[x|e] σ']; cbn; [by intros [= ]|]. by intros [= -> ->].
Qed.

Lemma reserve_unseen σ : value σ = None ->
  let token := (h σ (ETokenHex 16)).1 in
  exists σ1, outcome h (reserve key) σ = (Ok (Some token), σ1) /\ represents (value σ1) (Pending token).
Proof.
  intros Hv token. destruct (reserve_refines h store now Hdoc Hprompt s key σ Unseen Hv)
    as (σ1 & E & Hst & _). apply (outcome_wrapped h Reserved) in E as (x & E & [= ->]). by exists σ1.
Qed.

Lemma complete_owned σ o r : represents (value σ) (Pending o) -> json_plain (JObj r) ->
  exists σ1, outcome h (complete s key (JObj r) (Some o)) σ = (Ok tt, σ1) /\
    represents (value σ1) (Completed r).
Proof.
  intros Hv Hp. destruct (complete_refines h store now Hdoc Hprompt s key σ _ "" r (Some o) Hwindow Hv Hp)
    as (σ1 & E & Hst & _). cbn [contract] in E, Hst. rewrite String.eqb_refl in E, Hst.
  apply (outcome_wrapped h (fun _ : unit => Nothing)) in E as ([] & E & _). by exists σ1.
Qed.

Lemma release_owned σ o : represents (value σ) (Pending o) ->
  exists σ1, outcome h (release key (Some o)) σ = (Ok tt, σ1) /\ value σ1 = None.
Proof.
  intros Hv. destruct (release_refines h store now Hdoc Hprompt s key σ _ "" (Some o) Hv)
    as (σ1 & E & Hst & _). cbn [contract] in E, Hst. rewrite String.eqb_refl in E, Hst.
  apply (outcome_wrapped h (fun _ : unit => Nothing)) in E as ([] & E & _). by exists σ1.
Qed.

(** A call that leaves the key alone, and what it stores. *)
Context (call : prog InvokeOutcome) (result : dict).
Context (Hkeeps : forall σ, value (state_of h call σ) = value σ).
Context (Hresult : forall σ o, result_of h call σ = Ok o -> oc_status o = Success ->
                    result_or_empty o = JObj result /\ json_plain (JObj result)).

Lemma reserved_settles o σ :
  represents (value σ) (Pending o) ->
  outcome h (reserved_call s key o call) σ =
    (result_of h call σ, state_of h (reserved_call s key o call) σ) /\
  represents (value (state_of h (reserved_call s key o call) σ)) (settled (result_of h call σ) result).
Proof.
  intros Hv. assert (Hv' : represents (value (state_of h call σ)) (Pending o)) by by rewrite Hkeeps.
  assert (E : exists σ', outcome h (reserved_call s key o call) σ = (result_of h call σ, σ') /\
    represents (value σ') (settled (result_of h call σ) result)).
  { unfold reserved_call. rewrite outcome_bind, outcome_attempt. change (outcome h call σ) with (result_of h call σ, state_of h call σ). cbn [fst snd].
    destruct (result_of h call σ) as [out|e] eqn:Er; rewrite outcome_bind.
    - destruct (oc_status out) eqn:Es; cbn [settled]; rewrite ?Es.
      + destruct (Hresult σ out Er Es) as [-> Hp].
        destruct (complete_owned _ o result Hv' Hp) as (σ1 & -> & Hc). by exists σ1.
      + destruct (release_owned _ o Hv') as (σ1 & -> & Hc). by exists σ1.
      + destruct (release_owned _ o Hv') as (σ1 & -> & Hc). by exists σ1.
    - destruct (release_owned _ o Hv') as (σ1 & -> & Hc). by exists σ1. }
  destruct E as (σ' & E & Hst). pose proof (outcome_result _ _ _ _ _ E) as [_ ->]. by split.
Qed.

(** *** Every start of the key *)

Lemma trace_get σ : map ev_eff (trace_of h (get key) σ) = [ERedisGet (name key)].
Proof.
  unfold get. rewrite trace_bind, trace_perform, map_app.
  destruct (result_of h _ σ) as [[v|]|e]; [|done..]. by destruct (startswith PENDING_MARKER v).
Qed.

Lemma trace_reserve σ : map ev_eff (trace_of h (reserve key) σ) =
  [ETokenHex 16; ERedisSet (name key) (pending_value (h σ (ETokenHex 16)).1) true RESERVATION_TTL_SECONDS].
Proof.
  unfold reserve. rewrite trace_bind, trace_perform.
  destruct (run_perform h (ETokenHex 16) σ) as [-> ->]. cbn [to_res fallible].
  rewrite trace_bind, trace_perform, !map_app. by destruct (result_of h _ (h σ (ETokenHex 16)).2).
Qed.

Lemma replay_completed start r σ : represents (value σ) (Completed r) ->
  exists latency, result_of h (idempotent_call s key start call) σ = Ok (replayed r latency) /\
    map ev_eff (trace_of h (idempotent_call s key start call) σ) = [ERedisGet (name key); EMonotonic].
Proof.
  intros Hv. destruct (get_completed σ r Hv) as (σ1 & E & _). apply outcome_result in E as [Er Es].
  unfold idempotent_call. autorewrite with cred_rw. rewrite Er, Es, map_app, trace_get.
  unfold succeeded. destruct (run_outcome h Success (Some (JObj r)) None None start true σ1) as (m & lat & -> & Hm & ->).
  exists lat. rewrite (proj2 Hm eq_refl). done.
Qed.

Lemma replay_pending start o σ : represents (value σ) (Pending o) ->
  exists out, result_of h (idempotent_call s key start call) σ = Ok out /\ is_conflict out /\
    map ev_eff (trace_of h (idempotent_call s key start call) σ) =
      [ERedisGet (name key); ERegistry; EMonotonic].
Proof.
  intros Hv. destruct (get_pending σ o Hv) as (σ1 & E & _). apply outcome_result in E as [Er Es].
  unfold idempotent_call. autorewrite with cred_rw. rewrite Er, Es, map_app, trace_get.
  unfold conflict_outcome, denied. change (isinstance conflict_error IdempotencyConflictError) with true.
  cbn iota. destruct (run_outcome h Denied None (Some "concurrent call with same idempotency key")
    (Some "idempotency_conflict") start false σ1) as (m & lat & -> & Hm & ->).
  by eexists.
Qed.

Lemma run_unseen start σ : value σ = None ->
  exists σ1 before after,
    result_of h (idempotent_call s key start call) σ = result_of h call σ1 /\
    represents (value (state_of h (idempotent_call s key start call) σ))
      (settled (result_of h call σ1) result) /\
    trace_of h (idempotent_call s key start call) σ = (before ++ trace_of h call σ1 ++ after)%list /\
    exists owner, map ev_eff before =
      [ERedisGet (name key); ETokenHex 16;
       ERedisSet (name key) (pending_value owner) true RESERVATION_TTL_SECONDS].
Proof.
  intros Hv. destruct (get_unseen σ Hv) as (σ1 & E & Hv1). apply outcome_result in E as [Er Es].
  destruct (reserve_unseen σ1 Hv1) as (σ2 & E2 & Hv2). apply outcome_result in E2 as [Er2 Es2].
  destruct (reserved_settles _ σ2 Hv2) as [Hout Hst]. apply outcome_result in Hout as [Hr _].
  unfold idempotent_call. autorewrite with cred_rw. rewrite Er, Es. autorewrite with cred_rw.
  rewrite Er2, Es2, Hr. exists σ2, (trace_of h (get key) σ ++ trace_of h (reserve key) σ1)%list.
  eexists. split; [done|]. split; [exact Hst|]. split.
  - rewrite <- app_assoc. do 2 f_equal. unfold reserved_call. rewrite trace_bind, trace_attempt.
    reflexivity.
  - exists (h σ1 (ETokenHex 16)).1. by rewrite map_app, trace_get, trace_reserve.
Qed.
End Replay.

(** ** Whose results a key can serve *)

Lemma append_inj a a' b b' :
  String.length a = String.length a' -> a +:+ b = a' +:+ b' -> a = a' /\ b = b'.
Proof.
  revert a'. induction a as [|c a IH]; intros [|c' a'] Hl E; try done.
  rewrite !append_cons in E. injection E as -> E. injection Hl as Hl.
  destruct (IH a' Hl E) as [-> ->]. done.
Qed.

Lemma uuid_str_inj u v : uuid_str u = uuid_str v -> u = v.
Proof. intros E. apply (f_equal uuid_of_str) in E. rewrite !uuid_of_str_str in E. by injection E. Qed.

Lemma uuid_prefix_inj u v s t : uuid_str u +:+ s = uuid_str v +:+ t -> u = v /\ s = t.
Proof.
  intros E. apply append_inj in E as [E ->]; [|by rewrite !uuid_str_length]. split; [|done].
  by apply uuid_str_inj.
Qed.

Lemma colon_cons s t : ":" +:+ s = ":" +:+ t -> s = t.
Proof. by intros [= E]. Qed.

(** Up to the first colon. *)
Lemma colon_inj a a' b b' :
  has_char ":"%char a = false -> has_char ":"%char a' = false ->
  a +:+ ":" +:+ b = a' +:+ ":" +:+ b' -> a = a' /\ b = b'.
Proof.
  assert (Hc : forall c s t, has_char c s = false -> s <> String c t).
  { intros c s t Hs ->. simpl in Hs. by rewrite Ascii.eqb_refl in Hs. }
  revert a'. induction a as [|c a IH]; intros [|c' a'] Ha Ha' E; rewrite ?append_cons in E.
  - by injection E.
  - injection E as <- E. by destruct (Hc ":"%char (String ":" a') a').
  - injection E as -> E. by destruct (Hc ":"%char (String ":" a) a).
  - injection E as -> E. simpl in Ha, Ha'. apply orb_false_iff in Ha as [_ Ha].
    apply orb_false_iff in Ha' as [_ Ha']. destruct (IH a' Ha Ha' E) as [-> ->]. done.
Qed.

(** ** The provider loop ends *)

Section Loop.
Context `{PyJwt} `{PyRepr} `{AesGcm} (svc : InvokeService) {St} (h : handler St).

(** After a refresh the loop does not go round again. *)
Lemma loop_refreshed z z' fuel fuel' grant th tool account token arguments start σ :
  interp h (provider_loop svc z (S fuel) grant th tool account token true arguments start) σ =
  interp h (provider_loop svc z' (S fuel') grant th tool account token true arguments start) σ.
Proof.
  cbn [provider_loop]. rewrite !interp_bind, !result_attempt, !state_attempt.
  destruct (result_of h _ σ) as [r|e]; [done|]. by rewrite andb_false_r.
Qed.

Lemma loop_stable z z' fuel fuel' grant th tool account token (refreshed : bool) arguments start σ :
  interp h (provider_loop svc z (S (S fuel)) grant th tool account token refreshed arguments start) σ =
  interp h (provider_loop svc z' (S (S fuel')) grant th tool account token refreshed arguments start) σ.
Proof.
  destruct refreshed; [apply loop_refreshed|]. set (f := S fuel). set (f' := S fuel'). cbn [provider_loop].
  rewrite !interp_bind, !result_attempt, !state_attempt. destruct (result_of h _ σ) as [r|e]; [done|].
  destruct (is_401 e && negb false && can_refresh account); [|done].
  rewrite !interp_bind. destruct (result_of h _ _) as [[t|o]|e']; [|done..].
  rewrite !interp_bind. destruct (result_of h (is_revoked_now _ _ _) _) as [[|]|e']; [done| |done].
  unfold f, f'. by rewrite (loop_refreshed z z' fuel fuel').
Qed.
End Loop.

(** ** The HTTP client of a service *)

Inductive client_op := UseClient | CloseClient.
Inductive client_event := Used (c : nat) | Closed (c : nat).

(** A service over its life; clients it creates are numbered from [next]. *)
Fixpoint client_run (ops : list client_op) (next : nat) (s : ClientState) : list client_event * ClientState :=
  match ops with
  | [] => ([], s)
  | UseClient :: ops =>
      let '(c, s1) := client_http next s in
      let next := if bool_decide (c = next) then S next else next in
      let '(evs, s2) := client_run ops next s1 in (Used c :: evs, s2)
  | CloseClient :: ops =>
      let '(closed, s1) := client_aclose s in
      let '(evs, s2) := client_run ops next s1 in
      ((match closed with Some c => [Closed c] | None => [] end) ++ evs, s2)%list
  end.

(** The client held was created by the service iff it owns it. *)
Definition client_ok (first next : nat) (s : ClientState) : Prop :=
  match cs_client s with
  | None => cs_owns s = false
  | Some c => (c < next)%nat /\ (cs_owns s = true <-> (first <= c)%nat)
  end.

(** No client is used or closed after it was closed. *)
Fixpoint fresh_after_close (closed : list nat) (evs : list client_event) : Prop :=
  match evs with
  | [] => True
  | Used c :: evs => (c ∉ closed) /\ fresh_after_close closed evs
  | Closed c :: evs => (c ∉ closed) /\ fresh_after_close (c :: closed) evs
  end.

Lemma client_run_ok ops first : forall next s closed,
  (first <= next)%nat -> client_ok first next s ->
  Forall (fun c => (c < next)%nat) closed ->
  (forall c, cs_client s = Some c -> c ∉ closed) ->
  let evs := (client_run ops next s).1 in
  (forall c, Closed c ∈ evs -> (first <= c)%nat) /\ fresh_after_close closed evs.
Proof.
  induction ops as [|[|] ops IH]; intros next s closed Hle Hok Hcl Hheld; cbn [client_run].
  - split; [|done]. intros c Hc. by apply not_elem_of_nil in Hc.
  - unfold client_http. destruct (cs_client s) as [c|] eqn:Ec.
    + assert (Hc : (c < next)%nat) by (unfold client_ok in Hok; rewrite Ec in Hok; tauto).
      rewrite bool_decide_eq_false_2 by lia.
      specialize (IH next s closed Hle Hok Hcl). rewrite Ec in IH. specialize (IH Hheld).
      destruct (client_run ops next s) as [evs s2]. cbn in *. destruct IH as [IH1 IH2].
      split; [|split; [by apply Hheld|done]]. intros c' Hin. apply IH1.
      apply elem_of_cons in Hin as [Hin|Hin]; [discriminate|done].
    + rewrite bool_decide_eq_true_2 by done.
      specialize (IH (S next) {| cs_client := Some next; cs_owns := true |} closed).
      destruct (client_run ops (S next) _) as [evs s2]. cbn in *.
      assert (Hfresh : next ∉ closed) by (intros Hin; rewrite Forall_forall in Hcl; specialize (Hcl _ Hin); lia).
      destruct IH as [IH1 IH2]; [lia|split; [lia|split; [lia|done]]| | |].
      * eapply Forall_impl; [exact Hcl|]. simpl. lia.
      * by intros c [= <-].
      * split; [|by split]. intros c' Hin. apply IH1.
        apply elem_of_cons in Hin as [Hin|Hin]; [discriminate|done].
  - unfold client_aclose. destruct (cs_client s) as [c|] eqn:Ec.
    2: { specialize (IH next s closed Hle Hok Hcl). rewrite Ec in IH. specialize (IH Hheld).
         destruct (client_run ops next s). done. }
    assert (Hc : (c < next)%nat /\ (cs_owns s = true <-> (first <= c)%nat))
      by (unfold client_ok in Hok; by rewrite Ec in Hok).
    destruct (cs_owns s) eqn:Eo.
    + specialize (IH next {| cs_client := None; cs_owns := false |} (c :: closed) Hle eq_refl).
      destruct (client_run ops next _) as [evs s2]. cbn in *.
      destruct IH as [IH1 IH2]; [constructor; [lia|done]|done|].
      split; [|split; [by apply Hheld|done]]. intros c' Hin.
      apply elem_of_cons in Hin as [[= ->]|Hin]; [by apply Hc|by apply IH1].
    + specialize (IH next s closed Hle Hok Hcl). rewrite Ec in IH. specialize (IH Hheld).
      destruct (client_run ops next s). done.
Qed.

(** ** Properties *)


#[local] Existing Instance example_repr.

Definition example_stored : dict := [("files", JArr [JStr "a"])].
Definition example_done : InvokeOutcome := replayed example_stored 7.


(** C14. An idempotency key is bound to its agent, account and tool: two
    calls meet under one stored key exactly when their grants are of the
    same agent and the same connected account and their tools and keys
    agree, for tool names without a colon, as every registered one is.  A
    replay can never serve a result made for another account or agent. *)
Theorem idempotency_key_binds (g g' : Grant) (tool tool' key key' : string)
    (Htool : has_char ":"%char tool = false) (Htool' : has_char ":"%char tool' = false) :
  name (full_key_of g tool key) = name (full_key_of g' tool' key') <->
  grant_agent_id g = grant_agent_id g' /\
  grant_connected_account_id g = grant_connected_account_id g' /\ tool = tool' /\ key = key'.
Proof.
  split; [|intros (Ha & Hc & <- & <-); unfold full_key_of; by rewrite Ha, Hc].
  unfold name, full_key_of. intros E. apply append_inj in E as [_ E]; [|done].
  apply uuid_prefix_inj in E as [Ha E]. apply colon_cons in E.
  apply uuid_prefix_inj in E as [Hc E]. apply colon_cons in E.
  by apply colon_inj in E as [-> ->].
Qed.

Lemma idempotency_key_binds_witness :
  name (full_key_of example_grant "drive.read" "k1") <> name (full_key_of example_grant "drive.read" "k2").
Proof.
  intros E.
  apply (idempotency_key_binds example_grant example_grant "drive.read" "drive.read" "k1" "k2"
    eq_refl eq_refl) in E as (_ & _ & _ & E). discriminate.
Defined.

(** C15. The [while True] loop of the provider call ends: in every run of
    every world its second iteration is its last, so that with two or more
    iterations of fuel neither the fuel nor what the model does when it runs
    out has any influence on the run. *)
Theorem provider_loop_terminates `{PyJwt} `{PyRepr} `{AesGcm} {St} (h : handler St) (σ : St)
    (svc : InvokeService) (exhausted : prog InvokeOutcome) (fuel : nat) (grant : Grant) (th : string)
    (tool : ToolAdapter) (account : ConnectedAccount) (token : string) (refreshed : bool)
    (arguments : dict) (start : Z)
    (Hfuel : (2 <= fuel)%nat) :
  interp h (provider_loop svc exhausted fuel grant th tool account token refreshed arguments start) σ =
  interp h (provider_loop svc out_of_fuel 2 grant th tool account token refreshed arguments start) σ.
Proof. destruct fuel as [|[|fuel]]; [lia|lia|]. apply loop_stable. Qed.

Lemma provider_loop_terminates_witness :
  (interp example_world
    (@provider_loop example_repr toy_gcm example_service (ret example_done) 9 example_grant
      (hash_token example_token) (@DriveListFilesTool example_repr) example_account "ya29.token" false
      [] 0) tt).1.2 =
  Ok {| oc_status := Success; oc_result := Some (JObj [("files", JArr [])]); oc_error := None;
        oc_latency_ms := 5000; oc_from_cache := false; oc_denied_reason := None |}.
Proof.
  rewrite (@provider_loop_terminates toy_jwt example_repr toy_gcm unit example_world tt example_service
    (ret example_done) 9 example_grant (hash_token example_token) (@DriveListFilesTool example_repr)
    example_account "ya29.token" false [] 0); [vm_compute; reflexivity|lia].
Defined.

(** The HTTP client: over any sequence of uses and closings, a service
    closes only clients it created, never one that was injected, never one
    twice, and never uses a client it has closed. *)
Theorem client_ownership (ops : list client_op) (injected : option nat) (first : nat)
    (Hfirst : forall c, injected = Some c -> (c < first)%nat) :
  let evs := (client_run ops first (client_init injected)).1 in
  (forall c, Closed c ∈ evs -> (first <= c)%nat) /\ fresh_after_close [] evs.
Proof.
  apply client_run_ok; [lia| |constructor|].
  - destruct injected as [c|]; cbn; [|done]. specialize (Hfirst c eq_refl). split; [done|].
    split; [done|lia].
  - intros c _ Hc. by apply not_elem_of_nil in Hc.
Qed.

Lemma client_ownership_witness :
  let ops := [UseClient; CloseClient; CloseClient; UseClient; UseClient; CloseClient] in
  (client_run ops 5 (client_init None)).1 = [Used 5; Closed 5; Used 6; Used 6; Closed 6] /\
  fresh_after_close [] (client_run ops 5 (client_init None)).1 /\
  (forall c, Closed c ∈ (client_run ops 5 (client_init (Some 3%nat))).1 -> (5 <= c)%nat).
Proof.
  intros ops. split; [reflexivity|]. split.
  - apply (client_ownership ops None 5). discriminate.
  - apply (client_ownership ops (Some 3%nat) 5). intros c [= <-]. lia.
Defined.
