(* ===== verification/Grpc.v ===== *)
(** * The gRPC server ([src/credbroker/grpcserver/])

    The three RPCs of the servicer, [_rpc_error_guard] around them, and
    [build_grpc_server].  [context.abort] is the library's: it raises
    [AbortError], which ends the RPC with the code and the detail it
    carries. *)

From stdpp Require Import base tactics list strings numbers gmap.
From S2P Require Import Prelude PyStr Errors Json Uuid Config Models Breaker Effects Redaction.
From S2P Require Import Kms Tokens Tools Cache Idempotency Grants Invoke.
Open Scope string_scope.
#[local] Open Scope Z_scope.

(** ** Status codes *)

Inductive StatusCode :=
| INVALID_ARGUMENT | NOT_FOUND | PERMISSION_DENIED | RESOURCE_EXHAUSTED
| FAILED_PRECONDITION | UNIMPLEMENTED | INTERNAL | UNAVAILABLE.

#[export] Instance status_code_eq_dec : EqDecision StatusCode.
Proof. solve_decision. Defined.

(** Their numbers on the wire. *)
Definition code_number (c : StatusCode) : Z :=
  match c with
  | INVALID_ARGUMENT => 3 | NOT_FOUND => 5 | PERMISSION_DENIED => 7 | RESOURCE_EXHAUSTED => 8
  | FAILED_PRECONDITION => 9 | UNIMPLEMENTED => 12 | INTERNAL => 13 | UNAVAILABLE => 14
  end.

Definition abort_error (code : StatusCode) (detail : string) : exn :=
  Exc GrpcAbortError detail (Some (code_number code)).

(** [await context.abort(code, detail)]. *)
Definition abort {A} (code : StatusCode) (detail : string) : prog A := raise (abort_error code detail).

(** [_GRANT_ERROR_CODES]. *)
Definition GRANT_ERROR_CODES : list (exc_class * StatusCode) := [
  (UnknownAgentError, NOT_FOUND);
  (UnknownToolError, NOT_FOUND);
  (PolicyDeniedError, PERMISSION_DENIED);
  (GrantScopeMismatchError, PERMISSION_DENIED);
  (NoConnectedAccountError, FAILED_PRECONDITION);
  (ConcurrencyLimitError, RESOURCE_EXHAUSTED);
  (RateLimitedError, RESOURCE_EXHAUSTED)
].

(** [_GRANT_ERRORS]. *)
Definition GRANT_ERRORS : list exc_class := map fst GRANT_ERROR_CODES.

(** ** The guard *)

Definition INTERNAL_DETAIL : string := "internal error".

(** [_rpc_error_guard]. *)
Definition rpc_error_guard {A} (method_name : string) (p : prog A) : prog A :=
  r <- attempt p ;;
  match r with
  | Ok a => ret a
  | Exn e =>
      if isinstance e GrpcAbortError then raise e
      else
        message <- scrub (exn_msg e) ;;
        perform (ELog ERROR "%s: unhandled %s: %s" [method_name; class_name (exn_class e); message]) ;;
        abort INTERNAL INTERNAL_DETAIL
  end.

(** ** Messages *)

Record GrantRequest := { gr_agent_id : string; gr_tool_name : string; gr_requested_scope : string }.

(** A protobuf [Timestamp]. *)
Record Timestamp := { ts_seconds : Z; ts_nanos : Z }.
Record GrantResponse := { gp_grant_token : string; gp_expires_at : Timestamp; gp_grant_id : string }.

(** [ir_arguments] is what [json_format.MessageToDict] gives for the
    message's [Struct]. *)
Record InvokeRequest := {
  ir_grant_token : string;
  ir_tool_name : string;
  ir_arguments : dict;
  ir_idempotency_key : string
}.
Record InvokeResponse := { ip_result : json; ip_status : string }.

(** [Timestamp.FromDatetime] of an aware value. *)
Definition timestamp_of (d : datetime) : Timestamp :=
  {| ts_seconds := instant d / 1000000; ts_nanos := (instant d mod 1000000) * 1000 |}.

(** [json_format.ParseDict] into a [Struct], seen as the JSON it holds. *)
Class JsonFormat := { parse_struct : json -> res json }.

(** ** The servicer *)

Record CredBrokerServicer := {
  sv_settings : Settings;
  sv_tools : registry;
  sv_grant_cache : bool;
  sv_rate_limiter : bool;
  sv_invoke_service : InvokeService
}.

(** [_parse_uuid]. *)
Definition parse_uuid (raw field : string) : prog uuid :=
  match uuid_of_str raw with
  | Some u => ret u
  | None => abort INVALID_ARGUMENT (field +:+ " must be a valid UUID")
  end.

Section Servicer.
Context `{PyJwt} `{PyRepr} `{AesGcm} `{JsonFormat} (sv : CredBrokerServicer).

Definition denied_grant (agent_id : uuid) (e : exn) : prog IssuedGrant :=
  if caught_by GRANT_ERRORS e then
    let reason := class_name (exn_class e) in
    perform (EMetric (GRANT_DENIALS reason)) ;;
    perform (ELog INFO "grant denied for agent %s: %s: %s" [uuid_str agent_id; reason; exn_msg e]) ;;
    match lookup_class GRANT_ERROR_CODES (exn_class e) with
    | Some code => abort code (exn_msg e)
    | None => raise (raise_of KeyError reason)
    end
  else raise e.

Definition RequestGrant (request : GrantRequest) : prog GrantResponse :=
  rpc_error_guard "RequestGrant"
    (agent_id <- parse_uuid (gr_agent_id request) "agent_id" ;;
     r <- attempt (with_session
            (request_grant (sv_settings sv) (sv_tools sv) agent_id (gr_tool_name request)
               (gr_requested_scope request) (sv_grant_cache sv) (sv_rate_limiter sv))) ;;
     issued <- (match r with Ok issued => ret issued | Exn e => denied_grant agent_id e end) ;;
     perform (EMetric (GRANTS_ISSUED (grant_tool_name (issued_grant issued))
                         (grant_scope (issued_grant issued)))) ;;
     ret {| gp_grant_token := issued_token issued;
            gp_expires_at := timestamp_of (aware (grant_expires_at (issued_grant issued)));
            gp_grant_id := uuid_str (grant_id (issued_grant issued)) |}).

(** Only registered names become metric labels. *)
Definition tool_label (name : string) : string :=
  if bool_decide (is_Some (sv_tools sv !! name)) then name else "unknown".

Definition InvokeTool (request : InvokeRequest) : prog InvokeResponse :=
  rpc_error_guard "InvokeTool"
    (outcome <- invoke (sv_invoke_service sv) (ir_grant_token request) (ir_tool_name request)
                  (ir_arguments request)
                  (if String.eqb (ir_idempotency_key request) "" then None
                   else Some (ir_idempotency_key request)) ;;
     let label := tool_label (ir_tool_name request) in
     perform (EMetric (INVOCATIONS label (status_text (oc_status outcome)))) ;;
     match oc_status outcome with
     | Denied =>
         abort (if bool_decide (oc_denied_reason outcome = Some "rate_limited")
                then RESOURCE_EXHAUSTED else PERMISSION_DENIED)
           (str_or (oc_error outcome) "invocation denied")
     | Failed => abort UNAVAILABLE (str_or (oc_error outcome) "tool call failed")
     | Success =>
         perform (EMetric (INVOKE_LATENCY label (oc_latency_ms outcome))) ;;
         result <- lift (parse_struct (result_or_empty outcome)) ;;
         ret {| ip_result := result; ip_status := status_text (oc_status outcome) |}
     end).

(** The reply is [RevokeResponse(revoked=True)]. *)
Definition RevokeGrant (raw_grant_id : string) : prog bool :=
  rpc_error_guard "RevokeGrant"
    (grant_id <- parse_uuid raw_grant_id "grant_id" ;;
     r <- attempt (with_session (revoke_grant grant_id (sv_grant_cache sv))) ;;
     (match r with
      | Ok _ => ret tt
      | Exn e => if isinstance e GrantNotFoundError then abort NOT_FOUND (exn_msg e) else raise e
      end) ;;
     perform (EMetric GRANTS_REVOKED) ;;
     ret true).
End Servicer.

(** ** Assembly *)

(** The server: its servicer, the address it listens on, the Redis client
    behind its caches and the HTTP client of its invoke service. *)
Record GrpcServer := {
  gs_servicer : CredBrokerServicer;
  gs_address : string;
  gs_redis_client : nat;
  gs_invoke_client : ClientState
}.

(** [build_grpc_server]; the store's constructor may refuse the window. *)
Definition build_grpc_server (settings : Settings) (tools : registry) (cipher : KeyManager)
    (redis_client : nat) (http_client : option nat) : res GrpcServer :=
  res_map (fun store => {|
    gs_servicer :=
      {| sv_settings := settings; sv_tools := tools; sv_grant_cache := true; sv_rate_limiter := true;
         sv_invoke_service :=
           {| svc_settings := settings; svc_tools := tools; svc_cipher := cipher;
              svc_grant_cache := true; svc_rate_limiter := true;
              svc_idempotency_store := Some store |} |};
    gs_address := "[::]:" +:+ pretty.pretty (grpc_port settings);
    gs_redis_client := redis_client;
    gs_invoke_client := client_init http_client
  |}) (IdempotencyStore.new (idempotency_window_seconds settings)).

(** ** What goes on the wire *)

(** What the guard makes of a method's result. *)
Definition guarded {A} (r : res A) : res A :=
  match r with
  | Ok a => Ok a
  | Exn e => if isinstance e GrpcAbortError then Exn e else Exn (abort_error INTERNAL INTERNAL_DETAIL)
  end.

(** The replies the RPCs promise for what the services return or raise. *)
Definition grant_reply (r : res IssuedGrant) : res GrantResponse :=
  match r with
  | Ok issued =>
      Ok {| gp_grant_token := issued_token issued;
            gp_expires_at := timestamp_of (aware (grant_expires_at (issued_grant issued)));
            gp_grant_id := uuid_str (grant_id (issued_grant issued)) |}
  | Exn e =>
      match lookup_class GRANT_ERROR_CODES (exn_class e) with
      | Some code => Exn (abort_error code (exn_msg e))
      | None => guarded (Exn e)
      end
  end.

Definition revoke_reply (r : res Grant) : res bool :=
  match r with
  | Ok _ => Ok true
  | Exn e => if isinstance e GrantNotFoundError then Exn (abort_error NOT_FOUND (exn_msg e))
             else guarded (Exn e)
  end.

Definition invoke_reply `{JsonFormat} (r : res InvokeOutcome) : res InvokeResponse :=
  match r with
  | Exn e => guarded (Exn e)
  | Ok o =>
      match oc_status o with
      | Denied =>
          Exn (abort_error (if bool_decide (oc_denied_reason o = Some "rate_limited")
                            then RESOURCE_EXHAUSTED else PERMISSION_DENIED)
                 (str_or (oc_error o) "invocation denied"))
      | Failed => Exn (abort_error UNAVAILABLE (str_or (oc_error o) "tool call failed"))
      | Success =>
          guarded (res_map (fun result => {| ip_result := result; ip_status := "success" |})
                     (parse_struct (result_or_empty o)))
      end
  end.

(** A malformed identifier is refused before anything else. *)
Definition on_uuid {A} (raw field : string) (k : uuid -> res A) : res A :=
  match uuid_of_str raw with
  | Some u => k u
  | None => Exn (abort_error INVALID_ARGUMENT (field +:+ " must be a valid UUID"))
  end.

Section Wire.
Context `{PyJwt} `{PyRepr} `{AesGcm} `{JsonFormat} (sv : CredBrokerServicer).
Context {St} (h : handler St).

Lemma guard_result {A} name (p : prog A) σ :
  result_of h (rpc_error_guard name p) σ = guarded (result_of h p σ).
Proof.
  unfold rpc_error_guard. autorewrite with cred_rw. destruct (result_of h p σ) as [a|e]; [done|].
  cbn [guarded]. destruct (isinstance e _); [done|]. by apply result_always.
Qed.

Lemma metric_result {A} m (a : A) σ : result_of h (perform (EMetric m) ;; ret a) σ = Ok a.
Proof. by apply result_always. Qed.

Lemma grant_errors_caught e :
  caught_by GRANT_ERRORS e = bool_decide (is_Some (lookup_class GRANT_ERROR_CODES (exn_class e))).
Proof. destruct e as [c m s]. by destruct c. Qed.

Lemma denied_grant_result agent_id e σ :
  result_of h (denied_grant agent_id e) σ =
    match lookup_class GRANT_ERROR_CODES (exn_class e) with
    | Some code => Exn (abort_error code (exn_msg e))
    | None => Exn e
    end.
Proof.
  apply result_always. unfold denied_grant. rewrite grant_errors_caught.
  destruct (lookup_class _ _); [|done]. by rewrite bool_decide_eq_true_2 by by eexists.
Qed.

Lemma request_result request agent_id σ :
  uuid_of_str (gr_agent_id request) = Some agent_id ->
  result_of h (RequestGrant sv request) σ =
    grant_reply (result_of h (with_session
      (request_grant (sv_settings sv) (sv_tools sv) agent_id (gr_tool_name request)
         (gr_requested_scope request) (sv_grant_cache sv) (sv_rate_limiter sv))) σ).
Proof.
  intros Hid. unfold RequestGrant, parse_uuid. rewrite guard_result, Hid. cbn [bind ret].
  rewrite result_bind, result_attempt. destruct (result_of h (with_session _) σ) as [issued|e].
  - cbn [bind ret]. by rewrite metric_result.
  - rewrite result_bind, denied_grant_result. cbn [grant_reply]. by destruct (lookup_class _ _).
Qed.

Lemma revoke_result raw gid σ :
  uuid_of_str raw = Some gid ->
  result_of h (RevokeGrant sv raw) σ =
    revoke_reply (result_of h (with_session (revoke_grant gid (sv_grant_cache sv))) σ).
Proof.
  intros Hid. unfold RevokeGrant, parse_uuid. rewrite guard_result, Hid. cbn [bind ret].
  rewrite result_bind, result_attempt. destruct (result_of h (with_session _) σ) as [g|e].
  - cbn [bind ret]. by rewrite metric_result.
  - cbn [revoke_reply]. by destruct (isinstance e GrantNotFoundError).
Qed.

(** The arguments of [invoke] for a request. *)
Definition invocation (request : InvokeRequest) : prog InvokeOutcome :=
  invoke (sv_invoke_service sv) (ir_grant_token request) (ir_tool_name request) (ir_arguments request)
    (if String.eqb (ir_idempotency_key request) "" then None else Some (ir_idempotency_key request)).

Definition invocation_metric (request : InvokeRequest) (o : InvokeOutcome) : eff :=
  EMetric (INVOCATIONS (tool_label sv (ir_tool_name request)) (status_text (oc_status o))).

Lemma invoke_result request σ :
  result_of h (InvokeTool sv request) σ = invoke_reply (result_of h (invocation request) σ).
Proof.
  unfold InvokeTool. rewrite guard_result, result_bind. fold (invocation request).
  destruct (result_of h (invocation request) σ) as [o|e]; [|done]. cbn [invoke_reply].
  destruct (oc_status o) eqn:Es.
  - destruct (parse_struct (result_or_empty o)) as [r|e] eqn:Er.
    + by erewrite (result_always h _ (Ok _)) by done.
    + by erewrite (result_always h _ (Exn e)) by done.
  - by erewrite (result_always h _ (Exn _)) by done.
  - by erewrite (result_always h _ (Exn _)) by done.
Qed.
End Wire.

(** ** Properties *)

(** C19. Nothing of an unexpected error reaches an agent.  Whatever an RPC's
    body does, the guard returns its value, lets a deliberate abort pass,
    and answers any other exception with [INTERNAL] and the fixed detail;
    after the body it only reads the registry of secrets and logs the
    exception's class with its scrubbed text. *)
Theorem rpc_guard_seals {A St} (h : handler St) (σ : St) (name : string) (p : prog A) :
  result_of h (rpc_error_guard name p) σ = guarded (result_of h p σ) /\
  exists secrets, trace_of h (rpc_error_guard name p) σ =
    (trace_of h p σ ++
     match result_of h p σ with
     | Exn e =>
         if isinstance e GrpcAbortError then []
         else [Ev ERegistry secrets;
               Ev (ELog ERROR "%s: unhandled %s: %s"
                     [name; class_name (exn_class e); scrub_with secrets (exn_msg e)]) tt]
     | Ok _ => []
     end)%list.
Proof.
  split; [apply guard_result|]. unfold rpc_error_guard.
  rewrite trace_bind, trace_attempt, result_attempt, state_attempt.
  destruct (result_of h p σ) as [a|e]; [by exists []|].
  destruct (isinstance e GrpcAbortError); [by exists []|]. unfold scrub, trace_of at 2. cbn.
  destruct (h (state_of h p σ) ERegistry) as [secrets σ1]. cbn. exists secrets.
  by destruct (h σ1 _) as [[] σ2].
Qed.

