(* ===== verification/Proto.v ===== *)
(** * The generated gRPC code ([src/credbroker/proto/credbroker_pb2_grpc.py])

    The client stub, the base class of the servicer, the table of handlers
    it is registered under, and the one-call client.  What protobuf makes of
    a message and how grpc finds a handler are parameters, with what their
    documentation promises as laws. *)

From stdpp Require Import base tactics list strings numbers gmap.
From S2P Require Import Prelude PyStr Errors Json Uuid Config Models Breaker Effects Redaction.
From S2P Require Import Kms Tokens Tools Cache Idempotency Grants Invoke InvokeAudit Grpc.
Open Scope string_scope.
#[local] Open Scope Z_scope.

(** ** Loading *)

(** The check at the top of the module; [first_version_is_lower] is missing
    from old versions of grpc. *)
Definition GRPC_GENERATED_VERSION : string := "1.83.1".

Definition version_error (GRPC_VERSION : string) : exn :=
  raise_of RuntimeErr
    ("The grpc package installed is at version " +:+ GRPC_VERSION +:+ ","
     +:+ " but the generated code in credbroker/proto/credbroker_pb2_grpc.py depends on"
     +:+ " grpcio>=" +:+ GRPC_GENERATED_VERSION +:+ "."
     +:+ " Please upgrade your grpc module to grpcio>=" +:+ GRPC_GENERATED_VERSION
     +:+ " or downgrade your generated code using grpcio-tools<=" +:+ GRPC_VERSION +:+ ".").

Definition load_generated (GRPC_VERSION : string)
    (first_version_is_lower : option (string -> string -> bool)) : res unit :=
  let version_not_supported :=
    match first_version_is_lower with
    | Some lower => lower GRPC_VERSION GRPC_GENERATED_VERSION
    | None => true
    end in
  if version_not_supported then Exn (version_error GRPC_VERSION) else Ok tt.

(** ** Messages on the wire *)

Record RevokeRequest := { rv_grant_id : string }.
Record RevokeResponse := { rp_revoked : bool }.

Inductive message_type :=
| TGrantRequest | TGrantResponse | TInvokeRequest | TInvokeResponse | TRevokeRequest | TRevokeResponse.

Definition message (t : message_type) : Type :=
  match t with
  | TGrantRequest => GrantRequest
  | TGrantResponse => GrantResponse
  | TInvokeRequest => InvokeRequest
  | TInvokeResponse => InvokeResponse
  | TRevokeRequest => RevokeRequest
  | TRevokeResponse => RevokeResponse
  end.

(** protobuf; [sendable] are the messages its types can hold. *)
Class Protobuf := {
  sendable : forall t, message t -> Prop;
  SerializeToString : forall t, message t -> bytes;
  FromString : forall t, bytes -> res (message t)
}.

Class ProtobufLaws `{Protobuf} : Prop := {
  FromString_SerializeToString t m : sendable t m -> FromString t (SerializeToString t m) = Ok m
}.

(** ** Clients *)

(** What a connection carries: the path of the method and the bytes of the
    request, to the bytes of the reply. *)
Definition channel : Type := string -> bytes -> prog bytes.

(** [channel.unary_unary(path, request_serializer, response_deserializer)]. *)
Definition unary_unary `{Protobuf} (c : channel) (path : string) (req resp : message_type)
    (request : message req) : prog (message resp) :=
  reply <- c path (SerializeToString req request) ;; lift (FromString resp reply).

Record CredBrokerStub := {
  stub_RequestGrant : GrantRequest -> prog GrantResponse;
  stub_InvokeTool : InvokeRequest -> prog InvokeResponse;
  stub_RevokeGrant : RevokeRequest -> prog RevokeResponse
}.

(** [CredBrokerStub.__init__]. *)
Definition make_stub `{Protobuf} (c : channel) : CredBrokerStub := {|
  stub_RequestGrant :=
    unary_unary c "/credbroker.v1.CredBroker/RequestGrant" TGrantRequest TGrantResponse;
  stub_InvokeTool :=
    unary_unary c "/credbroker.v1.CredBroker/InvokeTool" TInvokeRequest TInvokeResponse;
  stub_RevokeGrant :=
    unary_unary c "/credbroker.v1.CredBroker/RevokeGrant" TRevokeRequest TRevokeResponse
|}.

(** The options of the one-call client, in the order of its parameters. *)
Record call_options := {
  co_options : list (string * string);
  co_channel_credentials : option string;
  co_call_credentials : option string;
  co_insecure : bool;
  co_compression : option Z;
  co_wait_for_ready : option bool;
  co_timeout : option Z;
  co_metadata : option (list (string * string))
}.

(** [grpc.experimental.unary_unary], its parameters in the library's order:
    it opens a channel to the target and makes one call. *)
Class GrpcExperimental `{Protobuf} := {
  open_channel : string -> list (string * string) -> option string -> bool -> channel;
  experimental_unary_unary (req resp : message_type) (request : message req) (target method : string)
    (options : list (string * string)) (channel_credentials : option string) (insecure : bool)
    (call_credentials : option string) (compression : option Z) (wait_for_ready : option bool)
    (timeout : option Z) (metadata : option (list (string * string))) : prog (message resp)
}.

(** Without call options it is the stub's call over that channel. *)
Class GrpcExperimentalLaws `{GrpcExperimental} : Prop := {
  experimental_plain req resp request target method options channel_credentials insecure :
    experimental_unary_unary req resp request target method options channel_credentials insecure
      None None None None None =
    unary_unary (open_channel target options channel_credentials insecure) method req resp request
}.

Section OneCall.
Context `{GrpcExperimental}.

(** What the three static methods of [CredBroker] share. *)
Definition one_call (req resp : message_type) (path : string) (request : message req)
    (target : string) (o : call_options) : prog (message resp) :=
  experimental_unary_unary req resp request target path (co_options o) (co_channel_credentials o)
    (co_insecure o) (co_call_credentials o) (co_compression o) (co_wait_for_ready o) (co_timeout o)
    (co_metadata o).

Definition CredBroker_RequestGrant : GrantRequest -> string -> call_options -> prog GrantResponse :=
  one_call TGrantRequest TGrantResponse "/credbroker.v1.CredBroker/RequestGrant".
Definition CredBroker_InvokeTool : InvokeRequest -> string -> call_options -> prog InvokeResponse :=
  one_call TInvokeRequest TInvokeResponse "/credbroker.v1.CredBroker/InvokeTool".
Definition CredBroker_RevokeGrant : RevokeRequest -> string -> call_options -> prog RevokeResponse :=
  one_call TRevokeRequest TRevokeResponse "/credbroker.v1.CredBroker/RevokeGrant".
End OneCall.

(** ** The servicer *)

(** The methods a class defines. *)
Record class_methods := {
  cm_RequestGrant : option (GrantRequest -> prog GrantResponse);
  cm_InvokeTool : option (InvokeRequest -> prog InvokeResponse);
  cm_RevokeGrant : option (RevokeRequest -> prog RevokeResponse)
}.

(** Attribute lookup: a class before its base. *)
Definition inherit (derived base : class_methods) : class_methods :=
  let over {A} (m m' : option A) := match m with Some f => Some f | None => m' end in
  {| cm_RequestGrant := over (cm_RequestGrant derived) (cm_RequestGrant base);
     cm_InvokeTool := over (cm_InvokeTool derived) (cm_InvokeTool base);
     cm_RevokeGrant := over (cm_RevokeGrant derived) (cm_RevokeGrant base) |}.

(** The code set on the context travels with the exception. *)
Definition unimplemented {A} : prog A :=
  raise (Exc NotImplementedErr "Method not implemented!" (Some (code_number UNIMPLEMENTED))).

(** The generated [CredBrokerServicer]. *)
Definition base_methods : class_methods := {|
  cm_RequestGrant := Some (fun _ => unimplemented);
  cm_InvokeTool := Some (fun _ => unimplemented);
  cm_RevokeGrant := Some (fun _ => unimplemented)
|}.

(** ** The server *)

(** [grpc.unary_unary_rpc_method_handler]. *)
Record rpc_handler := RpcHandler {
  hd_request : message_type;
  hd_response : message_type;
  hd_behavior : message hd_request -> prog (message hd_response)
}.

(** A service's handlers by method name. *)
Abbreviation service_handlers := (string * list (string * rpc_handler))%type.

(** The services added to a server, as generic and as registered ones. *)
Record rpc_server := RpcServer {
  rs_generic : list service_handlers;
  rs_registered : list service_handlers
}.

Definition SERVICE_NAME : string := "credbroker.v1.CredBroker".

(** [servicer.RequestGrant]: a method no class defines is an
    [AttributeError]. *)
Definition attribute {A} (name : string) (m : option A) : res A :=
  or_raise m (raise_of AttributeError ("object has no attribute " +:+ name)).

(** [add_CredBrokerServicer_to_server]. *)
Definition add_CredBrokerServicer_to_server (servicer : class_methods) (server : rpc_server)
  : res rpc_server :=
  res_bind (attribute "RequestGrant" (cm_RequestGrant servicer)) (fun request_grant =>
  res_bind (attribute "InvokeTool" (cm_InvokeTool servicer)) (fun invoke_tool =>
  res_bind (attribute "RevokeGrant" (cm_RevokeGrant servicer)) (fun revoke_grant =>
  let rpc_method_handlers := [
    ("RequestGrant", RpcHandler TGrantRequest TGrantResponse request_grant);
    ("InvokeTool", RpcHandler TInvokeRequest TInvokeResponse invoke_tool);
    ("RevokeGrant", RpcHandler TRevokeRequest TRevokeResponse revoke_grant)
  ] in
  Ok (RpcServer (rs_generic server ++ [(SERVICE_NAME, rpc_method_handlers)])
        (rs_registered server ++ [(SERVICE_NAME, rpc_method_handlers)]))))).

(** How a server finds the handler for the path of a call. *)
Class GrpcRuntime := { find_handler : rpc_server -> string -> option rpc_handler }.

Fixpoint handler_named (name : string) (hs : list (string * rpc_handler)) : option rpc_handler :=
  match hs with
  | [] => None
  | (n, hd) :: hs' => if String.eqb n name then Some hd else handler_named name hs'
  end.

(** The path of a method is [/service/method]. *)
Class GrpcRuntimeLaws `{GrpcRuntime} : Prop := {
  find_only_service service hs name hd :
    handler_named name hs = Some hd ->
    find_handler (RpcServer [(service, hs)] [(service, hs)]) ("/" +:+ service +:+ "/" +:+ name) = Some hd
}.

(** A server's end of a channel. *)
Definition answer_call `{Protobuf} `{GrpcRuntime} (server : rpc_server) : channel := fun path body =>
  match find_handler server path with
  | None => abort UNIMPLEMENTED "Method not found!"
  | Some hd =>
      request <- lift (FromString (hd_request hd) body) ;;
      response <- hd_behavior hd request ;;
      ret (SerializeToString (hd_response hd) response)
  end.

(** *** The broker's own *)

Section Broker.
Context `{PyJwt} `{PyRepr} `{AesGcm} `{JsonFormat} (sv : CredBrokerServicer).

(** [CredBrokerServicer] of [grpcserver/servicer.py]. *)
Definition broker_methods : class_methods := {|
  cm_RequestGrant := Some (RequestGrant sv);
  cm_InvokeTool := Some (InvokeTool sv);
  cm_RevokeGrant := Some (fun request =>
    revoked <- RevokeGrant sv (rv_grant_id request) ;; ret {| rp_revoked := revoked |})
|}.

(** The server of [build_grpc_server]. *)
Definition broker_server : res rpc_server :=
  add_CredBrokerServicer_to_server (inherit broker_methods base_methods) (RpcServer [] []).
End Broker.

(** ** A call through the wire *)

Section Call.
Context `{ProtobufLaws} `{GrpcRuntime} {St} (h : handler St) (σ : St).

(** One program that returns what another returned. *)
Lemma interp_relay {A B} (p : prog A) (f : A -> B) (g : B -> res A) :
  (forall a, result_of h p σ = Ok a -> g (f a) = Ok a) ->
  interp h (b <- (a <- p ;; ret (f a)) ;; lift (g b)) σ = interp h p σ.
Proof.
  intros Hg. rewrite interp_bind. unfold result_of, trace_of, state_of in *.
  rewrite !interp_bind. unfold result_of, trace_of, state_of.
  destruct (interp h p σ) as [[t [a|e]] σ'] eqn:E; cbn in *; [|done].
  rewrite app_nil_r. cbn. by rewrite Hg, app_nil_r.
Qed.

Lemma call_through server path req resp (f : message req -> prog (message resp)) request :
  find_handler server path = Some (RpcHandler req resp f) -> sendable req request ->
  (forall reply, result_of h (f request) σ = Ok reply -> sendable resp reply) ->
  interp h (unary_unary (answer_call server) path req resp request) σ = interp h (f request) σ.
Proof.
  intros Hfind Hreq Hresp. unfold unary_unary, answer_call. rewrite Hfind. cbn [hd_request hd_response hd_behavior].
  rewrite FromString_SerializeToString by done. cbn [lift bind]. apply interp_relay.
  intros reply Hreply. by apply FromString_SerializeToString, Hresp.
Qed.
End Call.

(** What a client gets for a request is what the servicer's method does with
    it, whatever the services answer, as long as protobuf can hold the two
    messages. *)
Definition reaches `{Protobuf} (req resp : message_type)
    (client method : message req -> prog (message resp)) : Prop :=
  forall request, sendable req request -> forall St (h : handler St) (σ : St),
    (forall reply, result_of h (method request) σ = Ok reply -> sendable resp reply) ->
    interp h (client request) σ = interp h (method request) σ.

(** A server with this one service. *)
Definition only_service (hs : list (string * rpc_handler)) : rpc_server :=
  RpcServer [(SERVICE_NAME, hs)] [(SERVICE_NAME, hs)].

Lemma method_found `{GrpcRuntimeLaws} hs name hd :
  handler_named name hs = Some hd ->
  find_handler (only_service hs) ("/credbroker.v1.CredBroker/" +:+ name) = Some hd.
Proof. apply (find_only_service SERVICE_NAME). Qed.

Lemma stub_reaches `{ProtobufLaws} `{GrpcRuntimeLaws} hs name req resp f :
  handler_named name hs = Some (RpcHandler req resp f) ->
  reaches req resp
    (unary_unary (answer_call (only_service hs)) ("/credbroker.v1.CredBroker/" +:+ name) req resp) f.
Proof.
  intros Hn request Hreq St h σ Hrep. apply (call_through h σ); [by apply method_found|done..].
Qed.

(** No option that concerns one call only. *)
Definition plain (o : call_options) : Prop :=
  o = {| co_options := co_options o; co_channel_credentials := co_channel_credentials o;
         co_call_credentials := None; co_insecure := co_insecure o; co_compression := None;
         co_wait_for_ready := None; co_timeout := None; co_metadata := None |}.

Lemma one_call_plain `{GrpcExperimentalLaws} req resp path request target o :
  plain o ->
  one_call req resp path request target o =
  unary_unary (open_channel target (co_options o) (co_channel_credentials o) (co_insecure o)) path
    req resp request.
Proof. intros ->. apply experimental_plain. Qed.

(** ** Properties *)


(** A codec for messages of texts: a byte 1 before each character, a byte 0
    after each text. *)
Definition put_text (s : string) : bytes :=
  (flat_map (fun b => [Byte.x01; b]) (String.list_byte_of_string s) ++ [Byte.x00])%list.

Fixpoint take_text (b : bytes) : list Byte.byte * bytes :=
  match b with
  | Byte.x01 :: c :: rest => let '(text, rest') := take_text rest in (c :: text, rest')
  | _ :: rest => ([], rest)
  | [] => ([], [])
  end.

Definition get_text (b : bytes) : string * bytes :=
  let '(text, rest) := take_text b in (String.string_of_list_byte text, rest).

Lemma get_put_text s rest : get_text (put_text s ++ rest)%list = (s, rest).
Proof.
  unfold get_text, put_text. rewrite <- (String.string_of_list_byte_of_string s) at 2.
  assert (E : take_text ((flat_map (fun b => [Byte.x01; b]) (String.list_byte_of_string s) ++ [Byte.x00])
                         ++ rest)%list = (String.list_byte_of_string s, rest)).
  { induction (String.list_byte_of_string s) as [|c l IH]; [done|]. cbn in *. by rewrite IH. }
  by rewrite E.
Qed.

Definition get_texts3 {A} (make : string -> string -> string -> A) (b : bytes) : res A :=
  let '(s1, b1) := get_text b in
  let '(s2, b2) := get_text b1 in
  let '(s3, _) := get_text b2 in Ok (make s1 s2 s3).

Lemma get_put_texts3 {A} (make : string -> string -> string -> A) s1 s2 s3 :
  get_texts3 make (put_text s1 ++ put_text s2 ++ put_text s3)%list = Ok (make s1 s2 s3).
Proof.
  unfold get_texts3. rewrite !get_put_text. rewrite <- (app_nil_r (put_text s3)). by rewrite get_put_text.
Qed.

#[local] Instance text_codec : Protobuf := {|
  sendable t := match t return message t -> Prop with
    | TInvokeRequest => fun m => ir_arguments m = []
    | TGrantResponse | TInvokeResponse => fun _ => False
    | _ => fun _ => True
    end;
  SerializeToString t := match t return message t -> bytes with
    | TGrantRequest => fun m =>
        (put_text (gr_agent_id m) ++ put_text (gr_tool_name m) ++ put_text (gr_requested_scope m))%list
    | TInvokeRequest => fun m =>
        (put_text (ir_grant_token m) ++ put_text (ir_tool_name m) ++ put_text (ir_idempotency_key m))%list
    | TRevokeRequest => fun m => String.list_byte_of_string (rv_grant_id m)
    | TRevokeResponse => fun m => [if rp_revoked m then Byte.x01 else Byte.x00]
    | TGrantResponse | TInvokeResponse => fun _ => []
    end;
  FromString t := match t return bytes -> res (message t) with
    | TGrantRequest => get_texts3 Build_GrantRequest
    | TInvokeRequest => get_texts3 (fun token name key => Build_InvokeRequest token name [] key)
    | TRevokeRequest => fun b => Ok {| rv_grant_id := String.string_of_list_byte b |}
    | TRevokeResponse => fun b => Ok {| rp_revoked := bool_decide (b = [Byte.x01]) |}
    | TGrantResponse | TInvokeResponse => fun _ => Exn (raise_of ValueError "not a text")
    end
|}.

#[local] Instance text_codec_laws : ProtobufLaws.
Proof.
  split. intros [] m Hm; try done; cbn [FromString SerializeToString text_codec].
  - destruct m. apply get_put_texts3.
  - destruct m as [token name arguments key]. cbn in Hm. subst.
    apply (get_put_texts3 (fun token name key => Build_InvokeRequest token name [] key)).
  - destruct m. by rewrite String.string_of_list_byte_of_string.
  - by destruct m as [[]].
Qed.

(** Paths are compared with the names of the first service. *)
#[local] Instance first_service : GrpcRuntime := {|
  find_handler server path :=
    match rs_registered server with
    | (service, hs) :: _ =>
        List.find (fun nh => String.eqb path ("/" +:+ service +:+ "/" +:+ nh.1)) hs
          ≫= (fun nh => Some nh.2)
    | [] => None
    end
|}.

Lemma append_inj_l s t u : s +:+ t = s +:+ u -> t = u.
Proof. induction s as [|c s IH]; [done|]. cbn. intros [= E]. by apply IH. Qed.

#[local] Instance first_service_laws : GrpcRuntimeLaws.
Proof.
  split. intros service hs name hd Hn. cbn [find_handler first_service rs_registered].
  induction hs as [|[n hd'] hs IH]; [done|]. cbn [handler_named List.find fst] in *.
  destruct (String.eqb_spec n name) as [->|Hne].
  - injection Hn as ->. by rewrite String.eqb_refl.
  - destruct (String.eqb_spec ("/" +:+ service +:+ "/" +:+ name) ("/" +:+ service +:+ "/" +:+ n)) as [E|];
      [|by apply IH].
    by apply append_inj_l, append_inj_l, append_inj_l in E.
Qed.

(** A one-call client whose channels reach nothing. *)
#[local] Instance no_network : GrpcExperimental := {|
  open_channel _ _ _ _ := fun _ _ => raise unreachable_service;
  experimental_unary_unary req resp request target method options credentials insecure _ _ _ _ _ :=
    unary_unary (fun _ _ => raise unreachable_service) method req resp request
|}.

#[local] Instance no_network_laws : GrpcExperimentalLaws.
Proof. by split. Qed.

Definition example_sv : CredBrokerServicer := {|
  sv_settings := default_settings; sv_tools := ∅; sv_grant_cache := false; sv_rate_limiter := false;
  sv_invoke_service := example_service
|}.

(** Services that know one grant. *)
Definition example_services : handler unit := fun σ c =>
  match c return reply c * unit with
  | EDbGrantById _ => (Ok (Some example_grant), tt)
  | EDbCommit | EDbClose => (Ok tt, tt)
  | c => (dead_reply c, tt)
  end.

#[local] Instance example_format : JsonFormat := {| parse_struct := Ok |}.

Definition example_revocation : RevokeRequest := {| rv_grant_id := uuid_str (example_uuid 7) |}.

