(* ===== verification/Descriptor.v ===== *)
(** * The messages on the wire
    ([src/credbroker/proto/credbroker.proto], [src/credbroker/proto/credbroker_pb2.py])

    The interface file as data, the serialized descriptor the generated module
    hands to protobuf, and the positions it assigns.  protobuf itself is a
    parameter; [serialize] is the published encoding of [descriptor.proto],
    which says what the descriptor has to be. *)

From Stdlib Require Import Ascii.
From stdpp Require Import base tactics list strings numbers.
From S2P Require Import Prelude PyStr Errors Json Hashing Uuid Config Models Effects Tools Grants Invoke Grpc Proto.
Open Scope string_scope.
#[local] Open Scope Z_scope.

(** ** The interface file *)

Inductive field_type :=
| FString
| FBool
| FMessage (type_name : string).

Record field_desc := Field { fl_name : string; fl_type : field_type; fl_number : Z }.
Record message_desc := Message { ms_name : string; ms_fields : list field_desc }.
Record method_desc := Method { me_name : string; me_input : string; me_output : string }.
Record service_desc := Service { se_name : string; se_methods : list method_desc }.

Record file_desc := File {
  fd_name : string;
  fd_package : string;
  fd_imports : list string;
  fd_messages : list message_desc;
  fd_services : list service_desc;
  fd_syntax : string
}.

(** [credbroker.proto], its type names resolved. *)
Definition grant_request_desc : message_desc := Message "GrantRequest"
  [Field "agent_id" FString 1; Field "tool_name" FString 2; Field "requested_scope" FString 3].

Definition grant_response_desc : message_desc := Message "GrantResponse"
  [Field "grant_token" FString 1; Field "expires_at" (FMessage ".google.protobuf.Timestamp") 2;
   Field "grant_id" FString 3].

Definition invoke_request_desc : message_desc := Message "InvokeRequest"
  [Field "grant_token" FString 1; Field "tool_name" FString 2;
   Field "arguments" (FMessage ".google.protobuf.Struct") 3; Field "idempotency_key" FString 4].

Definition invoke_response_desc : message_desc := Message "InvokeResponse"
  [Field "result" (FMessage ".google.protobuf.Struct") 1; Field "status" FString 2].

Definition revoke_request_desc : message_desc := Message "RevokeRequest" [Field "grant_id" FString 1].

Definition revoke_response_desc : message_desc := Message "RevokeResponse" [Field "revoked" FBool 1].

Definition credbroker_desc : service_desc := Service "CredBroker"
  [Method "RequestGrant" ".credbroker.v1.GrantRequest" ".credbroker.v1.GrantResponse";
   Method "InvokeTool" ".credbroker.v1.InvokeRequest" ".credbroker.v1.InvokeResponse";
   Method "RevokeGrant" ".credbroker.v1.RevokeRequest" ".credbroker.v1.RevokeResponse"].

Definition credbroker_proto : file_desc := {|
  fd_name := "credbroker/proto/credbroker.proto";
  fd_package := "credbroker.v1";
  fd_imports := ["google/protobuf/struct.proto"; "google/protobuf/timestamp.proto"];
  fd_messages := [grant_request_desc; grant_response_desc; invoke_request_desc; invoke_response_desc;
                  revoke_request_desc; revoke_response_desc];
  fd_services := [credbroker_desc];
  fd_syntax := "proto3"
|}.

(** ** The generated module *)

(** The bytes a Python literal stands for. *)
Definition hex_value (c : ascii) : Z := default 0 (digit_value c).

Fixpoint bytes_literal (s : string) : bytes :=
  match s with
  | String c s1 =>
      if Ascii.eqb c "\" then
        match s1 with
        | String e s2 =>
            if Ascii.eqb e "x" then
              match s2 with
              | String h (String l s3) => Z_byte (16 * hex_value h + hex_value l) :: bytes_literal s3
              | _ => []
              end
            else
              (if Ascii.eqb e "n" then Byte.x0a
               else if Ascii.eqb e "r" then Byte.x0d
               else if Ascii.eqb e "t" then Byte.x09
               else byte_of_ascii e) :: bytes_literal s2
        | EmptyString => []
        end
      else byte_of_ascii c :: bytes_literal s1
  | EmptyString => []
  end.

(** [DESCRIPTOR], a quotation mark written by its code. *)
Definition DESCRIPTOR : bytes := bytes_literal (
  "\n!credbroker/proto/credbroker.proto\x12\rcredbroker.v1\x1a\x1cgoogle/protobuf/struct.proto" +:+
  "\x1a\x1fgoogle/protobuf/timestamp.proto\x22L\n\x0cGrantRequest\x12\x10\n\x08\x61gent_id\x18" +:+
  "\x01 \x01(\t\x12\x11\n\ttool_name\x18\x02 \x01(\t\x12\x17\n\x0frequested_scope\x18\x03 \x01(" +:+
  "\t\x22f\n\rGrantResponse\x12\x13\n\x0bgrant_token\x18\x01 \x01(\t\x12.\n\nexpires_at\x18\x02" +:+
  " \x01(\x0b\x32\x1a.google.protobuf.Timestamp\x12\x10\n\x08grant_id\x18\x03 \x01(\t\x22|\n\rI" +:+
  "nvokeRequest\x12\x13\n\x0bgrant_token\x18\x01 \x01(\t\x12\x11\n\ttool_name\x18\x02 \x01(\t" +:+
  "\x12*\n\targuments\x18\x03 \x01(\x0b\x32\x17.google.protobuf.Struct\x12\x17\n\x0fidempotency" +:+
  "_key\x18\x04 \x01(\t\x22I\n\x0eInvokeResponse\x12\'\n\x06result\x18\x01 \x01(\x0b\x32\x17.go" +:+
  "ogle.protobuf.Struct\x12\x0e\n\x06status\x18\x02 \x01(\t\x22!\n\rRevokeRequest\x12\x10\n\x08" +:+
  "grant_id\x18\x01 \x01(\t\x22!\n\x0eRevokeResponse\x12\x0f\n\x07revoked\x18\x01 \x01(\x08\x32" +:+
  "\xee\x01\n\nCredBroker\x12I\n\x0cRequestGrant\x12\x1b.credbroker.v1.GrantRequest\x1a\x1c.cre" +:+
  "dbroker.v1.GrantResponse\x12I\n\nInvokeTool\x12\x1c.credbroker.v1.InvokeRequest\x1a\x1d.cred" +:+
  "broker.v1.InvokeResponse\x12J\n\x0bRevokeGrant\x12\x1c.credbroker.v1.RevokeRequest\x1a\x1d.c" +:+
  "redbroker.v1.RevokeResponseb\x06proto3").

(** [_serialized_start] and [_serialized_end]. *)
Definition serialized_range : list (string * (Z * Z)) := [
  ("_GRANTREQUEST", (115, 191));
  ("_GRANTRESPONSE", (193, 295));
  ("_INVOKEREQUEST", (297, 421));
  ("_INVOKERESPONSE", (423, 496));
  ("_REVOKEREQUEST", (498, 531));
  ("_REVOKERESPONSE", (533, 566));
  ("_CREDBROKER", (569, 807))
].

(** What loading the module makes: protobuf's view of the file, and the
    positions, assigned when the descriptors are Python objects. *)
Record pb2 := Pb2 { pb_file : file_desc; pb_ranges : list (string * (Z * Z)) }.

Definition load_pb2 (ValidateProtobufRuntimeVersion : string -> Z -> Z -> Z -> string -> string -> res unit)
    (AddSerializedFile : bytes -> res file_desc) (use_c_descriptors : bool) : res pb2 :=
  res_bind (ValidateProtobufRuntimeVersion "PUBLIC" 7 35 1 "" "credbroker/proto/credbroker.proto") (fun _ =>
  res_map (fun d => Pb2 d (if use_c_descriptors then [] else serialized_range))
    (AddSerializedFile DESCRIPTOR)).

(** ** The published encoding *)

(** Seven bits a byte, the lowest first, the eighth set on all but the last;
    ten bytes hold any number below [2^70]. *)
Fixpoint varint (fuel : nat) (n : Z) : bytes :=
  match fuel with
  | O => []
  | S fuel' => if n <? 128 then [Z_byte n] else Z_byte (n mod 128 + 128) :: varint fuel' (n / 128)
  end.

Definition encode_varint (n : Z) : bytes := varint 10 n.

(** A field is tagged with its number and its wire type, 0 for a varint and
    2 for bytes of a length given. *)
Definition int_field (number n : Z) : bytes :=
  (encode_varint (Z.lor (Z.shiftl number 3) 0) ++ encode_varint n)%list.

Definition bytes_field (number : Z) (b : bytes) : bytes :=
  (encode_varint (Z.lor (Z.shiftl number 3) 2) ++ encode_varint (Z.of_nat (length b)) ++ b)%list.

Definition text_field (number : Z) (s : string) : bytes := bytes_field number (encode s).

Definition LABEL_OPTIONAL : Z := 1.

Definition serialize_type (t : field_type) : bytes :=
  match t with
  | FString => int_field 5 9
  | FBool => int_field 5 8
  | FMessage name => (int_field 5 11 ++ text_field 6 name)%list
  end.

Definition serialize_field (f : field_desc) : bytes :=
  (text_field 1 (fl_name f) ++ int_field 3 (fl_number f) ++ int_field 4 LABEL_OPTIONAL
     ++ serialize_type (fl_type f))%list.

Definition serialize_message (m : message_desc) : bytes :=
  (text_field 1 (ms_name m) ++ flat_map (fun f => bytes_field 2 (serialize_field f)) (ms_fields m))%list.

Definition serialize_method (m : method_desc) : bytes :=
  (text_field 1 (me_name m) ++ text_field 2 (me_input m) ++ text_field 3 (me_output m))%list.

Definition serialize_service (s : service_desc) : bytes :=
  (text_field 1 (se_name s) ++ flat_map (fun m => bytes_field 2 (serialize_method m)) (se_methods s))%list.

Definition serialize (f : file_desc) : bytes :=
  (text_field 1 (fd_name f) ++ text_field 2 (fd_package f) ++ flat_map (text_field 3) (fd_imports f)
     ++ flat_map (fun m => bytes_field 4 (serialize_message m)) (fd_messages f)
     ++ flat_map (fun s => bytes_field 6 (serialize_service s)) (fd_services f)
     ++ text_field 12 (fd_syntax f))%list.

(** What stands at a position of the descriptor. *)
Definition at_range (r : Z * Z) : bytes := take (Z.to_nat (r.2 - r.1)) (drop (Z.to_nat r.1) DESCRIPTOR).

(** *** Names *)

(** The messages of grpc's side, as the descriptor names them. *)
Definition type_name (t : message_type) : string :=
  ".credbroker.v1." +:+
  match t with
  | TGrantRequest => "GrantRequest"
  | TGrantResponse => "GrantResponse"
  | TInvokeRequest => "InvokeRequest"
  | TInvokeResponse => "InvokeResponse"
  | TRevokeRequest => "RevokeRequest"
  | TRevokeResponse => "RevokeResponse"
  end.

Definition service_path (f : file_desc) (s : service_desc) : string := fd_package f +:+ "." +:+ se_name s.

(** A handler as the method it answers. *)
Definition handled (h : string * rpc_handler) : method_desc :=
  Method h.1 (type_name (hd_request h.2)) (type_name (hd_response h.2)).

(** ** What the module stands for *)

(** The descriptor is the encoding of the interface file. *)
Lemma descriptor_serializes : DESCRIPTOR = serialize credbroker_proto.
Proof. vm_compute. reflexivity. Qed.

(** The bytes the generated module hands to protobuf are the encoding of the
    interface file, so protobuf builds exactly its messages and its service;
    each position the module assigns delimits the encoding of the declaration
    it is named after; and a servicer that defines the methods is registered
    under the service's name, each method with the message types declared. *)
Theorem pb2_is_the_interface
    (ValidateProtobufRuntimeVersion : string -> Z -> Z -> Z -> string -> string -> res unit)
    (AddSerializedFile : bytes -> res file_desc) (use_c_descriptors : bool)
    (servicer : class_methods) (server : rpc_server)
    (Hversion : ValidateProtobufRuntimeVersion "PUBLIC" 7 35 1 "" "credbroker/proto/credbroker.proto" = Ok tt)
    (Hadd : AddSerializedFile (serialize credbroker_proto) = Ok credbroker_proto)
    (Hserver : add_CredBrokerServicer_to_server servicer (RpcServer [] []) = Ok server) :
  load_pb2 ValidateProtobufRuntimeVersion AddSerializedFile use_c_descriptors =
    Ok (Pb2 credbroker_proto (if use_c_descriptors then [] else serialized_range)) /\
  map (fun r => at_range r.2) serialized_range =
    (map serialize_message (fd_messages credbroker_proto)
       ++ map serialize_service (fd_services credbroker_proto))%list /\
  map (fun s => (s.1, map handled s.2)) (rs_registered server) =
    map (fun s => (service_path credbroker_proto s, se_methods s)) (fd_services credbroker_proto).
Proof.
  split; [unfold load_pb2; by rewrite Hversion, descriptor_serializes; cbn [res_bind]; rewrite Hadd|].
  split; [vm_compute; reflexivity|]. revert Hserver. unfold add_CredBrokerServicer_to_server, attribute.
  destruct (cm_RequestGrant servicer), (cm_InvokeTool servicer), (cm_RevokeGrant servicer); try done.
  by intros [= <-].
Qed.

Lemma pb2_is_the_interface_witness :
  exists server, map (fun s => (s.1, map handled s.2)) (rs_registered server) =
    [("credbroker.v1.CredBroker", se_methods credbroker_desc)].
Proof.
  eexists. exact (proj2 (proj2 (pb2_is_the_interface (fun _ _ _ _ _ _ => Ok tt) (fun _ => Ok credbroker_proto)
    true base_methods _ eq_refl eq_refl eq_refl))).
Defined.
