(* ===== verification/Demo.v ===== *)
(** * The demo ([src/credbroker/demo/])

    [seed_demo], which makes the rows of a credential-free demonstration,
    and the file listing of the fake Drive provider. *)

From Stdlib Require Import Ascii.
From stdpp Require Import base tactics list strings numbers.
From S2P Require Import Prelude PyStr Errors Json Uuid Config Models Effects Redaction Kms.
Open Scope string_scope.
#[local] Open Scope Z_scope.

(** ** Seeding ([seed.py]) *)

Definition DEMO_AGENT_NAME : string := "demo agent".
Definition DEMO_PROVIDER : string := "google".
Definition DEMO_ACCESS_TOKEN : string := "demo-access-token-not-a-real-credential".

(** [timedelta(days=n)]. *)
Definition days (n : Z) : Z := seconds (n * 86400).

Record seeded := {
  sd_user_id : uuid;
  sd_agent_id : uuid;
  sd_account_id : uuid;
  sd_created : bool
}.

Definition demo_agent (id user_id : uuid) (created : datetime) : AgentIdentity := {|
  agent_id := id;
  agent_user_id := user_id;
  agent_name := DEMO_AGENT_NAME;
  agent_allowed_scopes := ["drive.read"];
  agent_created_at := created
|}.

Definition demo_account (id user_id : uuid) (access : bytes) (expires created : datetime)
  : ConnectedAccount := {|
  acc_id := id;
  acc_user_id := user_id;
  acc_provider := DEMO_PROVIDER;
  acc_encrypted_access_token := access;
  acc_encrypted_refresh_token := None;
  acc_scopes_granted := ["demo"];
  acc_expires_at := Some expires;
  acc_created_at := created
|}.

Section Seed.
Context `{AesGcm} (km : KeyManager).

(** The demo agent, found or created; the defaults of the row are drawn at
    the flush. *)
Definition seed_agent : prog (AgentIdentity * bool) :=
  agent <- perform (EDbAgentByName DEMO_AGENT_NAME) ;;
  match agent with
  | Some agent => ret (agent, false)
  | None =>
      user_id <- perform EUuid4 ;;
      id <- perform EUuid4 ;;
      created <- perform EUtcNow ;;
      let agent := demo_agent id user_id (utc created) in
      perform (EDbAdd (RowAgent agent)) ;;
      perform EDbFlush ;;
      ret (agent, true)
  end.

Definition seed_account (user_id : uuid) : prog (ConnectedAccount * bool) :=
  account <- perform (EDbLatestAccount user_id DEMO_PROVIDER) ;;
  match account with
  | Some account => ret (account, false)
  | None =>
      perform EToThread ;;
      access <- encrypt km DEMO_ACCESS_TOKEN ;;
      now <- perform EUtcNow ;;
      id <- perform EUuid4 ;;
      created <- perform EUtcNow ;;
      let account := demo_account id user_id access (dt_add (utc now) (days 365)) (utc created) in
      perform (EDbAdd (RowAccount account)) ;;
      perform EDbFlush ;;
      ret (account, true)
  end.

Definition seed_demo : prog seeded :=
  agent <- seed_agent ;;
  account <- seed_account (agent_user_id agent.1) ;;
  perform EDbCommit ;;
  ret {| sd_user_id := agent_user_id agent.1; sd_agent_id := agent_id agent.1;
         sd_account_id := acc_id account.1; sd_created := agent.2 || account.2 |}.
End Seed.

(** ** The fake provider ([fake_drive.py]) *)

Record drive_file := { df_id : string; df_name : string; df_mime : string; df_modified : string }.

Definition SAMPLE_FILES : list drive_file := [
  {| df_id := "1a2b3c4d5e6f-quarterly-report"; df_name := "Quarterly Report Q3.pdf";
     df_mime := "application/pdf"; df_modified := "2026-08-14T09:12:33.000Z" |};
  {| df_id := "2b3c4d5e6f7a-roadmap"; df_name := "Product Roadmap 2027";
     df_mime := "application/vnd.google-apps.document"; df_modified := "2026-08-21T16:45:01.000Z" |};
  {| df_id := "3c4d5e6f7a8b-budget"; df_name := "Budget Forecast.xlsx";
     df_mime := "application/vnd.openxmlformats-officedocument.spreadsheetml.sheet";
     df_modified := "2026-07-30T11:02:47.000Z" |};
  {| df_id := "4d5e6f7a8b9c-onboarding"; df_name := "Onboarding Checklist";
     df_mime := "application/vnd.google-apps.document"; df_modified := "2026-06-18T08:20:15.000Z" |};
  {| df_id := "5e6f7a8b9c0d-team-photo"; df_name := "Team Offsite Photo.png";
     df_mime := "image/png"; df_modified := "2026-05-09T19:33:58.000Z" |};
  {| df_id := "6f7a8b9c0d1e-metrics"; df_name := "Metrics Dashboard Notes";
     df_mime := "application/vnd.google-apps.spreadsheet"; df_modified := "2026-08-27T14:07:22.000Z" |};
  {| df_id := "7a8b9c0d1e2f-launch-plan"; df_name := "Launch Plan Draft.docx";
     df_mime := "application/vnd.openxmlformats-officedocument.wordprocessingml.document";
     df_modified := "2026-08-02T10:55:09.000Z" |}
].

(** [_name_needle]: the text between the first two quotes, if there are
    two, else everything. *)
Definition name_needle (q : string) : string :=
  match split_on "'"%char q with
  | _ :: needle :: _ :: _ => needle
  | _ => q
  end.

(** [str.lower] as far as it matters for finding text in the (ASCII) names:
    the letters A to Z, and the Kelvin sign, the one other character whose
    lower case is ASCII.  Text with any other character is found in no
    ASCII name, whatever its case. *)
Definition lower_char (c : ascii) : ascii :=
  let n := N_of_ascii c in
  if ((65 <=? n) && (n <=? 90))%N then ascii_of_N (n + 32) else c.

Fixpoint lower_ascii (s : string) : string :=
  match s with
  | EmptyString => EmptyString
  | String c s' => String (lower_char c) (lower_ascii s')
  end.

Definition KELVIN_SIGN : string :=
  String (ascii_of_N 226) (String (ascii_of_N 132) (String (ascii_of_N 170) EmptyString)).

Definition lower (s : string) : string := lower_ascii (replace KELVIN_SIGN "k" s).

(** [list_files]: the [Authorization] header and the query parameters. *)
Definition list_files (authorization : option string) (page_size : option Z) (q : option string)
  : res (list drive_file) :=
  let refused := Exn (Exc HTTPException "Missing Bearer authorization" (Some 401)) in
  match authorization with
  | None => refused
  | Some a =>
      if negb (startswith "Bearer " a) then refused
      else
        let files :=
          match q with
          | Some q =>
              if String.eqb q "" then SAMPLE_FILES
              else let needle := lower (name_needle q) in
                   List.filter (fun f => contains needle (lower (df_name f))) SAMPLE_FILES
          | None => SAMPLE_FILES
          end in
        Ok (match page_size with
            | Some n => if 0 <=? n then firstn (Z.to_nat n) files else files
            | None => files
            end)
  end.

Definition file_json (f : drive_file) : json :=
  JObj [("id", JStr (df_id f)); ("name", JStr (df_name f)); ("mimeType", JStr (df_mime f));
        ("modifiedTime", JStr (df_modified f))].

Definition files_json (files : list drive_file) : json := JObj [("files", JArr (map file_json files))].

Example needle_quoted : name_needle "name contains 'report' and x" = "report".
Proof. reflexivity. Qed.

Example needle_one_quote : name_needle "it's" = "it's".
Proof. reflexivity. Qed.

Example files_found : map df_name (match list_files (Some "Bearer t") (Some 1) (Some "name contains 'PLAN'") with
                                   | Ok l => l | Exn _ => [] end) = ["Launch Plan Draft.docx"].
Proof. reflexivity. Qed.
