(* ===== verification/Seed.v ===== *)
(** * Seeding twice

    [seed_demo] against tables: what one run leaves behind, and that the
    next run finds it. *)

From stdpp Require Import base tactics list strings numbers.
From S2P Require Import Prelude PyStr Errors Json Uuid Config Models Effects Redaction Kms Google Router.
From S2P Require Import Tokens Demo.
Open Scope string_scope.
#[local] Open Scope Z_scope.

(** ** Tables behind a session *)

(** The committed agents and accounts, and those the session has added. *)
Record tables := Tables {
  tb_agents : list AgentIdentity;
  tb_accounts : list ConnectedAccount;
  tb_new_agents : list AgentIdentity;
  tb_new_accounts : list ConnectedAccount
}.

Definition settled (t : tables) : Prop := tb_new_agents t = [] /\ tb_new_accounts t = [].

Definition discard (t : tables) : tables := Tables (tb_agents t) (tb_accounts t) [] [].

Definition publish (t : tables) : tables :=
  Tables (tb_agents t ++ tb_new_agents t)%list (tb_accounts t ++ tb_new_accounts t)%list [] [].

Definition tables_step (t : tables) (e : event) : tables :=
  match e with
  | Ev (EDbAdd (RowAgent a)) _ =>
      Tables (tb_agents t) (tb_accounts t) (tb_new_agents t ++ [a])%list (tb_new_accounts t)
  | Ev (EDbAdd (RowAccount a)) _ =>
      Tables (tb_agents t) (tb_accounts t) (tb_new_agents t) (tb_new_accounts t ++ [a])%list
  | Ev EDbCommit (Ok _) => publish t
  | Ev EDbCommit (Exn _) | Ev EDbRollback _ | Ev EDbClose _ => discard t
  | _ => t
  end.

(** The rows a query selects; the session sees what it has added. *)
Definition named (name : string) (t : tables) : list AgentIdentity :=
  agents_named name (tb_agents t ++ tb_new_agents t)%list.

Definition owned (user : uuid) (provider : string) (t : tables) : list ConnectedAccount :=
  accounts_of user provider (tb_accounts t ++ tb_new_accounts t)%list.

(** [scalar_one_or_none]: more than one row is an error. *)
Definition one_or_none {A} (rows : list A) (r : res (option A)) : Prop :=
  match r with
  | Ok None => rows = []
  | Ok (Some a) => rows = [a]
  | Exn _ => True
  end.

(** [limit(1)]: some row, when there are any. *)
Definition first_of {A} (rows : list A) (r : res (option A)) : Prop :=
  match r with
  | Ok None => rows = []
  | Ok (Some a) => a ∈ rows
  | Exn _ => True
  end.

Definition tables_answer (t : tables) (e : event) : Prop :=
  match e with
  | Ev (EDbAgentByName name) r => one_or_none (named name t) r
  | Ev (EDbLatestAccount user provider) r => first_of (owned user provider t) r
  | _ => True
  end.

(** A handler that keeps such tables. *)
Definition keeps_tables (h : handler tables) : Prop :=
  forall t c, tables_answer t (Ev c (h t c).1) /\ (h t c).2 = tables_step t (Ev c (h t c).1).

(** ** One run *)

(** What a run that returned [x] made of [t]. *)
Definition seeded_tables (t : tables) (x : seeded) (t' : tables) : Prop :=
  exists agent account,
    named DEMO_AGENT_NAME t' = [agent] /\
    account ∈ owned (agent_user_id agent) DEMO_PROVIDER t' /\
    sd_user_id x = agent_user_id agent /\ sd_agent_id x = agent_id agent /\
    sd_account_id x = acc_id account /\
    settled t' /\
    (sd_created x = false <-> t' = t) /\
    (sd_created x = true -> named DEMO_AGENT_NAME t = [] \/
       (named DEMO_AGENT_NAME t = [agent] /\ owned (agent_user_id agent) DEMO_PROVIDER t = [])).

Section Run.
Context `{AesGcm} (km : KeyManager) (Hkm : km_local km).

Abbreviation run := (wp tables_step tables_answer).

(** Effects that leave the tables alone. *)
Lemma run_outside {A} (p : prog A) Q t :
  avoids is_outbound p -> (forall r, Q t r) -> run p Q t.
Proof.
  intros Hp HQ. induction p as [r|c k IH]; [apply HQ|]. destruct Hp as [Hc Hk].
  intros a _. assert (tables_step t (Ev c a) = t) as -> by (by destruct c). by apply IH.
Qed.

(** The agent, found or added. *)
Lemma run_seed_agent t :
  settled t ->
  run seed_agent (fun t' r => match r with
    | Ok (agent, created) =>
        named DEMO_AGENT_NAME t' = [agent] /\ tb_new_accounts t' = [] /\
        tb_accounts t' = tb_accounts t /\ tb_agents t' = tb_agents t /\
        tb_new_agents t' = (if created : bool then [agent] else []) /\
        (created = true -> named DEMO_AGENT_NAME t = [])
    | Exn _ => True
    end) t.
Proof.
  intros [Hn Hc]. unfold seed_agent. wp_simpl. intros [[agent|]|e] Ha; [| |done].
  - cbn in Ha. cbn [bind ret wp to_res fallible]. by splits.
  - cbn in Ha |- *. intros user _ id _ created _ _ _ [[]|e] _; [|done]. cbn.
    rewrite Hn. splits; try done. unfold named, agents_named in *. cbn. rewrite Hn, app_nil_r in Ha.
    by rewrite List.filter_app, Ha.
Qed.

(** The account, found or added. *)
Lemma run_seed_account user t :
  run (seed_account km user) (fun t' r => match r with
    | Ok (account, created) =>
        account ∈ owned user DEMO_PROVIDER t' /\
        tb_agents t' = tb_agents t /\ tb_new_agents t' = tb_new_agents t /\
        tb_accounts t' = tb_accounts t /\
        tb_new_accounts t' = (tb_new_accounts t ++ if created : bool then [account] else [])%list /\
        (created = true -> owned user DEMO_PROVIDER t = [])
    | Exn _ => True
    end) t.
Proof.
  unfold seed_account. wp_simpl. intros [[account|]|e] Ha; [| |done].
  - cbn in Ha. cbn [bind ret wp to_res fallible]. rewrite app_nil_r. by splits.
  - cbn [to_res fallible bind]. intros [] _. cbn [to_res fallible bind].
    apply wp_bind, run_outside; [by apply encrypt_avoids|]. intros [access|e]; [|done].
    cbn. intros now _ id _ created _ _ _ [[]|e] _; [|done]. cbn. splits; try done.
    unfold owned. cbn. rewrite app_assoc, List.filter_app. apply elem_of_app. right. cbn.
    rewrite bool_decide_eq_true_2 by done. by constructor.
Qed.

Lemma session_fails {A} (e : exn) (P : tables -> A -> Prop) t :
  run (perform EDbClose ;; lift (Exn (A:=A) e)) (fun t' r => forall x, r = Ok x -> P t' x) t.
Proof. by intros [[]|e'] _. Qed.

(** What the commit of both steps publishes. *)
Lemma seeded_published t agent account (c1 c2 : bool) t2 :
  settled t ->
  named DEMO_AGENT_NAME t2 = [agent] -> account ∈ owned (agent_user_id agent) DEMO_PROVIDER t2 ->
  tb_agents t2 = tb_agents t -> tb_accounts t2 = tb_accounts t ->
  tb_new_agents t2 = (if c1 then [agent] else []) -> tb_new_accounts t2 = (if c2 then [account] else []) ->
  (c1 = true -> named DEMO_AGENT_NAME t = []) ->
  (c1 = false -> c2 = true -> owned (agent_user_id agent) DEMO_PROVIDER t = []) ->
  seeded_tables t {| sd_user_id := agent_user_id agent; sd_agent_id := agent_id agent;
                     sd_account_id := acc_id account; sd_created := c1 || c2 |} (publish t2).
Proof.
  intros [Hna Hnc] Hn Ho Eag Eacc Enag Enacc Hc1 Hc2. exists agent, account.
  assert (Hp : forall A (l : list A), (l ++ [])%list = l) by (intros; apply app_nil_r).
  split; [unfold named, agents_named in *; cbn; by rewrite Hp|].
  split; [unfold owned, accounts_of in *; cbn; by rewrite Hp|]. splits; try done; cycle 1.
  { destruct c1; [by left; apply Hc1|]. cbn. intros ->. right. split; [|by apply Hc2].
    unfold named, agents_named in *. by rewrite Eag, Enag in Hn; rewrite Hna. }
  clear Hc1 Hc2 Hn Ho.
  destruct t as [ag acc nag nacc]. cbn in *. unfold publish. rewrite Eag, Eacc, Enag, Enacc, Hna, Hnc.
  assert (Hlong : forall A (l : list A) x, (l ++ [x])%list <> l).
  { intros A l x E%(f_equal length). rewrite length_app in E. cbn in E. lia. }
  destruct c1, c2; cbn; rewrite ?Hp; split; try done; intros E; injection E; intros;
    exfalso; by eapply Hlong.
Qed.

Lemma run_seed t :
  settled t ->
  run (with_session (seed_demo km))
    (fun t' r => forall x, r = Ok x -> seeded_tables t x t') t.
Proof.
  intros Ht. unfold with_session. apply wp_bind. intros [] _. cbn [to_res fallible tables_step wp].
  apply wp_bind, wp_attempt. unfold seed_demo. apply wp_bind.
  eapply wp_mono; [by apply run_seed_agent|]. intros t1 [[agent c1]|e]; [|intros _; apply session_fails].
  intros (Hnamed & Hna & Eacc & Eag & Enew & Hc1). apply wp_bind.
  eapply wp_mono; [apply run_seed_account|]. intros t2 [[account c2]|e]; [|intros _; apply session_fails].
  intros (Howned & Eag2 & Enew2 & Eacc2 & Enacc2 & Hc2). cbn [fst snd] in *.
  intros [[]|e] _; [|apply session_fails]. cbn. intros [[]|e] _; [|done]. intros x [= <-].
  change (discard (publish t2)) with (publish t2). apply seeded_published; try done.
  - unfold named, agents_named in *. by rewrite Eag2, Enew2.
  - congruence.
  - congruence.
  - congruence.
  - by rewrite Enacc2, Hna.
  - intros -> Hc. specialize (Hc2 Hc). destruct Ht as [Hn0 Hc0]. unfold owned, accounts_of in *.
    rewrite Eacc, Hna in Hc2. by rewrite Hc0.
Qed.
End Run.

(** The column [agents.name] is not unique: with two agents of the name, no
    run returns. *)
Lemma seed_needs_one_agent `{AesGcm} (km : KeyManager) (h : handler tables) (t : tables) :
  keeps_tables h -> (2 <= length (named DEMO_AGENT_NAME t))%nat ->
  forall x, result_of h (with_session (seed_demo km)) t <> Ok x.
Proof.
  intros Hh Ht x.
  assert (Hw : wp tables_step tables_answer (with_session (seed_demo km))
            (fun _ r => forall x, r <> Ok x) t).
  { intros [] _. cbn [to_res fallible tables_step]. intros [[a|]|e] Ha; cbn in Ha |- *.
    - by rewrite Ha in Ht; cbn in Ht; lia.
    - by rewrite Ha in Ht; cbn in Ht; lia.
    - by intros [[]|e'] _. }
  destruct (wp_interp tables_step tables_answer h eq _ _ t t
              (fun σ s c Es => ltac:(subst s; destruct (Hh σ c); by split)) eq_refl Hw) as [Hpost _].
  apply Hpost.
Qed.

(** ** Properties *)

(** C40. Seeding is idempotent.  Whatever the tables hold, a run of
    [seed_demo] that returns names the one demo agent and an account of its
    user in the tables it leaves, and says [created] exactly when it changed
    them; and a second run that returns changes nothing, says [created:
    false] and names the same agent and user. *)
Theorem seed_idempotent `{AesGcm} (km : KeyManager) (Hkm : km_local km)
    (h : handler tables) (Hh : keeps_tables h) (t : tables) (Ht : settled t) (x y : seeded) :
  let p := with_session (seed_demo km) in
  result_of h p t = Ok x -> result_of h p (state_of h p t) = Ok y ->
  seeded_tables t x (state_of h p t) /\
  state_of h p (state_of h p t) = state_of h p t /\ sd_created y = false /\
  sd_user_id y = sd_user_id x /\ sd_agent_id y = sd_agent_id x.
Proof.
  cbn zeta. intros Hx Hy.
  assert (Hrun : forall t' z, settled t' -> result_of h (with_session (seed_demo km)) t' = Ok z ->
            seeded_tables t' z (state_of h (with_session (seed_demo km)) t')).
  { intros t' z Ht' Hz.
    destruct (wp_interp tables_step tables_answer h eq (with_session (seed_demo km)) _ t' t'
                (fun σ s c Es => ltac:(subst s; destruct (Hh σ c); by split)) eq_refl
                (run_seed km Hkm t' Ht')) as [Hpost E].
    rewrite <- E in Hpost. by apply Hpost. }
  pose proof (Hrun t x Ht Hx) as H1. split; [done|].
  destruct H1 as (agent & account & Hn & Ho & Hu & Ha & _ & Hs & _ & _).
  destruct (Hrun _ y Hs Hy) as (agent' & account' & Hn' & Ho' & Hu' & Ha' & _ & _ & Hc & Hcr).
  assert (Ec : sd_created y = false).
  { destruct (sd_created y); [|done]. destruct (Hcr eq_refl) as [Hbad|[Hag Hbad]]; [by rewrite Hbad in Hn|].
    rewrite Hn in Hag. injection Hag as <-. rewrite Hbad in Ho. by apply elem_of_nil in Ho. }
  apply Hc in Ec as Es. rewrite Es, Hn in Hn'. injection Hn' as <-. by rewrite Hu', Ha', Hu, Ha.
Qed.

(** A database with these tables, next to a KMS and an entropy source. *)
Definition example_keeper : handler tables := fun t c =>
  let a :=
    match c return reply c with
    | EDbAgentByName name =>
        match named name t with
        | [] => Ok None
        | [a] => Ok (Some a)
        | _ => Exn (raise_of MultipleResultsFound "multiple rows")
        end
    | EDbLatestAccount user provider => Ok (head (owned user provider t))
    | EUuid4 => example_uuid (Z.of_nat (length (tb_new_agents t)) + 40)
    | EUrandom n => replicate (Z.to_nat n) Byte.x05
    | EKmsGenerateDataKey _ => Ok (replicate 32 Byte.x00, encode "wrap")
    | EDbFlush | EDbCommit | EDbClose => Ok tt
    | c => dead_reply c
    end in
  (a, tables_step t (Ev c a)).

Lemma example_keeps : keeps_tables example_keeper.
Proof.
  intros t c. split; [|done]. destruct c; try exact I; cbn.
  - unfold first_of. destruct (owned user_id provider t) eqn:E; cbn; [done|]. by constructor.
  - destruct (named name t) as [|a [|b l]] eqn:E; cbn; done.
Qed.

Definition example_seeded (created : bool) : seeded := {|
  sd_user_id := example_uuid 40; sd_agent_id := example_uuid 40; sd_account_id := example_uuid 41;
  sd_created := created
|}.

Lemma seed_idempotent_witness :
  let p := with_session (@seed_demo toy_gcm (AwsKmsKeyManager "key")) in
  let t := state_of example_keeper p (Tables [] [] [] []) in
  seeded_tables (Tables [] [] [] []) (example_seeded true) t /\
  state_of example_keeper p t = t.
Proof.
  cbn zeta. destruct (@seed_idempotent toy_gcm (AwsKmsKeyManager "key") (aws_local _) example_keeper
    example_keeps (Tables [] [] [] []) (conj eq_refl eq_refl) (example_seeded true) (example_seeded false))
    as (Hs & He & _); [vm_compute; reflexivity..|]. by split.
Defined.
