(* ===== verification/Console.v ===== *)
(** * The operator console ([src/credbroker/console/api.py])

    Every route of [/console/api], behind [require_console_auth].  Requests
    are what FastAPI hands to the handlers: a body or a path parameter that
    does not parse is answered by the framework.  [console_page], which
    serves a static file, is not modelled. *)

From Stdlib Require Import Ascii FunctionalExtensionality.
From stdpp Require Import base tactics list strings numbers gmap.
From S2P Require Import Prelude PyStr Errors Json Uuid Config Models DateText Breaker Effects.
From S2P Require Import Redaction Kms Tokens Tools Cache Idempotency Grants Invoke InvokeAudit Demo.
Open Scope string_scope.
#[local] Open Scope Z_scope.

(** ** Errors *)

(** [HTTPException(status_code=status, detail=detail)]. *)
Definition http_exception (status : Z) (detail : string) : exn :=
  Exc HTTPException detail (Some status).

(** [_ERROR_STATUS]. *)
Definition ERROR_STATUS : list (exc_class * Z) := [
  (PolicyDeniedError, 403);
  (GrantScopeMismatchError, 403);
  (GrantRevokedError, 403);
  (GrantExpiredError, 403);
  (GrantTokenInvalidError, 403);
  (RateLimitedError, 429);
  (ConcurrencyLimitError, 429);
  (UnknownAgentError, 404);
  (UnknownToolError, 404);
  (GrantNotFoundError, 404);
  (NoConnectedAccountError, 404);
  (IdempotencyConflictError, 409)
].

(** [_http_error]. *)
Definition http_error (e : exn) : exn :=
  http_exception (default 400 (lookup_class ERROR_STATUS (exn_class e))) (exn_msg e).

(** [try: p  except CredBrokerError as exc: raise _http_error(exc)]. *)
Definition or_http_error {A} (p : prog A) : prog A :=
  r <- attempt p ;;
  match r with
  | Ok a => ret a
  | Exn e => if isinstance e CredBrokerError then raise (http_error e) else raise e
  end.

(** ** Authentication *)

(** [hmac.compare_digest] of two strings: only ASCII text is compared. *)
Definition compare_digest_str (a b : string) : res bool :=
  if str_all is_ascii a && str_all is_ascii b then Ok (String.eqb a b)
  else Exn (raise_of TypeError "comparing strings with non-ASCII characters is not supported").

Definition unauthorized : exn := http_exception 401 "missing or invalid console token".

Definition require_console_auth (settings : Settings) (x_console_token : option string) : res unit :=
  let expected := console_token settings in
  if String.eqb expected "" then Ok tt
  else
    match x_console_token with
    | None => Exn unauthorized
    | Some token =>
        res_bind (compare_digest_str token expected) (fun same : bool =>
          if same then Ok tt else Exn unauthorized)
    end.

(** ** Rows as JSON *)

Definition json_opt (s : option string) : json :=
  match s with Some s => JStr s | None => JNull end.

(** [_iso]. *)
Definition iso (d : option datetime) : option string := isoformat <$> ensure_aware d.

Definition iso_json (d : option datetime) : json := json_opt (iso d).

Definition uuid_json (u : uuid) : json := JStr (uuid_str u).
Definition strings_json (l : list string) : json := JArr (map JStr l).

(** One entry of [list_tools]. *)
Definition tool_dict (t : ToolAdapter) : json :=
  JObj [("name", JStr (tool_name t)); ("provider", JStr (tool_provider t));
        ("scope", JStr (tool_scope t)); ("side_effectful", JBool (tool_side_effectful t))].

(** [_agent_dict]. *)
Definition agent_dict (a : AgentIdentity) : json :=
  JObj [("id", uuid_json (agent_id a)); ("user_id", uuid_json (agent_user_id a));
        ("name", JStr (agent_name a)); ("allowed_scopes", strings_json (agent_allowed_scopes a));
        ("created_at", iso_json (Some (agent_created_at a)))].

(** One entry of [list_accounts]. *)
Definition account_dict (a : ConnectedAccount) : json :=
  JObj [("id", uuid_json (acc_id a)); ("user_id", uuid_json (acc_user_id a));
        ("provider", JStr (acc_provider a)); ("scopes_granted", strings_json (acc_scopes_granted a));
        ("expires_at", iso_json (acc_expires_at a)); ("created_at", iso_json (Some (acc_created_at a)))].

(** [_grant_status]. *)
Definition grant_status (g : Grant) (now : datetime) : res string :=
  match grant_revoked_at g with
  | Some _ => Ok "revoked"
  | None => res_map (fun past : bool => if past then "expired" else "active")
              (dt_le (aware (grant_expires_at g)) now)
  end.

(** One entry of [list_grants]. *)
Definition grant_dict (now : datetime) (g : Grant) : res json :=
  res_map (fun status =>
    JObj [("id", uuid_json (grant_id g)); ("agent_id", uuid_json (grant_agent_id g));
          ("connected_account_id", uuid_json (grant_connected_account_id g));
          ("tool_name", JStr (grant_tool_name g)); ("scope", JStr (grant_scope g));
          ("issued_at", iso_json (Some (grant_issued_at g)));
          ("expires_at", iso_json (Some (grant_expires_at g)));
          ("revoked_at", iso_json (grant_revoked_at g)); ("status", JStr status)])
    (grant_status g now).

(** One entry of [list_audit]. *)
Definition audit_dict (r : ToolCallAuditLog) : json :=
  JObj [("id", uuid_json (log_id r)); ("grant_id", uuid_json (log_grant_id r));
        ("tool_name", JStr (log_tool_name r)); ("arguments_hash", JStr (log_arguments_hash r));
        ("status", JStr (log_status r)); ("latency_ms", JInt (log_latency_ms r));
        ("called_at", iso_json (Some (log_called_at r)))].

Definition outcome_dict (o : InvokeOutcome) : json :=
  JObj [("status", JStr (status_text (oc_status o))); ("result", default JNull (oc_result o));
        ("error", json_opt (oc_error o)); ("latency_ms", JInt (oc_latency_ms o));
        ("from_cache", JBool (oc_from_cache o)); ("denied_reason", json_opt (oc_denied_reason o))].

Definition issued_dict (i : IssuedGrant) : json :=
  JObj [("grant_id", uuid_json (grant_id (issued_grant i))); ("grant_token", JStr (issued_token i));
        ("expires_at", iso_json (Some (grant_expires_at (issued_grant i))))].

(** What [seed_demo] returns. *)
Definition seeded_dict (s : seeded) : json :=
  JObj [("user_id", uuid_json (sd_user_id s)); ("agent_id", uuid_json (sd_agent_id s));
        ("connected_account_id", uuid_json (sd_account_id s)); ("created", JBool (sd_created s))].

(** [[f x for x in xs]] where [f] may raise. *)
Fixpoint res_each {A B} (f : A -> res B) (xs : list A) : res (list B) :=
  match xs with
  | [] => Ok []
  | x :: xs' => res_bind (f x) (fun y => res_map (cons y) (res_each f xs'))
  end.

(** [Query(50, ge=1, le=500)]. *)
Definition query_limit (limit : option Z) : res Z :=
  let n := default 50 limit in
  if (1 <=? n) && (n <=? 500) then Ok n
  else Exn (Exc ValueError "limit out of range" (Some 422)).

(** ** Handlers *)

Record AgentCreateRequest := {
  ac_name : string;
  ac_allowed_scopes : list string;
  ac_user_id : option uuid
}.

Record GrantCreateRequest := {
  gc_agent_id : uuid;
  gc_tool_name : string;
  gc_requested_scope : string
}.

Record InvokeRequest := {
  iv_grant_token : string;
  iv_tool_name : string;
  iv_arguments : dict;
  iv_idempotency_key : option string
}.

(** [app.state], with the registry of tools. *)
Record AppState := {
  st_settings : Settings;
  st_tools : registry;
  st_cipher : KeyManager;
  st_grant_cache : bool;
  st_rate_limiter : bool;
  st_invoke_service : InvokeService
}.

(** A request of the console API with its parameters. *)
Inductive console_request :=
| ListTools
| ListAgents
| CreateAgent (body : AgentCreateRequest)
| ListAccounts
| ListGrants (limit : option Z)
| CreateGrant (body : GrantCreateRequest)
| RevokeGrant (gid : uuid)
| InvokeTool (body : InvokeRequest)
| DemoSeed
| ListAudit (limit : option Z).

Section Handlers.
Context `{PyJwt} `{PyRepr} `{AesGcm} (state : AppState).

(** The registry iterates in the order of registration; one tool is
    registered. *)
Definition list_tools : prog json :=
  ret (JArr (map (fun kv => tool_dict kv.2) (map_to_list (st_tools state)))).

Definition list_agents : prog json :=
  with_session
    (agents <- perform EDbAllAgents ;;
     ret (JArr (map agent_dict agents))).

(** The row's own defaults are drawn at the flush. *)
Definition create_agent (body : AgentCreateRequest) : prog json :=
  user_id <- (match ac_user_id body with Some u => ret u | None => perform EUuid4 end) ;;
  with_session
    (id <- perform EUuid4 ;;
     created <- perform EUtcNow ;;
     let agent := {| agent_id := id; agent_user_id := user_id; agent_name := ac_name body;
                     agent_allowed_scopes := ac_allowed_scopes body;
                     agent_created_at := utc created |} in
     perform (EDbAdd (RowAgent agent)) ;;
     perform EDbFlush ;;
     perform EDbCommit ;;
     ret (agent_dict agent)).

Definition list_accounts : prog json :=
  with_session
    (accounts <- perform EDbAllAccounts ;;
     ret (JArr (map account_dict accounts))).

Definition list_grants (limit : option Z) : prog json :=
  limit <- lift (query_limit limit) ;;
  with_session
    (grants <- perform (EDbRecentGrants limit) ;;
     now <- perform EUtcNow ;;
     rows <- lift (res_each (grant_dict (utc now)) grants) ;;
     ret (JArr rows)).

Definition create_grant (body : GrantCreateRequest) : prog json :=
  or_http_error
    (with_session
       (issued <- request_grant (st_settings state) (st_tools state) (gc_agent_id body)
                    (gc_tool_name body) (gc_requested_scope body) (st_grant_cache state)
                    (st_rate_limiter state) ;;
        ret (issued_dict issued))).

Definition revoke (gid : uuid) : prog json :=
  or_http_error (with_session (revoke_grant gid (st_grant_cache state))) ;;
  ret (JObj [("revoked", JBool true)]).

Definition invoke_tool (body : InvokeRequest) : prog json :=
  outcome <- invoke (st_invoke_service state) (iv_grant_token body) (iv_tool_name body)
               (iv_arguments body) (iv_idempotency_key body) ;;
  ret (outcome_dict outcome).

Definition demo_seed : prog json :=
  with_session (s <- seed_demo (st_cipher state) ;; ret (seeded_dict s)).

Definition list_audit (limit : option Z) : prog json :=
  limit <- lift (query_limit limit) ;;
  with_session
    (rows <- perform (EDbRecentAudit limit) ;;
     ret (JArr (map audit_dict rows))).

Definition handle (r : console_request) : prog json :=
  match r with
  | ListTools => list_tools
  | ListAgents => list_agents
  | CreateAgent body => create_agent body
  | ListAccounts => list_accounts
  | ListGrants limit => list_grants limit
  | CreateGrant body => create_grant body
  | RevokeGrant gid => revoke gid
  | InvokeTool body => invoke_tool body
  | DemoSeed => demo_seed
  | ListAudit limit => list_audit limit
  end.

(** [_api]: the dependency runs before the handler. *)
Definition console_api (x_console_token : option string) (r : console_request) : prog json :=
  lift (require_console_auth (st_settings state) x_console_token) ;;
  handle r.
End Handlers.

(** ** What the routes answer *)

(** What [or_http_error] makes of a result. *)
Definition http_reply {A} (r : res A) : res A :=
  match r with
  | Ok a => Ok a
  | Exn e => if isinstance e CredBrokerError then Exn (http_error e) else Exn e
  end.

Definition revoked_dict : json := JObj [("revoked", JBool true)].

Lemma or_http_result {A St} (h : handler St) (p : prog A) σ :
  result_of h (or_http_error p) σ = http_reply (result_of h p σ).
Proof.
  unfold or_http_error. autorewrite with cred_rw. destruct (result_of h p σ) as [a|e]; [done|].
  cbn [http_reply]. by destruct (isinstance e CredBrokerError).
Qed.

(** Post-processing the value of a session inside or outside of it. *)
Lemma with_session_map {A B St} (h : handler St) (p : prog A) (f : A -> B) σ :
  result_of h (with_session (x <- p ;; ret (f x))) σ = res_map f (result_of h (with_session p) σ).
Proof.
  unfold with_session. autorewrite with cred_rw. destruct (result_of h (perform EDbOpen) σ); [|done].
  autorewrite with cred_rw. destruct (result_of h p _) as [x|e]; rewrite ?state_ret;
    by destruct (result_of h (perform EDbClose) _).
Qed.

Lemma result_map {A B St} (h : handler St) (p : prog A) (f : A -> B) σ :
  result_of h (x <- p ;; ret (f x)) σ = res_map f (result_of h p σ).
Proof. rewrite result_bind. by destruct (result_of h p σ). Qed.

Lemma http_reply_mapped {A} (r : res A) e : http_reply r = Exn e -> isinstance e CredBrokerError = false.
Proof.
  destruct r as [a|e']; [done|]. cbn [http_reply]. destruct (isinstance e' CredBrokerError) eqn:E.
  - by intros [= <-].
  - by intros [= <-].
Qed.

Lemma http_reply_map {A B} (f : A -> B) (r : res A) : http_reply (res_map f r) = res_map f (http_reply r).
Proof. destruct r as [a|e]; [done|]. cbn [res_map res_bind http_reply]. by destruct (isinstance e CredBrokerError). Qed.

(** ** Blind rows *)

(** A row without the columns the console must not show. *)
Definition blind_account (a : ConnectedAccount) : ConnectedAccount := {|
  acc_id := acc_id a; acc_user_id := acc_user_id a; acc_provider := acc_provider a;
  acc_encrypted_access_token := []; acc_encrypted_refresh_token := None;
  acc_scopes_granted := acc_scopes_granted a; acc_expires_at := acc_expires_at a;
  acc_created_at := acc_created_at a
|}.

Definition blind_grant (g : Grant) : Grant := {|
  grant_id := grant_id g; grant_agent_id := grant_agent_id g;
  grant_connected_account_id := grant_connected_account_id g;
  grant_tool_name := grant_tool_name g; grant_scope := grant_scope g;
  grant_token_hash := ""; grant_issued_at := grant_issued_at g;
  grant_expires_at := grant_expires_at g; grant_revoked_at := grant_revoked_at g
|}.

(** A database whose listings hold blind rows only. *)
Definition blind_reply (c : eff) : reply c -> reply c :=
  match c with
  | EDbAllAccounts => res_map (map blind_account)
  | EDbRecentGrants _ => res_map (map blind_grant)
  | _ => fun a => a
  end.

Definition blinded {St} (h : handler St) : handler St :=
  fun s c => let '(a, s') := h s c in (blind_reply c a, s').

(** A program that goes on the same way after a blind answer. *)
Fixpoint unmoved {A} (p : prog A) : Prop :=
  match p with
  | Done _ => True
  | Vis c k => forall a, k (blind_reply c a) = k a /\ unmoved (k a)
  end.

Lemma unmoved_outcome {A St} (h : handler St) (p : prog A) σ :
  unmoved p -> outcome (blinded h) p σ = outcome h p σ.
Proof.
  unfold outcome, result_of, state_of. revert σ. induction p as [r|c k IH]; intros σ Hp; [done|].
  cbn [interp]. unfold blinded at 1 3. destruct (h σ c) as [a σ1]. destruct (Hp a) as [-> Hk].
  specialize (IH a σ1 Hk). destruct (interp (blinded h) (k a) σ1) as [[??]?].
  by destruct (interp h (k a) σ1) as [[??]?].
Qed.

Lemma unmoved_bind {A B} (p : prog A) (f : A -> prog B) :
  unmoved p -> (forall a, unmoved (f a)) -> unmoved (bind p f).
Proof.
  intros Hp Hf. induction p as [[a|e]|c k IH]; [apply Hf|done|].
  intros a. destruct (Hp a) as [Ea Ha]. split; [by rewrite Ea|by apply IH].
Qed.

Lemma unmoved_attempt {A} (p : prog A) : unmoved p -> unmoved (attempt p).
Proof.
  intros Hp. induction p as [r|c k IH]; [done|].
  intros a. destruct (Hp a) as [Ea Ha]. split; [by rewrite Ea|by apply IH].
Qed.

Lemma unmoved_lift {A} (r : res A) : unmoved (lift r).
Proof. done. Qed.

Lemma unmoved_ret {A} (a : A) : unmoved (ret a).
Proof. done. Qed.

(** Only two effects are answered blindly. *)
Definition blindable (c : eff) : bool :=
  match c with EDbAllAccounts | EDbRecentGrants _ => true | _ => false end.

Lemma unmoved_perform c : blindable c = false -> unmoved (perform c).
Proof. intros Hc a. split; [|done]. by destruct c. Qed.

Lemma unmoved_with_session {A} (p : prog A) : unmoved p -> unmoved (with_session p).
Proof.
  intros Hp. apply unmoved_bind; [by apply unmoved_perform|]. intros _.
  apply unmoved_bind; [by apply unmoved_attempt|]. intros r.
  by apply unmoved_bind; [apply unmoved_perform|].
Qed.

(** After a blind answer: the continuation must not see the difference. *)
Lemma unmoved_accounts {B} (f : list ConnectedAccount -> prog B) :
  (forall l, f (map blind_account l) = f l) -> (forall l, unmoved (f l)) ->
  unmoved (bind (perform EDbAllAccounts) f).
Proof. intros Hb Hf [l|e]; (split; [|apply Hf || done]); [apply Hb|done]. Qed.

Lemma unmoved_grants {B} n (f : list Grant -> prog B) :
  (forall l, f (map blind_grant l) = f l) -> (forall l, unmoved (f l)) ->
  unmoved (bind (perform (EDbRecentGrants n)) f).
Proof. intros Hb Hf [l|e]; (split; [|apply Hf || done]); [apply Hb|done]. Qed.

Create HintDb blind.
#[local] Hint Resolve unmoved_bind unmoved_attempt unmoved_lift unmoved_ret unmoved_perform
  unmoved_with_session : blind.

(** The routes that list rows. *)
Definition listing (r : console_request) : bool :=
  match r with
  | ListTools | ListAgents | ListAccounts | ListGrants _ | ListAudit _ => true
  | _ => false
  end.

Lemma accounts_blind l : map account_dict (map blind_account l) = map account_dict l.
Proof. rewrite map_map. by apply map_ext. Qed.

Lemma grants_blind now l :
  res_each (grant_dict now) (map blind_grant l) = res_each (grant_dict now) l.
Proof. induction l as [|g l IH]; [done|]. cbn [map res_each]. by rewrite IH. Qed.

(** ** Properties *)

(** C21. The lock on the console.  The check passes exactly when no token is
    configured, or the header equals it and is ASCII; a refusal is the 401,
    or, when one of the two texts is not ASCII, the [TypeError] of
    [compare_digest]; and a refused request of any route runs no effect at
    all, while an admitted one runs its handler and nothing else. *)
Theorem console_gate `{PyJwt} `{PyRepr} `{AesGcm} (state : AppState) {St} (h : handler St) (σ : St)
    (x_console_token : option string) (r : console_request) :
  let expected := console_token (st_settings state) in
  let auth := require_console_auth (st_settings state) x_console_token in
  (auth = Ok tt <->
     expected = "" \/ (x_console_token = Some expected /\ str_all is_ascii expected = true)) /\
  (auth = Ok tt \/ auth = Exn unauthorized \/
   exists token msg, x_console_token = Some token /\ auth = Exn (raise_of TypeError msg) /\
     str_all is_ascii token && str_all is_ascii expected = false) /\
  interp h (console_api state x_console_token r) σ =
    match auth with
    | Ok _ => interp h (handle state r) σ
    | Exn e => ([], Exn e, σ)
    end.
Proof.
  cbn zeta. split; [|split]; unfold console_api, require_console_auth, compare_digest_str.
  - destruct (String.eqb_spec (console_token (st_settings state)) "") as [E|E]; [tauto|].
    destruct x_console_token as [token|]; [|intuition discriminate].
    destruct (str_all is_ascii token && str_all is_ascii _) eqn:Ea; cbn [res_bind].
    + apply andb_true_iff in Ea as [_ Ea].
      destruct (String.eqb_spec token (console_token (st_settings state))) as [->|Hne]; [tauto|].
      split; [done|]. intros [?|[[= ->] _]]; done.
    + split; [done|]. intros [?|[[= ->] Hx]]; [done|]. by rewrite Hx in Ea.
  - destruct (String.eqb _ ""); [by left|]. destruct x_console_token as [token|]; [|by right; left].
    destruct (str_all is_ascii token && str_all is_ascii _) eqn:Ea; cbn [res_bind].
    + destruct (String.eqb _ _); [by left|by right; left].
    + right; right. by eexists token, _.
  - destruct (String.eqb _ ""); [done|]. destruct x_console_token as [token|]; [|done].
    destruct (str_all is_ascii token && str_all is_ascii _); [|done]. cbn [res_bind].
    by destruct (String.eqb _ _).
Qed.


(** C23. Listings disclose no credential.  Whatever the tables hold, every
    listing route answers the same, and leaves the same state, when the
    encrypted token columns of the accounts and the token hashes of the
    grants are erased before the console sees them. *)
Theorem console_listings_blind `{PyJwt} `{PyRepr} `{AesGcm} (state : AppState) {St} (h : handler St)
    (σ : St) (x_console_token : option string) (r : console_request) (Hr : listing r = true) :
  outcome (blinded h) (console_api state x_console_token r) σ =
  outcome h (console_api state x_console_token r) σ.
Proof.
  unfold console_api. apply unmoved_outcome, unmoved_bind; [apply unmoved_lift|]. intros _.
  destruct r as [| | | |limit| | | | |limit]; try discriminate Hr; cbn [handle].
  all: unfold list_tools, list_agents, list_accounts, list_grants, list_audit.
  - apply unmoved_lift.
  - apply unmoved_with_session; auto with blind.
  - apply unmoved_with_session, unmoved_accounts; auto with blind.
    intros l. by rewrite accounts_blind.
  - apply unmoved_bind; auto with blind. intros n.
    apply unmoved_with_session, unmoved_grants; [|auto 6 with blind].
    intros l. f_equal. apply functional_extensionality. intros now. by rewrite grants_blind.
  - apply unmoved_bind; auto with blind.
Qed.

(** A console over the example service, and a database that answers it. *)
Definition example_state : AppState := {|
  st_settings := svc_settings example_service; st_tools := svc_tools example_service;
  st_cipher := svc_cipher example_service; st_grant_cache := true; st_rate_limiter := true;
  st_invoke_service := example_service
|}.

Definition example_tables : handler nat := fun n c =>
  match c return reply c * nat with
  | EDbClose => (Ok tt, S n)
  | EDbAllAccounts => (Ok [example_account], S n)
  | EDbRecentGrants _ => (Ok [example_grant], S n)
  | c => (dead_reply c, S n)
  end.

Lemma console_listings_blind_witness :
  blind_account example_account <> example_account /\
  outcome (blinded example_tables) (@console_api toy_jwt example_repr toy_gcm example_state None ListAccounts) 0%nat =
    (Ok (JArr [account_dict example_account]), 3%nat).
Proof.
  split; [discriminate|].
  rewrite (@console_listings_blind toy_jwt example_repr toy_gcm example_state nat example_tables 0%nat None
    ListAccounts eq_refl).
  reflexivity.
Defined.
