(* ===== verification/World.v ===== *)
(** * Worlds: tasks that share one database

    Many coroutines, in one process or several, share one database and one
    Redis.  A [world] holds the committed tables, the keyspace, the clock and
    the running tasks, each with the uncommitted part of its session.  One step runs one effect of
    one task; the replies are those a PostgreSQL at READ COMMITTED may give:
    a query sees what is committed and what its own session has written, a
    commit publishes the session and fails when a constraint of the schema
    would break, and [SELECT ... FOR UPDATE] waits for the transaction that
    holds the row.  Redis answers as documented, at the clock of the world,
    or its answer is lost.  Everything else may answer anything.

    Locks are exclusive and the constraints of the schema hold in every
    reachable world. *)

From stdpp Require Import base tactics list strings numbers gmap relations.
From S2P Require Import Prelude PyStr Errors Json Uuid Config Models Effects Redis.
Open Scope string_scope.
#[local] Open Scope Z_scope.

(** ** Sessions *)

(** What a session writes before it commits. *)
Inductive write :=
| Inserted (r : db_row)
| Updated (u : db_update).

Definition revoke_row (id : uuid) (t : datetime) (g : Grant) : Grant :=
  if bool_decide (grant_id g = id) then set_revoked_at (Some t) g else g.

Definition on_account (id : uuid) (f : ConnectedAccount -> ConnectedAccount) (a : ConnectedAccount)
  : ConnectedAccount :=
  if bool_decide (acc_id a = id) then f a else a.

Definition with_accounts (f : list ConnectedAccount -> list ConnectedAccount) (db : database) : database :=
  Database (f (db_accounts db)) (db_agents db) (db_grants db) (db_audit db).
Definition with_agents (f : list AgentIdentity -> list AgentIdentity) (db : database) : database :=
  Database (db_accounts db) (f (db_agents db)) (db_grants db) (db_audit db).
Definition with_grants (f : list Grant -> list Grant) (db : database) : database :=
  Database (db_accounts db) (db_agents db) (f (db_grants db)) (db_audit db).
Definition with_audit (f : list ToolCallAuditLog -> list ToolCallAuditLog) (db : database) : database :=
  Database (db_accounts db) (db_agents db) (db_grants db) (f (db_audit db)).

Definition apply_write (db : database) (x : write) : database :=
  match x with
  | Inserted (RowAccount a) => with_accounts (fun l => (l ++ [a])%list) db
  | Inserted (RowAgent a) => with_agents (fun l => (l ++ [a])%list) db
  | Inserted (RowGrant g) => with_grants (fun l => (l ++ [g])%list) db
  | Inserted (RowAudit r) => with_audit (fun l => (l ++ [r])%list) db
  | Updated (SetRevokedAt id t) => with_grants (map (revoke_row id t)) db
  | Updated (SetAccessToken id b) => with_accounts (map (on_account id (set_access_token b))) db
  | Updated (SetRefreshToken id b) => with_accounts (map (on_account id (set_refresh_token b))) db
  | Updated (SetExpiresAt id t) => with_accounts (map (on_account id (set_expires_at t))) db
  end.

(** What a session has not committed, and the agent rows it has locked. *)
Record session := Session { s_locks : list uuid; s_writes : list write }.

Definition fresh_session : session := Session [] [].

(** The tables a session sees, and leaves when it commits. *)
Definition view (s : session) (db : database) : database := foldl apply_write db (s_writes s).

Definition lock_row (id : uuid) (s : session) : session := Session (id :: s_locks s) (s_writes s).
Definition write_row (x : write) (s : session) : session := Session (s_locks s) (s_writes s ++ [x])%list.

(** ** The replies of the database *)

(** [session.get]: the row with the key. *)
Definition gets {A} `{EqDecision A} (rows : list A) (a : res (option A)) : bool :=
  match a with
  | Exn _ => true
  | Ok (Some x) => bool_decide (x ∈ rows)
  | Ok None => bool_decide (rows = [])
  end.

(** [scalar_one_or_none]: more than one row is an error. *)
Definition gets_one {A} `{EqDecision A} (rows : list A) (a : res (option A)) : bool :=
  match a with
  | Exn _ => true
  | Ok (Some x) => bool_decide (rows = [x])
  | Ok None => bool_decide (rows = [])
  end.

(** [order_by(created_at.desc()).limit(1)]. *)
Definition gets_latest (rows : list ConnectedAccount) (a : res (option ConnectedAccount)) : bool :=
  gets rows a &&
  match a with
  | Ok (Some x) => forallb (fun y => instant (acc_created_at y) <=? instant (acc_created_at x)) rows
  | _ => true
  end.

(** What the limit is counted for. *)
Record grant_key := Key { key_agent : uuid; key_tool : string; key_scope : string }.

#[export] Instance grant_key_eq_dec : EqDecision grant_key.
Proof. solve_decision. Defined.

Definition key_of (g : Grant) : grant_key :=
  Key (grant_agent_id g) (grant_tool_name g) (grant_scope g).

(** The condition of the count query at the instant [t]. *)
Definition active_at (k : grant_key) (t : Z) (g : Grant) : bool :=
  bool_decide (key_of g = k) && bool_decide (grant_revoked_at g = None)
    && (t <? instant (aware (grant_expires_at g))).

Definition active_count (k : grant_key) (t : Z) (l : list Grant) : Z :=
  Z.of_nat (length (List.filter (active_at k t) l)).

(** The replies of the clock at [now] and of the database, to a session that
    sees [db]. *)
Definition answers (now : Z) (db : database) (c : eff) : reply c -> bool :=
  match c return reply c -> bool with
  | EUtcNow => fun t => now <=? t
  | ETime => fun t => t =? now
  | EDbCommit => fun a => match a with Ok _ => db_check db | Exn _ => true end
  | EDbAgentForUpdate id => gets (List.filter (fun a => bool_decide (agent_id a = id)) (db_agents db))
  | EDbLatestAccount user provider => gets_latest (accounts_of user provider (db_accounts db))
  | EDbActiveGrants agent tool_name scope now => fun a =>
      match a with
      | Ok n => n =? active_count (Key agent tool_name scope) (instant now) (db_grants db)
      | Exn _ => true
      end
  | EDbGrantById id => gets (List.filter (fun g => bool_decide (grant_id g = id)) (db_grants db))
  | EDbGrantByHash h => gets_one (grants_hashed h (db_grants db))
  | EDbGrantRevokedAt id =>
      gets_one (map grant_revoked_at (List.filter (fun g => bool_decide (grant_id g = id)) (db_grants db)))
  | EDbAccountById id => gets (List.filter (fun a => bool_decide (acc_id a = id)) (db_accounts db))
  | EDbAgentByName name => gets_one (agents_named name (db_agents db))
  | _ => fun _ => true
  end.

(** The replies of Redis at [now]. *)
Definition redis_answers (now : Z) (keys : gmap string redis_entry) (c : eff) : reply c -> bool :=
  let documented {A} `{EqDecision A} (expected : option (res A * gmap string redis_entry)) (a : res A) :=
    match a, expected with
    | Ok x, Some (Ok y, _) => bool_decide (x = y)
    | Ok _, _ => false
    | Exn _, _ => true
    end in
  match c return reply c -> bool with
  | ERedisGet k => documented (redis_exec now (ERedisGet k) keys)
  | ERedisSet k v nx ex => documented (redis_exec now (ERedisSet k v nx ex) keys)
  | ERedisDelete k => documented (redis_exec now (ERedisDelete k) keys)
  | ERedisExists k => documented (redis_exec now (ERedisExists k) keys)
  | ERedisIncr k => documented (redis_exec now (ERedisIncr k) keys)
  | ERedisExpire k secs => documented (redis_exec now (ERedisExpire k secs) keys)
  | _ => fun _ => true
  end.

(** What a command makes of the keyspace.  When its answer is lost,
    [applied] says whether it was executed nevertheless. *)
Definition redis_effect (now : Z) (keys : gmap string redis_entry) (applied : bool) (c : eff)
  : reply c -> gmap string redis_entry :=
  let keys' := match redis_exec now c keys with Some (_, keys') => keys' | None => keys end in
  match c return reply c -> gmap string redis_entry with
  | ERedisSet _ _ _ _ | ERedisDelete _ | ERedisIncr _ | ERedisExpire _ _ => fun a =>
      if is_ok a || applied then keys' else keys
  | _ => fun _ => keys
  end.

(** A reply that some database gives at some time. *)
Definition plausible (c : eff) (a : reply c) : Prop := exists now db, answers now db c a = true.

(** *** What a row in a reply is *)

Lemma gets_in {A} `{EqDecision A} (P : A -> bool) rows x :
  gets (List.filter P rows) (Ok (Some x)) = true -> x ∈ rows /\ P x = true.
Proof.
  intros Hx%(bool_decide_eq_true_1 _). apply list_elem_of_In, List.filter_In in Hx as [Hx HP].
  by rewrite list_elem_of_In.
Qed.

Lemma plausible_agent id a : plausible (EDbAgentForUpdate id) (Ok (Some a)) -> agent_id a = id.
Proof. intros (now & db & [_ Ha]%gets_in). by apply (bool_decide_eq_true_1 _) in Ha. Qed.

Lemma plausible_account user provider a :
  plausible (EDbLatestAccount user provider) (Ok (Some a)) ->
  acc_user_id a = user /\ acc_provider a = provider.
Proof.
  intros (now & db & Ha). cbn in Ha. apply andb_true_iff in Ha as [[_ Ha]%gets_in _].
  apply andb_true_iff in Ha as [Hu Hp%String.eqb_eq]. by apply (bool_decide_eq_true_1 _) in Hu.
Qed.

(** ** Worlds *)

Record task := Task { t_prog : prog unit; t_session : session }.

Record world := World {
  w_now : Z;
  w_db : database;
  w_redis : gmap string redis_entry;
  w_tasks : list task
}.

Definition w_grants (w : world) : list Grant := db_grants (w_db w).

(** A killed process: its transaction is rolled back. *)
Definition idle : task := Task (ret tt) fresh_session.

(** No other task holds the row. *)
Definition lock_free (w : world) (i : nat) (id : uuid) : bool :=
  forallb (fun tk => bool_decide (id ∉ s_locks (t_session tk))) (<[i := idle]> (w_tasks w)).

(** A lock is granted when no other task has it. *)
Definition grants_lock (w : world) (i : nat) (c : eff) : reply c -> bool :=
  match c return reply c -> bool with
  | EDbAgentForUpdate id => fun a => match a with Ok (Some _) => lock_free w i id | _ => true end
  | _ => fun _ => true
  end.

(** The replies task [i], with session [s], may get in [w]. *)
Definition admissible (w : world) (i : nat) (s : session) (c : eff) (a : reply c) : bool :=
  answers (w_now w) (view s (w_db w)) c a && redis_answers (w_now w) (w_redis w) c a
    && grants_lock w i c a.

Lemma admissible_answers w i s c a :
  admissible w i s c a = true -> answers (w_now w) (view s (w_db w)) c a = true.
Proof. unfold admissible. by intros [[Ha _]%andb_true_iff _]%andb_true_iff. Qed.

Lemma admissible_redis w i s c a :
  admissible w i s c a = true -> redis_answers (w_now w) (w_redis w) c a = true.
Proof. unfold admissible. by intros [[_ Ha]%andb_true_iff _]%andb_true_iff. Qed.

(** What the effect does to the clock and the committed tables, when run by a
    task with session [s].  When a commit fails, [applied] says whether it
    took effect nevertheless. *)
Definition effect (now : Z) (db : database) (s : session) (applied : bool) (c : eff)
  : reply c -> Z * database :=
  match c return reply c -> Z * database with
  | EUtcNow => fun t => (t, db)
  | EDbCommit => fun a =>
      (now, if is_ok a || applied && db_check (view s db) then view s db else db)
  | _ => fun _ => (now, db)
  end.

Lemma effect_clock now db s applied c (a : reply c) :
  answers now (view s db) c a = true -> now <= (effect now db s applied c a).1.
Proof. destruct c; try done. by intros ?%Z.leb_le. Qed.

(** ... and to its session. *)
Definition session_after (s : session) (c : eff) : reply c -> session :=
  match c return reply c -> session with
  | EDbAgentForUpdate id => fun a => match a with Ok (Some _) => lock_row id s | _ => s end
  | EDbAdd r => fun _ => write_row (Inserted r) s
  | EDbUpdate u => fun _ => write_row (Updated u) s
  | EDbCommit | EDbRollback | EDbClose => fun _ => fresh_session
  | _ => fun _ => s
  end.

Definition advance (w : world) (i : nat) (s : session) (applied : bool) (c : eff) (a : reply c)
    (k : reply c -> prog unit) : world :=
  let x := effect (w_now w) (w_db w) s applied c a in
  World x.1 x.2 (redis_effect (w_now w) (w_redis w) applied c a)
    (<[i := Task (k a) (session_after s c a)]> (w_tasks w)).

Definition start (p : prog unit) (w : world) : world :=
  World (w_now w) (w_db w) (w_redis w) (w_tasks w ++ [Task p fresh_session])%list.

Record occurrence := Occurs { oc_time : Z; oc_task : nat; oc_event : event }.

Section Worlds.
(** The programs that may be started. *)
Context (code : prog unit -> Prop).

(** One step; the label says when which task ran which event. *)
Inductive wstep : world -> option occurrence -> world -> Prop :=
| W_start w p : code p -> wstep w None (start p w)
| W_run w i c k s applied a :
    w_tasks w !! i = Some (Task (Vis c k) s) -> admissible w i s c a = true ->
    wstep w (Some (Occurs (w_now w) i (Ev c a))) (advance w i s applied c a k)
| W_kill w i : wstep w None (World (w_now w) (w_db w) (w_redis w) (<[i := idle]> (w_tasks w)))
| W_tick w t : w_now w <= t -> wstep w None (World t (w_db w) (w_redis w) (w_tasks w)).

Definition step (w w' : world) : Prop := exists o, wstep w o w'.

(** The events of a sequence of steps. *)
Inductive path : world -> list occurrence -> world -> Prop :=
| path_nil w : path w [] w
| path_cons w o w' t w'' : wstep w o w' -> path w' t w'' -> path w (option_list o ++ t)%list w''.

Lemma path_steps w t w' : path w t w' -> rtc step w w'.
Proof. induction 1 as [|w o w' t w'' Hs _ IH]; [done|]. eapply rtc_l; [by exists o|done]. Qed.

Lemma path_app w t w' t' w'' : path w t w' -> path w' t' w'' -> path w (t ++ t')%list w''.
Proof.
  induction 1 as [|w o w' t w0 Hs _ IH]; intros Hp; [done|]. rewrite <- app_assoc.
  eapply path_cons; [done|by apply IH].
Qed.

Lemma start_path p w : code p -> path w [] (start p w).
Proof. intros Hp. exact (path_cons _ None _ _ _ (W_start _ _ Hp) (path_nil _)). Qed.

(** What every step keeps of the events so far and the world they lead to. *)
Lemma path_grows (I : list occurrence -> world -> Prop) w0 t w :
  (forall t w o w', I t w -> wstep w o w' -> I (t ++ option_list o)%list w') ->
  path w0 t w -> I [] w0 -> I t w.
Proof.
  intros Hstep Hp. rewrite <- (app_nil_l t). generalize (@nil occurrence). induction Hp as [w|w o w' t w'' Hs _ IH];
    intros u Hu; [by rewrite app_nil_r|]. rewrite app_assoc. eauto.
Qed.

(** Before any grant was issued: users may have connected accounts, and
    agents may be registered. *)
Definition deployment (w : world) : Prop :=
  w_tasks w = [] /\ db_wf (w_db w) /\ db_grants (w_db w) = [].

Definition reachable (w : world) : Prop := exists w0, deployment w0 /\ rtc step w0 w.

Lemma reachable_steps w w' : reachable w -> rtc step w w' -> reachable w'.
Proof. intros (w0 & Hw0 & Hw) Hs. exists w0. split; [done|]. by etrans. Qed.

(** *** Running worlds *)

(** Run up to [n] effects of task [i], with the replies [ask] gives. *)
Fixpoint run_task (ask : world -> session -> forall c, reply c) (n : nat) (i : nat) (w : world)
  : world :=
  match n, w_tasks w !! i with
  | S n', Some (Task (Vis c k) s) =>
      if admissible w i s c (ask w s c)
      then run_task ask n' i (advance w i s false c (ask w s c) k)
      else w
  | _, _ => w
  end.

(** ... and the events. *)
Fixpoint run_events (ask : world -> session -> forall c, reply c) (n : nat) (i : nat) (w : world)
  : list occurrence :=
  match n, w_tasks w !! i with
  | S n', Some (Task (Vis c k) s) =>
      if admissible w i s c (ask w s c)
      then Occurs (w_now w) i (Ev c (ask w s c)) :: run_events ask n' i (advance w i s false c (ask w s c) k)
      else []
  | _, _ => []
  end.

Lemma run_task_path ask n i w : path w (run_events ask n i w) (run_task ask n i w).
Proof.
  revert w. induction n as [|n IH]; intros w; [constructor|]. cbn [run_task run_events].
  destruct (w_tasks w !! i) as [[[r|c k] s]|] eqn:E; [constructor| |constructor].
  destruct (admissible w i s c (ask w s c)) eqn:Ea; [|constructor].
  exact (path_cons _ _ _ _ _ (W_run w i c k s false _ E Ea) (IH _)).
Qed.

Lemma run_task_steps ask n i w : rtc step w (run_task ask n i w).
Proof. eapply path_steps, run_task_path. Qed.

Lemma run_task_reachable ask n i w : reachable w -> reachable (run_task ask n i w).
Proof. intros Hw. eapply reachable_steps; [exact Hw|apply run_task_steps]. Qed.

Lemma start_reachable w p : code p -> reachable w -> reachable (start p w).
Proof. intros Hp Hw. eapply reachable_steps; [exact Hw|]. apply rtc_once. eexists. by apply W_start. Qed.

End Worlds.

(** ** Locks are exclusive *)

Definition exclusive (w : world) : Prop :=
  forall i j ti tj id, w_tasks w !! i = Some ti -> w_tasks w !! j = Some tj ->
    id ∈ s_locks (t_session ti) -> id ∈ s_locks (t_session tj) -> i = j.

Lemma lock_free_other w i j tj id :
  lock_free w i id = true -> j <> i -> w_tasks w !! j = Some tj -> id ∉ s_locks (t_session tj).
Proof.
  intros Hf Hj Hl. unfold lock_free in Hf. rewrite List.forallb_forall in Hf.
  apply (bool_decide_eq_true_1 _), Hf, list_elem_of_In, list_elem_of_lookup. exists j.
  by rewrite list_lookup_insert_ne.
Qed.

Lemma locks_after w i s c (a : reply c) id :
  admissible w i s c a = true -> id ∈ s_locks (session_after s c a) ->
  id ∈ s_locks s \/ lock_free w i id = true.
Proof.
  unfold admissible. rewrite !andb_true_iff. intros [_ Hl].
  destruct c; cbn [session_after]; try (by left); try (intros []%elem_of_nil).
  destruct a as [[ag|]|e]; try (by left). cbn in *. intros [->|?]%elem_of_cons; auto.
Qed.

(** One task is replaced by one that holds none of the others' rows. *)
Lemma exclusive_replace w now db keys i tk :
  exclusive w ->
  (forall j tj id, j <> i -> w_tasks w !! j = Some tj ->
     id ∈ s_locks (t_session tk) -> id ∉ s_locks (t_session tj)) ->
  exclusive (World now db keys (<[i := tk]> (w_tasks w))).
Proof.
  intros Hl Hfree j j' tj tj' id. cbn. rewrite !list_lookup_insert_Some.
  intros [(<- & <- & _)|[Hj Ej]] [(<- & <- & _)|[Hj' Ej']] H1 H2; try done.
  - exfalso. by eapply (Hfree j' tj' id).
  - exfalso. by eapply (Hfree j tj id).
  - by eapply Hl.
Qed.

(** The rows a task holds after its step are held by no other. *)
Lemma locks_exclusive w i c k s (a : reply c) j tj id :
  exclusive w -> w_tasks w !! i = Some (Task (Vis c k) s) -> admissible w i s c a = true ->
  j <> i -> w_tasks w !! j = Some tj -> id ∈ s_locks (session_after s c a) ->
  id ∉ s_locks (t_session tj).
Proof.
  intros Hl Hi Ha Hj Ej [Hs|Hf]%(locks_after w i); [|by eapply lock_free_other|done].
  intros Hs'. by apply Hj, (Hl j i tj _ id Ej Hi).
Qed.

Lemma exclusive_step code w w' : step code w w' -> exclusive w -> exclusive w'.
Proof.
  intros [o [w0 p Hp|w0 i c k s applied a Hi Ha|w0 i|w0 t Ht]] Hl.
  - intros i j ti tj id. cbn. intros [[_ Hi]|[_ <-]]%lookup_snoc_Some [[_ Hj]|[_ <-]]%lookup_snoc_Some
      Hin Hjn; try by apply elem_of_nil in Hin || apply elem_of_nil in Hjn.
    by eapply Hl.
  - apply exclusive_replace; [done|]. intros j tj id Hj Ej. by eapply locks_exclusive.
  - apply exclusive_replace; [done|]. by intros j tj id _ _ ?%elem_of_nil.
  - exact Hl.
Qed.

Lemma reachable_exclusive code w : reachable code w -> exclusive w.
Proof.
  intros (w0 & (Ht & _) & Hw). apply (rtc_ind_r exclusive w0) in Hw; [done| |].
  - intros i j ti tj id. by rewrite Ht.
  - intros w1 w2 _ Hs. by eapply exclusive_step.
Qed.

(** ** The constraints of the schema hold of what is committed *)

Lemma effect_wf now db s applied c (a : reply c) :
  answers now (view s db) c a = true -> db_wf db -> db_wf (effect now db s applied c a).2.
Proof.
  intros Ha Hdb. destruct c; cbn [effect snd]; try done. destruct a as [[]|e]; cbn in *.
  - by apply db_check_wf.
  - destruct (applied && db_check (view s db)) eqn:E; [|done]. apply andb_true_iff in E as [_ E].
    by apply db_check_wf.
Qed.

Lemma wf_step code w w' : step code w w' -> db_wf (w_db w) -> db_wf (w_db w').
Proof.
  intros [o [w0 p Hp|w0 i c k s applied a Hi Ha|w0 i|w0 t Ht]] Hdb; try done.
  apply effect_wf; [by eapply admissible_answers|done].
Qed.

Lemma reachable_wf code w : reachable code w -> db_wf (w_db w).
Proof.
  intros (w0 & (_ & Hdb & _) & Hw). apply (rtc_ind_r (fun w => db_wf (w_db w)) w0) in Hw; [done..|].
  intros w1 w2 _ Hs. by eapply wf_step.
Qed.

(** ** What no write undoes *)

Section Keeps.
Context (Q : database -> Prop) (HQ : forall db x, Q db -> Q (apply_write db x)).

Lemma view_keeps s db : Q db -> Q (view s db).
Proof.
  unfold view. generalize (s_writes s). intros l. revert db.
  induction l as [|x l IH]; intros db Hdb; [done|]. apply IH. by apply HQ.
Qed.

Lemma step_keeps code w w' : step code w w' -> Q (w_db w) -> Q (w_db w').
Proof.
  intros [o [w0 p Hp|w0 i c k s applied a Hi Ha|w0 i|w0 t Ht]] Hdb; try done.
  destruct c; try exact Hdb. cbn. match goal with |- context [if ?b then _ else _] => destruct b end; [by apply view_keeps|exact Hdb].
Qed.

Lemma steps_keep code w w' : rtc (step code) w w' -> Q (w_db w) -> Q (w_db w').
Proof. induction 1; eauto using step_keeps. Qed.
End Keeps.
