(* ===== verification/Discipline.v ===== *)
(** * Disciplines: protocols the tasks of a world follow

    A [discipline] says what a task's own effects let it know, what it may do
    knowing that, and what the others' steps may change meanwhile.  When the
    protocol is [Sound] and the code obeys it, every reachable world follows it and
    keeps its invariant ([discipline_reachable]). *)

From stdpp Require Import base tactics list strings numbers relations.
From S2P Require Import Prelude PyStr Errors Json Uuid Config Models Effects World.
Open Scope string_scope.
#[local] Open Scope Z_scope.

(** ** Protocols and disciplines *)

Record protocol := Protocol {
  (* what a task knows from its own effects *)
  p_state : Type;
  p_fresh : p_state;
  p_watch : p_state -> forall c, reply c -> p_state;
  (* what it may do, knowing that *)
  p_may : p_state -> eff -> Prop
}.

(** A protocol the tasks follow on the shared database. *)
Record discipline := Discipline {
  d_protocol :> protocol;
  (* the invariant of what is committed *)
  d_good : Z -> database -> Prop;
  (* the knowledge is right about the session and what is committed *)
  d_fits : Z -> database -> session -> p_state d_protocol -> Prop;
  (* the changes a task that holds these rows can live with *)
  d_mild : list uuid -> Z -> database -> Z -> database -> Prop
}.

(** The protocol works: nobody's step breaks the invariant, the task's own
    knowledge, or what the others know. *)
Class Sound (d : discipline) : Prop := {
  sound_fresh now db : d_fits d now db fresh_session (p_fresh d);
  sound_tick now now' db locks : now <= now' -> d_mild d locks now db now' db;
  sound_later now now' db : now <= now' -> d_good d now db -> d_good d now' db;
  sound_mild now db now' db' s m :
    d_mild d (s_locks s) now db now' db' -> d_fits d now db s m -> d_fits d now' db' s m;
  sound_step now db s m applied c (a : reply c) :
    d_good d now db -> d_fits d now db s m -> p_may d m c -> answers now (view s db) c a = true ->
    let x := effect now db s applied c a in
    d_good d x.1 x.2 /\
    d_fits d x.1 x.2 (session_after s c a) (p_watch d m c a) /\
    forall locks, (forall id, id ∈ s_locks s -> id ∉ locks) -> d_mild d locks now db x.1 x.2
}.

Section Obeys.
Context (d : protocol).

(** The program does only what it may, whatever a database answers. *)
Fixpoint obeys {A} (p : prog A) (Q : p_state d -> res A -> Prop) (m : p_state d) : Prop :=
  match p with
  | Done r => Q m r
  | Vis c k => p_may d m c /\ forall a, plausible c a -> obeys (k a) Q (p_watch d m c a)
  end.

Definition anyway {A} (m : p_state d) (r : res A) : Prop := True.

Lemma obeys_mono {A} (p : prog A) (Q Q' : p_state d -> res A -> Prop) m :
  obeys p Q m -> (forall m r, Q m r -> Q' m r) -> obeys p Q' m.
Proof.
  revert m. induction p as [r|c k IH]; intros m Hp HQ; [by apply HQ|].
  destruct Hp as [Hc Hk]. split; [done|]. intros a Ha. apply IH; [by apply Hk|done].
Qed.

Lemma obeys_bind {A B} (p : prog A) (f : A -> prog B) Q m :
  obeys p (fun m r => match r with Ok a => obeys (f a) Q m | Exn e => Q m (Exn e) end) m ->
  obeys (bind p f) Q m.
Proof.
  revert m. induction p as [[a|e]|c k IH]; intros m Hp; [done|done|].
  destruct Hp as [Hc Hk]. split; [done|]. intros a Ha. by apply IH, Hk.
Qed.

Lemma obeys_do {B} c (f : ans c -> prog B) Q m :
  p_may d m c ->
  (forall a, plausible c a -> match to_res (fallible c) a with
             | Ok x => obeys (f x) Q (p_watch d m c a)
             | Exn e => Q (p_watch d m c a) (Exn e)
             end) ->
  obeys (bind (perform c) f) Q m.
Proof.
  intros Hc Hf. split; [done|]. intros a Ha. specialize (Hf a Ha). cbn [bind].
  by destruct (to_res (fallible c) a).
Qed.

Lemma obeys_attempt {A} (p : prog A) Q m :
  obeys p (fun m r => Q m (Ok r)) m -> obeys (attempt p) Q m.
Proof.
  revert m. induction p as [r|c k IH]; intros m Hp; [done|].
  destruct Hp as [Hc Hk]. split; [done|]. intros a Ha. by apply IH, Hk.
Qed.

Section Bystander.
(** The effects the protocol regulates. *)
Context (P : eff -> bool) (HP : forall c m, P c = false -> p_may d m c).

Lemma obeys_bystander {A} (p : prog A) m : avoids P p -> obeys p anyway m.
Proof.
  revert m. induction p as [r|c k IH]; intros m Hp; [done|]. destruct Hp as [Hc Hk].
  split; [by apply HP|intros a _; by apply IH].
Qed.

Lemma obeys_then {A B} (p : prog A) (f : A -> prog B) m :
  obeys p anyway m -> (forall a, avoids P (f a)) -> obeys (bind p f) anyway m.
Proof.
  intros Hp Hf. apply obeys_bind. eapply obeys_mono; [exact Hp|]. intros m' [a|e] _; [|done].
  by apply obeys_bystander.
Qed.

Lemma obeys_after {A B} (p : prog A) (f : A -> prog B) m :
  avoids P p -> (forall a m', obeys (f a) anyway m') -> obeys (bind p f) anyway m.
Proof.
  intros Hp Hf. apply obeys_bind. eapply obeys_mono; [by apply obeys_bystander|].
  by intros m' [a|e] _.
Qed.

Lemma obeys_attempted {A B} (p : prog A) (f : res A -> prog B) m :
  obeys p anyway m -> (forall r, avoids P (f r)) -> obeys (bind (attempt p) f) anyway m.
Proof.
  intros Hp Hf. apply obeys_then; [|done]. apply obeys_attempt. by eapply obeys_mono.
Qed.

Lemma obeys_session {A} (p : prog A) m :
  P EDbOpen = false -> P EDbClose = false -> obeys p anyway (p_watch d m EDbOpen tt) ->
  obeys (with_session p) anyway m.
Proof.
  intros Ho Hc Hp. apply obeys_do; [by apply HP|]. intros [] _. apply obeys_attempted; [done|].
  intros r. apply avoids_bind; [by apply avoids_perform|intros; apply avoids_lift].
Qed.
End Bystander.

(** Effects the protocol does not see. *)
Lemma obeys_unwatched (P : eff -> bool) {A} (p : prog A) Q m :
  (forall c, P c = false -> p_may d m c /\ forall a, p_watch d m c a = m) ->
  avoids P p -> (forall r, Q m r) -> obeys p Q m.
Proof.
  intros HP Hp HQ. induction p as [r|c k IH]; [apply HQ|]. destruct Hp as [Hc Hk].
  destruct (HP c Hc) as [Hmay Hw]. split; [done|]. intros a _. rewrite Hw. by apply IH.
Qed.
End Obeys.

(** ** What a task knows after a path *)

Section History.
Context (d : protocol) (code : prog unit -> Prop).

Definition learns (i : nat) (m : p_state d) (x : occurrence) : p_state d :=
  if Nat.eqb (oc_task x) i then p_watch d m (ev_eff (oc_event x)) (ev_ans (oc_event x)) else m.

Definition knows (i : nat) (t : list occurrence) : p_state d := foldl (learns i) (p_fresh d) t.

Lemma knows_snoc i t x : knows i (t ++ [x])%list = learns i (knows i t) x.
Proof. unfold knows. by rewrite foldl_app. Qed.

Lemma knows_other i t x : oc_task x <> i -> knows i (t ++ [x])%list = knows i t.
Proof. intros Hne. rewrite knows_snoc. unfold learns. by destruct (Nat.eqb_spec (oc_task x) i). Qed.

(** The task has what is left of its program, and knows what it has seen. *)
Definition follows_on (i : nat) (t : list occurrence) (w : world) : Prop :=
  forall tk, w_tasks w !! i = Some tk -> obeys d (t_prog tk) (anyway d) (knows i t).

Lemma follows_on_step i t w o w' :
  (i < length (w_tasks w))%nat -> follows_on i t w -> wstep code w o w' ->
  follows_on i (t ++ option_list o)%list w'.
Proof.
  intros Hlt Hf Hs tk. destruct Hs as [w p Hp|w j c k s applied a Hj Ha|w j|w n Hn]; cbn; rewrite ?app_nil_r.
  - rewrite lookup_app_l by done. apply Hf.
  - intros [(<- & <- & _)|[Hne Ei]]%list_lookup_insert_Some.
    + rewrite knows_snoc. unfold learns. cbn. rewrite Nat.eqb_refl. destruct (Hf _ Hj) as [_ Hk].
      apply Hk. eexists _, _. by eapply admissible_answers.
    + rewrite knows_other by done. by apply Hf.
  - intros [(_ & <- & _)|[Hne Ei]]%list_lookup_insert_Some; [done|by apply Hf].
  - apply Hf.
Qed.

(** Its events are ones it may perform. *)
Lemma follows_on_may t w x w' :
  wstep code w (Some x) w' -> follows_on (oc_task x) t w ->
  p_may d (knows (oc_task x) t) (ev_eff (oc_event x)).
Proof.
  intros Hs Hf. inversion Hs as [|? i c k s applied a Hi Ha| |]; subst. by destruct (Hf _ Hi).
Qed.

Lemma tasks_grow w o w' : wstep code w o w' -> (length (w_tasks w) <= length (w_tasks w'))%nat.
Proof. intros [w1 p Hp|w1 j c k s applied a Hj Ha|w1 j|w1 n Hn]; cbn; rewrite ?length_app, ?length_insert; lia. Qed.

(** So are all the events of a task that is started with a program that
    obeys, whatever the others do. *)
Record abiding (i : nat) (t : list occurrence) (w : world) : Prop := {
  ab_born : (i < length (w_tasks w))%nat;
  ab_follows : follows_on i t w;
  ab_may : forall t1 x t2, t = (t1 ++ x :: t2)%list -> oc_task x = i ->
    p_may d (knows i t1) (ev_eff (oc_event x))
}.

Lemma abiding_step i t w o w' :
  abiding i t w -> wstep code w o w' -> abiding i (t ++ option_list o)%list w'.
Proof.
  intros [Hlt Hf Hall] Hs. split; [eapply Nat.lt_le_trans; [done|by eapply tasks_grow]|
    by eapply follows_on_step|].
  intros t1 x t2 E Hi. destruct o as [y|]; cbn in E.
  - apply split_snoc in E as [(-> & -> & ->)|(t2' & -> & ->)]; [|by eapply Hall].
    rewrite <- Hi in Hf |- *. by eapply follows_on_may.
  - rewrite app_nil_r in E. by eapply Hall.
Qed.

Lemma started_may p w t w' :
  obeys d p (anyway d) (p_fresh d) -> path code (start p w) t w' ->
  abiding (length (w_tasks w)) t w'.
Proof.
  intros Hp Ht. apply (path_grows code _ _ _ _ (abiding_step _) Ht). split.
  - cbn. rewrite length_app. cbn. lia.
  - intros tk. cbn. rewrite lookup_app_r, Nat.sub_diag by lia. by intros [= <-].
  - intros [|e u] x t2 E; discriminate.
Qed.

(** *** When all the code follows *)

Context (Hcode : forall p, code p -> obeys d p (anyway d) (p_fresh d)).

(** Every task follows, and a task not yet started knows nothing. *)
Record following (t : list occurrence) (w : world) : Prop := {
  fo_tasks : forall i, follows_on i t w;
  fo_unborn : forall i, (length (w_tasks w) <= i)%nat -> knows i t = p_fresh d
}.

Lemma following_start w : w_tasks w = [] -> following [] w.
Proof. intros Hw. split; [|done]. intros i tk. by rewrite Hw. Qed.

Lemma following_step t w o w' :
  following t w -> wstep code w o w' -> following (t ++ option_list o)%list w'.
Proof.
  intros [Ht Hu] Hs. split.
  - intros i. destruct (decide (i < length (w_tasks w))%nat) as [Hlt|Hge]; [by eapply follows_on_step|].
    destruct Hs as [w p Hp|w j c k s applied a Hj Ha|w j|w n Hn]; intros tk; cbn; rewrite ?app_nil_r.
    + intros [[_ Hi]|[-> <-]]%lookup_snoc_Some; [by apply Ht|]. rewrite Hu by lia. by apply Hcode.
    + intros Hi%lookup_lt_Some. rewrite length_insert in Hi. lia.
    + intros Hi%lookup_lt_Some. rewrite length_insert in Hi. lia.
    + apply Ht.
  - intros i Hi. pose proof (tasks_grow _ _ _ Hs) as Hg. destruct Hs as [w p Hp|w j c k s applied a Hj Ha|w j|w n Hn];
      cbn; rewrite ?app_nil_r; try (apply Hu; lia).
    rewrite knows_other; [apply Hu; lia|]. cbn in *. intros <-. rewrite length_insert in Hi.
    apply lookup_lt_Some in Hj. lia.
Qed.

(** Each event is one its task may perform. *)
Lemma following_may t w x w' :
  following t w -> wstep code w (Some x) w' ->
  p_may d (knows (oc_task x) t) (ev_eff (oc_event x)).
Proof. intros [Ht _] Hs. by eapply follows_on_may. Qed.

(** ... all along the path. *)
Lemma path_may w0 t w t1 x t2 :
  w_tasks w0 = [] -> path code w0 t w -> t = (t1 ++ x :: t2)%list ->
  p_may d (knows (oc_task x) t1) (ev_eff (oc_event x)).
Proof.
  intros Hw0 Ht. revert t1 x t2.
  apply (path_grows code (fun t w => following t w /\ forall t1 x t2, t = (t1 ++ x :: t2)%list ->
    p_may d (knows (oc_task x) t1) (ev_eff (oc_event x))) w0 t w); [|exact Ht|].
  - intros u w1 o w2 [Hf Hall] Hs. split; [by eapply following_step|]. intros t1 x t2 E.
    destruct o as [y|]; cbn in E; [|rewrite app_nil_r in E; by eapply Hall].
    apply split_snoc in E as [(-> & -> & ->)|(t2' & -> & ->)]; [|by eapply Hall]. by eapply following_may.
  - split; [by apply following_start|]. intros [|e u] x t2 E; discriminate.
Qed.
End History.

(** ** What a sound discipline gives *)

Section Disciplined.
Context (d : discipline) `{!Sound d}.

Record follows (now : Z) (db : database) (tk : task) : Prop := {
  follows_knowing : exists m, d_fits d now db (t_session tk) m /\ obeys d (t_prog tk) (anyway d) m
}.

(** A world whose tasks all follow the protocol. *)
Record disciplined (w : world) : Prop := {
  di_good : d_good d (w_now w) (w_db w);
  di_tasks : Forall (follows (w_now w) (w_db w)) (w_tasks w);
  di_exclusive : exclusive w
}.

Lemma follows_fresh now db p : obeys d p (anyway d) (p_fresh d) -> follows now db (Task p fresh_session).
Proof. intros Hp. split. exists (p_fresh d). split; [apply sound_fresh|done]. Qed.

Lemma follows_idle now db : follows now db idle.
Proof. by apply follows_fresh. Qed.

Lemma follows_mild now db now' db' tk :
  d_mild d (s_locks (t_session tk)) now db now' db' -> follows now db tk -> follows now' db' tk.
Proof.
  intros Hm [(m & Hf & Ho)]. split. exists m. split; [by eapply sound_mild|done].
Qed.

Lemma follows_run w i c k s applied (a : reply c) :
  disciplined w -> w_tasks w !! i = Some (Task (Vis c k) s) -> admissible w i s c a = true ->
  let x := effect (w_now w) (w_db w) s applied c a in
  d_good d x.1 x.2 /\ follows x.1 x.2 (Task (k a) (session_after s c a)) /\
  forall locks, (forall id, id ∈ s_locks s -> id ∉ locks) -> d_mild d locks (w_now w) (w_db w) x.1 x.2.
Proof.
  intros [Hg Ht _] Hi Ha%admissible_answers.
  pose proof (Forall_lookup_1 _ _ _ _ Ht Hi) as [(m & Hf & Hmay & Hk)].
  destruct (sound_step (w_now w) (w_db w) s m applied c a Hg Hf Hmay Ha) as (Hg' & Hf' & Hm).
  split; [done|]. split; [|done]. split. exists (p_watch d m c a). split; [done|]. apply Hk. by eexists _, _.
Qed.

Lemma disciplined_run w i c k s applied (a : reply c) :
  disciplined w -> w_tasks w !! i = Some (Task (Vis c k) s) -> admissible w i s c a = true ->
  disciplined (advance w i s applied c a k).
Proof.
  intros Hw Hi Ha. destruct (follows_run w i c k s applied a Hw Hi Ha) as (Hg & Hf & Hm).
  destruct Hw as [_ Ht Hl]. unfold advance. split; cbn.
  - done.
  - apply Forall_lookup_2. intros j tj [(<- & <- & _)|[Hj Ej]]%list_lookup_insert_Some; [done|].
    pose proof (Forall_lookup_1 _ _ _ _ Ht Ej). eapply follows_mild; [|done]. apply Hm.
    intros id Hs Hs'. by apply Hj, (Hl i j _ tj id Hi Ej).
  - apply exclusive_replace; [done|]. intros j tj id Hj Ej. by eapply locks_exclusive.
Qed.

Lemma disciplined_step (code : prog unit -> Prop) w w' :
  (forall p, code p -> obeys d p (anyway d) (p_fresh d)) -> step code w w' ->
  disciplined w -> disciplined w'.
Proof.
  intros Hcode Hs Hw. pose proof (exclusive_step _ _ _ Hs (di_exclusive _ Hw)) as Hl'.
  destruct Hs as [o Hs]; destruct Hs as [w p Hp|w i c k s applied a Hi Ha|w i|w t Ht].
  - destruct Hw as [Hg Ht Hl]. split; [done| |done]. apply Forall_app. split; [done|].
    apply Forall_singleton. by apply follows_fresh, Hcode.
  - by apply disciplined_run.
  - destruct Hw as [Hg Ht Hl]. split; [done| |done]. apply Forall_insert; [done|apply follows_idle].
  - destruct Hw as [Hg Htk Hl]. split; [by eapply sound_later| |done]. eapply Forall_impl; [exact Htk|].
    intros tk. apply follows_mild. by apply sound_tick.
Qed.

Lemma disciplined_steps (code : prog unit -> Prop) w w' :
  (forall p, code p -> obeys d p (anyway d) (p_fresh d)) -> rtc (step code) w w' ->
  disciplined w -> disciplined w'.
Proof. intros Hcode. induction 1; eauto using disciplined_step. Qed.

Lemma discipline_reachable (code : prog unit -> Prop) w :
  (forall p, code p -> obeys d p (anyway d) (p_fresh d)) ->
  (forall now db, db_wf db -> db_grants db = [] -> d_good d now db) ->
  reachable code w -> disciplined w.
Proof.
  intros Hcode Hgood (w0 & (Ht & Hdb & Hg) & Hw). apply (disciplined_steps code w0 w Hcode Hw).
  split; [by apply Hgood|by rewrite Ht|]. intros i j ti tj id. by rewrite Ht.
Qed.
End Disciplined.
