(* ===== verification/Limit.v ===== *)
(** * The limit on active grants, as a discipline

    A task writes a grant only after counting below the limit, under the
    agent's lock and at a time it has read, in a session that had written
    nothing.  The invariant is that no key ever has more active grants than
    the limit. *)

From stdpp Require Import base tactics list strings numbers.
From S2P Require Import Prelude PyStr Errors Json Uuid Config Models Effects World Discipline.
Open Scope string_scope.
#[local] Open Scope Z_scope.

(** ** What a task knows *)

(** The times it has read, the agents it holds locked, whether its session
    has written, and the key for which it has counted room. *)
Record monitor := Monitor {
  m_seen : list Z;
  m_locks : list uuid;
  m_dirty : bool;
  m_room : option grant_key
}.

Definition fresh_monitor : monitor := Monitor [] [] false None.

Section Protocol.
Context (limit : Z).

Definition watch (m : monitor) (c : eff) : reply c -> monitor :=
  match c return reply c -> monitor with
  | EUtcNow => fun t => Monitor (t :: m_seen m) (m_locks m) (m_dirty m) (m_room m)
  | EDbAgentForUpdate id => fun a =>
      match a with
      | Ok (Some _) => Monitor (m_seen m) (id :: m_locks m) (m_dirty m) (m_room m)
      | _ => m
      end
  | EDbActiveGrants agent tool_name scope now => fun a =>
      match a with
      | Ok n =>
          if bool_decide (agent ∈ m_locks m) && bool_decide (instant now ∈ m_seen m)
             && negb (m_dirty m) && (n <? limit)
          then Monitor (m_seen m) (m_locks m) (m_dirty m) (Some (Key agent tool_name scope))
          else m
      | Exn _ => m
      end
  | EDbAdd (RowGrant _) => fun _ => Monitor (m_seen m) (m_locks m) true None
  | EDbAdd _ | EDbUpdate _ => fun _ => Monitor (m_seen m) (m_locks m) true (m_room m)
  | EDbCommit | EDbRollback | EDbClose => fun _ => Monitor (m_seen m) [] false None
  | _ => fun _ => m
  end.

(** A grant is written only where there is room for it. *)
Definition may (m : monitor) (c : eff) : Prop :=
  match c with
  | EDbAdd (RowGrant g) => m_room m = Some (key_of g)
  | _ => True
  end.

(** ** The invariant *)

Definition bounded (now : Z) (db : database) : Prop :=
  forall k t, now <= t -> active_count k t (db_grants db) <= Z.max 0 limit.

(** There is room for one more grant, and the agent's row is locked. *)
Definition room (now : Z) (db : database) (s : session) (k : grant_key) : Prop :=
  key_agent k ∈ s_locks s /\
  forall t, now <= t -> active_count k t (db_grants db) < limit.

(** The grants a session adds, before its updates. *)
Definition added (s : session) : list Grant :=
  omap (fun x => match x with Inserted (RowGrant g) => Some g | _ => None end) (s_writes s).

Record tracked (now : Z) (db : database) (s : session) (m : monitor) : Prop := {
  tr_locks : s_locks s = m_locks m;
  tr_seen : forall t, t ∈ m_seen m -> t <= now;
  tr_clean : m_dirty m = false -> s_writes s = [];
  tr_room : forall k, m_room m = Some k -> added s = [] /\ room now db s k;
  tr_adds : added s = [] \/ exists g, added s = [g] /\ room now db s (key_of g)
}.

(** Time passes, and nothing is added for the agents locked. *)
Definition milder (locks : list uuid) (now : Z) (db : database) (now' : Z) (db' : database) : Prop :=
  now <= now' /\
  forall k t, key_agent k ∈ locks -> now' <= t ->
    active_count k t (db_grants db') <= active_count k t (db_grants db).

Definition limit_discipline : discipline :=
  {| d_protocol :=
       {| p_state := monitor; p_fresh := fresh_monitor; p_watch := watch; p_may := may |};
     d_good := bounded; d_fits := tracked; d_mild := milder |}.
End Protocol.

#[global] Arguments added : simpl never.

(** ** Counting *)

Lemma count_app k t l l' : active_count k t (l ++ l')%list = active_count k t l + active_count k t l'.
Proof. unfold active_count. rewrite List.filter_app, length_app. lia. Qed.

Lemma count_nonneg k t l : 0 <= active_count k t l.
Proof. unfold active_count. lia. Qed.

(** Fewer grants are active when fewer are, one by one. *)
Lemma count_pointwise k k' t t' l (f : Grant -> Grant) :
  (forall g, active_at k' t' (f g) = true -> active_at k t g = true) ->
  active_count k' t' (map f l) <= active_count k t l.
Proof.
  intros Hf. unfold active_count. induction l as [|g l IH]; [done|]. cbn [map List.filter].
  specialize (Hf g). destruct (active_at k' t' (f g)); [rewrite Hf by done; cbn [length]; lia|].
  destruct (active_at k t g); cbn [length]; lia.
Qed.

Lemma count_later k t t' l : t <= t' -> active_count k t' l <= active_count k t l.
Proof.
  intros Ht. rewrite <- (map_id l) at 1. apply count_pointwise. intros g. unfold active_at.
  rewrite !andb_true_iff, !Z.ltb_lt. intros [[-> ->] ?]. repeat split. lia.
Qed.

Lemma count_revoked k t l (id : uuid) (d : datetime) :
  active_count k t (map (revoke_row id d) l) <= active_count k t l.
Proof.
  apply count_pointwise. intros g. unfold revoke_row. destruct (bool_decide (grant_id g = id)); [|done].
  unfold active_at. cbn [set_revoked_at grant_revoked_at].
  by rewrite (bool_decide_eq_false_2 (Some d = None)), andb_false_r by done.
Qed.

Lemma count_one k t g : active_count k t [g] <= 1.
Proof. unfold active_count. cbn. destruct (active_at k t g); cbn; lia. Qed.

Lemma count_other k t g : key_of g <> k -> active_count k t [g] = 0.
Proof. intros Hk. unfold active_count, active_at. cbn. by rewrite bool_decide_eq_false_2. Qed.

(** One write adds at most the grant it inserts. *)
Lemma count_write k t db x :
  active_count k t (db_grants (apply_write db x)) <=
  active_count k t (db_grants db) +
  match x with Inserted (RowGrant g) => active_count k t [g] | _ => 0 end.
Proof.
  destruct x as [[]|[]]; cbn; try lia.
  - rewrite count_app. lia.
  - rewrite Z.add_0_r. apply count_revoked.
Qed.

Lemma count_view k t s db :
  active_count k t (db_grants (view s db)) <= active_count k t (db_grants db) + active_count k t (added s).
Proof.
  unfold view, added. generalize (s_writes s). intros l. revert db.
  induction l as [|x l IH]; intros db; cbn [foldl omap list_omap]; [unfold active_count at 3; cbn; lia|].
  etransitivity; [apply IH|]. pose proof (count_write k t db x).
  destruct x as [[]|]; try lia. rewrite (count_app k t [g] _ : active_count k t (g :: _) = _). lia.
Qed.

Lemma view_clean s db : s_writes s = [] -> view s db = db.
Proof. unfold view. by intros ->. Qed.

(** ** The protocol works *)

Section Sound.
Context (limit : Z).

Lemma bounded_later now now' db : now <= now' -> bounded limit now db -> bounded limit now' db.
Proof. intros Hn Hb k t Ht. apply Hb. lia. Qed.

Lemma room_milder now db now' db' s k :
  milder (s_locks s) now db now' db' -> room limit now db s k -> room limit now' db' s k.
Proof.
  intros [Hn Hc] [Hl Hr]. split; [done|]. intros t Ht. eapply Z.le_lt_trans; [by apply Hc|].
  apply Hr. lia.
Qed.

Lemma milder_later locks now now' db : now <= now' -> milder locks now db now' db.
Proof. done. Qed.

#[local] Hint Resolve bounded_later milder_later room_milder : core.

Lemma tracked_fresh now db m :
  m_locks m = [] -> m_room m = None -> (forall t, t ∈ m_seen m -> t <= now) ->
  tracked limit now db fresh_session m.
Proof. intros El Er Hs. split; cbn; try done; [by rewrite Er|by left]. Qed.

Lemma tracked_milder now db now' db' s m :
  milder (s_locks s) now db now' db' -> tracked limit now db s m -> tracked limit now' db' s m.
Proof.
  intros Hm [Hl Hs Hc Hr Ha]. split; [done| |done| |].
  - intros t Ht. destruct Hm as [Hn _]. specialize (Hs t Ht). lia.
  - intros k Hk. destruct (Hr k Hk). eauto.
  - destruct Ha as [Ha|(g & Ha & Hg)]; [by left|right]. eauto.
Qed.

(** A commit: at most one grant is added, where there was room for it. *)
Lemma view_bounded now db s m :
  tracked limit now db s m -> bounded limit now db -> bounded limit now (view s db).
Proof.
  intros [_ _ _ _ Ha] Hb k t Ht. pose proof (count_view k t s db) as Hv.
  specialize (Hb k t Ht). destruct Ha as [Ha|(g & Ha & _ & Hg)]; rewrite Ha in Hv.
  - unfold active_count at 3 in Hv. cbn in Hv. lia.
  - destruct (decide (key_of g = k)) as [<-|Hk].
    + specialize (Hg t Ht). pose proof (count_one (key_of g) t g). lia.
    + rewrite count_other in Hv by done. lia.
Qed.

Lemma view_milder now db s m locks :
  tracked limit now db s m -> (forall id, id ∈ s_locks s -> id ∉ locks) ->
  milder locks now db now (view s db).
Proof.
  intros [_ _ _ _ Ha] Hfree. split; [done|]. intros k t Hk _.
  pose proof (count_view k t s db) as Hv. destruct Ha as [Ha|(g & Ha & Hg & _)]; rewrite Ha in Hv.
  - unfold active_count at 3 in Hv. cbn in Hv. lia.
  - rewrite count_other in Hv; [lia|]. intros <-. by apply (Hfree _ Hg).
Qed.

(** *** What each kind of effect teaches *)

Section Kinds.
Context (now : Z) (db : database) (s : session) (m : monitor).
Context (Hb : bounded limit now db) (Htr : tracked limit now db s m).

Lemma tracked_clock t : now <= t -> tracked limit t db s (Monitor (t :: m_seen m) (m_locks m) (m_dirty m) (m_room m)).
Proof.
  intros Ht. destruct (tracked_milder now db t db s m (milder_later _ _ _ _ Ht) Htr) as [Hl Hs Hc Hr Ha].
  split; try done. cbn. intros t' [->|Hin]%elem_of_cons; [lia|auto].
Qed.

Lemma room_locked id k : room limit now db s k -> room limit now db (lock_row id s) k.
Proof. intros [Hl Hr]. split; [cbn; by right|done]. Qed.

#[local] Hint Resolve room_locked : core.

Lemma tracked_lock id :
  tracked limit now db (lock_row id s) (Monitor (m_seen m) (id :: m_locks m) (m_dirty m) (m_room m)).
Proof.
  destruct Htr as [Hl Hs Hc Hr Ha]. split; cbn; try done; [by rewrite Hl|..].
  - intros k Hk. destruct (Hr k Hk). auto.
  - destruct Ha as [?|(g & ? & ?)]; [by left|right; eauto].
Qed.

Lemma tracked_count agent tool_name scope at_ n :
  answers now (view s db) (EDbActiveGrants agent tool_name scope at_) (Ok n) = true ->
  tracked limit now db s (watch limit m (EDbActiveGrants agent tool_name scope at_) (Ok n)).
Proof.
  intros Ha%Z.eqb_eq. cbn [watch]. destruct (_ && (n <? limit)) eqn:E; [|done].
  rewrite !andb_true_iff, !bool_decide_eq_true, negb_true_iff, Z.ltb_lt in E.
  destruct E as [[[Hin Hnow] Hd] Hn]. destruct Htr as [Hl Hs Hc Hr Had]. split; cbn; try done.
  intros k [= <-]. specialize (Hc Hd). unfold added. rewrite Hc. split; [done|].
  split; [cbn; by rewrite Hl|]. intros t Ht. rewrite view_clean in Ha by done. specialize (Hs _ Hnow).
  eapply Z.le_lt_trans; [apply (count_later _ (instant at_)); lia|lia].
Qed.

Lemma added_write x :
  added (write_row x s) =
  (added s ++ match x with Inserted (RowGrant g) => [g] | _ => [] end)%list.
Proof. unfold added. cbn. rewrite omap_app. by destruct x as [[]|]. Qed.

Lemma tracked_insert g :
  m_room m = Some (key_of g) ->
  tracked limit now db (write_row (Inserted (RowGrant g)) s) (Monitor (m_seen m) (m_locks m) true None).
Proof.
  destruct Htr as [Hl Hs Hc Hr Ha]. intros (Ea & Hroom)%Hr. split; cbn; try done.
  right. exists g. by rewrite added_write, Ea.
Qed.

Lemma tracked_write x :
  match x with Inserted (RowGrant _) => False | _ => True end ->
  tracked limit now db (write_row x s) (Monitor (m_seen m) (m_locks m) true (m_room m)).
Proof.
  intros Hx. assert (Ea : added (write_row x s) = added s).
  { rewrite added_write. destruct x as [[]|]; rewrite ?app_nil_r; done. }
  destruct Htr as [Hl Hs Hc Hr Ha]. split; cbn; rewrite ?Ea; done.
Qed.

Lemma tracked_end db' : tracked limit now db' fresh_session (Monitor (m_seen m) [] false None).
Proof. apply tracked_fresh; try done. apply Htr. Qed.
End Kinds.

#[export] Instance limit_sound : Sound (limit_discipline limit).
Proof.
  split; cbn [d_protocol d_good d_fits d_mild p_may p_watch p_fresh limit_discipline].
  - intros now db. apply tracked_fresh; try done. by intros t ?%elem_of_nil.
  - intros. by apply milder_later.
  - intros now now' db. apply bounded_later.
  - intros now db now' db' s m. apply tracked_milder.
  - intros now db s m applied c a Hb Htr Hmay Ha. cbn zeta.
    destruct c; cbn [effect session_after watch fst snd];
      try (split; [done|split; [done|intros; by apply milder_later]]).
    + apply Z.leb_le in Ha. split; [by eapply bounded_later|]. split; [by apply (tracked_clock now)|].
      intros. by apply milder_later.
    + split; [done|]. split; [by eapply tracked_end|]. intros. by apply milder_later.
    + split; [done|]. split; [|intros; by apply milder_later].
      destruct r; first [by apply tracked_insert|by apply tracked_write].
    + split; [done|]. split; [by apply tracked_write|]. intros. by apply milder_later.
    + destruct (is_ok a || _); (split; [|split]).
      * by eapply view_bounded.
      * by eapply tracked_end.
      * intros locks Hf. by eapply view_milder.
      * done.
      * by eapply tracked_end.
      * intros. by apply milder_later.
    + split; [done|]. split; [by eapply tracked_end|]. intros. by apply milder_later.
    + split; [done|]. split; [|intros; by apply milder_later].
      destruct a as [[ag|]|e]; [by apply tracked_lock|done..].
    + split; [done|]. split; [|intros; by apply milder_later].
      destruct a as [n|e]; [by apply tracked_count|done].
Qed.
End Sound.

(** ** Programs the protocol leaves alone *)

(** A program that writes no grant obeys wherever it starts. *)
Definition adds_grant (c : eff) : bool :=
  match c with EDbAdd (RowGrant _) => true | _ => false end.

Lemma adds_grant_may c m : adds_grant c = false -> may m c.
Proof. destruct c; try done. by destruct r. Qed.

(** Effects the monitor does not see. *)
Definition watched (c : eff) : bool :=
  match c with EUtcNow => true | c => is_db c end.

Lemma unwatched_watch limit c m :
  watched c = false -> may m c /\ forall a, watch limit m c a = m.
Proof. by destruct c. Qed.
