(* ===== verification/Policy.v ===== *)
(** * The grants that policy allows, as a discipline

    A task writes a grant only for an agent row and an account row it has
    read: the agent's policy names the tool, the scope is the tool's, the
    account belongs to the agent's user at the tool's provider, and the grant
    lives one TTL from a time the task has read.  The invariant is that every
    committed grant is of this kind, for rows that are still there. *)

From stdpp Require Import base tactics list strings numbers gmap.
From S2P Require Import Prelude PyStr Errors Json Uuid Config Models Effects Tools World Discipline Limit.
Open Scope string_scope.
#[local] Open Scope Z_scope.

(** ** What policy allows *)

Section Protocol.
Context (tools : registry) (ttl : Z).

Record allowed_by (agent : AgentIdentity) (account : ConnectedAccount) (g : Grant) : Prop := {
  al_tool : exists tool, tools !! grant_tool_name g = Some tool /\
    grant_scope g = tool_scope tool /\ acc_provider account = tool_provider tool;
  al_policy : grant_tool_name g ∈ agent_allowed_scopes agent;
  al_agent : grant_agent_id g = agent_id agent;
  al_account : grant_connected_account_id g = acc_id account;
  al_user : acc_user_id account = agent_user_id agent
}.

(** It lives one TTL. *)
Definition one_ttl (g : Grant) : Prop :=
  instant (grant_expires_at g) = instant (grant_issued_at g) + seconds ttl.

Record lawful (now : Z) (db : database) (g : Grant) : Prop := {
  lw_rows : exists agent account, agent ∈ db_agents db /\ account ∈ db_accounts db /\
    allowed_by agent account g;
  lw_ttl : one_ttl g;
  lw_past : instant (grant_issued_at g) <= now
}.

Definition all_lawful (now : Z) (db : database) : Prop := Forall (lawful now db) (db_grants db).

(** ** What a task knows *)

(** The times, the agents and the accounts it has read. *)
Record knowledge := Knowledge {
  k_seen : list Z;
  k_agents : list AgentIdentity;
  k_accounts : list ConnectedAccount
}.

Definition learn (k : knowledge) (c : eff) : reply c -> knowledge :=
  match c return reply c -> knowledge with
  | EUtcNow => fun t => Knowledge (t :: k_seen k) (k_agents k) (k_accounts k)
  | EDbAgentForUpdate _ => fun a =>
      match a with
      | Ok (Some agent) => Knowledge (k_seen k) (agent :: k_agents k) (k_accounts k)
      | _ => k
      end
  | EDbLatestAccount _ _ => fun a =>
      match a with
      | Ok (Some account) => Knowledge (k_seen k) (k_agents k) (account :: k_accounts k)
      | _ => k
      end
  | EDbCommit | EDbRollback | EDbClose => fun _ => Knowledge (k_seen k) [] []
  | _ => fun _ => k
  end.

Definition entitled (k : knowledge) (g : Grant) : Prop :=
  (exists agent account, agent ∈ k_agents k /\ account ∈ k_accounts k /\ allowed_by agent account g) /\
  instant (grant_issued_at g) ∈ k_seen k /\ one_ttl g.

Definition may_issue (k : knowledge) (c : eff) : Prop :=
  match c with EDbAdd (RowGrant g) => entitled k g | _ => True end.

(** ** What stays *)

(** The columns of an account that nothing assigns. *)
Definition owner (a : ConnectedAccount) : uuid * uuid * string :=
  (acc_id a, acc_user_id a, acc_provider a).

Definition owners (db : database) : list (uuid * uuid * string) := owner <$> db_accounts db.

(** Agents and owners are added, never removed. *)
Record grows (db db' : database) : Prop := {
  gr_agents : db_agents db ⊆ db_agents db';
  gr_owners : owners db ⊆ owners db'
}.

Record informed (now : Z) (db : database) (s : session) (k : knowledge) : Prop := {
  in_seen : forall t, t ∈ k_seen k -> t <= now;
  in_agents : k_agents k ⊆ db_agents (view s db);
  in_accounts : (owner <$> k_accounts k) ⊆ owners (view s db);
  in_added : Forall (lawful now (view s db)) (added s)
}.

Definition policy_discipline : discipline :=
  {| d_protocol :=
       {| p_state := knowledge; p_fresh := Knowledge [] [] []; p_watch := learn; p_may := may_issue |};
     d_good := all_lawful; d_fits := informed;
     d_mild := fun _ now db now' db' => now <= now' /\ grows db db' |}.

(** *** The rows in view *)

#[export] Instance grows_preorder : PreOrder grows.
Proof.
  split; [by split|]. intros db1 db2 db3 [Ha Ho] [Ha' Ho']. split; etrans; eauto.
Qed.

(** What one write adds. *)
Definition new_agents (x : write) : list AgentIdentity :=
  match x with Inserted (RowAgent a) => [a] | _ => [] end.
Definition new_owners (x : write) : list (uuid * uuid * string) :=
  match x with Inserted (RowAccount a) => [owner a] | _ => [] end.

Lemma agents_write db x : db_agents (apply_write db x) = (db_agents db ++ new_agents x)%list.
Proof. destruct x as [[]|[]]; cbn; by rewrite ?app_nil_r. Qed.

(** Assigning columns the owner does not depend on. *)
Lemma owners_mapped id f l :
  (forall a, owner (f a) = owner a) -> owner <$> map (on_account id f) l = owner <$> l.
Proof.
  intros Hf. induction l as [|a l IH]; [done|]. cbn. rewrite <- IH. f_equal.
  unfold on_account. by destruct (bool_decide _).
Qed.

Lemma owners_write db x : owners (apply_write db x) = (owners db ++ new_owners x)%list.
Proof.
  unfold owners. destruct x as [[]|[]]; cbn; rewrite ?app_nil_r; try done.
  - by rewrite fmap_app.
  - by apply owners_mapped.
  - by apply owners_mapped.
  - by apply owners_mapped.
Qed.

Lemma grows_write db x : grows db (apply_write db x).
Proof. split; rewrite ?agents_write, ?owners_write; set_solver. Qed.

Lemma grows_writes db l : grows db (foldl apply_write db l).
Proof.
  revert db. induction l as [|x l IH]; intros db; [done|]. cbn. etrans; [apply grows_write|apply IH].
Qed.

(** A session sees more of a table that has grown. *)
Lemma grows_view s db db' : grows db db' -> grows (view s db) (view s db').
Proof.
  unfold view. generalize (s_writes s). intros l. revert db db'.
  induction l as [|x l IH]; intros db db' [Ha Ho]; [done|]. cbn. apply IH.
  split; rewrite ?agents_write, ?owners_write; set_solver.
Qed.

Lemma view_write s x db : view (write_row x s) db = apply_write (view s db) x.
Proof. unfold view. cbn. by rewrite foldl_app. Qed.

(** *** What stays lawful *)

Lemma allowed_owner agent a a' g : owner a = owner a' -> allowed_by agent a g -> allowed_by agent a' g.
Proof.
  intros [= E1 E2 E3] [(tool & Ht & Hs & Hp) Hn Ha Hc Hu]. split; try congruence.
  exists tool. splits; congruence.
Qed.

Lemma lawful_grows now db now' db' g :
  now <= now' -> grows db db' -> lawful now db g -> lawful now' db' g.
Proof.
  intros Hn [Ha Ho] [(agent & a & Hag & Hac & Hal) Httl Hpast]. split; [|done|lia].
  assert (Hin : owner a ∈ owners db') by (apply Ho; by apply list_elem_of_fmap_2).
  apply list_elem_of_fmap in Hin as (a' & E & Ha'). exists agent, a'.
  split; [by apply Ha|]. split; [done|]. by eapply allowed_owner.
Qed.

Lemma lawful_revoked now db t g : lawful now db g -> lawful now db (set_revoked_at t g).
Proof. intros [(agent & a & ? & ? & []) ? ?]. split; [|done..]. exists agent, a. by repeat split. Qed.

(** The grants in view are those committed and those added, some revoked. *)
Lemma view_grants (P : Grant -> Prop) s db :
  (forall t g, P g -> P (set_revoked_at t g)) ->
  Forall P (db_grants db) -> Forall P (added s) -> Forall P (db_grants (view s db)).
Proof.
  intros HP. unfold view, added. generalize (s_writes s). intros l. revert db.
  induction l as [|x l IH]; intros db Hdb Hadd; [done|]. cbn in Hadd |- *.
  destruct x as [[]|[]]; try (by apply IH).
  - apply Forall_cons in Hadd as [Hg Hadd]. apply IH; [|done]. cbn. apply Forall_app.
    split; [done|]. by apply Forall_singleton.
  - apply IH; [|done]. cbn. apply Forall_fmap. eapply Forall_impl; [exact Hdb|].
    intros g Hg. cbn. unfold revoke_row. destruct (bool_decide _); auto.
Qed.

(** ** The protocol works *)

Lemma all_lawful_later now now' db : now <= now' -> all_lawful now db -> all_lawful now' db.
Proof. intros Hn Hdb. eapply Forall_impl; [exact Hdb|]. intros g. by apply lawful_grows. Qed.

Lemma informed_mild now db now' db' s k :
  now <= now' -> grows db db' -> informed now db s k -> informed now' db' s k.
Proof.
  intros Hn Hg [Hs Ha Hc Hadd]. pose proof (grows_view s _ _ Hg) as Hv.
  split.
  - intros t Ht. specialize (Hs t Ht). lia.
  - etrans; [done|apply Hv].
  - etrans; [done|apply Hv].
  - eapply Forall_impl; [exact Hadd|]. intros g. by apply lawful_grows.
Qed.

(** A commit keeps the rows and adds lawful grants. *)
Lemma view_lawful now db s k :
  all_lawful now db -> informed now db s k -> all_lawful now (view s db) /\ grows db (view s db).
Proof.
  intros Hdb [_ _ _ Hadd]. pose proof (grows_writes db (s_writes s)) as Hg. split; [|done].
  apply view_grants; [intros; by apply lawful_revoked| |done].
  eapply Forall_impl; [exact Hdb|]. intros g. by apply lawful_grows.
Qed.

Section Kinds.
Context (now : Z) (db : database) (s : session) (k : knowledge) (Hk : informed now db s k).

Lemma informed_end db' : informed now db' fresh_session (Knowledge (k_seen k) [] []).
Proof. split; [apply Hk|cbn; set_solver..|constructor]. Qed.

Lemma informed_clock t :
  now <= t -> informed t db s (Knowledge (t :: k_seen k) (k_agents k) (k_accounts k)).
Proof.
  intros Ht. destruct (informed_mild now db t db s k Ht (reflexivity db) Hk) as [Hs Ha Hc Hadd].
  split; try done. cbn. intros t' [->|Hin]%elem_of_cons; [lia|auto].
Qed.

Lemma informed_lock id : informed now db (lock_row id s) k.
Proof. by destruct Hk. Qed.

Lemma informed_agent s' agent :
  s_writes s' = s_writes s -> agent ∈ db_agents (view s db) ->
  informed now db s' (Knowledge (k_seen k) (agent :: k_agents k) (k_accounts k)).
Proof.
  intros E Ha. assert (Ev : view s' db = view s db) by (unfold view; by rewrite E).
  destruct Hk as [? Hin ? Hadd]. split; rewrite ?Ev; try done; [set_solver|].
  unfold added in *. by rewrite E.
Qed.

Lemma informed_account a :
  a ∈ db_accounts (view s db) ->
  informed now db s (Knowledge (k_seen k) (k_agents k) (a :: k_accounts k)).
Proof.
  intros Ha. destruct Hk as [? ? Hin ?]. split; try done. cbn.
  assert (owner a ∈ owners (view s db)) by by apply list_elem_of_fmap_2. set_solver.
Qed.

Lemma entitled_lawful g : entitled k g -> lawful now (view s db) g.
Proof.
  intros ((agent & a & Hag & Hac & Hal) & Hseen & Httl). destruct Hk as [Hs Ha Hc _].
  split; [|done|by apply Hs].
  assert (Hin : owner a ∈ owners (view s db)) by (apply Hc; by apply list_elem_of_fmap_2).
  apply list_elem_of_fmap in Hin as (a' & E & Ha'). exists agent, a'.
  split; [by apply Ha|]. split; [done|]. by eapply allowed_owner.
Qed.

Lemma informed_write x :
  match x with Inserted (RowGrant g) => entitled k g | _ => True end -> informed now db (write_row x s) k.
Proof.
  intros Hx. pose proof (grows_write (view s db) x) as Hg. pose proof Hk as [Hs Ha Hc Hadd].
  split; rewrite ?view_write; [done|etrans; [done|apply Hg]..|].
  rewrite added_write. apply Forall_app. split.
  - eapply Forall_impl; [exact Hadd|]. intros g. by apply lawful_grows.
  - destruct x as [[]|]; try constructor; [|done]. eapply lawful_grows; [done|exact Hg|].
    by apply entitled_lawful.
Qed.
End Kinds.

#[export] Instance policy_sound : Sound policy_discipline.
Proof.
  split; cbn [d_protocol d_good d_fits d_mild p_may p_watch p_fresh policy_discipline].
  - intros now db. split; cbn; set_solver.
  - done.
  - intros now now' db. apply all_lawful_later.
  - intros now db now' db' s m [Hn Hg]. by apply informed_mild.
  - intros now db s k applied c a Hgood Hk Hmay Ha. cbn zeta.
    destruct c; cbn [effect session_after learn fst snd]; try (split; [done|split; done]).
    + apply Z.leb_le in Ha. split; [by eapply all_lawful_later|]. split; [by eapply informed_clock|].
      intros. by split.
    + split; [done|]. split; [by eapply informed_end|done].
    + split; [done|]. split; [|done]. by apply informed_write.
    + split; [done|]. split; [|done]. by apply informed_write.
    + destruct (view_lawful _ _ _ _ Hgood Hk) as [Hl Hg].
      destruct (is_ok a || _); (split; [done|]); (split; [by eapply informed_end|done]).
    + split; [done|]. split; [by eapply informed_end|done].
    + split; [done|]. split; [|done]. destruct a as [[agent|]|e]; try done.
      cbn in Ha. apply (informed_agent _ _ s); [done..|]. by apply gets_in in Ha as [Ha _].
    + split; [done|]. split; [|done]. destruct a as [[account|]|e]; try done.
      apply informed_account; [done|]. cbn in Ha. apply andb_true_iff in Ha as [Ha _].
      by apply gets_in in Ha as [Ha _].
Qed.
End Protocol.
