(* ===== verification/Ledger.v ===== *)
(** * The broker's ledger

    What the broker promises about its grants, as a machine of five
    transitions over four values: the clock, the agents, the owners of the
    connected accounts and the grants in the order they were issued.  Every
    step of a world whose tasks follow the disciplines of the limit and of
    the policy is a run of this machine ([step_refines]); the machine itself
    keeps to the limit and never loses or revives a grant ([ledger_limit],
    [ledger_history]). *)

From stdpp Require Import base tactics list strings numbers gmap relations.
From S2P Require Import Prelude PyStr Errors Json Uuid Config Models Effects Tools World Discipline Limit Policy.
Open Scope string_scope.
#[local] Open Scope Z_scope.

(** ** The machine *)

(** An account's id, its user and its provider. *)
Abbreviation owner_row := (uuid * uuid * string)%type.

Record ledger := Ledger {
  l_now : Z;
  l_agents : list AgentIdentity;
  l_owners : list owner_row;
  l_grants : list Grant
}.

Definition owner_id (o : owner_row) : uuid := o.1.1.

Section Machine.
Context (tools : registry) (ttl limit : Z).

(** An agent whose policy names the tool, an account of the agent's user at
    the tool's provider, the tool's scope, one TTL, an id and a token of its
    own, and fewer active grants than the limit. *)
Record issuable (l : ledger) (g : Grant) : Prop := {
  li_policy : exists agent tool,
    agent ∈ l_agents l /\ agent_id agent = grant_agent_id g /\
    tools !! grant_tool_name g = Some tool /\ grant_tool_name g ∈ agent_allowed_scopes agent /\
    grant_scope g = tool_scope tool /\
    (grant_connected_account_id g, agent_user_id agent, tool_provider tool) ∈ l_owners l;
  li_ttl : one_ttl ttl g;
  li_past : instant (grant_issued_at g) <= l_now l;
  li_id : grant_id g ∉ grant_id <$> l_grants l;
  li_token : grant_token_hash g ∉ grant_token_hash <$> l_grants l;
  li_room : active_count (key_of g) (l_now l) (l_grants l) < limit
}.

Inductive ledger_step : ledger -> ledger -> Prop :=
| Tick now now' agents owners grants :
    now <= now' -> ledger_step (Ledger now agents owners grants) (Ledger now' agents owners grants)
| Register now agents owners grants agent :
    agent_id agent ∉ agent_id <$> agents ->
    ledger_step (Ledger now agents owners grants) (Ledger now (agents ++ [agent])%list owners grants)
| Connect now agents owners grants o :
    owner_id o ∉ owner_id <$> owners ->
    ledger_step (Ledger now agents owners grants) (Ledger now agents (owners ++ [o])%list grants)
| Issue now agents owners grants g :
    issuable (Ledger now agents owners grants) g ->
    ledger_step (Ledger now agents owners grants) (Ledger now agents owners (grants ++ [g])%list)
| Revoke now agents owners grants id time :
    ledger_step (Ledger now agents owners grants)
      (Ledger now agents owners (map (revoke_row id time) grants)).

(** *** What it keeps *)

Definition within_limit (l : ledger) : Prop :=
  forall k t, l_now l <= t -> active_count k t (l_grants l) <= Z.max 0 limit.

Lemma ledger_limit l l' : rtc ledger_step l l' -> within_limit l -> within_limit l'.
Proof.
  induction 1 as [|l l1 l' Hs _ IH]; [done|]. intros Hl. apply IH. clear IH.
  destruct Hs as [now now' agents owners grants Hn|now agents owners grants agent Ha|now agents owners grants o Ho
    |now agents owners grants g Hg|now agents owners grants id time]; intros k t Ht; cbn in *.
  - apply Hl. cbn. lia.
  - by apply Hl.
  - by apply Hl.
  - rewrite count_app. specialize (Hl k t Ht). cbn in Hl. destruct (decide (key_of g = k)) as [<-|Hk].
    + pose proof (li_room _ _ Hg) as Hr. cbn in Hr. pose proof (count_one (key_of g) t g).
      pose proof (count_later (key_of g) now t grants Ht). lia.
    + rewrite count_other by done. lia.
  - etransitivity; [apply count_revoked|by apply Hl].
Qed.

(** A grant that changed only by being revoked. *)
Definition outlives (g g' : Grant) : Prop :=
  g' = g \/ exists time, g' = set_revoked_at (Some time) g.

#[export] Instance outlives_preorder : PreOrder outlives.
Proof.
  split; [by left|]. intros g1 g2 g3 [->|[t ->]] [->|[t' ->]]; [by left|by right; exists t'|by right; exists t|].
  right. exists t'. by destruct g1.
Qed.

Lemma outlives_revoked g g' : outlives g g' -> is_Some (grant_revoked_at g) -> is_Some (grant_revoked_at g').
Proof. by intros [->|[t ->]]; [|by eexists]. Qed.

(** The grants stay, in their order, and others come after them. *)
Definition continues (l l' : list Grant) : Prop :=
  exists kept new, l' = (kept ++ new)%list /\ Forall2 outlives l kept.

Lemma ledger_history l l' : rtc ledger_step l l' -> continues (l_grants l) (l_grants l').
Proof.
  intros Hs. apply (rtc_ind_r (fun l' => continues (l_grants l) (l_grants l')) l) in Hs; [done| |].
  - exists (l_grants l), []. split; [by rewrite app_nil_r|]. by apply Forall_Forall2_diag, Forall_true.
  - clear l' Hs. intros l1 l2 _ Hs (kept & new & E & Hk). destruct Hs; cbn in *; subst; try (by exists kept, new).
    + exists kept, (new ++ [g])%list. by rewrite app_assoc.
    + exists (map (revoke_row id time) kept), (map (revoke_row id time) new). split; [by rewrite map_app|].
      apply Forall2_fmap_r. eapply Forall2_impl; [exact Hk|]. intros g g' Hg. cbn. transitivity g'; [exact Hg|].
      unfold revoke_row. destruct (bool_decide _); [right; by exists time|by left].
Qed.
End Machine.

(** ** The ledger of a world *)

Definition ledger_of (now : Z) (db : database) : ledger :=
  Ledger now (db_agents db) (owners db) (db_grants db).

Definition abs (w : world) : ledger := ledger_of (w_now w) (w_db w).

(** *** What a commit leaves, table by table *)

Definition agents_of (l : list write) : list AgentIdentity := flat_map new_agents l.
Definition owners_of (l : list write) : list owner_row := flat_map new_owners l.

Lemma agents_writes db l : db_agents (foldl apply_write db l) = (db_agents db ++ agents_of l)%list.
Proof.
  revert db. induction l as [|x l IH]; intros db; cbn; [by rewrite app_nil_r|].
  by rewrite IH, agents_write, app_assoc.
Qed.

Lemma owners_writes db l : owners (foldl apply_write db l) = (owners db ++ owners_of l)%list.
Proof.
  revert db. induction l as [|x l IH]; intros db; cbn; [by rewrite app_nil_r|].
  by rewrite IH, owners_write, app_assoc.
Qed.

Lemma owner_ids db : owner_id <$> owners db = acc_id <$> db_accounts db.
Proof. unfold owners. rewrite <- list_fmap_compose. by apply list_fmap_ext. Qed.

(** A column no revocation changes. *)
Section Column.
Context {B : Type} (f : Grant -> B) (Hf : forall t g, f (set_revoked_at t g) = f g).

Lemma column_revoked id t l : f <$> map (revoke_row id t) l = f <$> l.
Proof.
  induction l as [|g l IH]; [done|]. cbn. rewrite IH. f_equal. unfold revoke_row. by destruct (bool_decide _).
Qed.

(** It only grows. *)
Lemma column_writes db l :
  exists new, f <$> db_grants (foldl apply_write db l) = ((f <$> db_grants db) ++ new)%list.
Proof.
  revert db. induction l as [|x l IH]; intros db; [exists []; by rewrite app_nil_r|]. cbn.
  destruct (IH (apply_write db x)) as [new ->]. destruct x as [[]|[]]; cbn; try (by exists new).
  - rewrite fmap_app. cbn. rewrite <- app_assoc. by eexists.
  - rewrite column_revoked. by exists new.
Qed.

(** No two grants of the commit share it with one that comes before. *)
Lemma column_fresh db g l :
  NoDup (f <$> db_grants (foldl apply_write (apply_write db (Inserted (RowGrant g))) l)) ->
  f g ∉ f <$> db_grants db.
Proof.
  destruct (column_writes (apply_write db (Inserted (RowGrant g))) l) as [new ->]. cbn.
  rewrite fmap_app. cbn. intros [Hnd _]%list.NoDup_app. apply list.NoDup_app in Hnd as (_ & Hin & _).
  intros Hg. apply (Hin _ Hg). by constructor.
Qed.
End Column.

Section Refinement.
Context (tools : registry) (ttl limit : Z).

Abbreviation step_to := (rtc (ledger_step tools ttl limit)).

(** *** A commit is a run *)

Lemma registers now agents new owners grants :
  NoDup (agent_id <$> (agents ++ new)%list) ->
  step_to (Ledger now agents owners grants) (Ledger now (agents ++ new)%list owners grants).
Proof.
  revert agents. induction new as [|a new IH]; intros agents Hnd; [by rewrite app_nil_r|].
  eapply rtc_l; [apply (Register _ _ _ _ _ _ _ a)|].
  - rewrite fmap_app in Hnd. apply list.NoDup_app in Hnd as (_ & Hin & _). intros Ha.
    apply (Hin _ Ha). by constructor.
  - change (a :: new) with ([a] ++ new)%list in *. rewrite app_assoc in *. by apply IH.
Qed.

Lemma connects now agents owners new grants :
  NoDup (owner_id <$> (owners ++ new)%list) ->
  step_to (Ledger now agents owners grants) (Ledger now agents (owners ++ new)%list grants).
Proof.
  revert owners. induction new as [|o new IH]; intros owners Hnd; [by rewrite app_nil_r|].
  eapply rtc_l; [apply (Connect _ _ _ _ _ _ _ o)|].
  - rewrite fmap_app in Hnd. apply list.NoDup_app in Hnd as (_ & Hin & _). intros Ho.
    apply (Hin _ Ho). by constructor.
  - change (o :: new) with ([o] ++ new)%list in *. rewrite app_assoc in *. by apply IH.
Qed.

(** The grants of a list of writes. *)
Definition inserted (l : list write) : list Grant :=
  omap (fun x => match x with Inserted (RowGrant g) => Some g | _ => None end) l.

(** What the disciplines say of the one grant a commit may add. *)
Definition ready (now : Z) (agents : list AgentIdentity) (owners : list owner_row) (db : database) (g : Grant)
  : Prop :=
  active_count (key_of g) now (db_grants db) < limit /\
  (exists agent tool,
     agent ∈ agents /\ agent_id agent = grant_agent_id g /\
     tools !! grant_tool_name g = Some tool /\ grant_tool_name g ∈ agent_allowed_scopes agent /\
     grant_scope g = tool_scope tool /\
     (grant_connected_account_id g, agent_user_id agent, tool_provider tool) ∈ owners) /\
  one_ttl ttl g /\ instant (grant_issued_at g) <= now.

Lemma writes_run now agents owners l db :
  inserted l = [] \/ (exists g, inserted l = [g] /\ ready now agents owners db g) ->
  NoDup (grant_id <$> db_grants (foldl apply_write db l)) ->
  NoDup (grant_token_hash <$> db_grants (foldl apply_write db l)) ->
  step_to (Ledger now agents owners (db_grants db))
    (Ledger now agents owners (db_grants (foldl apply_write db l))).
Proof.
  revert db. induction l as [|x l IH]; intros db Hone Hid Hhash; [done|]. cbn in Hid, Hhash |- *.
  specialize (IH (apply_write db x)). destruct x as [[a|a|g|a]|[id t|id b|id b|id t]]; try exact (IH Hone Hid Hhash).
  - change (inserted (Inserted (RowGrant g) :: l)) with (g :: inserted l) in Hone.
    destruct Hone as [|(g' & [= -> Hrest] & Hroom & Hpol & Httl & Hpast)]; [done|].
    eapply rtc_l; [apply (Issue _ _ _ _ _ _ _ g')|].
    + split; cbn; try done; [by eapply (column_fresh grant_id)|by eapply (column_fresh grant_token_hash)].
    + by apply IH; [left| |].
  - eapply rtc_l; [apply (Revoke _ _ _ _ _ _ _ id t)|].
    apply IH; [|done..].
    destruct Hone as [|(g & Hg & Hroom & Hrest)]; [by left|right]. exists g. split; [done|]. split; [|done].
    eapply Z.le_lt_trans; [apply count_revoked|exact Hroom].
Qed.

Lemma commit_run now db s m k :
  tracked limit now db s m -> informed tools ttl now db s k -> db_check (view s db) = true ->
  step_to (ledger_of now db) (ledger_of now (view s db)).
Proof.
  intros [_ _ _ _ Hadds] [_ _ _ Hlaw] Hwf%db_check_wf. unfold ledger_of.
  transitivity (Ledger now (db_agents (view s db)) (owners (view s db)) (db_grants db)).
  { unfold view. rewrite agents_writes, owners_writes.
    transitivity (Ledger now (db_agents db ++ agents_of (s_writes s))%list (owners db) (db_grants db)).
    - apply registers. rewrite <- agents_writes. apply Hwf.
    - apply connects. rewrite <- owners_writes, owner_ids. apply Hwf. }
  apply writes_run; [|apply Hwf..]. destruct Hadds as [Ha|(g & Ha & _ & Hroom)]; [by left|right].
  exists g. split; [exact Ha|]. split; [apply Hroom; lia|]. rewrite Ha in Hlaw.
  apply Forall_singleton in Hlaw as [(agent & account & Hag & Hac & [(tool & Et & Es & Ep) Hn Hi Hc Hu]) Httl Hpast].
  split; [|done]. exists agent, tool. splits; try done.
  replace (grant_connected_account_id g, agent_user_id agent, tool_provider tool) with (owner account);
    [by apply list_elem_of_fmap_2|]. unfold owner. congruence.
Qed.

(** *** Every step of a world is a run *)

Lemma tick_run now now' db : now <= now' -> step_to (ledger_of now db) (ledger_of now' db).
Proof. intros Hn. apply rtc_once. by apply Tick. Qed.

Lemma step_refines code w w' :
  disciplined (limit_discipline limit) w -> disciplined (policy_discipline tools ttl) w ->
  step code w w' -> step_to (abs w) (abs w').
Proof.
  intros Hl Hp [o Hs]. destruct Hs as [w p Hc|w i c k s applied a Hi Ha|w i|w t Ht]; [done| |done|by apply tick_run].
  apply di_tasks in Hl, Hp. pose proof (Forall_lookup_1 _ _ _ _ Hl Hi) as [(m & Hm & _)].
  pose proof (Forall_lookup_1 _ _ _ _ Hp Hi) as [(k' & Hk & _)].
  apply admissible_answers in Ha. destruct c; try done; unfold abs, advance; cbn [w_now w_db effect fst snd].
  - apply tick_run. by apply Z.leb_le in Ha.
  - destruct (is_ok a || applied && db_check (view s (w_db w)))%bool eqn:E; [|done]. eapply commit_run; [exact Hm|exact Hk|].
    destruct a as [[]|e]; [done|]. by apply andb_true_iff in E as [_ E].
Qed.

Lemma steps_refine (code : prog unit -> Prop) w w' :
  (forall p, code p -> obeys (limit_discipline limit) p (anyway _) (p_fresh (limit_discipline limit))) ->
  (forall p, code p -> obeys (policy_discipline tools ttl) p (anyway _) (p_fresh (policy_discipline tools ttl))) ->
  disciplined (limit_discipline limit) w -> disciplined (policy_discipline tools ttl) w ->
  rtc (step code) w w' -> step_to (abs w) (abs w').
Proof.
  intros Hcl Hcp Hl Hp Hs. induction Hs as [|w w1 w' Hs _ IH]; [done|].
  transitivity (abs w1); [by eapply step_refines|].
  apply IH; [by apply (disciplined_step _ code w w1 Hcl Hs)|by apply (disciplined_step _ code w w1 Hcp Hs)].
Qed.
End Refinement.
