(* ===== verification/Reservation.v ===== *)
(** * Reservations of idempotency keys, across tasks

    A key of the idempotency store is reserved with SET NX, and settled by
    its holder: completed with SET, or released with DEL.  The protocol of a
    key ([key_protocol]) says that a task settles it only under a
    reservation of its own, and writes it in no other way; invocations
    follow it.  In every world whose tasks follow it, when no settlement
    lands after its reservation has expired, a reservation keeps the key to
    its holder, and a completed result keeps it to nobody. *)

From stdpp Require Import base tactics list strings numbers gmap relations.
From S2P Require Import Prelude PyStr Errors Json Uuid Config Models Breaker Effects Redaction Retry.
From S2P Require Import Redis Kms Tokens Tools Cache Idempotency Grants AuditLog Invoke InvokeAudit.
From S2P Require Import World Discipline.
Import IdempotencyStore.
Open Scope string_scope.
#[local] Open Scope Z_scope.

(** ** The protocol of a key *)

Section Key.
Context (k : string) (window : Z).

(** The key is reserved. *)
Definition reserves (e : event) : bool :=
  match e with Ev (ERedisSet k' _ true _) (Ok true) => String.eqb k' k | _ => false end.

(** It is completed or released; the reply may be lost. *)
Definition settles (e : event) : bool :=
  match ev_eff e with
  | ERedisSet k' _ false _ | ERedisDelete k' => String.eqb k' k
  | _ => false
  end.

Definition completes (e : event) : bool :=
  match e with Ev (ERedisSet k' _ false _) (Ok true) => String.eqb k' k | _ => false end.

(** Whether the task has a reservation that it has not settled. *)
Definition holds (m : bool) (c : eff) (a : reply c) : bool :=
  if reserves (Ev c a) then true else if settles (Ev c a) then false else m.

Definition may_write (m : bool) (c : eff) : Prop :=
  match c with
  | ERedisSet k' _ true ex => k' = k -> ex = RESERVATION_TTL_SECONDS
  | ERedisSet k' _ false ex => k' = k -> m = true /\ ex = window
  | ERedisDelete k' => k' = k -> m = true
  | ERedisIncr k' | ERedisExpire k' _ => k' <> k
  | _ => True
  end.

Definition key_protocol : protocol :=
  {| p_state := bool; p_fresh := false; p_watch := holds; p_may := may_write |}.
End Key.

(** ** Invocations follow it *)

Section Invocations.
Context `{PyJwt} `{PyRepr} `{AesGcm} (full_key : string) (window : Z).

Abbreviation k := (name full_key).
Abbreviation orderly p := (obeys (key_protocol k window) p (anyway (key_protocol k window))).

(** Nothing else is on a key of the store. *)
Lemma other_commands c (m : bool) :
  idem_write c = false -> may_write k window m c /\ forall a, holds k m c a = m.
Proof.
  assert (Hk : forall k', startswith KEY_PREFIX k' = false -> k' <> k).
  { intros k' Hk' ->. by rewrite startswith_app in Hk'. }
  intros Hc. destruct c; try done; cbn in Hc; pose proof (Hk _ Hc) as Hne; unfold holds; cbn.
  - apply String.eqb_neq in Hne as Hne'. rewrite Hne'. split; [by destruct nx|].
    intros a. destruct nx; [|done]. by destruct a as [[]|].
  - apply String.eqb_neq in Hne as Hne'. by rewrite Hne'.
  - done.
  - done.
Qed.

Lemma orderly_aside {A} (p : prog A) m : avoids idem_write p -> orderly p m.
Proof. intros Hp. apply (obeys_unwatched _ idem_write); [intros c; apply other_commands|done..]. Qed.

(** A prefix that leaves the keys alone. *)
Lemma orderly_then {A B} (p : prog A) (f : A -> prog B) m :
  avoids idem_write p -> (forall a, orderly (f a) m) -> orderly (bind p f) m.
Proof.
  intros Hp Hf. apply obeys_bind, (obeys_unwatched _ idem_write); [intros c; apply other_commands|done|].
  by intros [a|e].
Qed.

(** ... and a suffix. *)
Lemma orderly_before {A B} (p : prog A) (f : A -> prog B) m :
  orderly p m -> (forall a, avoids idem_write (f a)) -> orderly (bind p f) m.
Proof.
  intros Hp Hf. apply (obeys_then _ idem_write); [|done..]. intros c m' Hc. by apply other_commands.
Qed.

(** *** The store's operations and the idempotency step *)

Section Step.
Context (s : IdempotencyStore.t) (Hs : window_seconds s = window).

Lemma complete_orderly key result owner (m : bool) :
  (name key = k -> m = true) -> orderly (complete s key result (Some owner)) m.
Proof.
  intros Hm. unfold complete. apply orderly_then; [done|]. intros v.
  destruct (same_value _ _); [|done]. apply obeys_do; [cbn; auto|]. by intros [a|e] _.
Qed.

Lemma release_orderly key owner (m : bool) :
  (name key = k -> m = true) -> orderly (release key (Some owner)) m.
Proof.
  intros Hm. unfold release. apply orderly_then; [done|]. intros [v|]; [|done].
  destruct (negb _); [done|]. destruct (String.eqb _ _); [|done].
  apply obeys_do; [cbn; auto|]. by intros [a|e] _.
Qed.

Lemma reserved_orderly key owner call (m : bool) :
  avoids idem_write call -> (name key = k -> m = true) -> orderly (reserved_call s key owner call) m.
Proof.
  intros Hc Hm. unfold reserved_call. apply orderly_then; [by apply avoids_attempt|]. intros [o|e].
  - apply orderly_before; [|done]. destruct (oc_status o); [by apply complete_orderly|by apply release_orderly..].
  - apply orderly_before; [by apply release_orderly|done].
Qed.

Lemma idempotent_orderly key start call (m : bool) :
  avoids idem_write call -> orderly (idempotent_call s key start call) m.
Proof.
  intros Hc. unfold idempotent_call, conflict_outcome, denied, succeeded.
  assert (Hout : forall status result error reason start cached,
    avoids idem_write (outcome_of status result error reason start cached))
    by (intros; unfold outcome_of, elapsed_ms, scrub; avoid).
  apply orderly_then; [unfold get; avoid|]. intros [[cached|]|e];
    [by apply orderly_aside| |destruct (isinstance e _); [by apply orderly_aside|done]].
  unfold reserve. apply obeys_bind, obeys_do; [done|]. intros owner _. cbn [to_res fallible].
  apply obeys_do; [cbn; done|]. intros claimed _. destruct claimed as [[|]|e]; [| |done].
  - apply reserved_orderly; [done|]. intros Hk. cbn. unfold holds. cbn. rewrite Hk.
    by rewrite String.eqb_refl.
  - by apply orderly_aside.
Qed.
End Step.

(** *** A whole invocation *)

Context (svc : InvokeService) (Hsvc : svc_contract svc).
Context (Hstore : forall s, svc_idempotency_store svc = Some s -> window_seconds s = window).

Lemma marked_aside {A} (p : prog A) : avoids is_marked p -> avoids idem_write p.
Proof. apply avoids_part. by intros c (_ & ? & _)%unmarked. Qed.

Lemma outcome_aside status result error reason start cached :
  avoids idem_write (outcome_of status result error reason start cached).
Proof. apply marked_aside, outcome_avoids. Qed.

#[local] Hint Resolve outcome_aside : avoids.

Lemma resolved_orderly grant th tool_name arguments key fast start m :
  orderly (invoke_resolved svc grant th tool_name arguments key fast start) m.
Proof.
  unfold invoke_resolved, denied. destruct (_ || _)%bool; [apply orderly_aside, outcome_aside|].
  do 2 (apply orderly_then; [done|intros ?]).
  match goal with x : bool |- _ => destruct x end; [apply orderly_aside, outcome_aside|].
  apply orderly_then; [unfold check; destruct (svc_rate_limiter svc); avoid|]. intros [|]; cbn [negb].
  2: { apply orderly_aside. avoid. }
  unfold resolved_tool, get_tool, denied.
  destruct (svc_tools svc !! tool_name) as [tool|] eqn:Et; cbn [or_raise].
  2: { destruct (isinstance _ _); [apply orderly_aside, outcome_aside|done]. }
  destruct (negb _); [apply orderly_aside, outcome_aside|].
  pose proof (marked_aside _ (execute_avoids svc Hsvc tool_name grant th tool arguments start Et)) as He.
  destruct key as [key|]; [|by apply orderly_aside].
  destruct (svc_idempotency_store svc) as [s|] eqn:Es; [|by apply orderly_aside].
  apply idempotent_orderly; auto.
Qed.

Lemma session_orderly claims th tool_name arguments key start m :
  orderly (invoke_in_session svc claims th tool_name arguments key start) m.
Proof.
  unfold invoke_in_session. apply orderly_then; [unfold is_revoked; destruct (svc_grant_cache svc); avoid|].
  intros fast. apply orderly_then; [done|]. intros [grant|]; [|apply orderly_aside; unfold denied; avoid].
  apply orderly_before; [|intros o; unfold record_call; avoid]. unfold audited_call.
  apply obeys_bind, obeys_attempt. eapply obeys_mono; [apply resolved_orderly|].
  intros m' [o|e] _; apply orderly_aside; unfold scrub, failed; avoid.
Qed.

Lemma invoke_orderly token tool_name arguments key m :
  orderly (invoke svc token tool_name arguments key) m.
Proof.
  unfold invoke. apply orderly_then; [done|]. intros start.
  apply orderly_then; [unfold verify_grant_token; avoid|].
  intros [claims|e]; [|apply orderly_aside; unfold denied; avoid].
  destruct (negb _); [apply orderly_aside; unfold denied; avoid|].
  unfold with_session. apply orderly_then; [done|]. intros _.
  apply obeys_bind, obeys_attempt. eapply obeys_mono; [apply session_orderly|].
  intros m' r _. apply orderly_aside. avoid.
Qed.
End Invocations.

(** ** The key, along a path *)

Section Leases.
Context (k : string) (window : Z).

(** The reservation a task has not settled: when it was made. *)
Definition note (i : nat) (since : option Z) (x : occurrence) : option Z :=
  if Nat.eqb (oc_task x) i
  then if reserves k (oc_event x) then Some (oc_time x)
       else if settles k (oc_event x) then None else since
  else since.

Definition reserved_since (i : nat) (t : list occurrence) : option Z := foldl (note i) None t.

(** Every settlement lands before the reservation it settles has expired. *)
Definition prompt (t : list occurrence) : Prop :=
  forall t1 z t2 a, t = (t1 ++ z :: t2)%list -> settles k (oc_event z) = true ->
    reserved_since (oc_task z) t1 = Some a -> oc_time z < a + seconds RESERVATION_TTL_SECONDS.

(** What an event reserves the key for: its holder or nobody, and until when. *)
Definition lease (x : occurrence) : option (option nat * Z) :=
  if reserves k (oc_event x)
  then Some (Some (oc_task x), oc_time x + seconds RESERVATION_TTL_SECONDS)
  else if completes k (oc_event x) then Some (None, oc_time x + seconds window)
  else None.

Definition relet (l : option (option nat * Z)) (x : occurrence) : option (option nat * Z) :=
  if reserves k (oc_event x) || settles k (oc_event x) then lease x else l.

(** The lease in force, if its time has not come. *)
Definition leased (t : list occurrence) : option (option nat * Z) := foldl relet None t.

(** *** Facts of sequences of events *)

Lemma completes_lease x :
  completes k (oc_event x) = true -> lease x = Some (None, oc_time x + seconds window).
Proof.
  unfold lease. destruct (oc_event x) as [c a]. intros Hx. rewrite Hx. destruct c; try done.
  by destruct nx.
Qed.

Lemma no_lease x :
  reserves k (oc_event x) = false -> settles k (oc_event x) = false -> lease x = None.
Proof.
  unfold lease. destruct (oc_event x) as [c a]. intros -> Hs. destruct c; try done. destruct nx; [done|].
  cbn in Hs. destruct a as [[]|]; try done. unfold settles in Hs. cbn in Hs. unfold completes. by rewrite Hs.
Qed.

Lemma reserved_snoc i t x : reserved_since i (t ++ [x])%list = note i (reserved_since i t) x.
Proof. unfold reserved_since. by rewrite foldl_app. Qed.

Lemma leased_snoc t x : leased (t ++ [x])%list = relet (leased t) x.
Proof. unfold leased. by rewrite foldl_app. Qed.

Lemma prompt_prefix t u : prompt (t ++ u)%list -> prompt t.
Proof.
  intros Hp t1 z t2 a -> Hs Ha. apply (Hp t1 z (t2 ++ u)%list a); [|done..]. by rewrite <- app_assoc.
Qed.

(** A reservation not settled is in the sequence. *)
Lemma reserved_split i t a :
  reserved_since i t = Some a -> exists t1 x t2, t = (t1 ++ x :: t2)%list /\
    reserves k (oc_event x) = true /\ oc_task x = i /\ oc_time x = a /\
    forall z, z ∈ t2 -> oc_task z = i -> settles k (oc_event z) = false.
Proof.
  induction t as [|e t IH] using rev_ind; [done|]. rewrite reserved_snoc. unfold note.
  assert (Hlater : reserved_since i t = Some a -> (oc_task e = i -> settles k (oc_event e) = false) ->
    exists t1 x t2, (t ++ [e])%list = (t1 ++ x :: t2)%list /\ reserves k (oc_event x) = true /\
      oc_task x = i /\ oc_time x = a /\
      forall z, z ∈ t2 -> oc_task z = i -> settles k (oc_event z) = false).
  { intros (t1 & x & t2 & -> & Hr & Hi & Ha & Hz)%IH He. exists t1, x, (t2 ++ [e])%list.
    split; [by rewrite <- app_assoc|]. split; [done|]. split; [done|]. split; [done|].
    intros z [Hin| ->%list_elem_of_singleton]%elem_of_app; auto. }
  destruct (Nat.eqb_spec (oc_task e) i) as [Hi|Hi]; [|intros Ha; by apply Hlater].
  destruct (reserves k (oc_event e)) eqn:Hr.
  - intros [= <-]. exists t, e, []. split; [done|]. split; [done|]. split; [done|]. split; [done|].
    by intros z ?%elem_of_nil.
  - destruct (settles k (oc_event e)) eqn:Hs; [done|]. intros Ha. by apply Hlater.
Qed.

(** What the protocol lets a task know is whether it has one. *)
Lemma knows_reserved i t : knows (key_protocol k window) i t = bool_decide (is_Some (reserved_since i t)).
Proof.
  induction t as [|e t IH] using rev_ind; [done|]. rewrite knows_snoc, reserved_snoc. unfold learns, note.
  destruct (Nat.eqb (oc_task e) i); [|done]. cbn [p_watch key_protocol]. unfold holds. rewrite IH.
  destruct (oc_event e) as [c a]. cbn [ev_eff ev_ans].
  destruct (reserves k (Ev c a)); [done|]. by destruct (settles k (Ev c a)).
Qed.

(** *** What the events make of the keyspace *)

(** The key holds a value until [d]. *)
Definition expires (keys : gmap string redis_entry) (d : Z) : Prop :=
  exists v, keys !! k = Some (RedisEntry v (Some d)).

Lemma expires_live now keys d : expires keys d -> now < d -> is_Some (redis_live now keys k).
Proof.
  intros [v Hv] Hd. unfold redis_live. rewrite Hv. cbn. destruct (Z.leb_spec d now); [lia|by eexists].
Qed.

Section Command.
Context (now : Z) (keys : gmap string redis_entry) (applied : bool) (m : bool) (c : eff) (a : reply c).
Context (Hmay : may_write k window m c) (Ha : redis_answers now keys c a = true).

Abbreviation after := (redis_effect now keys applied c a).

Lemma key_reserved :
  reserves k (Ev c a) = true ->
  redis_live now keys k = None /\ expires after (now + seconds RESERVATION_TTL_SECONDS).
Proof.
  destruct c; try done. destruct nx; [|done]. destruct a as [[|]|e]; try done. cbn.
  intros ->%String.eqb_eq. rewrite (Hmay eq_refl) in Ha |- *. cbn in Ha |- *.
  case_bool_decide as Hl; [done|]. split; [by apply eq_None_not_Some|].
  eexists. cbn. by rewrite lookup_insert_eq.
Qed.

Lemma key_completed : completes k (Ev c a) = true -> expires after (now + seconds window).
Proof.
  destruct c; try done. destruct nx; [done|]. destruct a as [[|]|e]; try done. cbn.
  intros ->%String.eqb_eq. destruct (Hmay eq_refl) as [_ ->]. cbn in Ha |- *.
  destruct (window <=? 0); [done|]. eexists. cbn. by rewrite lookup_insert_eq.
Qed.

(** Any other event leaves a live value alone. *)
Lemma key_kept :
  reserves k (Ev c a) = false -> settles k (Ev c a) = false -> is_Some (redis_live now keys k) ->
  after !! k = keys !! k.
Proof.
  intros Hr Hs Hl. destruct c; try done; cbn in Hr, Hs, Hmay |- *.
  - destruct (decide (k0 = k)) as [->|Hne].
    + destruct nx; [|by rewrite String.eqb_refl in Hs]. rewrite (Hmay eq_refl). cbn.
      rewrite bool_decide_eq_true_2 by done. by destruct (_ || _).
    + destruct (_ || _); [|done]. destruct (ex <=? 0); [done|]. destruct (_ && _); [done|].
      by rewrite lookup_insert_ne.
  - apply String.eqb_neq in Hs. destruct (_ || _); [|done]. by rewrite lookup_delete_ne.
  - destruct (_ || _); [|done]. destruct (redis_live now keys k0) as [e|]; [|by rewrite lookup_insert_ne].
    destruct (int_of_str 10 _); [by rewrite lookup_insert_ne|done].
  - destruct (_ || _); [|done]. destruct (redis_live now keys k0) as [e|]; [|done].
    by rewrite lookup_insert_ne.
Qed.
End Command.

(** *** The invariant *)

(** After [x], which leases the key to [o], [o] has settled nothing. *)
Definition unsettled (o : option nat) (t : list occurrence) : Prop :=
  forall z, z ∈ t -> o = Some (oc_task z) -> settles k (oc_event z) = false.

Record leases (t : list occurrence) (now : Z) (keys : gmap string redis_entry) : Prop := {
  (* the lease in force is in the keyspace *)
  le_force : forall o d, leased t = Some (o, d) -> now < d -> expires keys d;
  (* a lease is in force until its holder settles or it expires *)
  le_kept : forall t1 x t2 o d, t = (t1 ++ x :: t2)%list -> lease x = Some (o, d) -> now < d ->
    unsettled o t2 -> leased t = Some (o, d);
  (* so that nobody reserves the key in the meantime *)
  le_gap : forall t1 x t2 y t3 o d, t = (t1 ++ x :: t2 ++ y :: t3)%list -> lease x = Some (o, d) ->
    reserves k (oc_event y) = true -> oc_time y < d -> ~ unsettled o t2
}.

Lemma leases_nil now keys : leases [] now keys.
Proof.
  split.
  - done.
  - intros [|e u] x t2 o d E; discriminate.
  - intros [|e u] x t2 y t3 o d E; discriminate.
Qed.

Lemma leases_later t now now' keys : now <= now' -> leases t now keys -> leases t now' keys.
Proof.
  intros Hn [Hf Hk Hg]. split; [|intros t1 x t2 o d Ht Hx Hd; eapply Hk; [done..|lia]|done].
  intros o d Hl Hd. apply (Hf o d Hl). lia.
Qed.

Lemma unsettled_prefix o t x : unsettled o (t ++ [x])%list -> unsettled o t.
Proof. intros Hu z Hz. apply Hu, elem_of_app. by left. Qed.

Lemma unsettled_last o t x :
  unsettled o (t ++ [x])%list -> o = Some (oc_task x) -> settles k (oc_event x) = false.
Proof. intros Hu. apply Hu, elem_of_app. right. by apply list_elem_of_singleton. Qed.

(** An unexpired reservation is the lease in force. *)
Lemma reserved_lease t now keys i a :
  leases t now keys -> reserved_since i t = Some a -> now < a + seconds RESERVATION_TTL_SECONDS ->
  leased t = Some (Some i, a + seconds RESERVATION_TTL_SECONDS).
Proof.
  intros Hle Ha Hd. destruct (reserved_split _ _ _ Ha) as (t1 & y & t2 & Ht & Hr & Hi & Hy & Hz).
  eapply (le_kept _ _ _ Hle); [exact Ht| |exact Hd|].
  - unfold lease. by rewrite Hr, Hi, Hy.
  - intros z Hin [= E]. by apply Hz.
Qed.

(** So the lease of the task that settles is the one in force. *)
Lemma settles_own t now keys x a :
  leases t now keys -> oc_time x = now -> prompt (t ++ [x])%list -> settles k (oc_event x) = true ->
  reserved_since (oc_task x) t = Some a ->
  leased t = Some (Some (oc_task x), a + seconds RESERVATION_TTL_SECONDS).
Proof.
  intros Hle <- Hp Hs Ha. eapply reserved_lease; [exact Hle|exact Ha|]. exact (Hp t x [] a eq_refl Hs Ha).
Qed.

(** One event more. *)
Section Step.
Context (t : list occurrence) (x : occurrence) (keys keys' : gmap string redis_entry).
Context (Hle : leases t (oc_time x) keys).

(** It leaves the key alone. *)
Lemma leases_kept :
  reserves k (oc_event x) = false -> settles k (oc_event x) = false ->
  (is_Some (redis_live (oc_time x) keys k) -> keys' !! k = keys !! k) ->
  leases (t ++ [x])%list (oc_time x) keys'.
Proof.
  intros Hr Hs Hsame. assert (El : leased (t ++ [x])%list = leased t).
  { rewrite leased_snoc. unfold relet. by rewrite Hr, Hs. }
  pose proof (no_lease x Hr Hs) as Hx.
  destruct Hle as [Hf Hk Hg]. split; rewrite ?El.
  - intros o d Hl Hd. pose proof (Hf o d Hl Hd) as He. destruct He as [v Hv]. exists v.
    rewrite Hsame; [done|]. by apply (expires_live _ _ d); [exists v|].
  - intros t1 y t2 o d [(-> & -> & ->)|(t2' & -> & ->)]%split_snoc Hy Hd Hu; [by rewrite Hx in Hy|].
    eapply Hk; [done..|]. by eapply unsettled_prefix.
  - intros t1 y t2 z t3 o d E Hy Hz Hd. rewrite app_comm_cons, app_assoc in E.
    apply split_snoc in E as [(-> & -> & <-)|(t3' & -> & ->)]; [by rewrite Hr in Hz|].
    eapply Hg; [|done..]. by rewrite <- app_assoc.
Qed.

(** It is a reservation. *)
Lemma leases_reserved :
  reserves k (oc_event x) = true -> redis_live (oc_time x) keys k = None ->
  expires keys' (oc_time x + seconds RESERVATION_TTL_SECONDS) ->
  leases (t ++ [x])%list (oc_time x) keys'.
Proof.
  intros Hr Hdead Hnew.
  assert (Hx : lease x = Some (Some (oc_task x), oc_time x + seconds RESERVATION_TTL_SECONDS)).
  { unfold lease. by rewrite Hr. }
  assert (El : leased (t ++ [x])%list = lease x) by (rewrite leased_snoc; unfold relet; by rewrite Hr).
  assert (Hnone : forall o d, leased t = Some (o, d) -> ~ oc_time x < d).
  { intros o d Hl Hd. pose proof (le_force _ _ _ Hle o d Hl Hd) as He.
    destruct (expires_live _ _ _ He Hd) as [e He']. by rewrite Hdead in He'. }
  pose proof Hle as [Hf Hk Hg]. split; rewrite ?El.
  - intros o d. rewrite Hx. by intros [= <- <-].
  - intros t1 y t2 o d [(-> & -> & ->)|(t2' & -> & ->)]%split_snoc Hy Hd Hu; [done|].
    exfalso. eapply Hnone; [|exact Hd]. eapply Hk; [done..|]. by eapply unsettled_prefix.
  - intros t1 y t2 z t3 o d E Hy Hz Hd Hu. rewrite app_comm_cons, app_assoc in E.
    apply split_snoc in E as [(-> & -> & E)|(t3' & -> & ->)].
    + eapply Hnone; [|exact Hd]. by eapply Hk.
    + eapply Hg; [|done..]. by rewrite <- app_assoc.
Qed.

(** It is the settlement of the lease in force. *)
Lemma leases_settled d :
  settles k (oc_event x) = true -> reserves k (oc_event x) = false ->
  leased t = Some (Some (oc_task x), d) ->
  (completes k (oc_event x) = true -> expires keys' (oc_time x + seconds window)) ->
  leases (t ++ [x])%list (oc_time x) keys'.
Proof.
  intros Hs Hr Hown Hnew. assert (El : leased (t ++ [x])%list = lease x).
  { rewrite leased_snoc. unfold relet. by rewrite Hr, Hs. }
  destruct Hle as [Hf Hk Hg]. split; rewrite ?El.
  - unfold lease. rewrite Hr. destruct (completes k (oc_event x)); [|done]. intros o d' [= <- <-]. auto.
  - intros t1 y t2 o d' [(-> & -> & ->)|(t2' & -> & ->)]%split_snoc Hy Hd Hu; [done|].
    exfalso. assert (E : Some (Some (oc_task x), d) = Some (o, d')).
    { rewrite <- Hown. eapply Hk; [done..|]. by eapply unsettled_prefix. }
    injection E as <- <-. by rewrite (unsettled_last _ _ _ Hu eq_refl) in Hs.
  - intros t1 y t2 z t3 o d' E Hy Hz Hd. rewrite app_comm_cons, app_assoc in E.
    apply split_snoc in E as [(-> & -> & <-)|(t3' & -> & ->)]; [by rewrite Hr in Hz|].
    eapply Hg; [|done..]. by rewrite <- app_assoc.
Qed.
End Step.

(** *** Along a path *)

Section Paths.
Context (code : prog unit -> Prop).
Context (Hcode : forall p, code p -> obeys (key_protocol k window) p (anyway (key_protocol k window)) false).

Lemma settles_held (m : bool) c (a : reply c) :
  may_write k window m c -> settles k (Ev c a) = true -> m = true.
Proof.
  intros Hmay. destruct c; try done; cbn.
  - destruct nx; [done|]. intros ->%String.eqb_eq. by apply Hmay.
  - intros ->%String.eqb_eq. by apply Hmay.
Qed.

Lemma leases_event t w c (a : reply c) i applied :
  let x := Occurs (w_now w) i (Ev c a) in
  leases t (w_now w) (w_redis w) -> prompt (t ++ [x])%list ->
  may_write k window (knows (key_protocol k window) i t) c ->
  redis_answers (w_now w) (w_redis w) c a = true ->
  leases (t ++ [x])%list (w_now w) (redis_effect (w_now w) (w_redis w) applied c a).
Proof.
  intros x Hle Hp Hmay Ha. destruct (reserves k (Ev c a)) eqn:Hr.
  { destruct (key_reserved _ _ applied _ _ _ Hmay Ha Hr). by eapply (leases_reserved t x). }
  destruct (settles k (Ev c a)) eqn:Hs.
  - pose proof (settles_held _ _ _ Hmay Hs) as Hm. rewrite knows_reserved in Hm.
    apply (bool_decide_eq_true_1 _) in Hm as [since Hsince].
    pose proof (settles_own _ _ _ x _ Hle eq_refl Hp Hs Hsince) as Hd.
    apply (leases_settled t x _ _ Hle _ Hs Hr Hd). intros Hc. by eapply key_completed.
  - apply (leases_kept t x _ _ Hle Hr Hs). intros Hl. by eapply key_kept.
Qed.

Lemma leases_step t w o w' :
  following (key_protocol k window) t w -> leases t (w_now w) (w_redis w) ->
  prompt (t ++ option_list o)%list -> wstep code w o w' ->
  leases (t ++ option_list o)%list (w_now w') (w_redis w').
Proof.
  intros Hfo Hle Hp Hs. pose proof Hs as Hs'. destruct Hs as [w p Hc|w i c s' s applied a Hi Ha|w i|w n Hn];
    cbn; rewrite ?app_nil_r; try done; [|by eapply leases_later].
  eapply leases_later; [by eapply effect_clock, admissible_answers|]. apply leases_event; [done..| |].
  - exact (following_may _ _ _ _ _ _ Hfo Hs').
  - by eapply admissible_redis.
Qed.

Lemma path_leases w0 t w :
  w_tasks w0 = [] -> path code w0 t w -> prompt t -> leases t (w_now w) (w_redis w).
Proof.
  intros Hw0 Ht.
  apply (path_grows code (fun t w => following (key_protocol k window) t w /\
    (prompt t -> leases t (w_now w) (w_redis w))) w0 t w); [|exact Ht|].
  - intros t' w' o w'' [Hfo Hle] Hs. split; [by eapply following_step|]. intros Hp.
    eapply leases_step; [done| |done..]. by eapply Hle, prompt_prefix.
  - split; [by apply following_start|]. intros _. apply leases_nil.
Qed.
End Paths.

(** *** What follows for two events *)

Lemma unsettled_or o t :
  unsettled o t \/ exists z, z ∈ t /\ o = Some (oc_task z) /\ settles k (oc_event z) = true.
Proof.
  induction t as [|e t [Hu|(z & Hz & Ho & Hs)]]; [left; by intros z ?%elem_of_nil| |].
  - destruct (decide (o = Some (oc_task e))) as [Ho|Ho], (settles k (oc_event e)) eqn:Hs.
    1: { right. exists e. split; [by constructor|done]. }
    all: left; intros z [->|Hz]%elem_of_cons Hi; [done|by apply Hu].
  - right. exists z. split; [by constructor|done].
Qed.

(** Who reserves the key comes after the lease, or after its holder has
    settled. *)
Lemma lease_respected (code : prog unit -> Prop) w0 t w t1 x t2 y t3 o d :
  (forall p, code p -> obeys (key_protocol k window) p (anyway (key_protocol k window)) false) ->
  w_tasks w0 = [] -> path code w0 t w -> prompt t -> t = (t1 ++ x :: t2 ++ y :: t3)%list ->
  lease x = Some (o, d) -> reserves k (oc_event y) = true ->
  (exists z, z ∈ t2 /\ o = Some (oc_task z) /\ settles k (oc_event z) = true) \/ d <= oc_time y.
Proof.
  intros Hcode Hw0 Ht Hp Hsplit Hx Hy. destruct (path_leases code Hcode w0 t w Hw0 Ht Hp) as [_ _ Hgap].
  destruct (Z.ltb_spec (oc_time y) d) as [Hd|Hd]; [left|by right].
  destruct (unsettled_or o t2) as [Hu|]; [|done]. by destruct (Hgap _ _ _ _ _ _ _ Hsplit Hx Hy Hd).
Qed.

(** [prompt], decided. *)
Fixpoint promptly (before after : list occurrence) : bool :=
  match after with
  | [] => true
  | z :: rest =>
      (if settles k (oc_event z)
       then match reserved_since (oc_task z) before with
            | Some a => oc_time z <? a + seconds RESERVATION_TTL_SECONDS
            | None => true
            end
       else true) && promptly (before ++ [z])%list rest
  end.

Lemma promptly_prompt t : promptly [] t = true -> prompt t.
Proof.
  assert (Hgen : forall after before, promptly before after = true ->
    forall t1 z t2 a, after = (t1 ++ z :: t2)%list -> settles k (oc_event z) = true ->
      reserved_since (oc_task z) (before ++ t1)%list = Some a ->
      oc_time z < a + seconds RESERVATION_TTL_SECONDS).
  { induction after as [|e after IH]; intros before Hp t1 z t2 a E Hs Ha; [by destruct t1|].
    cbn [promptly] in Hp. apply andb_true_iff in Hp as [He Hp]. destruct t1 as [|e' t1]; injection E as -> ->.
    - rewrite app_nil_r in Ha. rewrite Hs, Ha in He. by apply Z.ltb_lt.
    - apply (IH _ Hp t1 z t2 a eq_refl Hs). by rewrite <- app_assoc. }
  intros Hp t1 z t2 a. apply (Hgen t [] Hp).
Qed.
End Leases.

#[global] Arguments reserves : simpl never.
#[global] Arguments settles : simpl never.
#[global] Arguments completes : simpl never.
