(* ===== verification/Throttle.v ===== *)
(** * The rate limit, across tasks

    A counter of the limiter belongs to one caller and one window.  The
    protocol of a counter: nobody sets or deletes it, and only a task that
    has read the clock in its window (or later) gives it a lifetime, of one
    window's length.  In every world whose tasks follow it, no more than the
    limit are admitted before the window ends.  The protocol of the gate: a
    task acts for an agent only after it was admitted as this agent, in the
    window of a time it read.  Invocations follow both with their requests to
    the provider, issuing with the row of the grant; [rate_limited] is what
    the two give along a path. *)

From stdpp Require Import base tactics list strings numbers gmap pretty relations.
From S2P Require Import Prelude PyStr Errors Json Hashing Uuid Config Models Breaker Effects Redaction Retry.
From S2P Require Import Redis Kms Tokens Tools Cache Idempotency Grants AuditLog Invoke InvokeAudit.
From S2P Require Import InvokeReplay World Discipline Limit Reservation.
Open Scope string_scope.
#[local] Open Scope Z_scope.

(** ** The protocol of a counter *)

(** The length of a window. *)
Definition width : Z := seconds DEFAULT_WINDOW_SECONDS.

Section Counter.
Context (key : string) (window : Z).

Abbreviation counter := (counter_key key window).
Definition window_start : Z := window * width.
Definition window_end : Z := window_start + width.

(** The times a task has read. *)
Definition clock_watch (m : list Z) (c : eff) : reply c -> list Z :=
  match c return reply c -> list Z with
  | ETime => fun t => t :: m
  | _ => fun _ => m
  end.

Definition may_expire (m : list Z) (c : eff) : Prop :=
  match c with
  | ERedisSet k _ _ _ | ERedisDelete k => k <> counter
  | ERedisExpire k secs =>
      k = counter -> secs = DEFAULT_WINDOW_SECONDS /\ exists t, t ∈ m /\ window_start <= t
  | _ => True
  end.

Definition counter_protocol : protocol :=
  {| p_state := list Z; p_fresh := []; p_watch := clock_watch; p_may := may_expire |}.
End Counter.

(** The callers of the limiter have names of one length. *)
Lemma agent_key_length prefix aid :
  String.length prefix = 7%nat -> String.length (prefix +:+ uuid_str aid) = 43%nat.
Proof.
  intros Hp. assert (Hl : forall s t, String.length (s +:+ t) = (String.length s + String.length t)%nat).
  { induction s as [|c s IH]; intros t; [done|]. rewrite append_cons. cbn. by rewrite IH. }
  by rewrite Hl, Hp, uuid_str_length.
Qed.

(** ** Who follows it *)

Section Programs.
Context `{PyJwt} `{PyRepr} `{AesGcm} (key : string) (window : Z).

Abbreviation d := (counter_protocol key window).
Abbreviation orderly p := (obeys d p (anyway d)).

Lemma uncounted_may c m : counter_write c = false -> may_expire key window m c.
Proof.
  assert (Hk : forall k, startswith RATELIMIT_PREFIX k = false -> k <> counter_key key window).
  { intros k Hk ->. unfold counter_key in Hk. by rewrite startswith_app in Hk. }
  intros Hc. destruct c; try done; cbn in Hc |- *; try (by apply Hk). intros E. by apply Hk in E.
Qed.

Lemma counter_key_inj key' window' :
  String.length key' = String.length key -> counter_key key' window' = counter_key key window ->
  window' = window.
Proof.
  intros Hl E. unfold counter_key in E.
  destruct (append_inj RATELIMIT_PREFIX RATELIMIT_PREFIX _ _ eq_refl E) as [_ E1].
  apply append_inj in E1 as [_ E2]; [|done]. apply colon_cons in E2. by apply (inj pretty) in E2.
Qed.

Lemma check_orderly key' limit m :
  String.length key' = String.length key -> orderly (check key' limit DEFAULT_WINDOW_SECONDS) m.
Proof.
  intros Hl. unfold check. apply obeys_do; [done|]. intros t _. cbn [to_res fallible p_watch d clock_watch].
  apply obeys_do; [done|]. intros n _. destruct n as [n|e]; [|done]. cbn [to_res fallible p_watch d clock_watch].
  destruct (n =? 1); [|done]. apply obeys_do; [|by intros [[]|e] _]. cbn. intros E. split; [done|].
  exists t. split; [constructor|]. apply counter_key_inj in E; [|done]. subst window.
  unfold window_start, window_of. fold width. assert (0 < width) by done.
  pose proof (Z.mod_pos_bound t width). pose proof (Z.div_mod t width). lia.
Qed.

(** *** Invocations *)

Context (svc : InvokeService) (Hsvc : svc_contract svc).

Lemma marked_counter {A} (p : prog A) : avoids is_marked p -> avoids counter_write p.
Proof. apply avoids_part. by intros c (_ & _ & ?)%unmarked. Qed.

Lemma outcome_uncounted status result error reason start cached :
  avoids counter_write (outcome_of status result error reason start cached).
Proof. apply marked_counter, outcome_avoids. Qed.

#[local] Hint Resolve outcome_uncounted : avoids.

Abbreviation orderly_after := (obeys_after d counter_write uncounted_may).
Abbreviation orderly_then := (obeys_then d counter_write uncounted_may).
Abbreviation orderly_aside := (obeys_bystander d counter_write uncounted_may).

Lemma resolved_tool_uncounted grant th name arguments key' start :
  avoids counter_write (resolved_tool svc grant th name arguments key' start).
Proof.
  unfold resolved_tool, get_tool, denied. destruct (svc_tools svc !! name) as [tool|] eqn:Et; cbn [or_raise].
  2: { destruct (isinstance _ _); [apply outcome_uncounted|done]. }
  destruct (negb _); [apply outcome_uncounted|].
  pose proof (marked_counter _ (execute_avoids svc Hsvc name grant th tool arguments start Et)) as He.
  destruct key' as [key'|]; [|done]. destruct (svc_idempotency_store svc) as [s|]; [|done].
  unfold idempotent_call, reserved_call, conflict_outcome, denied, succeeded, IdempotencyStore.get,
    IdempotencyStore.reserve, IdempotencyStore.complete, IdempotencyStore.release. avoid.
Qed.

#[local] Hint Resolve resolved_tool_uncounted : avoids.

Context (Hkey : String.length key = 43%nat).

Lemma resolved_counted grant th name arguments key' fast start m :
  orderly (invoke_resolved svc grant th name arguments key' fast start) m.
Proof.
  unfold invoke_resolved, revoked_outcome, denied. destruct (_ || _)%bool;
    [apply orderly_aside, outcome_uncounted|].
  apply orderly_after; [done|]. clear m. intros now m. apply orderly_after; [done|]. clear m. intros [|] m;
    [apply orderly_aside, outcome_uncounted|].
  apply orderly_then; [|intros [|]; cbn [negb]; avoid].
  destruct (svc_rate_limiter svc); [|done]. by apply check_orderly; rewrite agent_key_length.
Qed.

Lemma invoke_counted token name arguments key' m : orderly (invoke svc token name arguments key') m.
Proof.
  unfold invoke. apply orderly_after; [done|]. clear m. intros start m.
  apply orderly_after; [unfold verify_grant_token; avoid|]. clear m. intros [claims|e] m;
    [|apply orderly_aside; unfold denied; avoid].
  destruct (negb _); [apply orderly_aside; unfold denied; avoid|].
  apply (obeys_session d counter_write uncounted_may); [done..|]. unfold invoke_in_session.
  apply orderly_after; [unfold is_revoked; destruct (svc_grant_cache svc); avoid|]. clear m. intros fast m.
  apply orderly_after; [done|]. clear m. intros [grant|] m; [|apply orderly_aside; unfold denied; avoid].
  apply orderly_then; [|intros o; unfold record_call; avoid]. unfold audited_call.
  apply (obeys_attempted d counter_write uncounted_may); [apply resolved_counted|].
  intros [o|e]; unfold scrub, failed; avoid.
Qed.

(** *** Issuing *)

Lemma request_counted settings tools aid name requested cached limited m :
  orderly (request_grant settings tools aid name requested cached limited) m.
Proof.
  unfold request_grant. apply orderly_then.
  - destruct limited; [|done]. apply orderly_then; [by apply check_orderly; rewrite agent_key_length|].
    intros allowed. avoid.
  - intros []. unfold get_tool, record_issued. avoid.
Qed.
End Programs.

(** ** The counter, along a path *)

Section Path.
Context (key : string) (window limit : Z).

Abbreviation counter := (counter_key key window).
Abbreviation deadline := (window_end window).
Abbreviation d := (counter_protocol key window).

(** The caller is admitted, before the window ends. *)
Definition admits (x : occurrence) : bool :=
  match oc_event x with
  | Ev (ERedisIncr k) (Ok n) => String.eqb k counter && (n <=? limit) && (oc_time x <? deadline)
  | _ => false
  end.

Definition admitted (t : list occurrence) : Z := Z.of_nat (length (List.filter admits t)).

(** The counter stands at [n] or above, and lives to the end of the window;
    or there is none yet. *)
Definition sturdy (keys : gmap string redis_entry) (n : Z) : Prop :=
  match keys !! counter with
  | None => n <= 0
  | Some e => (exists m, int_of_str 10 (re_value e) = Some m /\ n <= m) /\
      match re_deadline e with Some dl => deadline <= dl | None => True end
  end.

Record counted (t : list occurrence) (now : Z) (keys : gmap string redis_entry) : Prop := {
  co_limit : admitted t <= Z.max 0 limit;
  co_sturdy : now < deadline -> sturdy keys (admitted t)
}.

Lemma admitted_snoc t x : admitted (t ++ [x])%list = admitted t + (if admits x then 1 else 0).
Proof. unfold admitted. rewrite List.filter_app, length_app. cbn. destruct (admits x); cbn; lia. Qed.

Lemma counted_later t now now' keys : now <= now' -> counted t now keys -> counted t now' keys.
Proof. intros Hn [Hl Hs]. split; [done|]. intros Hd. apply Hs. lia. Qed.

(** Before the window ends, the counter lives. *)
Lemma sturdy_live now keys n :
  now < deadline -> sturdy keys n -> redis_live now keys counter = keys !! counter.
Proof.
  intros Hd Hs. unfold redis_live, sturdy in *. destruct (keys !! counter) as [[v dl]|]; [|done]. cbn in *.
  destruct Hs as [_ Hdl]. destruct dl as [dl|]; [|done]. by destruct (Z.leb_spec dl now); [lia|].
Qed.

Lemma sturdy_le keys n n' : n' <= n -> sturdy keys n -> sturdy keys n'.
Proof.
  unfold sturdy. intros Hn. destruct (keys !! counter) as [e|]; [|lia].
  intros [(v & Hv & Hle) Hdl]. split; [|done]. exists v. split; [done|lia].
Qed.

Lemma sturdy_same keys keys' n : keys' !! counter = keys !! counter -> sturdy keys n -> sturdy keys' n.
Proof. unfold sturdy. by intros ->. Qed.

Section Event.
Context (now : Z) (keys : gmap string redis_entry) (applied : bool) (m : list Z) (c : eff) (a : reply c).
Context (Hmay : may_expire key window m c) (Hm : Forall (fun t => t <= now) m).
Context (Ha : redis_answers now keys c a = true) (Hd : now < deadline).
Context (n : Z) (Hs : sturdy keys n).

Abbreviation after := (redis_effect now keys applied c a).

(** One increment. *)
Lemma sturdy_incr i keys' :
  redis_exec now (ERedisIncr counter) keys = Some (Ok i, keys') -> sturdy keys' (n + 1) /\ n + 1 <= i.
Proof.
  cbn. rewrite (sturdy_live now keys n Hd Hs). unfold sturdy in *.
  destruct (keys !! counter) as [[v dl]|] eqn:Ek; cbn in *.
  - destruct Hs as [(w & -> & Hw) Hdl]. intros [= <- <-]. rewrite lookup_insert_eq. cbn.
    split; [|lia]. split; [|done]. exists (w + 1). rewrite int_of_str_pretty. split; [done|lia].
  - intros [= <- <-]. rewrite lookup_insert_eq. cbn. split; [|lia]. split; [|done]. exists 1. split; [done|lia].
Qed.

(** ... always answers. *)
Lemma incr_answers : exists i keys', redis_exec now (ERedisIncr counter) keys = Some (Ok i, keys').
Proof.
  cbn. rewrite (sturdy_live now keys n Hd Hs). unfold sturdy in Hs.
  destruct (keys !! counter) as [[v dl]|]; [|by eexists _, _].
  destruct Hs as [(w & Hv & _) _]. cbn in Hv |- *. rewrite Hv. by eexists _, _.
Qed.

(** A lifetime reaches to the end of the window. *)
Lemma sturdy_expire secs keys' r :
  may_expire key window m (ERedisExpire counter secs) ->
  redis_exec now (ERedisExpire counter secs) keys = Some (r, keys') -> sturdy keys' n.
Proof.
  intros Hex. destruct (Hex eq_refl) as (-> & t & Ht & Hstart). rewrite Forall_forall in Hm.
  specialize (Hm t Ht). cbn. rewrite (sturdy_live now keys n Hd Hs). fold width.
  destruct (keys !! counter) as [e|] eqn:Ek; [|by intros [= _ <-]]. intros [= _ <-].
  unfold sturdy in *. rewrite Ek in Hs. rewrite lookup_insert_eq. cbn. split; [apply Hs|].
  unfold window_end. lia.
Qed.

(** An event that is no increment of the counter. *)
Lemma sturdy_other : (forall k, c = ERedisIncr k -> k <> counter) -> sturdy after n.
Proof.
  intros Hc. destruct c; try exact Hs; cbn in Hmay |- *.
  - destruct (_ || _); [|exact Hs]. destruct (ex <=? 0); [exact Hs|]. destruct (_ && _); [exact Hs|].
    eapply sturdy_same; [|exact Hs]. by rewrite lookup_insert_ne.
  - destruct (_ || _); [|exact Hs]. eapply sturdy_same; [|exact Hs]. by rewrite lookup_delete_ne.
  - specialize (Hc k eq_refl). destruct (_ || _); [|exact Hs]. eapply sturdy_same; [|exact Hs].
    destruct (redis_live now keys k) as [e|]; [|by rewrite lookup_insert_ne].
    destruct (int_of_str 10 _); [by rewrite lookup_insert_ne|done].
  - destruct (_ || _); [|exact Hs]. destruct (decide (k = counter)) as [->|Hne].
    + eapply (sturdy_expire secs _ (Ok tt) Hmay). cbn. by destruct (redis_live now keys counter).
    + eapply sturdy_same; [|exact Hs]. destruct (redis_live now keys k); [|done].
      by rewrite lookup_insert_ne.
Qed.

(** Every event: an admission takes one of the places left. *)
Lemma sturdy_event i :
  let x := Occurs now i (Ev c a) in
  sturdy after (n + if admits x then 1 else 0) /\ (admits x = true -> n + 1 <= limit).
Proof.
  assert (Hcase : c = ERedisIncr counter \/ forall k, c = ERedisIncr k -> k <> counter).
  { destruct c; try (by right). destruct (decide (k = counter)) as [->|Hk]; [by left|right].
    by intros k' [= <-]. }
  cbn zeta. destruct Hcase as [->|Hne].
  - destruct incr_answers as (j & keys' & Hex). destruct (sturdy_incr j keys' Hex) as [Hst Hj].
    cbn [redis_effect]. rewrite Hex. cbn [redis_answers] in Ha. rewrite Hex in Ha.
    unfold admits. cbn [oc_event oc_time]. destruct a as [b|e]; cbn [is_ok orb].
    + apply (bool_decide_eq_true_1 _) in Ha as ->. split.
      * eapply sturdy_le; [|exact Hst]. destruct (_ && _); lia.
      * intros [[_ Hl%Z.leb_le]%andb_true_iff _]%andb_true_iff. lia.
    + split; [|done]. rewrite Z.add_0_r. destruct applied; [|exact Hs]. eapply sturdy_le; [|exact Hst]. lia.
  - assert (Hno : admits (Occurs now i (Ev c a)) = false).
    { unfold admits. cbn. destruct c; try done. destruct a as [b|e]; [|done].
      specialize (Hne k eq_refl). by apply String.eqb_neq in Hne as ->. }
    rewrite Hno, Z.add_0_r. split; [|done]. by apply sturdy_other.
Qed.
End Event.

(** *** The invariant *)

Section Paths.
Context (code : prog unit -> Prop).
Context (Hcode : forall p, code p -> obeys d p (anyway d) []).

(** Nobody has read a time to come. *)
Definition past (t : list occurrence) (now : Z) : Prop :=
  forall i, Forall (fun s => s <= now) (knows d i t).

Lemma past_later t now now' : now <= now' -> past t now -> past t now'.
Proof. intros Hn Hp i. eapply Forall_impl; [apply Hp|]. cbn. lia. Qed.

Lemma past_event t now i c (a : reply c) db s :
  answers now (view s db) c a = true -> past t now -> past (t ++ [Occurs now i (Ev c a)])%list now.
Proof.
  intros Ha Hp j. rewrite knows_snoc. unfold learns. cbn. destruct (Nat.eqb i j); [|apply Hp].
  destruct c; try apply Hp. cbn. constructor; [|apply Hp]. apply Z.eqb_eq in Ha. lia.
Qed.

Record throttled (t : list occurrence) (w : world) : Prop := {
  th_following : following d t w;
  th_past : past t (w_now w);
  th_counted : counted t (w_now w) (w_redis w)
}.

Lemma throttled_step t w o w' :
  throttled t w -> wstep code w o w' -> throttled (t ++ option_list o)%list w'.
Proof.
  intros [Hfo Hp Hc] Hs. pose proof (following_step d code Hcode _ _ _ _ Hfo Hs) as Hfo'. split; [done| |].
  - destruct Hs as [w p Hcp|w i c k s applied a Hi Ha|w i|w u Hu]; cbn; rewrite ?app_nil_r; try done.
    + apply admissible_answers in Ha. eapply past_later; [by eapply effect_clock|]. by eapply past_event.
    + by eapply past_later.
  - pose proof Hs as Hs'. destruct Hs as [w p Hcp|w i c k s applied a Hi Ha|w i|w u Hu]; cbn;
      rewrite ?app_nil_r; try done; [|by eapply counted_later].
    eapply counted_later; [by eapply effect_clock, admissible_answers|].
    pose proof (following_may d code _ _ _ _ Hfo Hs') as Hmay. cbn in Hmay. destruct Hc as [Hl Hst].
    destruct (Z.ltb_spec (w_now w) deadline) as [Hd|Hd].
    + destruct (sturdy_event (w_now w) (w_redis w) applied _ c a Hmay (Hp i) (admissible_redis _ _ _ _ _ Ha)
        Hd _ (Hst Hd) i) as [Hst' Hl'].
      split; rewrite admitted_snoc; [|done]. destruct (admits _); [specialize (Hl' eq_refl)|]; lia.
    + assert (Hno : admits (Occurs (w_now w) i (Ev c a)) = false).
      { unfold admits. cbn [oc_event oc_time]. destruct c; try done. destruct a as [b|]; [|done].
        rewrite (proj2 (Z.ltb_ge _ _)) by done. apply andb_false_r. }
      split; [|lia]. rewrite admitted_snoc, Hno. lia.
Qed.

Lemma path_throttled w0 t w :
  w_tasks w0 = [] -> w_redis w0 !! counter = None -> path code w0 t w -> throttled t w.
Proof.
  intros Hw0 Hk Ht. apply (path_grows code throttled w0 t w throttled_step Ht). split.
  - by apply following_start.
  - intros i. constructor.
  - split; [change (admitted []) with 0; lia|]. intros _. unfold sturdy. rewrite Hk. done.
Qed.
End Paths.
End Path.

(** ** Who is not admitted does nothing *)

(** Whether the effect, after these events of its task, acts for this agent. *)
Definition action : Type := list event -> uuid -> eff -> bool.

Section Gate.
Context (prefix : string) (limit : Z) (acts : action).

(** Among a task's events: it read the clock, and was admitted as this agent
    in the window of that time. *)
Definition admitted_as (m : list event) (aid : uuid) : Prop :=
  exists read n, Ev ETime read ∈ m /\
    Ev (ERedisIncr (counter_key (prefix +:+ uuid_str aid) (window_of read DEFAULT_WINDOW_SECONDS))) (Ok n) ∈ m /\
    n <= limit.

Definition may_act (m : list event) (c : eff) : Prop :=
  forall aid, acts m aid c = true -> admitted_as m aid.

Definition gate_protocol : protocol :=
  {| p_state := list event; p_fresh := []; p_watch := fun m c a => (m ++ [Ev c a])%list; p_may := may_act |}.

Abbreviation orderly p := (obeys gate_protocol p (anyway gate_protocol)).

(** The task's own events. *)
Lemma gate_knows i t : knows gate_protocol i t = map oc_event (List.filter (fun x => Nat.eqb (oc_task x) i) t).
Proof.
  induction t as [|[now j [c a]] t IH] using rev_ind; [done|]. rewrite knows_snoc, List.filter_app, map_app, <- IH.
  unfold learns. cbn. destruct (Nat.eqb j i); cbn; [done|by rewrite app_nil_r].
Qed.

Lemma admitted_more m x aid : admitted_as m aid -> admitted_as (m ++ [x])%list aid.
Proof.
  intros (read & n & Hr & Hn & Hl). exists read, n. by split; [apply elem_of_app; left|split; [apply elem_of_app; left|]].
Qed.

Section Events.
(** Events that keep the invariant of the task's past, and do not act. *)
Context (P act : eff -> bool) (I : list event -> Prop).
Context (Hact : forall m aid c, acts m aid c = true -> act c = true).
Context (HI : forall m c a, P c = false -> I m -> I (m ++ [Ev c a])%list).

Lemma idle_may c m : act c = false -> may_act m c.
Proof. intros Hc aid Ha%Hact. congruence. Qed.

Lemma gate_aside {A} (p : prog A) m :
  avoids (fun c => P c || act c) p -> I m -> obeys gate_protocol p (fun m' _ => I m') m.
Proof.
  revert m. induction p as [r|c k IH]; intros m Hp Hm; [done|]. destruct Hp as [[Hc Ha]%orb_false_iff Hk].
  split; [by apply idle_may|]. intros a _. by apply IH, HI.
Qed.

Lemma gate_then {A B} (p : prog A) (f : A -> prog B) m :
  avoids (fun c => P c || act c) p -> (forall a m', I m' -> orderly (f a) m') -> I m -> orderly (bind p f) m.
Proof.
  intros Hp Hf Hm. apply obeys_bind. eapply obeys_mono; [by apply gate_aside|]. intros m' [a|e] Hm'; [|done].
  by apply Hf.
Qed.

Lemma gate_silent {A} (p : prog A) m : avoids act p -> orderly p m.
Proof. apply obeys_bystander. intros c m'. apply idle_may. Qed.

Lemma gate_ends {A B} (p : prog A) (f : A -> prog B) m :
  orderly p m -> (forall a, avoids act (f a)) -> orderly (bind p f) m.
Proof. apply obeys_then. intros c m'. apply idle_may. Qed.

(** Who is admitted may act, as the agent it was admitted as. *)
Lemma gate_open {A} aid (p : prog A) m :
  (forall m aid' c, P c = false -> I m -> acts m aid' c = true -> aid' = aid) ->
  avoids P p -> I m -> admitted_as m aid -> orderly p m.
Proof.
  intros Hone. revert m. induction p as [r|c k IH]; intros m Hp Hm Had; [done|]. destruct Hp as [Hc Hk].
  split; [|intros a _; apply IH; [done|by apply HI|by apply admitted_more]]. intros aid' Ha.
  by rewrite (Hone m aid' c Hc Hm Ha).
Qed.

(** The limiter is the gate. *)
Lemma check_gate aid m :
  (forall k, P (ERedisIncr k) = false /\ act (ERedisIncr k) = false) ->
  (forall k secs, P (ERedisExpire k secs) = false /\ act (ERedisExpire k secs) = false) ->
  P ETime = false -> act ETime = false -> I m ->
  obeys gate_protocol (check (prefix +:+ uuid_str aid) limit DEFAULT_WINDOW_SECONDS)
    (fun m' r => I m' /\ (r = Ok true -> admitted_as m' aid)) m.
Proof.
  intros Hincr Hexpire HPt Hat Hm. unfold check. apply obeys_do; [by apply idle_may|]. intros read _.
  cbn [to_res fallible p_watch gate_protocol]. apply HI with (a := read) in Hm; [|done].
  assert (Hread : Ev ETime read ∈ (m ++ [Ev ETime read])%list)
    by (apply elem_of_app; right; by apply list_elem_of_singleton).
  revert Hread Hm. generalize (m ++ [Ev ETime read])%list. clear m. intros m Hread Hm.
  set (k := counter_key _ _). apply obeys_do; [apply idle_may, Hincr|]. intros n _.
  cbn [to_res fallible p_watch gate_protocol]. apply HI with (a := n) in Hm; [|apply Hincr].
  destruct n as [n|e]; [|by split]. cbn [to_res fallible].
  assert (Had : n <= limit -> admitted_as (m ++ [Ev (ERedisIncr k) (Ok n)])%list aid).
  { intros Hn. exists read, n. split; [by apply elem_of_app; left|]. split; [|done].
    apply elem_of_app. right. by apply list_elem_of_singleton. }
  revert Had Hm. generalize (m ++ [Ev (ERedisIncr k) (Ok n)])%list. clear m Hread. intros m Had Hm.
  destruct (n =? 1).
  - apply obeys_do; [apply idle_may, Hexpire|]. intros r _. apply HI with (a := r) in Hm; [|apply Hexpire].
    destruct r as [[]|e]; cbn [to_res fallible p_watch gate_protocol]; (split; [done|]); [|done].
    intros [= Hn%Z.leb_le]. by apply admitted_more, Had.
  - split; [done|]. intros [= Hn%Z.leb_le]. by apply Had.
Qed.
End Events.
End Gate.

(** *** Invocations before the provider *)

Definition reads_grant (c : eff) : bool := match c with EDbGrantByHash _ => true | _ => false end.

(** The event reads a grant of this agent. *)
Definition reads_of (aid : uuid) (x : event) : bool :=
  match x with
  | Ev (EDbGrantByHash _) (Ok (Some g)) => bool_decide (grant_agent_id g = aid)
  | _ => false
  end.

(** A request to a provider, for the agents of the grants read. *)
Definition sends_for : action := fun m aid c => is_tool_request c && existsb (reads_of aid) m.

Section InvocationGate.
Context `{PyJwt} `{PyRepr} `{AesGcm} (svc : InvokeService) (Hsvc : svc_contract svc).
Context (Hlimiter : svc_rate_limiter svc = true).
Context (limit : Z) (Hlimit : invokes_per_minute_per_agent (svc_settings svc) = limit).

Abbreviation gate := (gate_protocol "invoke:" limit sends_for).
Abbreviation orderly p := (obeys gate p (anyway gate)).

Lemma sends_act m aid c : sends_for m aid c = true -> is_tool_request c = true.
Proof. unfold sends_for. by intros [? _]%andb_true_iff. Qed.

(** Its grants so far are of these agents. *)
Definition read_only (agents : list uuid) (m : list event) : Prop :=
  forall aid, existsb (reads_of aid) m = true -> aid ∈ agents.

Lemma read_only_more agents m c (a : reply c) :
  reads_grant c = false -> read_only agents m -> read_only agents (m ++ [Ev c a])%list.
Proof. intros Hc Hm aid. rewrite existsb_app. destruct c; try done; cbn; rewrite orb_false_r; apply Hm. Qed.

Lemma read_only_grant h g m :
  read_only [] m -> read_only [grant_agent_id g] (m ++ [Ev (EDbGrantByHash h) (Ok (Some g))])%list.
Proof.
  intros Hm aid. rewrite existsb_app. intros [Ha%Hm|Ha]%orb_true_iff; [by apply elem_of_nil in Ha|].
  cbn in Ha. rewrite orb_false_r in Ha. apply (bool_decide_eq_true_1 _) in Ha as <-. by apply list_elem_of_singleton.
Qed.

Abbreviation then_ agents := (gate_then "invoke:" limit sends_for reads_grant is_tool_request (read_only agents)
  sends_act (read_only_more agents)).
Abbreviation ends := (gate_ends "invoke:" limit sends_for is_tool_request sends_act).
Abbreviation silent := (gate_silent "invoke:" limit sends_for is_tool_request sends_act).

Lemma outcome_unsent status result error reason start cached :
  avoids is_tool_request (outcome_of status result error reason start cached).
Proof. unfold outcome_of, elapsed_ms, scrub. avoid. Qed.

Lemma outcome_unread status result error reason start cached :
  avoids reads_grant (outcome_of status result error reason start cached).
Proof. unfold outcome_of, elapsed_ms, scrub. avoid. Qed.

#[local] Hint Resolve outcome_unsent outcome_unread : avoids.

Lemma resolved_tool_unread grant th name arguments key start :
  avoids reads_grant (resolved_tool svc grant th name arguments key start).
Proof.
  assert (Hmark : forall A (p : prog A), avoids is_marked p -> avoids reads_grant p).
  { intros A p. apply avoids_part. intros c (Hc & _)%unmarked. by destruct c. }
  unfold resolved_tool, get_tool, denied. destruct (svc_tools svc !! name) as [tool|] eqn:Et; cbn [or_raise].
  2: { destruct (isinstance _ _); [apply outcome_unread|done]. }
  destruct (negb _); [apply outcome_unread|].
  pose proof (Hmark _ _ (execute_avoids svc Hsvc name grant th tool arguments start Et)) as He.
  destruct key as [key|]; [|done]. destruct (svc_idempotency_store svc) as [s|]; [|done].
  unfold idempotent_call, reserved_call, conflict_outcome, denied, succeeded, IdempotencyStore.get,
    IdempotencyStore.reserve, IdempotencyStore.complete, IdempotencyStore.release. avoid.
Qed.

Lemma resolved_gated grant th name arguments key fast start m :
  read_only [grant_agent_id grant] m ->
  orderly (invoke_resolved svc grant th name arguments key fast start) m.
Proof.
  unfold invoke_resolved, revoked_outcome, denied. destruct (_ || _)%bool; [intros _; apply silent, outcome_unsent|].
  apply (then_ [grant_agent_id grant]); [done|]. clear m. intros now m.
  apply (then_ [grant_agent_id grant]); [done|]. clear m. intros [|] m Hm;
    [apply silent, outcome_unsent|].
  rewrite Hlimiter, Hlimit. apply obeys_bind.
  eapply obeys_mono; [by apply (check_gate "invoke:" limit sends_for reads_grant is_tool_request
    (read_only [grant_agent_id grant]) sends_act (read_only_more _))|].
  clear m Hm. cbn beta. intros m [[|]|e] [Hm Had]; cbn [negb]; [|apply silent; avoid|done].
  apply (gate_open _ _ _ reads_grant (read_only [grant_agent_id grant]) (read_only_more _) (grant_agent_id grant));
    [|apply resolved_tool_unread|done|by apply Had].
  intros m' aid c _ Hm' Ha. apply list_elem_of_singleton, Hm'. by apply andb_true_iff in Ha as [_ Ha].
Qed.

Lemma session_gated claims th name arguments key start m :
  read_only [] m -> orderly (invoke_in_session svc claims th name arguments key start) m.
Proof.
  unfold invoke_in_session. apply (then_ []); [unfold is_revoked; destruct (svc_grant_cache svc); avoid|].
  clear m. intros fast m Hm. apply obeys_do; [by apply (idle_may _ _ _ _ sends_act)|]. intros row _.
  destruct row as [[g|]|e]; [|apply silent; unfold denied; avoid|done].
  cbn [to_res fallible p_watch gate_protocol]. apply ends; [|intros o; unfold record_call; avoid].
  unfold audited_call. apply ends; [|intros [o|e]; unfold scrub, failed; avoid].
  apply obeys_attempt. eapply obeys_mono; [by apply resolved_gated, read_only_grant|done].
Qed.

Lemma invoke_gated token name arguments key : orderly (invoke svc token name arguments key) [].
Proof.
  assert (Hm : read_only [] []) by done. revert Hm. generalize (@nil event). unfold invoke.
  intros m. apply (then_ []); [done|]. clear m. intros start m.
  apply (then_ []); [unfold verify_grant_token; avoid|]. clear m. intros [claims|e] m;
    [|intros _; apply silent; unfold denied; avoid].
  destruct (negb _); [intros _; apply silent; unfold denied; avoid|].
  unfold with_session. apply (then_ []); [done|]. clear m. intros _ m Hm. apply ends; [|intros r; avoid].
  apply obeys_attempt. eapply obeys_mono; [by apply session_gated|done].
Qed.
End InvocationGate.

(** *** Issuing before the grant's row *)

(** The grant of this agent is written. *)
Definition issues_for : action := fun _ aid c =>
  match c with EDbAdd (RowGrant g) => bool_decide (grant_agent_id g = aid) | _ => false end.

Lemma issues_act m aid c : issues_for m aid c = true -> adds_grant c = true.
Proof. destruct c; try done. by destruct r. Qed.

(** A grant of another agent is. *)
Definition adds_other (aid : uuid) (c : eff) : bool :=
  match c with EDbAdd (RowGrant g) => negb (bool_decide (grant_agent_id g = aid)) | _ => false end.

Lemma request_gated `{PyJwt} `{PyRepr} settings tools aid name requested cached m :
  let gate := gate_protocol "grants:" (grants_per_minute_per_agent settings) issues_for in
  obeys gate (request_grant settings tools aid name requested cached true) (anyway gate) m.
Proof.
  cbn zeta. unfold request_grant. apply obeys_bind, obeys_bind.
  eapply obeys_mono; [by apply (check_gate _ _ _ (adds_other aid) adds_grant (fun _ => True) issues_act)|].
  clear m. cbn beta. intros m [[|]|e] [_ Had]; cbn [negb].
  2: { apply obeys_do; [by apply (idle_may _ _ _ _ issues_act)|]. by intros [] _. }
  2: done.
  cbn [bind ret obeys].
  apply (gate_open _ _ _ (adds_other aid) (fun _ => True) (fun _ _ _ _ _ => I) aid); [| |done|by apply Had].
  - intros m' aid' c Hc _ Ha. destruct c; try done. destruct r; try done. cbn in Hc, Ha.
    apply (bool_decide_eq_true_1 _) in Ha. apply negb_false_iff, (bool_decide_eq_true_1 _) in Hc. congruence.
  - unfold get_tool, record_issued. avoid. cbn. by rewrite bool_decide_true.
Qed.

(** ** The rate, along a path *)

Section Rate.
Context (prefix : string) (limit : Z) (acts : action).

(** The events of one task. *)
Definition events_of (i : nat) (t : list occurrence) : list event :=
  map oc_event (List.filter (fun x => Nat.eqb (oc_task x) i) t).

(** Whoever acts for an agent was admitted as this agent, in the window of a
    time it read; and each window admits no more than the limit before it
    ends. *)
Record rate_limited (t : list occurrence) : Prop := {
  rl_admitted : forall t1 x t2 aid, t = (t1 ++ x :: t2)%list ->
    acts (events_of (oc_task x) t1) aid (ev_eff (oc_event x)) = true ->
    admitted_as prefix limit (events_of (oc_task x) t1) aid;
  rl_window : forall aid window,
    admitted (prefix +:+ uuid_str aid) window limit t <= Z.max 0 limit
}.

(** Nobody has been counted yet. *)
Definition uncounted (keys : gmap string redis_entry) : Prop :=
  forall k, startswith RATELIMIT_PREFIX k = true -> keys !! k = None.

Lemma path_rate_limited (code : prog unit -> Prop) w0 t w :
  String.length prefix = 7%nat ->
  (forall key window p, String.length key = 43%nat -> code p ->
     obeys (counter_protocol key window) p (anyway (counter_protocol key window)) []) ->
  (forall p, code p -> obeys (gate_protocol prefix limit acts) p (anyway (gate_protocol prefix limit acts)) []) ->
  w_tasks w0 = [] -> uncounted (w_redis w0) -> path code w0 t w -> rate_limited t.
Proof.
  intros Hp Hcount Hgate Hw0 Hk Ht. split.
  - intros t1 x t2 aid E Ha. pose proof (path_may _ code Hgate w0 t w t1 x t2 Hw0 Ht E) as Hmay.
    rewrite gate_knows in Hmay. by apply Hmay.
  - intros aid window. eapply co_limit, th_counted, (path_throttled (prefix +:+ uuid_str aid) window limit code);
      [intros p; apply Hcount|done| |exact Ht].
    + by apply agent_key_length.
    + apply Hk. unfold counter_key. apply startswith_app.
Qed.
End Rate.
