(* ===== verification/Revocation.v ===== *)
(** * Revoked tokens stay dead

    Once the row stored under a token's hash is committed as revoked, it
    stays there and revoked in every later world, and every query for it, in
    a session that adds no grant, finds it so.  Two consequences: a task
    whose program sends nothing as long as such queries are answered this way
    never sends anything; and a task already under way sends no more than its
    program may under such answers. *)

From stdpp Require Import base tactics list strings numbers relations.
From S2P Require Import Prelude PyStr Errors Json Uuid Config Models Effects Budget World Discipline Limit.
Open Scope string_scope.
#[local] Open Scope Z_scope.

(** ** The row of a revoked token *)

(** A row with the hash [h] and the id [gid]; and it is revoked. *)
Definition stored (h : string) (gid : uuid) (db : database) : Prop :=
  exists g, g ∈ db_grants db /\ grant_token_hash g = h /\ grant_id g = gid.

Definition dead (h : string) (gid : uuid) (db : database) : Prop :=
  exists g, g ∈ db_grants db /\ grant_token_hash g = h /\ grant_id g = gid /\
    is_Some (grant_revoked_at g).

(** Rows are added and revoked, nothing else happens to them. *)
Lemma grant_write g db x :
  g ∈ db_grants db -> exists g', g' ∈ db_grants (apply_write db x) /\
    grant_token_hash g' = grant_token_hash g /\ grant_id g' = grant_id g /\
    (is_Some (grant_revoked_at g) -> is_Some (grant_revoked_at g')).
Proof.
  intros Hg. destruct x as [[]|[]]; try (by exists g).
  - exists g. split; [|done]. cbn. apply elem_of_app. by left.
  - exists (revoke_row id t g). split; [cbn; by apply list_elem_of_fmap_2|].
    unfold revoke_row. by destruct (bool_decide _).
Qed.

Lemma stored_write h gid db x : stored h gid db -> stored h gid (apply_write db x).
Proof.
  intros (g & (g' & Hg' & Eh & Ei & _)%(grant_write _ _ x) & <- & <-). by exists g'.
Qed.

Lemma dead_write h gid db x : dead h gid db -> dead h gid (apply_write db x).
Proof.
  intros (g & (g' & Hg' & Eh & Ei & Hr)%(grant_write _ _ x) & <- & <- & Hrev). exists g'. auto.
Qed.

Lemma dead_stored h gid db : dead h gid db -> stored h gid db.
Proof. intros (g & ? & ? & ? & _). by exists g. Qed.

(** One row per hash. *)
Lemma stored_unique h gid gid' db : db_wf db -> stored h gid db -> stored h gid' db -> gid = gid'.
Proof.
  intros Hwf (g & Hg & Hh & <-) (g' & Hg' & Hh' & <-). pose proof (wf_token_unique _ Hwf) as Hnd.
  assert (E : [g] = [g']) by (rewrite <- (grants_hashed_unique h _ g Hnd Hg Hh);
    by apply grants_hashed_unique).
  by injection E as ->.
Qed.

(** ** What a session that adds no grant sees *)

(** Columns a revocation leaves alone. *)
Lemma view_column {B} (f : Grant -> B) s db :
  (forall t g, f (set_revoked_at t g) = f g) -> added s = [] ->
  f <$> db_grants (view s db) = f <$> db_grants db.
Proof.
  intros Hf. unfold view, added. generalize (s_writes s). intros l. revert db.
  induction l as [|x l IH]; intros db Hl; [done|]. cbn in Hl |- *.
  destruct x as [[]|[]]; try (by rewrite IH). rewrite IH by done. cbn. clear IH Hl.
  induction (db_grants db) as [|g gs IH]; [done|]. cbn. rewrite IH. f_equal.
  unfold revoke_row. by destruct (bool_decide _).
Qed.

Lemma view_stored h gid s db : added s = [] -> stored h gid (view s db) -> stored h gid db.
Proof.
  intros Hs (g & Hg & <- & <-).
  assert (Hin : (grant_token_hash g, grant_id g) ∈ (fun g => (grant_token_hash g, grant_id g)) <$> db_grants db).
  { rewrite <- (view_column _ s) by done. by apply (list_elem_of_fmap_2 (fun g => (grant_token_hash g, grant_id g))). }
  apply list_elem_of_fmap in Hin as (g' & [= Eh Ei] & Hg'). by exists g'.
Qed.

(** *** ... and is answered *)

(** The only row with the hash [h] is the grant [gid]. *)
Definition tied (h : string) (gid : uuid) (ev : event) : Prop :=
  match ev with
  | Ev (EDbGrantByHash h') (Ok (Some g)) => h' = h -> grant_id g = gid
  | _ => True
  end.

(** ... it is there, and revoked. *)
Definition gone (h : string) (gid : uuid) (ev : event) : Prop :=
  tied h gid ev /\
  match ev with
  | Ev (EDbGrantByHash h') (Ok row) =>
      h' = h -> exists g, row = Some g /\ is_Some (grant_revoked_at g)
  | Ev (EDbGrantRevokedAt gid') (Ok row) => gid' = gid -> exists t, row = Some (Some t)
  | _ => True
  end.

Lemma answered_row now h s db row :
  added s = [] -> answers now (view s db) (EDbGrantByHash h) (Ok (Some row)) = true ->
  stored h (grant_id row) db.
Proof.
  intros Hs Ha. cbn in Ha. apply (bool_decide_eq_true_1 _) in Ha. eapply view_stored; [done|].
  assert (Hin : In row (grants_hashed h (db_grants (view s db)))) by (rewrite Ha; by left).
  apply List.filter_In in Hin as [Hin Hh%String.eqb_eq]. exists row. by rewrite list_elem_of_In.
Qed.

Lemma dead_answered h gid now db s c (a : reply c) :
  db_wf db -> dead h gid db -> added s = [] -> answers now (view s db) c a = true ->
  gone h gid (Ev c a).
Proof.
  intros Hwf Hdead Hs Ha. assert (Htied : tied h gid (Ev c a)).
  { destruct c; try done. destruct a as [[row|]|e]; try done. intros ->.
    eapply (stored_unique h); [done|by eapply answered_row|by apply dead_stored]. }
  split; [done|]. destruct (view_keeps _ (dead_write h gid) s db Hdead) as (g & Hg & Hh & Hi & Hr).
  destruct c; try done; (destruct a as [row|e]; [|done]); cbn in Ha; intros ->.
  - rewrite (grants_hashed_unique h _ g) in Ha; [|rewrite view_column by done; apply Hwf|done..].
    destruct row as [g'|]; [|done]. apply (bool_decide_eq_true_1 _) in Ha.
    injection Ha as <-. by exists g.
  - assert (Hone : List.filter (fun g => bool_decide (grant_id g = gid)) (db_grants (view s db)) = [g]).
    { apply lone_row; [|done..]. rewrite view_column by done. apply Hwf. }
    rewrite Hone in Ha. cbn in Ha. destruct row as [r|]; [|done]. apply (bool_decide_eq_true_1 _) in Ha.
    injection Ha as <-. destruct Hr as [t ->]. by exists t.
Qed.

(** ** Tasks that add no grant *)

Record bystanding (tk : task) : Prop := {
  by_prog : avoids adds_grant (t_prog tk);
  by_added : added (t_session tk) = []
}.

Lemma bystanding_fresh p : avoids adds_grant p -> bystanding (Task p fresh_session).
Proof. by split. Qed.

Lemma added_after s c (a : reply c) :
  adds_grant c = false -> added s = [] -> added (session_after s c a) = [].
Proof.
  intros Hc Hs. destruct c; try done; cbn [session_after].
  - rewrite added_write, Hs. by destruct r.
  - by rewrite added_write, Hs.
  - by destruct a as [[]|].
Qed.

Lemma bystanding_next c k s (a : reply c) :
  bystanding (Task (Vis c k) s) -> bystanding (Task (k a) (session_after s c a)).
Proof. intros [[Hc Hk] Hs]. split; [apply Hk|by apply added_after]. Qed.

(** *** One task through the steps of all *)

Section Task.
Context (code : prog unit -> Prop) (i : nat).

(** The task is left alone or killed, or it runs its next effect. *)
Inductive task_moves (tk : task) (w : world) (o : option occurrence) (tk' : task) : Prop :=
| Stays : tk' = tk -> (forall x, o = Some x -> oc_task x <> i) -> task_moves tk w o tk'
| Dies : tk' = idle -> o = None -> task_moves tk w o tk'
| Runs c k s a :
    tk = Task (Vis c k) s -> tk' = Task (k a) (session_after s c a) -> o = Some (Occurs (w_now w) i (Ev c a)) ->
    answers (w_now w) (view s (w_db w)) c a = true -> task_moves tk w o tk'.

Lemma task_step w o w' tk :
  wstep code w o w' -> w_tasks w !! i = Some tk ->
  exists tk', w_tasks w' !! i = Some tk' /\ task_moves tk w o tk'.
Proof.
  intros Hs Hi. destruct Hs as [w p Hp|w j c k s applied a Hj Ha|w j|w t Ht]; cbn.
  - exists tk. split; [by apply lookup_app_l_Some|by apply Stays].
  - destruct (decide (j = i)) as [->|Hne].
    + eexists. rewrite list_lookup_insert_eq by (by eapply lookup_lt_Some). split; [done|].
      rewrite Hj in Hi. injection Hi as <-. apply admissible_answers in Ha. by eapply Runs.
    + exists tk. rewrite list_lookup_insert_ne by done. split; [done|]. apply Stays; [done|].
      by intros x [= <-].
  - destruct (decide (j = i)) as [->|Hne].
    + exists idle. rewrite list_lookup_insert_eq by (by eapply lookup_lt_Some). split; [done|by apply Dies].
    + exists tk. rewrite list_lookup_insert_ne by done. split; [done|by apply Stays].
  - exists tk. split; [done|by apply Stays].
Qed.

Context (P : eff -> bool) (h : string) (gid : uuid).

(** The events of the kind [P] of this task. *)
Definition its_events (t : list occurrence) : list occurrence :=
  List.filter (fun x => Nat.eqb (oc_task x) i && P (ev_eff (oc_event x))) t.

(** *** After the revocation *)

Record budgeted (n : nat) (w : world) : Prop := {
  bu_wf : db_wf (w_db w);
  bu_dead : dead h gid (w_db w);
  bu_task : exists tk, w_tasks w !! i = Some tk /\ bystanding tk /\
    spends (gone h gid) P n (t_prog tk)
}.

Lemma budgeted_step n w o w' :
  wstep code w o w' -> budgeted n w ->
  exists m, budgeted m w' /\ (m + length (its_events (option_list o)) <= n)%nat.
Proof.
  intros Hs [Hwf Hdead (tk & Hi & Hby & Hsp)].
  assert (Hwf' : db_wf (w_db w')) by (by apply (wf_step code w w'); [exists o|]).
  assert (Hdead' : dead h gid (w_db w'))
    by (apply (step_keeps _ (dead_write h gid) code w w'); [by exists o|done]).
  destruct (task_step w o w' tk Hs Hi) as (tk' & Hi' & [-> Hne| -> -> |c k s a -> -> -> Ha]).
  - exists n. split; [by split; [..|exists tk]|]. destruct o as [x|]; cbn; [|lia].
    destruct (Nat.eqb_spec (oc_task x) i) as [E|]; [by destruct (Hne x)|cbn; lia].
  - exists n. split; [|cbn; lia]. split; [done..|]. exists idle. by split.
  - assert (Hg : gone h gid (Ev c a)) by exact (dead_answered h gid _ _ s c a Hwf Hdead (by_added _ Hby) Ha).
    cbn in Hsp |- *. rewrite Nat.eqb_refl. cbn. destruct (P c).
    + destruct n as [|n]; [done|]. exists n. split; [|cbn; lia]. split; [done..|]. eexists.
      split; [done|]. split; [by apply bystanding_next|by apply Hsp].
    + exists n. split; [|cbn; lia]. split; [done..|]. eexists.
      split; [done|]. split; [by apply bystanding_next|by apply Hsp].
Qed.

Lemma budgeted_path n w t w' : path code w t w' -> budgeted n w -> (length (its_events t) <= n)%nat.
Proof.
  intros Hp. revert n. induction Hp as [w|w o w' t w'' Hs _ IH]; intros n Hn; [cbn; lia|].
  destruct (budgeted_step n w o w' Hs Hn) as (m & Hm & Hle). specialize (IH m Hm).
  unfold its_events in *. rewrite List.filter_app, length_app. lia.
Qed.

(** *** Before it: a task under way *)

Record flying (n : nat) (w : world) : Prop := {
  fl_wf : db_wf (w_db w);
  fl_task : exists tk, w_tasks w !! i = Some tk /\ bystanding tk /\
    thrifty (tied h gid) (gone h gid) P n (t_prog tk)
}.

Lemma flying_step n w w' w0 :
  step code w w' -> rtc (step code) w' w0 -> db_wf (w_db w0) -> stored h gid (w_db w0) ->
  flying n w -> flying n w'.
Proof.
  intros Hs Hlater Hwf0 Hst0 [Hwf (tk & Hi & Hby & Hth)]. pose proof Hs as [o Ho].
  split; [by eapply wf_step|]. destruct (task_step w o w' tk Ho Hi) as (tk' & Hi' & Hmove).
  exists tk'. split; [done|]. destruct Hmove as [-> _| -> _|c k s a -> -> -> Ha]; [done|by split|].
  split; [by apply bystanding_next|]. destruct Hth as [_ Hth]. apply Hth.
  destruct c; try done. destruct a as [[g|]|e]; try done. intros ->.
  apply (stored_unique h _ _ (w_db w0)); [done| |done].
  apply (steps_keep _ (stored_write h (grant_id g)) code w w0); [by eapply rtc_l|].
  eapply answered_row; [apply Hby|exact Ha].
Qed.

Lemma flying_steps n w w0 :
  rtc (step code) w w0 -> db_wf (w_db w0) -> stored h gid (w_db w0) -> flying n w -> flying n w0.
Proof.
  intros Hs Hwf Hst. induction Hs as [w0|w w' w0 Hs Hrest IH]; [done|].
  intros Hfl. apply IH; [done..|]. by eapply flying_step.
Qed.
End Task.

(** *** The two consequences *)

Section Consequences.
Context (code : prog unit -> Prop) (P : eff -> bool) (h : string) (gid : uuid).

Lemma start_lookup p w : w_tasks (start p w) !! length (w_tasks w) = Some (Task p fresh_session).
Proof. cbn. by rewrite lookup_app_r, Nat.sub_diag by lia. Qed.

(** A task started after the revocation. *)
Lemma started_after n p w t w' :
  reachable code w -> dead h gid (w_db w) -> avoids adds_grant p -> spends (gone h gid) P n p ->
  path code (start p w) t w' -> (length (its_events (length (w_tasks w)) P t) <= n)%nat.
Proof.
  intros Hw Hdead Hby Hsp Hp. eapply budgeted_path; [exact Hp|]. split.
  - exact (reachable_wf code w Hw).
  - exact Hdead.
  - eexists. split; [apply start_lookup|]. by split; [apply bystanding_fresh|].
Qed.

(** A task started before it: from the revocation on. *)
Lemma started_before n p w w0 t w' :
  reachable code w -> code p -> avoids adds_grant p -> thrifty (tied h gid) (gone h gid) P n p ->
  rtc (step code) (start p w) w0 -> dead h gid (w_db w0) -> path code w0 t w' ->
  (length (its_events (length (w_tasks w)) P t) <= n)%nat.
Proof.
  intros Hw Hcode Hby Hth Hs Hdead Hp.
  assert (Hwf0 : db_wf (w_db w0)).
  { apply (reachable_wf code). eapply reachable_steps; [|exact Hs]. by apply start_reachable. }
  destruct (flying_steps code (length (w_tasks w)) P h gid n _ _ Hs Hwf0 (dead_stored _ _ _ Hdead))
    as [_ (tk & Hi & Htk & Hth')].
  { split; [exact (reachable_wf code w Hw)|]. eexists. split; [apply start_lookup|].
    by split; [apply bystanding_fresh|]. }
  eapply budgeted_path; [exact Hp|]. split; [done..|]. exists tk. split; [done|]. split; [done|].
  by eapply thrifty_spends.
Qed.
End Consequences.
