(* ===== verification/InFlight.v ===== *)
(** * Revocation and the calls in flight

    What a revocation leaves to a call: nothing to one that starts after it,
    and to one that has already begun, from any point of it, at most one
    round of attempts to the provider, once reads of the grant's row say
    revoked. *)

From stdpp Require Import base tactics list strings numbers gmap relations.
From S2P Require Import Prelude PyStr Errors Json Hashing Uuid Config Models Breaker Effects Budget.
From S2P Require Import Redaction Retry Redis Kms Tokens Tools OAuthState Google Router Cache Idempotency.
From S2P Require Import Grants AuditLog Invoke InvokeAudit InvokeProvider World Discipline Limit Revocation.
Import IdempotencyStore.
Open Scope string_scope.
#[local] Open Scope Z_scope.

Section Invoke.
Context `{PyJwt} `{PyRepr} `{AesGcm} (svc : InvokeService) (Hsvc : svc_contract svc).
Context (h : string) (gid : uuid).

Abbreviation per_call := (Z.to_nat (outbound_max_retries (svc_settings svc) + 1)).
Abbreviation thrift p := (thrifty (tied h gid) (gone h gid) is_tool_request per_call p).
Abbreviation idle_when_gone p := (spends (gone h gid) is_tool_request 0 p).

Lemma guarded_tool {A} (p : prog A) : avoids is_guarded p -> avoids is_tool_request p.
Proof. apply avoids_weaken. by intros []. Qed.

Lemma outbound_tool {A} (p : prog A) : avoids is_outbound p -> avoids is_tool_request p.
Proof. apply avoids_weaken. by intros []. Qed.

Lemma outcome_tool status result error reason start cached :
  avoids is_tool_request (outcome_of status result error reason start cached).
Proof. apply guarded_tool, outcome_unseen. Qed.

Lemma refresh_tool account start : avoids is_tool_request (refresh_or_outcome svc account start).
Proof.
  assert (Hparse : forall r, avoids is_tool_request (parse_token_response r))
    by (intros r; apply outbound_tool, parse_avoids).
  assert (Hdec : forall b, avoids is_tool_request (decrypt (svc_cipher svc) b))
    by (intros b; by apply outbound_tool, decrypt_avoids, Hsvc).
  assert (Henc : forall s, avoids is_tool_request (encrypt (svc_cipher svc) s))
    by (intros s; by apply outbound_tool, encrypt_avoids, Hsvc).
  assert (Hval : forall v, avoids is_tool_request (encrypt_value (svc_cipher svc) v))
    by (intros v; by apply outbound_tool, encrypt_value_avoids, Hsvc).
  pose proof outcome_tool. unfold refresh_or_outcome, refresh_credential, refresh_access_token, failed. avoid.
Qed.

#[local] Hint Resolve outcome_tool refresh_tool : avoids.

(** *** One round of attempts *)

Lemma call_provider_spends name tool token arguments :
  svc_tools svc !! name = Some tool ->
  spends (fun _ => True) is_tool_request per_call (call_provider svc tool token arguments).
Proof.
  intros Ht. unfold call_provider. apply spends_then; [unfold circuit_for; avoid|]. intros _.
  apply (spends_tally _ _ _ 0). eapply wp_mono.
  - apply (wp_call_count (tally is_tool_request) (fun k n => n <= k)%nat _ _ _ _ _ 0%nat).
    + intros n [[] ?]; done.
    + done.
    + intros k n Hn. pose proof (sc_tools svc Hsvc name tool token arguments Ht) as Hone.
      destruct (tool_call tool token arguments) as [r|c f]; [cbn; lia|]. destruct Hone as [Hc Hf].
      intros a _. destruct (Hf a) as [r ->]. unfold tally. cbn. rewrite Hc. lia.
    + done.
  - intros n r (k & Hk & Hn). lia.
Qed.

(** *** The revocation check *)

Lemma checked_idle th (p q : prog InvokeOutcome) :
  avoids is_tool_request p ->
  idle_when_gone (revoked <- is_revoked_now svc gid th ;; if revoked : bool then p else q).
Proof.
  intros Hp. unfold is_revoked_now.
  assert (Hcheck : forall cached : bool, idle_when_gone
    (revoked <- (if cached then ret true else
       row <- perform (EDbGrantRevokedAt gid) ;;
       match row with None => ret true | Some revoked_at => ret (bool_decide (is_Some revoked_at)) end) ;;
     if revoked : bool then p else q)).
  { intros [|]; [by apply spends_avoids|]. intros [row|e] [_ Ha]; [|done].
    destruct (Ha eq_refl) as [t ->]. by apply spends_avoids. }
  destruct (svc_grant_cache svc); [|apply (Hcheck false)].
  unfold is_revoked. intros [n|e] _; [|done]. apply Hcheck.
Qed.

Lemma revoked_now_tool th : avoids is_tool_request (is_revoked_now svc gid th).
Proof. unfold is_revoked_now, is_revoked. destruct (svc_grant_cache svc); avoid. Qed.

Lemma revoked_tool start : avoids is_tool_request (revoked_outcome start).
Proof. apply outcome_tool. Qed.

Lemma checked_thrifty th start p :
  thrift p ->
  thrift (revoked <- is_revoked_now svc gid th ;; if revoked : bool then revoked_outcome start else p).
Proof.
  intros Hp. apply thrifty_then; [apply revoked_now_tool|].
  intros [|]; [apply thrifty_avoids, revoked_tool|done].
Qed.

(** *** The loop and the call *)

Lemma loop_thrifty name fuel grant th tool account token (refreshed : bool) arguments start :
  svc_tools svc !! name = Some tool -> grant_id grant = gid ->
  thrift (provider_loop svc out_of_fuel fuel grant th tool account token refreshed arguments start).
Proof.
  intros Ht Hid. revert token refreshed. induction fuel as [|fuel IH]; intros token refreshed; [done|].
  cbn [provider_loop]. rewrite Hid. apply thrifty_bind.
  - by apply thrifty_attempt, thrifty_runs, (call_provider_spends name).
  - intros [result|e]; [apply spends_avoids, outcome_tool|].
    destruct (is_401 e && negb refreshed && can_refresh account).
    + apply spends_then; [apply refresh_tool|]. intros [t|o]; [|done]. apply checked_idle, revoked_tool.
    + destruct (provider_failure tool e); [apply spends_avoids, outcome_tool|done].
  - intros [result|e]; [apply thrifty_avoids, outcome_tool|].
    destruct (is_401 e && negb refreshed && can_refresh account).
    + apply thrifty_then; [apply refresh_tool|]. intros [t|o]; [|done]. apply checked_thrifty, IH.
    + destruct (provider_failure tool e); [apply thrifty_avoids, outcome_tool|done].
Qed.

Lemma usable_tool account start : avoids is_tool_request (usable_token svc account start).
Proof.
  assert (Hdec : forall b, avoids is_tool_request (decrypt (svc_cipher svc) b))
    by (intros b; by apply outbound_tool, decrypt_avoids, Hsvc).
  unfold usable_token, stored_access_token, failed. avoid.
Qed.

Lemma execute_thrifty name grant th tool arguments start :
  svc_tools svc !! name = Some tool -> grant_id grant = gid ->
  thrift (execute_call svc grant th tool arguments start).
Proof.
  intros Ht Hid. unfold execute_call. apply thrifty_then; [done|].
  intros [account|]; [|apply thrifty_avoids, outcome_tool].
  apply thrifty_then; [apply usable_tool|]. intros [[t refreshed]|o]; [|done].
  rewrite Hid. by apply checked_thrifty, (loop_thrifty name).
Qed.

Lemma idempotent_thrifty store key start call :
  thrift call -> thrift (idempotent_call store key start call).
Proof.
  intros Hc. unfold idempotent_call. apply thrifty_then; [unfold get; avoid|].
  intros [[cached|]|e]; [apply thrifty_avoids, outcome_tool| |].
  2: { destruct (isinstance e _); [apply thrifty_avoids, outcome_tool|done]. }
  apply thrifty_then; [unfold reserve; avoid|].
  intros [owner|]; [|apply thrifty_avoids, outcome_tool].
  apply thrifty_settle; [by apply thrifty_attempt|]. intros r. unfold complete, release. avoid.
Qed.

Lemma resolved_thrifty grant th name arguments key fast start :
  grant_id grant = gid -> thrift (invoke_resolved svc grant th name arguments key fast start).
Proof.
  intros Hid. unfold invoke_resolved. destruct (_ || _)%bool; [apply thrifty_avoids, revoked_tool|].
  do 2 (apply thrifty_then; [done|intros ?]). match goal with |- context [if ?b then _ else _] => destruct b end;
    [apply thrifty_avoids, outcome_tool|].
  apply thrifty_then; [unfold check; destruct (svc_rate_limiter svc); avoid|]. intros [|]; cbn [negb].
  2: { apply thrifty_avoids. avoid. }
  unfold resolved_tool, get_tool. destruct (svc_tools svc !! name) as [tool|] eqn:Et; cbn [or_raise].
  2: { destruct (isinstance _ _); [apply thrifty_avoids, outcome_tool|done]. }
  destruct (negb _); [apply thrifty_avoids, outcome_tool|].
  pose proof (execute_thrifty name grant th tool arguments start Et Hid) as He.
  destruct key as [key|]; [|done]. destruct (svc_idempotency_store svc); [|done]. by apply idempotent_thrifty.
Qed.

Lemma session_thrifty claims name arguments key start :
  thrift (invoke_in_session svc claims h name arguments key start).
Proof.
  unfold invoke_in_session. apply thrifty_then; [unfold is_revoked; destruct (svc_grant_cache svc); avoid|].
  intros fast. apply thrifty_do; [by intros ev []|done|]. intros a x Ha Hx. destruct a as [row|e]; [|done].
  injection Hx as <-. destruct row as [grant|]; [|apply thrifty_avoids; unfold denied; avoid].
  apply thrifty_settle; [|intros o; unfold record_call; avoid]. unfold audited_call.
  apply thrifty_settle; [apply thrifty_attempt, resolved_thrifty; by apply Ha|].
  intros [o|e]; unfold scrub, failed; avoid.
Qed.
End Invoke.

Lemma invoke_thrifty `{PyJwt} `{PyRepr} `{AesGcm} (svc : InvokeService) gid token name arguments key :
  svc_contract svc ->
  thrifty (tied (hash_token token) gid) (gone (hash_token token) gid) is_tool_request
    (Z.to_nat (outbound_max_retries (svc_settings svc) + 1)) (invoke svc token name arguments key).
Proof.
  intros Hsvc. pose proof outcome_tool. unfold invoke. apply thrifty_then; [done|]. intros start.
  apply thrifty_then; [unfold verify_grant_token; avoid|].
  intros [claims|e]; [|apply thrifty_avoids; unfold denied; avoid].
  destruct (negb _); [apply thrifty_avoids; unfold denied; avoid|].
  unfold with_session. apply thrifty_then; [done|]. intros _.
  apply thrifty_settle; [by apply thrifty_attempt, session_thrifty|]. intros r. avoid.
Qed.

(** ** A call that starts when the row is revoked *)

Section Silent.
Context `{PyJwt} `{PyRepr} `{AesGcm} (svc : InvokeService).

Abbreviation silent h gid p := (spends (gone h gid) is_http 0 p).

Lemma outcome_http status result error reason start cached :
  avoids is_http (outcome_of status result error reason start cached).
Proof. unfold outcome_of, elapsed_ms, scrub. avoid. Qed.

#[local] Hint Resolve outcome_http : avoids.

(** The row decides: nothing is looked up but the marker, nothing is sent. *)
Lemma session_silent h gid claims name arguments key start :
  silent h gid (invoke_in_session svc claims h name arguments key start).
Proof.
  unfold invoke_in_session. apply spends_then.
  { unfold is_revoked. destruct (svc_grant_cache svc); avoid. }
  intros fast [row|e] [_ Hrow]; [|done]. destruct (Hrow eq_refl) as (g & -> & Hrevoked).
  apply spends_avoids. cbn [to_res fallible bind]. apply avoids_bind; [|intros o; unfold record_call; avoid].
  unfold audited_call, invoke_resolved. rewrite (bool_decide_eq_true_2 _ Hrevoked), orb_true_r.
  unfold revoked_outcome, denied, failed, scrub. avoid.
Qed.

Lemma invoke_silent gid token name arguments key :
  silent (hash_token token) gid (invoke svc token name arguments key).
Proof.
  unfold invoke. apply spends_then; [done|]. intros start.
  apply spends_then; [unfold verify_grant_token; avoid|].
  intros [claims|e]; [|apply spends_avoids; unfold denied; avoid].
  destruct (negb _); [apply spends_avoids; unfold denied; avoid|].
  unfold with_session. apply spends_then; [done|]. intros _.
  apply spends_bind; [apply spends_attempt, session_silent|].
  intros r. apply spends_avoids. avoid.
Qed.
End Silent.
