(* ===== verification/Keyed.v ===== *)
(** * Calls with an idempotency key run under a reservation

    The protocol of one call: its requests to the provider come after it has
    read the grant of its token, and while it holds a reservation of the key
    of that grant.  An invocation with an idempotency key follows it. *)

From stdpp Require Import base tactics list strings numbers gmap.
From S2P Require Import Prelude PyStr Errors Json Hashing Uuid Config Models Breaker Effects Budget.
From S2P Require Import Redaction Retry Redis Kms Tokens Tools Cache Idempotency.
From S2P Require Import Grants AuditLog Invoke InvokeAudit InvokeProvider World Discipline Reservation.
From S2P Require Import Revocation InFlight.
Import IdempotencyStore.
Open Scope string_scope.
#[local] Open Scope Z_scope.

(** ** The protocol of a call *)

Section Protocol.
Context (th tool_name key : string).

(** The Redis key of a call under this grant. *)
Definition redis_key (g : Grant) : string := name (full_key_of g tool_name key).

(** The grant read, and whether its key is held. *)
Record call_state := CallState { cs_row : option Grant; cs_held : bool }.

Definition advanced (m : call_state) (c : eff) (a : reply c) : call_state :=
  match cs_row m with
  | Some g => CallState (Some g) (holds (redis_key g) (cs_held m) c a)
  | None => m
  end.

Definition call_watch (m : call_state) (c : eff) : reply c -> call_state :=
  match c return reply c -> call_state with
  | EDbGrantByHash h => fun a =>
      match a with
      | Ok (Some g) => if String.eqb h th then CallState (Some g) false else m
      | _ => m
      end
  | c => advanced m c
  end.

Definition may_request (m : call_state) (c : eff) : Prop :=
  is_tool_request c = true -> is_Some (cs_row m) /\ cs_held m = true.

Definition call_protocol : protocol :=
  {| p_state := call_state; p_fresh := CallState None false; p_watch := call_watch; p_may := may_request |}.

(** What the state stands for. *)
Lemma knows_call i t g :
  cs_row (knows call_protocol i t) = Some g ->
  (exists now, Occurs now i (Ev (EDbGrantByHash th) (Ok (Some g))) ∈ t) /\
  (cs_held (knows call_protocol i t) = true -> is_Some (reserved_since (redis_key g) i t)).
Proof.
  induction t as [|e t IH] using rev_ind; [done|]. rewrite knows_snoc, reserved_snoc. unfold learns, note.
  assert (Hin : (exists now, Occurs now i (Ev (EDbGrantByHash th) (Ok (Some g))) ∈ t) ->
    exists now, Occurs now i (Ev (EDbGrantByHash th) (Ok (Some g))) ∈ (t ++ [e])%list).
  { intros [now Hn]. exists now. apply elem_of_app. by left. }
  destruct (Nat.eqb_spec (oc_task e) i) as [Hi|Hi].
  2: { intros [Hn Hr]%IH. auto. }
  destruct e as [now j [c a]]. cbn in Hi |- *. subst j.
  assert (Hadv : cs_row (advanced (knows call_protocol i t) c a) = Some g ->
    (exists now', Occurs now' i (Ev (EDbGrantByHash th) (Ok (Some g))) ∈ (t ++ [Occurs now i (Ev c a)])%list) /\
    (cs_held (advanced (knows call_protocol i t) c a) = true ->
     is_Some (if reserves (redis_key g) (Ev c a) then Some now
              else if settles (redis_key g) (Ev c a) then None else reserved_since (redis_key g) i t))).
  { unfold advanced. destruct (cs_row (knows call_protocol i t)) as [g'|] eqn:Eg; [|by rewrite Eg].
    cbn. intros [= ->]. destruct (IH eq_refl) as [Hn Hr]. split; [auto|]. unfold holds.
    destruct (reserves _ _); [by intros _; eexists|]. by destruct (settles _ _). }
  destruct c; try exact Hadv. clear Hadv. cbn.
  destruct a as [[g'|]|e]; try (intros [Hn Hr]%IH; by auto).
  destruct (String.eqb_spec token_hash th) as [->|]; [|intros [Hn Hr]%IH; by auto].
  intros [= ->]. split; [|done]. exists now. apply elem_of_app. right. by apply list_elem_of_singleton.
Qed.
End Protocol.

(** ** Invocations follow it *)

Section Invocations.
Context `{PyJwt} `{PyRepr} `{AesGcm} (svc : InvokeService) (Hsvc : svc_contract svc).
Context (s : IdempotencyStore.t) (Hstore : svc_idempotency_store svc = Some s).
Context (th tool_name key : string).

Abbreviation d := (call_protocol th tool_name key).
Abbreviation orderly p := (obeys d p (anyway d)).

Lemma silent_may c (m : call_state) : is_tool_request c = false -> may_request m c.
Proof. unfold may_request. by intros ->. Qed.

(** Nothing is sent. *)
Lemma orderly_silent {A} (p : prog A) m : avoids is_tool_request p -> orderly p m.
Proof. apply obeys_bystander. intros c m'. apply silent_may. Qed.

Lemma orderly_ends {A B} (p : prog A) (f : A -> prog B) m :
  orderly p m -> (forall a, avoids is_tool_request (f a)) -> orderly (bind p f) m.
Proof. intros Hp Hf. apply (obeys_then d is_tool_request); [|done..]. intros c m'. apply silent_may. Qed.

(** Nothing is sent, and the grant is not read again. *)
Definition is_row_or_request (c : eff) : bool := is_tool_request c || is_audit c.

Lemma orderly_starts {A B} (p : prog A) (f : A -> prog B) m g :
  avoids is_row_or_request p -> cs_row m = Some g ->
  (forall a m, cs_row m = Some g -> orderly (f a) m) -> orderly (bind p f) m.
Proof.
  intros Hp Hm Hf. apply obeys_bind. revert m Hm. induction p as [[a|e]|c q IH]; intros m Hm;
    [by apply Hf|done|]. destruct Hp as [[Hc Ha]%orb_false_iff Hq]. split; [by apply silent_may|].
  intros a _. apply IH; [done|]. destruct c; try done; cbn; unfold advanced; by rewrite Hm.
Qed.

(** Under the reservation, what leaves the keys alone may send. *)
Lemma orderly_held {A} (p : prog A) g Q :
  avoids is_marked p -> (forall r, Q (CallState (Some g) true) r) ->
  obeys d p Q (CallState (Some g) true).
Proof.
  intros Hp HQ. induction p as [r|c q IH]; [apply HQ|]. destruct Hp as [(Ha & Hw & _)%unmarked Hq].
  split; [intros _; by split; [eexists|]|]. intros a _.
  destruct (other_commands (full_key_of g tool_name key) 0 c true Hw) as [_ Hh].
  replace (p_watch d (CallState (Some g) true) c a) with (CallState (Some g) true); [by apply IH|].
  cbn. destruct c; try done; cbn; unfold advanced, redis_key; cbn [cs_row cs_held]; by rewrite Hh.
Qed.

Lemma outcome_silent status result error reason start cached :
  avoids is_tool_request (outcome_of status result error reason start cached).
Proof. apply outcome_tool. Qed.

#[local] Hint Resolve outcome_silent : avoids.

Lemma idempotent_orderly_call g start call m :
  avoids is_marked call -> cs_row m = Some g ->
  orderly (idempotent_call s (full_key_of g tool_name key) start call) m.
Proof.
  intros Hc Hm. unfold idempotent_call, conflict_outcome, denied, succeeded.
  apply (orderly_starts _ _ _ g); [unfold get; avoid|done|]. clear m Hm. intros [[cached|]|e] m Hm;
    [apply orderly_silent, outcome_silent| |].
  2: { apply orderly_silent. destruct (isinstance e _); [apply outcome_silent|done]. }
  unfold reserve. apply obeys_bind, obeys_do; [by apply silent_may|]. intros owner _. cbn [to_res fallible].
  apply obeys_do; [by apply silent_may|]. intros claimed _.
  destruct claimed as [[|]|e]; [|apply orderly_silent, outcome_silent|done].
  cbn [to_res fallible]. unfold reserved_call. apply obeys_bind, obeys_attempt.
  match goal with |- obeys _ _ _ ?m' => replace m' with (CallState (Some g) true) end.
  2: { cbn. unfold advanced. rewrite Hm. cbn. unfold advanced. cbn [cs_row cs_held].
       unfold holds, reserves, redis_key. by rewrite String.eqb_refl. }
  apply orderly_held; [done|]. intros r. cbn beta. apply orderly_silent.
  destruct r as [o|e]; unfold complete, release; avoid.
Qed.

Lemma resolved_orderly_call g arguments fast start m :
  cs_row m = Some g ->
  orderly (invoke_resolved svc g th tool_name arguments (Some key) fast start) m.
Proof.
  intros Hm. unfold invoke_resolved, denied. destruct (_ || _)%bool; [apply orderly_silent, outcome_silent|].
  apply (orderly_starts _ _ _ g); [done|done|]. clear m Hm. intros now m Hm.
  apply (orderly_starts _ _ _ g); [done|done|]. clear m Hm. intros [|] m Hm; [apply orderly_silent, outcome_silent|].
  apply (orderly_starts _ _ _ g); [unfold check; destruct (svc_rate_limiter svc); avoid|done|].
  clear m Hm. intros [|] m Hm; cbn [negb]; [|apply orderly_silent; avoid].
  unfold resolved_tool, get_tool, denied.
  destruct (svc_tools svc !! tool_name) as [tool|] eqn:Et; cbn [or_raise].
  2: { apply orderly_silent. destruct (isinstance _ _); [apply outcome_silent|done]. }
  destruct (negb _); [apply orderly_silent, outcome_silent|]. rewrite Hstore.
  apply idempotent_orderly_call; [|done]. by apply (execute_avoids svc Hsvc tool_name).
Qed.

Lemma session_orderly_call claims arguments start m :
  orderly (invoke_in_session svc claims th tool_name arguments (Some key) start) m.
Proof.
  unfold invoke_in_session. apply obeys_bind.
  eapply obeys_mono; [apply orderly_silent; unfold is_revoked; destruct (svc_grant_cache svc); avoid|].
  clear m. intros m [fast|e] _; [|done]. apply obeys_do; [by apply silent_may|]. intros row _.
  destruct row as [[g|]|e]; [|apply orderly_silent; unfold denied; avoid|done].
  cbn [to_res fallible p_watch call_watch d]. rewrite String.eqb_refl.
  apply orderly_ends; [|intros o; unfold record_call; avoid]. unfold audited_call.
  apply orderly_ends; [|intros [o|e]; unfold scrub, failed; avoid].
  apply obeys_attempt. eapply obeys_mono; [by apply resolved_orderly_call|done].
Qed.
End Invocations.

Lemma invoke_orderly_call `{PyJwt} `{PyRepr} `{AesGcm} (svc : InvokeService) s token tool_name arguments key m :
  svc_contract svc -> svc_idempotency_store svc = Some s ->
  let d := call_protocol (hash_token token) tool_name key in
  obeys d (invoke svc token tool_name arguments (Some key)) (anyway d) m.
Proof.
  intros Hsvc Hs d. pose proof outcome_silent. unfold invoke. apply obeys_bind.
  eapply obeys_mono; [by apply orderly_silent|]. clear m. intros m [start|e] _; [|done].
  apply obeys_bind. eapply obeys_mono; [apply orderly_silent; unfold verify_grant_token; avoid|].
  clear m. intros m [[claims|e]|e] _; [|apply orderly_silent; unfold denied; avoid|done].
  destruct (negb _); [apply orderly_silent; unfold denied; avoid|].
  unfold with_session. apply obeys_bind. eapply obeys_mono; [by apply orderly_silent|].
  clear m. intros m [[]|e] _; [|done]. apply orderly_ends; [|intros r; avoid].
  apply obeys_attempt. eapply obeys_mono; [by eapply session_orderly_call|done].
Qed.
