(* ===== verification/App.v ===== *)
(** * Assembly and lifetime
    ([src/credbroker/app.py], [src/credbroker/main.py], [src/credbroker/db/session.py])

    [create_app], [ensure_dev_jwt_keys], [build_servers], the signal handler
    and [serve].  Redis and HTTP clients are numbers: what matters is which
    one reaches whom and who closes it.  uvicorn, grpc.aio and FastAPI are
    libraries: [serve] is the order in which it calls them. *)

From stdpp Require Import base tactics list strings numbers gmap.
From S2P Require Import Prelude PyStr Errors Json Uuid Config Models Breaker Effects Redaction Retry.
From S2P Require Import Kms Tokens Tools Google Router Cache Idempotency Grants Invoke InvokeAudit.
From S2P Require Import Demo Grpc Console.
Open Scope string_scope.
#[local] Open Scope Z_scope.

(** ** The web application *)

(** [create_app]'s result: [app.state], the clients on it and whether the
    lifespan closes the HTTP client. *)
Record WebApp := {
  wa_state : AppState;
  wa_http_client : nat;
  wa_redis_client : option nat;
  wa_owns_client : bool;
  wa_invoke_client : ClientState
}.

(** [create_app]; [fresh] is the HTTP client it would create. *)
Definition create_app (fresh : nat) (settings : Settings) (tools : registry) (cipher : KeyManager)
    (http_client redis_client : option nat) : res WebApp :=
  let client := default fresh http_client in
  res_map (fun store => {|
    wa_state :=
      {| st_settings := settings; st_tools := tools; st_cipher := cipher;
         st_grant_cache := bool_decide (is_Some redis_client);
         st_rate_limiter := bool_decide (is_Some redis_client);
         st_invoke_service :=
           {| svc_settings := settings; svc_tools := tools; svc_cipher := cipher;
              svc_grant_cache := bool_decide (is_Some redis_client);
              svc_rate_limiter := bool_decide (is_Some redis_client);
              svc_idempotency_store := store |} |};
    wa_http_client := client;
    wa_redis_client := redis_client;
    wa_owns_client := bool_decide (http_client = None);
    wa_invoke_client := client_init (Some client)
  |})
  (match redis_client with
   | Some _ => res_map Some (IdempotencyStore.new (idempotency_window_seconds settings))
   | None => Ok None
   end).

(** The end of [lifespan]: the client it closes. *)
Definition lifespan_closes (app : WebApp) : list nat :=
  if wa_owns_client app then [wa_http_client app] else [].

(** ** Keys for development *)

(** [settings.model_copy(update=...)] of the two key fields. *)
Definition with_jwt_keys (private_pem public_pem : string) (s : Settings) : Settings := {|
  database_url := database_url s; redis_url := redis_url s; http_host := http_host s;
  http_port := http_port s; grpc_port := grpc_port s; public_base_url := public_base_url s;
  google_client_id := google_client_id s; google_client_secret := google_client_secret s;
  oauth_state_secret := oauth_state_secret s; oauth_state_ttl_seconds := oauth_state_ttl_seconds s;
  kms_key_id := kms_key_id s; aws_region := aws_region s;
  local_master_key_b64 := local_master_key_b64 s;
  grant_token_ttl_seconds := grant_token_ttl_seconds s;
  jwt_private_key_pem := private_pem; jwt_public_key_pem := public_pem;
  jwt_issuer := jwt_issuer s;
  max_active_grants_per_agent_scope := max_active_grants_per_agent_scope s;
  idempotency_window_seconds := idempotency_window_seconds s;
  outbound_max_retries := outbound_max_retries s;
  outbound_base_delay_seconds := outbound_base_delay_seconds s;
  circuit_failure_threshold := circuit_failure_threshold s;
  circuit_reset_seconds := circuit_reset_seconds s;
  grants_per_minute_per_agent := grants_per_minute_per_agent s;
  invokes_per_minute_per_agent := invokes_per_minute_per_agent s;
  drive_api_base_url := drive_api_base_url s; console_token := console_token s
|}.

Definition EPHEMERAL_KEYS_WARNING : string :=
  "CREDBROKER_JWT_PRIVATE_KEY_PEM is not set; generating an ephemeral "
  +:+ "RSA keypair for grant signing. Grants will NOT survive a restart — "
  +:+ "this is for development only, never run production this way.".

(** [generate_keypair] is the library's: the PEM texts of a new RSA key. *)
Definition ensure_dev_jwt_keys (generate_keypair : prog (string * string)) (settings : Settings)
  : prog Settings :=
  if negb (String.eqb (jwt_private_key_pem settings) "") then ret settings
  else
    perform (ELog WARNING EPHEMERAL_KEYS_WARNING []) ;;
    pems <- generate_keypair ;;
    ret (with_jwt_keys pems.1 pems.2 settings).

(** ** The database *)

(** What SQLAlchemy is asked for: an engine with its options, and the
    factory of the sessions on it. *)
Record Engine (V : Type) := MkEngine { en_url : string; en_options : gmap string V }.
Arguments MkEngine {V}.
Arguments en_url {V}.
Arguments en_options {V}.

Record SessionFactory (V : Type) := MkFactory { sf_engine : Engine V; sf_expire_on_commit : bool }.
Arguments MkFactory {V}.
Arguments sf_engine {V}.
Arguments sf_expire_on_commit {V}.

(** [create_engine]; an option it sets itself may not be given again. *)
Definition create_engine {V} (true_ : V) (url : string) (kwargs : gmap string V) : res (Engine V) :=
  match kwargs !! "pool_pre_ping" with
  | Some _ => Exn (raise_of TypeError
        "sqlalchemy.ext.asyncio.engine.create_async_engine() got multiple values for keyword argument 'pool_pre_ping'")
  | None => Ok (MkEngine url (<["pool_pre_ping" := true_]> kwargs))
  end.

(** [create_session_factory]: rows keep their values after a commit. *)
Definition create_session_factory {V} (engine : Engine V) : SessionFactory V := MkFactory engine false.

(** What [serve] makes of the settings. *)
Definition serve_database {V} (true_ : V) (settings : Settings) : res (SessionFactory V) :=
  res_map create_session_factory (create_engine true_ (database_url settings) ∅).

(** Connections are tested before use, and nothing else is asked. *)
Lemma serve_database_ok {V} (true_ : V) settings :
  serve_database true_ settings =
    Ok (MkFactory (MkEngine (database_url settings) {[ "pool_pre_ping" := true_ ]}) false).
Proof. done. Qed.

(** ** The two servers *)

(** [uvicorn.Config]; [uv_log_config] is [None] when uvicorn installs no
    handlers of its own. *)
Record UvicornConfig := {
  uv_host : string;
  uv_port : Z;
  uv_log_level : string;
  uv_log_config : option string;
  uv_access_log : bool
}.

Record Servers := {
  ss_app : WebApp;
  ss_http_config : UvicornConfig;
  ss_grpc : GrpcServer
}.

(** [build_servers]. *)
Definition build_servers (fresh : nat) (settings : Settings) (tools : registry) (cipher : KeyManager)
    (redis_client http_client : nat) : res Servers :=
  res_bind (create_app fresh settings tools cipher (Some http_client) (Some redis_client)) (fun app =>
  res_map (fun grpc => {|
    ss_app := app;
    ss_http_config :=
      {| uv_host := http_host settings; uv_port := http_port settings; uv_log_level := "info";
         uv_log_config := None; uv_access_log := false |};
    ss_grpc := grpc
  |}) (build_grpc_server settings tools cipher redis_client (Some http_client))).

(** The first half of [serve]: what is built, from the settings read; the
    clients it creates are 0 (Redis) and 1 (HTTP). *)
Definition REDIS_CLIENT : nat := 0.
Definition HTTP_CLIENT : nat := 1.

Definition assemble `{PyRepr} `{AesGcm} (generate_keypair : prog (string * string))
    (settings : Settings) : prog Servers :=
  settings <- ensure_dev_jwt_keys generate_keypair settings ;;
  cipher <- build_token_cipher settings ;;
  lift (build_servers 2 settings (configure_tools settings TOOL_REGISTRY) cipher
          REDIS_CLIENT HTTP_CLIENT).

(** ** Shutdown *)

Definition SHUTDOWN_GRACE_SECONDS : Z := 5.

(** What a signal changes: uvicorn's flag, and the stops scheduled on the
    gRPC server with their grace. *)
Record stopping := Stopping { should_exit : bool; scheduled_stops : list Z }.

(** [initiate_shutdown]. *)
Definition initiate_shutdown (s : stopping) : stopping :=
  Stopping true (scheduled_stops s ++ [SHUTDOWN_GRACE_SECONDS])%list.

(** The awaited calls of the second half of [serve]. *)
Inductive life_step :=
| StartGrpc
| InstallSignalHandlers
| ServeBoth
| StopGrpc (grace : Z)
| CloseHttpClient (client : nat)
| CloseRedisClient (client : nat)
| DisposeEngine.

(** Calls one after the other, until one raises. *)
Fixpoint run_steps (answer : life_step -> res unit) (steps : list life_step)
  : list life_step * res unit :=
  match steps with
  | [] => ([], Ok tt)
  | s :: steps' =>
      match answer s with
      | Ok _ => let '(done, r) := run_steps answer steps' in (s :: done, r)
      | Exn e => ([s], Exn e)
      end
  end.

(** The [finally] block. *)
Definition cleanup : list life_step :=
  [StopGrpc SHUTDOWN_GRACE_SECONDS; CloseHttpClient HTTP_CLIENT; CloseRedisClient REDIS_CLIENT;
   DisposeEngine].

(** [try: body  finally: cleanup]: an exception of the cleanup replaces the
    body's. *)
Definition serve_until_stopped (answer : life_step -> res unit) : list life_step * res unit :=
  let '(served, r) := run_steps answer [ServeBoth] in
  let '(cleaned, r') := run_steps answer cleanup in
  ((served ++ cleaned)%list, match r' with Ok _ => r | Exn e => Exn e end).

Definition serve (answer : life_step -> res unit) : list life_step * res unit :=
  let '(started, r) := run_steps answer [StartGrpc; InstallSignalHandlers] in
  match r with
  | Ok _ => let '(rest, r') := serve_until_stopped answer in ((started ++ rest)%list, r')
  | Exn e => (started, Exn e)
  end.

(** ** What [serve] assembles *)

Section Assembly.
Context `{PyRepr} `{AesGcm}.

Lemma cipher_local settings {St} (h : handler St) σ km :
  result_of h (build_token_cipher settings) σ = Ok km -> km_local km.
Proof.
  unfold build_token_cipher. destruct (negb _); [intros [= <-]; apply aws_local|].
  intros (key & _ & Hkm & _)%bind_returns. rewrite result_lift in Hkm. by eapply local_local.
Qed.

(** The settings it runs with: those read, with a signing key. *)
Definition keyed (settings settings' : Settings) : Prop :=
  settings' = settings \/ exists priv pub, settings' = with_jwt_keys priv pub settings.

Lemma ensure_keys_keyed keygen settings {St} (h : handler St) σ settings' :
  result_of h (ensure_dev_jwt_keys keygen settings) σ = Ok settings' -> keyed settings settings'.
Proof.
  unfold ensure_dev_jwt_keys. destruct (negb _); [intros [= <-]; by left|].
  intros (? & _ & (pems & _ & Hp & _)%bind_returns & _)%bind_returns.
  right. injection Hp as <-. by eexists _, _.
Qed.

Lemma assemble_built keygen settings {St} (h : handler St) σ ss :
  result_of h (assemble keygen settings) σ = Ok ss ->
  exists settings' km, keyed settings settings' /\ km_local km /\
    build_servers 2 settings' (configure_tools settings' TOOL_REGISTRY) km REDIS_CLIENT HTTP_CLIENT = Ok ss.
Proof.
  intros (s' & Hs & (km & Hkm & Hss & _)%bind_returns & _)%bind_returns.
  exists s', km. split; [by eapply ensure_keys_keyed|]. split; [by eapply cipher_local|done].
Qed.

(** Both servers stand on the same parts. *)
Lemma build_servers_parts fresh settings tools cipher redis client ss :
  build_servers fresh settings tools cipher redis client = Ok ss ->
  let service := {|
    svc_settings := settings; svc_tools := tools; svc_cipher := cipher; svc_grant_cache := true;
    svc_rate_limiter := true;
    svc_idempotency_store := Some (IdempotencyStore.Store (idempotency_window_seconds settings)) |} in
  wa_state (ss_app ss) =
    {| st_settings := settings; st_tools := tools; st_cipher := cipher; st_grant_cache := true;
       st_rate_limiter := true; st_invoke_service := service |} /\
  gs_servicer (ss_grpc ss) =
    {| sv_settings := settings; sv_tools := tools; sv_grant_cache := true; sv_rate_limiter := true;
       sv_invoke_service := service |}.
Proof.
  unfold build_servers, create_app, build_grpc_server, IdempotencyStore.new.
  destruct (_ <? 1); [done|]. by intros [= <-].
Qed.

Lemma service_contract settings cipher store cache limiter :
  km_local cipher ->
  svc_contract {| svc_settings := settings; svc_tools := configure_tools settings TOOL_REGISTRY;
                  svc_cipher := cipher; svc_grant_cache := cache; svc_rate_limiter := limiter;
                  svc_idempotency_store := store |}.
Proof. intros Hc. split; [exact Hc|]. intros name tool. by apply drive_contract. Qed.
End Assembly.

(** ** The lifetime *)

Lemma run_steps_all answer steps :
  (forall s, s ∈ steps -> answer s = Ok tt) -> run_steps answer steps = (steps, Ok tt).
Proof.
  induction steps as [|s steps IH]; intros Hs; [done|]. cbn [run_steps].
  rewrite (Hs s) by constructor. rewrite IH; [done|]. intros s' Hs'. apply Hs. by constructor.
Qed.

(** Repeated signals. *)
Fixpoint signals (n : nat) (s : stopping) : stopping :=
  match n with O => s | S n' => signals n' (initiate_shutdown s) end.

Lemma signals_stop n s :
  signals n s = Stopping (match n with O => should_exit s | S _ => true end)
                  (scheduled_stops s ++ replicate n SHUTDOWN_GRACE_SECONDS)%list.
Proof.
  revert s. induction n as [|n IH]; intros s; cbn [signals replicate].
  - destruct s. cbn. by rewrite app_nil_r.
  - rewrite IH. cbn. rewrite <- app_assoc. by destruct n.
Qed.

(** Uses of an invoke service's client and a final [aclose]. *)
Lemma injected_client_kept c fresh :
  client_http fresh (client_init (Some c)) = (c, client_init (Some c)) /\
  client_aclose (client_init (Some c)) = (None, client_init (Some c)).
Proof. done. Qed.

(** ** Properties *)

(** One set of parts behind both servers.  Whatever [build_servers]
    builds, the console and the gRPC servicer run the same invoke service
    with the same settings, tools, cipher and caches, over the Redis client
    and the HTTP client they were given; neither service and no lifespan
    ever closes that client; and uvicorn neither installs handlers of its
    own nor writes an access log.  It fails exactly for an idempotency
    window below one second. *)
Theorem servers_share (fresh : nat) (settings : Settings) (tools : registry) (cipher : KeyManager)
    (redis_client http_client : nat) :
  match build_servers fresh settings tools cipher redis_client http_client with
  | Exn e => e = raise_of ValueError "window_seconds must be >= 1" /\
      idempotency_window_seconds settings < 1
  | Ok ss =>
      let app := ss_app ss in
      let grpc := ss_grpc ss in
      1 <= idempotency_window_seconds settings /\
      sv_invoke_service (gs_servicer grpc) = st_invoke_service (wa_state app) /\
      svc_settings (st_invoke_service (wa_state app)) = settings /\
      svc_cipher (st_invoke_service (wa_state app)) = cipher /\
      (sv_settings (gs_servicer grpc), sv_tools (gs_servicer grpc),
       sv_grant_cache (gs_servicer grpc), sv_rate_limiter (gs_servicer grpc)) =
      (st_settings (wa_state app), st_tools (wa_state app),
       st_grant_cache (wa_state app), st_rate_limiter (wa_state app)) /\
      wa_redis_client app = Some (gs_redis_client grpc) /\ gs_redis_client grpc = redis_client /\
      wa_http_client app = http_client /\
      (forall new, (client_http new (wa_invoke_client app)).1 = http_client /\
                   (client_http new (gs_invoke_client grpc)).1 = http_client) /\
      (client_aclose (wa_invoke_client app)).1 = None /\
      (client_aclose (gs_invoke_client grpc)).1 = None /\
      lifespan_closes app = [] /\
      uv_log_config (ss_http_config ss) = None /\ uv_access_log (ss_http_config ss) = false
  end.
Proof.
  unfold build_servers, create_app, build_grpc_server, IdempotencyStore.new.
  destruct (Z.ltb_spec (idempotency_window_seconds settings) 1) as [Hw|Hw]; [done|].
  cbn -[Z.le]. by splits.
Qed.

(** The end of [serve].  Once both servers were started, every way the
    serving ends, by return or by exception, is followed by the cleanup in
    its order: the gRPC server is stopped with the grace, then the HTTP
    client, the Redis client and the engine are closed, each exactly once;
    when these succeed the result is the serving's own.  A start that raises
    runs none of it.  After any number of signals, uvicorn is asked to exit
    and one stop is scheduled per signal. *)
Theorem serve_cleans_up (answer : life_step -> res unit) :
  (forall e, answer StartGrpc = Exn e -> serve answer = ([StartGrpc], Exn e)) /\
  (answer StartGrpc = Ok tt -> answer InstallSignalHandlers = Ok tt ->
   (forall s, s ∈ cleanup -> answer s = Ok tt) ->
   serve answer = ([StartGrpc; InstallSignalHandlers; ServeBoth] ++ cleanup, answer ServeBoth)%list) /\
  (forall e, answer StartGrpc = Ok tt -> answer InstallSignalHandlers = Ok tt ->
   answer (StopGrpc SHUTDOWN_GRACE_SECONDS) = Exn e ->
   serve answer = ([StartGrpc; InstallSignalHandlers; ServeBoth; StopGrpc SHUTDOWN_GRACE_SECONDS], Exn e)) /\
  (forall n s, signals (S n) s =
     Stopping true (scheduled_stops s ++ replicate (S n) SHUTDOWN_GRACE_SECONDS)%list).
Proof.
  unfold serve, serve_until_stopped. splits.
  - intros e He. cbn [run_steps]. by rewrite He.
  - intros Hs Hi Hc. rewrite (run_steps_all answer cleanup Hc). cbn [run_steps]. rewrite Hs, Hi.
    by destruct (answer ServeBoth) as [[]|e].
  - intros e Hs Hi He. cbn [run_steps cleanup]. rewrite Hs, Hi, He. by destruct (answer ServeBoth).
  - intros n s. apply signals_stop.
Qed.
