(* ===== verification/Tasks.v ===== *)
(** * The tasks of the broker

    The programs the assembled servers start, on the gRPC side and on the
    HTTP side; which of them write no grant, key or counter and send nothing;
    that all obey a protocol that regulates these writes when [request_grant]
    and [invoke] do; and that those of a deployment obey the protocols of the
    idempotency keys and of the limiter's counters. *)

From stdpp Require Import base tactics list strings numbers gmap.
From S2P Require Import Prelude PyStr Errors Json Uuid Config Models Breaker Effects Redaction Retry.
From S2P Require Import Redis Kms Tokens Tools OAuthState Google Router Cache Idempotency Grants AuditLog.
From S2P Require Import Invoke InvokeAudit Demo Grpc Console World Discipline Limit Reservation Throttle App.
Open Scope string_scope.
#[local] Open Scope Z_scope.

(** ** What the servers run *)

Section Code.
Context `{PyJwt} `{PyRepr} `{AesGcm} `{JsonFormat} (ss : Servers).

Abbreviation servicer := (gs_servicer (ss_grpc ss)).
Abbreviation app_state := (wa_state (ss_app ss)).

(** One task per request, with any parameters. *)
Inductive broker_code : prog unit -> Prop :=
| RunRequestGrant request : broker_code (RequestGrant servicer request ;; ret tt)
| RunInvokeTool request : broker_code (Grpc.InvokeTool servicer request ;; ret tt)
| RunRevokeGrant raw : broker_code (Grpc.RevokeGrant servicer raw ;; ret tt)
| RunConsole token r : broker_code (console_api app_state token r ;; ret tt)
| RunAuthorize provider user_id :
    broker_code (authorize (st_settings app_state) provider user_id ;; ret tt)
| RunCallback provider code state error :
    broker_code (callback (st_settings app_state) (st_cipher app_state) provider code state error ;; ret tt).
End Code.

(** ** Bystanders: programs that write neither a grant nor a key of the
    idempotency store nor a counter of the limiter, and send nothing to a
    provider *)

Definition regulated (c : eff) : bool :=
  adds_grant c || idem_write c || counter_write c || is_tool_request c.

Lemma unregulated c :
  regulated c = false -> adds_grant c = false /\ idem_write c = false /\ counter_write c = false /\
    is_tool_request c = false.
Proof. unfold regulated. rewrite !orb_false_iff. tauto. Qed.

Lemma regulated_outbound c : regulated c = true -> is_outbound c = true.
Proof. by destruct c. Qed.

Lemma regulated_grant {A} (p : prog A) : avoids regulated p -> avoids adds_grant p.
Proof. apply avoids_part. by intros c (? & _)%unregulated. Qed.

Lemma audit_bystander {A} (p : prog A) : avoids is_audit p -> avoids adds_grant p.
Proof. apply avoids_weaken. intros c. by destruct c. Qed.

Lemma outbound_bystander {A} (p : prog A) : avoids is_outbound p -> avoids regulated p.
Proof. apply avoids_weaken, regulated_outbound. Qed.

#[local] Hint Extern 0 (_ = false) => reflexivity : avoids.

Section Wrappers.
Context (P : eff -> bool).

Lemma session_avoids {A} (p : prog A) :
  P EDbOpen = false -> P EDbClose = false -> avoids P p -> avoids P (with_session p).
Proof. intros Ho Hc Hp. unfold with_session. avoid; by apply avoids_perform. Qed.

Lemma guard_avoids {A} name (p : prog A) :
  P ERegistry = false -> (forall lvl fmt args, P (ELog lvl fmt args) = false) -> avoids P p ->
  avoids P (rpc_error_guard name p).
Proof. intros Hr Hl Hp. unfold rpc_error_guard, abort, scrub. avoid; by apply avoids_perform. Qed.

Lemma http_avoids {A} (p : prog A) : avoids P p -> avoids P (or_http_error p).
Proof. intros Hp. unfold or_http_error. avoid. Qed.
End Wrappers.

#[local] Hint Resolve session_avoids guard_avoids http_avoids : avoids.

Lemma revoke_bystander gid cached : avoids regulated (revoke_grant gid cached).
Proof. unfold revoke_grant, record_revoked. avoid. Qed.

#[local] Hint Resolve revoke_bystander : avoids.

(** *** Invocations write no grant *)

Section Invocations.
Context `{PyJwt} `{PyRepr} `{AesGcm} (svc : InvokeService) (Hsvc : svc_contract svc).

Lemma resolved_bystander grant th name arguments key fast start :
  avoids adds_grant (invoke_resolved svc grant th name arguments key fast start).
Proof. by apply audit_bystander, resolved_avoids. Qed.

Lemma outcome_bystander status result error reason start cached :
  avoids adds_grant (outcome_of status result error reason start cached).
Proof. apply audit_bystander, outcome_audit. Qed.

#[local] Hint Resolve resolved_bystander outcome_bystander : avoids.

Lemma in_session_bystander claims th name arguments key start :
  avoids adds_grant (invoke_in_session svc claims th name arguments key start).
Proof.
  unfold invoke_in_session, audited_call, record_call, denied, failed, is_revoked, scrub. avoid.
Qed.

#[local] Hint Resolve in_session_bystander : avoids.

Lemma invoke_bystander token name arguments key :
  avoids adds_grant (invoke svc token name arguments key).
Proof. unfold invoke, verify_grant_token, denied. avoid. Qed.

#[local] Hint Resolve invoke_bystander : avoids.

Lemma rpc_invoke_bystander `{JsonFormat} sv request :
  sv_invoke_service sv = svc -> avoids adds_grant (Grpc.InvokeTool sv request).
Proof. intros E. unfold Grpc.InvokeTool, abort. rewrite E. avoid. Qed.

Lemma console_invoke_bystander state body :
  st_invoke_service state = svc -> avoids adds_grant (handle state (Console.InvokeTool body)).
Proof. intros E. cbn [handle]. unfold invoke_tool. rewrite E. avoid. Qed.
End Invocations.

Section Handlers.
Context `{PyJwt} `{PyRepr} `{AesGcm} `{JsonFormat}.

Lemma rpc_revoke_bystander sv raw : avoids regulated (Grpc.RevokeGrant sv raw).
Proof. unfold Grpc.RevokeGrant, parse_uuid, abort. avoid. Qed.

Lemma encrypt_bystander km s : km_local km -> avoids regulated (encrypt km s).
Proof. intros Hkm. by apply outbound_bystander, encrypt_avoids. Qed.

Lemma encrypt_value_bystander km v : km_local km -> avoids regulated (encrypt_value km v).
Proof. intros Hkm. by apply outbound_bystander, encrypt_value_avoids. Qed.

#[local] Hint Resolve encrypt_bystander encrypt_value_bystander
  rpc_revoke_bystander : avoids.

Lemma seed_bystander km : km_local km -> avoids regulated (seed_demo km).
Proof. intros Hkm. unfold seed_demo, seed_agent, seed_account. avoid. Qed.

#[local] Hint Resolve seed_bystander : avoids.

Lemma console_bystander state r :
  km_local (st_cipher state) ->
  match r with CreateGrant _ | Console.InvokeTool _ => False | _ => True end ->
  avoids regulated (handle state r).
Proof.
  intros Hkm Hr. destruct r; try done; cbn [handle];
    unfold list_tools, list_agents, create_agent, list_accounts, list_grants, revoke, demo_seed, list_audit; avoid.
Qed.

Lemma make_state_bystander settings user : avoids regulated (make_state settings user).
Proof.
  unfold make_state. destruct (has_char bar user); [apply avoids_lift|].
  apply avoids_bind; [by apply avoids_perform|intros time].
  apply avoids_bind; [by apply avoids_perform|intros nonce]. apply avoids_lift.
Qed.

Lemma authorize_bystander settings provider user_id :
  avoids regulated (authorize settings provider user_id).
Proof.
  unfold authorize. apply avoids_bind; [apply avoids_lift|intros _].
  apply avoids_bind; [apply make_state_bystander|intros state]. apply avoids_lift.
Qed.

Lemma identify_bystander settings code state : avoids regulated (identify settings code state).
Proof.
  apply identify_avoids; [apply regulated_outbound|done].
Qed.

Lemma expiry_bystander token : avoids regulated (expiry_of token).
Proof. apply outbound_bystander, expiry_avoids. Qed.

#[local] Hint Resolve identify_bystander expiry_bystander : avoids.

Lemma callback_bystander settings km provider code state error :
  km_local km -> avoids regulated (callback settings km provider code state error).
Proof. intros Hkm. unfold callback, connect, store_account. avoid. Qed.
End Handlers.

(** ** Who obeys a protocol *)

Lemma check_unwatched key limit window : avoids watched (check key limit window).
Proof. unfold check. avoid. Qed.

Lemma record_issued_bystander th ttl : avoids regulated (record_issued th ttl).
Proof. unfold record_issued. avoid. Qed.

Section Obedience.
Context `{PyJwt} `{PyRepr} `{AesGcm} `{JsonFormat}.

(** It regulates nothing but these writes and requests. *)
Context (d : protocol) (Hmay : forall c m, regulated c = false -> p_may d m c).

Abbreviation obedient p := (obeys d p (anyway d) (p_fresh d)).

(** Issuing with these parameters obeys, in the session opened for it. *)
Definition issues_well (settings : Settings) (tools : registry) (cached limited : bool) : Prop :=
  forall aid name requested,
    obeys d (request_grant settings tools aid name requested cached limited) (anyway d)
      (p_watch d (p_fresh d) EDbOpen tt).

(** Invoking through this service obeys. *)
Definition invokes_well (svc : InvokeService) : Prop :=
  forall token name arguments key, obedient (invoke svc token name arguments key).

Lemma rpc_request_obeys sv request :
  issues_well (sv_settings sv) (sv_tools sv) (sv_grant_cache sv) (sv_rate_limiter sv) -> obedient (RequestGrant sv request).
Proof.
  intros Hissue. unfold RequestGrant, rpc_error_guard, parse_uuid, abort.
  apply (obeys_attempted d regulated Hmay); [|unfold scrub; intros r; avoid].
  destruct (uuid_of_str _) as [aid|]; [|done].
  apply (obeys_attempted d regulated Hmay); [|intros r; unfold denied_grant, abort; avoid].
  apply (obeys_session d regulated Hmay); [done..|]. apply Hissue.
Qed.

Lemma console_grant_obeys state body :
  issues_well (st_settings state) (st_tools state) (st_grant_cache state) (st_rate_limiter state) ->
  obedient (create_grant state body).
Proof.
  intros Hissue. apply (obeys_attempted d regulated Hmay); [|intros r; avoid].
  apply (obeys_session d regulated Hmay); [done..|].
  apply (obeys_then d regulated Hmay); [apply Hissue|done].
Qed.

Lemma rpc_invoke_obeys sv request :
  invokes_well (sv_invoke_service sv) -> obedient (Grpc.InvokeTool sv request).
Proof.
  intros Hinvoke. unfold Grpc.InvokeTool, rpc_error_guard, abort.
  apply (obeys_attempted d regulated Hmay); [|unfold scrub; intros r; avoid].
  apply (obeys_then d regulated Hmay); [apply Hinvoke|intros o; avoid].
Qed.

Record well_built (ss : Servers) : Prop := {
  wb_grpc : svc_contract (sv_invoke_service (gs_servicer (ss_grpc ss)));
  wb_console : svc_contract (st_invoke_service (wa_state (ss_app ss)));
  wb_cipher : km_local (st_cipher (wa_state (ss_app ss)))
}.

Lemma broker_obeys ss p :
  well_built ss ->
  let sv := gs_servicer (ss_grpc ss) in
  let app := wa_state (ss_app ss) in
  issues_well (sv_settings sv) (sv_tools sv) (sv_grant_cache sv) (sv_rate_limiter sv) ->
  issues_well (st_settings app) (st_tools app) (st_grant_cache app) (st_rate_limiter app) ->
  invokes_well (sv_invoke_service (gs_servicer (ss_grpc ss))) ->
  invokes_well (st_invoke_service (wa_state (ss_app ss))) ->
  broker_code ss p -> obedient p.
Proof.
  intros [_ _ Hkm] sv app Hig Hia Hvg Hva Hp.
  destruct Hp as [request|request|raw|token r|provider user|provider code state error];
    (apply (obeys_then d regulated Hmay); [|done]).
  - by apply rpc_request_obeys.
  - apply rpc_invoke_obeys, Hvg.
  - apply (obeys_bystander d regulated Hmay), rpc_revoke_bystander.
  - unfold console_api. destruct (require_console_auth _ _) as [[]|e]; [|done]. cbn [lift bind].
    destruct r; try (by apply (obeys_bystander d regulated Hmay), console_bystander).
    + by apply console_grant_obeys.
    + apply (obeys_then d regulated Hmay); [apply Hva|done].
  - apply (obeys_bystander d regulated Hmay), authorize_bystander.
  - by apply (obeys_bystander d regulated Hmay), callback_bystander.
Qed.
End Obedience.

(** ** The processes of a deployment *)

(** Any number of processes, started with the same settings, each with the
    keys it has read or generated. *)
Inductive deployed `{PyJwt} `{PyRepr} `{AesGcm} `{JsonFormat} (keygen : prog (string * string))
    (settings : Settings) : prog unit -> Prop :=
| Deployed {St} (h : handler St) (σ : St) ss p :
    result_of h (assemble keygen settings) σ = Ok ss -> broker_code ss p -> deployed keygen settings p.

Section Deployed.
Context `{PyJwt} `{PyRepr} `{AesGcm} `{JsonFormat}.

(** What the settings of a process keep of those it read. *)
Lemma keyed_same settings settings' :
  keyed settings settings' ->
  max_active_grants_per_agent_scope settings' = max_active_grants_per_agent_scope settings /\
  grant_token_ttl_seconds settings' = grant_token_ttl_seconds settings /\
  outbound_max_retries settings' = outbound_max_retries settings /\
  idempotency_window_seconds settings' = idempotency_window_seconds settings /\
  grants_per_minute_per_agent settings' = grants_per_minute_per_agent settings /\
  invokes_per_minute_per_agent settings' = invokes_per_minute_per_agent settings /\
  configure_tools settings' TOOL_REGISTRY = configure_tools settings TOOL_REGISTRY.
Proof. by intros [->|(? & ? & ->)]. Qed.

Lemma assemble_well_built keygen settings {St} (h : handler St) σ ss :
  result_of h (assemble keygen settings) σ = Ok ss -> well_built ss.
Proof.
  intros Hss. destruct (assemble_built _ _ h σ ss Hss) as (settings' & km & _ & Hkm & Hb).
  apply build_servers_parts in Hb as [Ea Eg].
  split; rewrite ?Ea, ?Eg; cbn; try done; by apply service_contract.
Qed.

(** The invoke service behind both servers. *)
Definition assembled_service (settings : Settings) (cipher : KeyManager) : InvokeService := {|
  svc_settings := settings; svc_tools := configure_tools settings TOOL_REGISTRY; svc_cipher := cipher;
  svc_grant_cache := true; svc_rate_limiter := true;
  svc_idempotency_store := Some (IdempotencyStore.Store (idempotency_window_seconds settings))
|}.

(** To follow a protocol, the deployment must issue and invoke by it. *)
Lemma deployed_obeys d keygen settings :
  (forall c m, regulated c = false -> p_may d m c) ->
  (forall settings', keyed settings settings' ->
     issues_well d settings' (configure_tools settings' TOOL_REGISTRY) true true) ->
  (forall settings' km, keyed settings settings' -> km_local km ->
     invokes_well d (assembled_service settings' km)) ->
  forall p, deployed keygen settings p -> obeys d p (anyway d) (p_fresh d).
Proof.
  intros Hmay Hissue Hinvoke p [St h σ ss p' Hss Hp].
  pose proof (assemble_well_built _ _ h σ ss Hss) as Hwb.
  destruct (assemble_built _ _ h σ ss Hss) as (settings' & km & Hkeyed & Hkm & Hb).
  apply build_servers_parts in Hb as [Ea Eg]. specialize (Hinvoke settings' km Hkeyed Hkm).
  eapply (broker_obeys d Hmay ss); [done| | | | |exact Hp]; rewrite ?Ea, ?Eg;
    first [exact Hinvoke|by apply Hissue].
Qed.

(** The protocol of a key: only invocations write it. *)
Lemma request_aside settings tools aid name requested cached limited :
  avoids idem_write (request_grant settings tools aid name requested cached limited).
Proof. unfold request_grant, check, record_issued, get_tool. avoid. Qed.

Lemma deployed_orderly full_key keygen settings p :
  deployed keygen settings p ->
  let d := key_protocol (IdempotencyStore.name full_key) (idempotency_window_seconds settings) in
  obeys d p (anyway d) false.
Proof.
  intros Hp d. refine (deployed_obeys d keygen settings _ _ _ p Hp).
  - intros c m (_ & Hc & _)%unregulated. by apply other_commands.
  - intros settings' _ aid name requested. apply orderly_aside, request_aside.
  - intros settings' km (_ & _ & _ & Ew & _)%keyed_same Hkm token name arguments key.
    apply invoke_orderly; [by apply service_contract|]. intros s [= <-]. exact Ew.
Qed.

(** A protocol that regulates the writing of grants only. *)
Lemma deployed_issues d keygen settings :
  (forall c m, adds_grant c = false -> p_may d m c) ->
  (forall settings', keyed settings settings' ->
     issues_well d settings' (configure_tools settings' TOOL_REGISTRY) true true) ->
  forall p, deployed keygen settings p -> obeys d p (anyway d) (p_fresh d).
Proof.
  intros Hmay Hissue. apply deployed_obeys; [|done|].
  - intros c m (Hc & _)%unregulated. by apply Hmay.
  - intros settings' km _ Hkm token name arguments key. apply (obeys_bystander d adds_grant Hmay).
    apply invoke_bystander. by apply service_contract.
Qed.

(** The protocol of a counter. *)
Lemma deployed_counted key window keygen settings p :
  String.length key = 43%nat -> deployed keygen settings p ->
  obeys (counter_protocol key window) p (anyway (counter_protocol key window)) [].
Proof.
  intros Hkey Hp. refine (deployed_obeys (counter_protocol key window) keygen settings _ _ _ p Hp).
  - intros c m (_ & _ & Hc & _)%unregulated. by apply uncounted_may.
  - intros settings' _ aid name requested. by apply request_counted.
  - intros settings' km _ Hkm token name arguments key'. apply invoke_counted; [by apply service_contract|done].
Qed.

(** The gate before the provider. *)
Lemma deployed_invokes_gated keygen settings p :
  deployed keygen settings p ->
  let d := gate_protocol "invoke:" (invokes_per_minute_per_agent settings) sends_for in
  obeys d p (anyway d) [].
Proof.
  intros Hp d. pose proof (idle_may "invoke:" (invokes_per_minute_per_agent settings) _ _ sends_act) as Hidle.
  refine (deployed_obeys d keygen settings _ _ _ p Hp).
  - intros c m (_ & _ & _ & Hc)%unregulated. by apply Hidle.
  - intros settings' _ aid name requested. apply (obeys_bystander d is_tool_request); [intros c m; apply Hidle|].
    unfold request_grant, check, record_issued, get_tool. avoid.
  - intros settings' km (_ & _ & _ & _ & _ & El & _)%keyed_same Hkm token name arguments key.
    apply invoke_gated; [by apply service_contract|done..].
Qed.

(** The gate before the rows of the grants. *)
Lemma deployed_issues_gated keygen settings p :
  deployed keygen settings p ->
  let d := gate_protocol "grants:" (grants_per_minute_per_agent settings) issues_for in
  obeys d p (anyway d) [].
Proof.
  intros Hp d. refine (deployed_issues d keygen settings _ _ p Hp).
  - intros c m. apply (idle_may _ _ _ _ issues_act).
  - intros settings' (_ & _ & _ & _ & El & _)%keyed_same aid name requested. subst d. rewrite <- El.
    apply request_gated.
Qed.
End Deployed.
