(* ===== verification/System.v ===== *)
(** * The whole broker on one database

    Whatever the tasks of a deployment do in the worlds of World.v, however
    their effects interleave: the limit on active grants holds, every grant
    is one that policy allows, and a revoked token is dead. *)

From stdpp Require Import base tactics list strings numbers gmap relations.
From S2P Require Import Prelude PyStr Errors Json Uuid Config Models Breaker Effects Redaction Retry.
From S2P Require Import Redis Kms Tokens Tools OAuthState Google Router Cache Idempotency Grants AuditLog.
From S2P Require Import Invoke InvokeAudit Demo Grpc Console World Discipline Limit Policy Ledger Revocation.
From S2P Require Import Budget InFlight App Tasks.
Open Scope string_scope.
#[local] Open Scope Z_scope.

Lemma instant_utc t : instant (utc t) = t.
Proof. unfold instant, utc. cbn. lia. Qed.

Lemma instant_add d us : instant (dt_add d us) = instant d + us.
Proof. unfold instant, dt_add. cbn. lia. Qed.

(** The next effect, its answer, and what the task then knows. *)
Tactic Notation "ask" simple_intropattern(p) :=
  apply obeys_do; [done|]; intros p; try done;
  cbn [to_res fallible d_protocol p_watch watch learn limit_discipline policy_discipline m_locks m_seen m_dirty
       m_room k_seen k_agents k_accounts].

Section Issuing.
Context `{PyJwt} `{PyRepr} (settings : Settings) (tools : registry).

(** ** Issuing obeys the limit *)

Lemma limiter_unwatched settings' aid (limited : bool) :
  avoids watched
    (if limited then
       allowed <- check ("grants:" +:+ uuid_str aid) (grants_per_minute_per_agent settings')
                    DEFAULT_WINDOW_SECONDS ;;
       if negb allowed then perform (EMetric (RATE_LIMITED "request_grant")) ;; raise rate_limited_error
       else ret tt
     else ret tt).
Proof. destruct limited; [|done]. apply avoids_bind; [apply check_unwatched|]. intros []; avoid. Qed.

Abbreviation limit := (max_active_grants_per_agent_scope settings).

Lemma limit_request aid name requested cached limited :
  let d := limit_discipline limit in
  obeys d (request_grant settings tools aid name requested cached limited) (anyway d) fresh_monitor.
Proof.
  cbn zeta. unfold request_grant.
  apply obeys_bind, (obeys_unwatched _ watched);
    [intros c; apply unwatched_watch|apply limiter_unwatched|]. intros [[]|e]; [|done].
  ask [[agent|]|e]. intros _. destruct (get_tool tools name) as [tool|e]; [|done]. cbn [lift bind].
  destruct (negb _); [done|]. destruct (negb _); [done|].
  ask [[account|]|e]. intros _. ask now. intros _. ask [n|e]. intros _.
  destruct (Z.leb_spec limit n) as [Hn|Hn]; [done|].
  rewrite (bool_decide_eq_true_2 (aid ∈ [aid])) by constructor.
  rewrite (bool_decide_eq_true_2 (instant (utc now) ∈ _)) by (rewrite instant_utc; constructor).
  rewrite (proj2 (Z.ltb_lt _ _) Hn). cbn [andb negb]. ask gid. intros _.
  destruct (sign_grant_token _ _ _ _ _ _ _) as [token|e]; [|done].
  ask []. intros _. ask [[]|e]. intros _. apply (obeys_bystander (limit_discipline limit) adds_grant adds_grant_may).
  apply regulated_grant. pose proof record_issued_bystander. destruct cached; avoid.
Qed.

(** ** Issuing obeys the policy *)

Abbreviation ttl := (grant_token_ttl_seconds settings).

Lemma policy_request aid name requested cached limited :
  let d := policy_discipline tools ttl in
  obeys d (request_grant settings tools aid name requested cached limited) (anyway d) (p_fresh d).
Proof.
  cbn zeta. unfold request_grant.
  apply obeys_bind, (obeys_unwatched _ watched);
    [intros c; by destruct c|apply limiter_unwatched|]. intros [[]|e]; [|done].
  ask [[agent|]|e]. intros Hid%plausible_agent. unfold get_tool.
  destruct (tools !! name) as [tool|] eqn:Etool; [|done]. cbn [or_raise lift bind].
  case_bool_decide as Hpolicy; [cbn [negb]|done].
  destruct (String.eqb_spec requested (tool_scope tool)) as [->|]; [cbn [negb]|done].
  ask [[account|]|e]. intros [Huser Hprov]%plausible_account. ask now. intros _. ask [n|e]. intros _.
  destruct (Z.leb_spec limit n) as [Hn|Hn]; [done|]. ask gid. intros _.
  destruct (sign_grant_token _ _ _ _ _ _ _) as [token|e]; [|done].
  apply obeys_do.
  { split; [exists agent, account|split].
    - cbn. split; [by constructor|]. split; [by constructor|]. split; cbn; try done. by exists tool.
    - cbn. rewrite instant_utc. constructor.
    - unfold one_ttl. cbn. by rewrite instant_add. }
  intros [] _. ask [[]|e]. intros _. apply (obeys_bystander _ adds_grant).
  { intros c m Hc. destruct c; try done. by destruct r. }
  apply regulated_grant. pose proof record_issued_bystander. destruct cached; avoid.
Qed.
End Issuing.

(** ** Presenting a token *)

Section Presenting.
Context `{PyJwt} `{PyRepr} `{AesGcm} `{JsonFormat} (ss : Servers) (Hwb : well_built ss).

(** The requests that present a token. *)
Inductive presents (token : string) : prog unit -> Prop :=
| PresentsRpc request :
    ir_grant_token request = token ->
    presents token (Grpc.InvokeTool (gs_servicer (ss_grpc ss)) request ;; ret tt)
| PresentsConsole console_token body :
    iv_grant_token body = token ->
    presents token
      (console_api (wa_state (ss_app ss)) console_token (Console.InvokeTool body) ;; ret tt).

Lemma presents_code token p : presents token p -> broker_code ss p.
Proof. intros []; constructor. Qed.

Lemma presents_bystander token p : presents token p -> avoids adds_grant p.
Proof.
  intros [request _|console body _]; (apply avoids_bind; [|done]).
  - by eapply rpc_invoke_bystander, eq_refl; apply Hwb.
  - apply avoids_bind; [done|]. intros _. by eapply console_invoke_bystander, eq_refl; apply Hwb.
Qed.

Lemma presents_silent gid token p :
  presents token p -> spends (gone (hash_token token) gid) is_http 0 p.
Proof.
  intros [request <-|console body <-]; (apply spends_bind; [|done]).
  - unfold Grpc.InvokeTool, rpc_error_guard. apply spends_bind.
    + apply spends_attempt, spends_bind; [apply invoke_silent|].
      intros o. apply spends_avoids. unfold abort. avoid.
    + intros r. apply spends_avoids. unfold abort, scrub. avoid.
  - unfold console_api. apply spends_then; [done|]. intros _. cbn [handle]. unfold invoke_tool.
    apply spends_bind; [apply invoke_silent|done].
Qed.

Lemma presents_thrifty gid token p n :
  presents token p ->
  n = Z.to_nat (outbound_max_retries (svc_settings (sv_invoke_service (gs_servicer (ss_grpc ss)))) + 1) ->
  n = Z.to_nat (outbound_max_retries (svc_settings (st_invoke_service (wa_state (ss_app ss)))) + 1) ->
  thrifty (tied (hash_token token) gid) (gone (hash_token token) gid) is_tool_request n p.
Proof.
  intros [request <-|console body <-] Eg Ea; (apply thrifty_settle; [|done]).
  - unfold Grpc.InvokeTool, rpc_error_guard. apply thrifty_settle.
    + apply thrifty_attempt, thrifty_settle; [rewrite Eg; apply invoke_thrifty, Hwb|].
      intros o. unfold abort. avoid.
    + intros r. unfold abort, scrub. avoid.
  - unfold console_api. apply thrifty_then; [done|]. intros _. cbn [handle]. unfold invoke_tool.
    apply thrifty_settle; [rewrite Ea; apply invoke_thrifty, Hwb|done].
Qed.
End Presenting.

(** ** A deployment at work *)

(** The default settings and an ephemeral key pair. *)
Definition example_keygen : prog (string * string) := ret ("private", "public").

Definition example_entropy : handler unit := fun σ c =>
  match c return reply c * unit with
  | EUrandom n => (replicate (Z.to_nat n) Byte.x07, tt)
  | c => (dead_reply c, tt)
  end.

#[local] Instance example_format : JsonFormat := {| parse_struct := Ok |}.

Definition example_assembled : res Servers :=
  result_of example_entropy (@assemble example_repr toy_gcm example_keygen default_settings) tt.

Definition example_agent : AgentIdentity := demo_agent (example_uuid 8) (example_uuid 10) (utc 0).

Definition example_blob (ss : Servers) : bytes :=
  match result_of example_entropy (@encrypt toy_gcm (st_cipher (wa_state (ss_app ss))) "ya29.token") tt with
  | Ok blob => blob
  | Exn _ => []
  end.

Definition example_user_account (ss : Servers) : ConnectedAccount := {|
  acc_id := example_uuid 9; acc_user_id := agent_user_id example_agent; acc_provider := "google";
  acc_encrypted_access_token := example_blob ss; acc_encrypted_refresh_token := None; acc_scopes_granted := [];
  acc_expires_at := None; acc_created_at := utc 0
|}.

(** The first row, for queries that find at most one here. *)
Definition row_of {A} (rows : list A) : res (option A) := Ok (head rows).

(** A database that answers from the session's view. *)
Definition example_database (w : world) (s : session) (c : eff) : reply c :=
  let db := view s (w_db w) in
  match c return reply c with
  | EUtcNow => w_now w + 1
  | ETime => w_now w
  | EUuid4 => example_uuid (Z.of_nat (length (w_grants w)) + 20)
  | ERedisIncr _ => Ok 1
  | ERedisExists _ => Ok 0
  | ERedisSet _ _ _ _ => Ok true
  | ERedisExpire _ _ | ERedisDelete _ | EDbClose | EDbCommit => Ok tt
  | EDbAgentForUpdate id =>
      if lock_free w 2 id then row_of (List.filter (fun a => bool_decide (agent_id a = id)) (db_agents db))
      else Exn unreachable_service
  | EDbLatestAccount user provider => row_of (accounts_of user provider (db_accounts db))
  | EDbActiveGrants agent tool_name scope now =>
      Ok (active_count (Key agent tool_name scope) (instant now) (db_grants db))
  | EDbGrantById id => row_of (List.filter (fun g => bool_decide (grant_id g = id)) (db_grants db))
  | EDbGrantByHash h => row_of (grants_hashed h (db_grants db))
  | EDbGrantRevokedAt id =>
      row_of (map grant_revoked_at (List.filter (fun g => bool_decide (grant_id g = id)) (db_grants db)))
  | EDbAccountById id => row_of (List.filter (fun a => bool_decide (acc_id a = id)) (db_accounts db))
  | c => dead_reply c
  end.

Definition example_request : GrantRequest := {|
  gr_agent_id := uuid_str (example_uuid 8); gr_tool_name := "drive.read"; gr_requested_scope := "read"
|}.

Definition example_start (ss : Servers) : world :=
  World 1700000000000000 (Database [example_user_account ss] [example_agent] [] []) ∅ [].

Section Example.
Context (ss : Servers).

Abbreviation sv := (gs_servicer (ss_grpc ss)).
Abbreviation work := (run_task example_database).

(** Two requests for the same key: the first runs up to its write, the
    second reaches the lock and fails there, the first commits, and a third
    finds the limit reached. *)
Definition example_run : world :=
  let request := @RequestGrant toy_jwt example_repr sv example_request ;; ret tt in
  work 30 2 (work 30 0 (work 30 1 (work 10 0 (start request (start request (start request (example_start ss))))))).

Definition example_key : grant_key := Key (example_uuid 8) "drive.read" "read".

(** The token that the request of [example_run] returned. *)
Definition example_token : string :=
  match @sign_grant_token toy_jwt (sv_settings sv) (example_uuid 20) (example_uuid 8) "drive.read" "read"
          (utc 1700000000000001)
          (dt_add (utc 1700000000000001) (seconds (grant_token_ttl_seconds (sv_settings sv)))) with
  | Ok token => token
  | Exn _ => ""
  end.

(** Its grant is revoked, and then the token is presented. *)
Definition example_revoke : prog unit := Grpc.RevokeGrant sv (uuid_str (example_uuid 20)) ;; ret tt.

Definition example_revoked : world := work 30 3 (start example_revoke example_run).

Definition example_invocation : Grpc.InvokeRequest := {|
  ir_grant_token := example_token; ir_tool_name := "drive.read"; ir_arguments := [];
  ir_idempotency_key := ""
|}.

Definition example_call : prog unit :=
  @Grpc.InvokeTool toy_jwt example_repr toy_gcm example_format sv example_invocation ;; ret tt.

(** The call up to its check of the grant's row, then the revocation. *)
Definition example_flight : world := work 14 3 (start example_call example_run).

Definition example_overtaken : world := work 30 4 (start example_revoke example_flight).
End Example.

Example example_run_counts :
  match example_assembled with
  | Ok ss => length (w_grants (example_run ss))
  | Exn _ => 0%nat
  end = 1%nat.
Proof. vm_compute. reflexivity. Qed.

Lemma example_run_reachable (code : prog unit -> Prop) ss :
  (forall p, @broker_code toy_jwt example_repr toy_gcm example_format ss p -> code p) ->
  reachable code (example_run ss).
Proof.
  intros Hcode. unfold example_run. repeat apply run_task_reachable.
  repeat (apply start_reachable; [apply Hcode; constructor|]). exists (example_start ss).
  split; [|reflexivity]. split; [done|]. split; [|done]. apply db_check_wf. reflexivity.
Qed.

Lemma example_revoked_reachable (code : prog unit -> Prop) ss :
  (forall p, @broker_code toy_jwt example_repr toy_gcm example_format ss p -> code p) ->
  reachable code (example_revoked ss).
Proof.
  intros Hcode. apply run_task_reachable, start_reachable; [apply Hcode; constructor|].
  by apply example_run_reachable.
Qed.

Lemma example_is_ok : is_ok example_assembled = true.
Proof. vm_compute. reflexivity. Qed.

Lemma example_overtaking (code : prog unit -> Prop) ss :
  (forall p, @broker_code toy_jwt example_repr toy_gcm example_format ss p -> code p) ->
  rtc (step code) (start (example_call ss) (example_run ss)) (example_overtaken ss).
Proof.
  intros Hcode.
  transitivity (example_flight ss);
    [exact (run_task_steps code example_database 14 3 (start (example_call ss) (example_run ss)))|].
  apply (rtc_l _ _ (start (example_revoke ss) (example_flight ss)));
    [|exact (run_task_steps code example_database 30 4 (start (example_revoke ss) (example_flight ss)))].
  exists None. apply W_start, Hcode. constructor.
Qed.

Lemma example_ok : exists ss, example_assembled = Ok ss.
Proof. pose proof example_is_ok as Hok. destruct example_assembled as [ss|e]; [by exists ss|discriminate]. Qed.

(** The row that a revocation leaves. *)
Definition lone_dead (h : string) (grants : list Grant) : bool :=
  match grants with
  | [g] => String.eqb (grant_token_hash g) h && bool_decide (is_Some (grant_revoked_at g))
  | _ => false
  end.

Lemma lone_dead_row h grants :
  lone_dead h grants = true ->
  exists g, g ∈ grants /\ grant_token_hash g = h /\ is_Some (grant_revoked_at g).
Proof.
  destruct grants as [|g [|]]; try done. intros [Hh%String.eqb_eq Hr]%andb_true_iff. exists g.
  split; [by constructor|]. by apply (bool_decide_eq_true_1 _) in Hr.
Qed.

(** What the call in flight still sends. *)
Definition example_requests (ss : Servers) : list occurrence :=
  its_events 3 is_tool_request (run_events example_database 30 3 (example_overtaken ss)).

Definition all_found (h : string) (revoked overtaken : list Grant) (sent : nat) : bool :=
  lone_dead h revoked && lone_dead h overtaken && (sent =? 1)%nat.

Lemma all_found_spec h revoked overtaken sent :
  all_found h revoked overtaken sent = true ->
  (exists g, g ∈ revoked /\ grant_token_hash g = h /\ is_Some (grant_revoked_at g)) /\
  (exists g, g ∈ overtaken /\ grant_token_hash g = h /\ is_Some (grant_revoked_at g)) /\
  sent = 1%nat.
Proof.
  intros [[Hl Hl']%andb_true_iff Hn%Nat.eqb_eq]%andb_true_iff.
  split; [by apply lone_dead_row|]. split; [by apply lone_dead_row|done].
Qed.

Example example_checked :
  match example_assembled with
  | Ok ss => all_found (hash_token (example_token ss)) (w_grants (example_revoked ss))
               (w_grants (example_overtaken ss)) (length (example_requests ss))
  | Exn _ => false
  end = true.
Proof. vm_compute. reflexivity. Qed.

Lemma example_found ss :
  example_assembled = Ok ss ->
  (exists g, g ∈ w_grants (example_revoked ss) /\
     grant_token_hash g = hash_token (example_token ss) /\ is_Some (grant_revoked_at g)) /\
  (exists g, g ∈ w_grants (example_overtaken ss) /\
     grant_token_hash g = hash_token (example_token ss) /\ is_Some (grant_revoked_at g)) /\
  length (example_requests ss) = 1%nat.
Proof.
  intros Ess. apply all_found_spec. pose proof example_checked as Hc. rewrite Ess in Hc. exact Hc.
Qed.

Lemma example_deployed ss :
  example_assembled = Ok ss -> forall p,
  @broker_code toy_jwt example_repr toy_gcm example_format ss p ->
  @deployed toy_jwt example_repr toy_gcm example_format example_keygen default_settings p.
Proof. intros Ess p. exact (Deployed _ _ example_entropy tt ss p Ess). Qed.

(** ** The disciplines of a deployment *)

Section Deployment.
Context `{PyJwt} `{PyRepr} `{AesGcm} `{JsonFormat}.
Context (generate_keypair : prog (string * string)) (settings : Settings).

Definition deployment_limit : discipline := limit_discipline (max_active_grants_per_agent_scope settings).
Definition deployment_policy : discipline :=
  policy_discipline (configure_tools settings TOOL_REGISTRY) (grant_token_ttl_seconds settings).

Lemma deployed_limit p :
  deployed generate_keypair settings p ->
  obeys deployment_limit p (anyway deployment_limit) (p_fresh deployment_limit).
Proof.
  apply deployed_issues; [intros c m; apply adds_grant_may|].
  intros settings' (El & _)%keyed_same aid name requested. unfold deployment_limit. rewrite <- El.
  apply limit_request.
Qed.

Lemma deployed_policy p :
  deployed generate_keypair settings p ->
  obeys deployment_policy p (anyway deployment_policy) (p_fresh deployment_policy).
Proof.
  apply deployed_issues; [intros c m Hc; destruct c; try done; by destruct r|].
  intros settings' (_ & El & _ & _ & _ & _ & Et)%keyed_same aid name requested. unfold deployment_policy.
  rewrite <- El, Et. apply policy_request.
Qed.

(** Where nothing has been issued, both invariants hold. *)
Lemma start_bounded now db : db_wf db -> db_grants db = [] -> d_good deployment_limit now db.
Proof. intros _ Hdb k t _. rewrite Hdb. unfold active_count. cbn. lia. Qed.

Lemma start_lawful now db : db_wf db -> db_grants db = [] -> d_good deployment_policy now db.
Proof. intros _ Hdb. cbn. unfold all_lawful. by rewrite Hdb. Qed.

Lemma reachable_limited w :
  reachable (deployed generate_keypair settings) w -> disciplined deployment_limit w.
Proof.
  intros Hw. apply (discipline_reachable deployment_limit (deployed generate_keypair settings));
    [apply deployed_limit|apply start_bounded|done].
Qed.

Lemma reachable_lawful w :
  reachable (deployed generate_keypair settings) w -> disciplined deployment_policy w.
Proof.
  intros Hw. apply (discipline_reachable deployment_policy (deployed generate_keypair settings));
    [apply deployed_policy|apply start_lawful|done].
Qed.
End Deployment.

(** ** Properties *)

(** C1. The limit on active grants, for the whole broker.  However the tasks
    of any number of processes started with the same settings interleave,
    whatever Redis, KMS, the provider and the network answer, and wherever a
    process is killed or a commit fails, at every reachable moment and for
    every agent, tool and scope at most [max_active_grants_per_agent_scope]
    committed grants are active, now or at any later time. *)
Theorem concurrency_limit_holds `{PyJwt} `{PyRepr} `{AesGcm} `{JsonFormat}
    (generate_keypair : prog (string * string)) (settings : Settings)
    (w : world) (k : grant_key) (t : Z)
    (Hw : reachable (deployed generate_keypair settings) w) (Ht : w_now w <= t) :
  active_count k t (w_grants w) <= Z.max 0 (max_active_grants_per_agent_scope settings).
Proof.
  exact (di_good _ _ (reachable_limited generate_keypair settings w Hw) k t Ht).
Qed.

Lemma concurrency_limit_holds_witness :
  exists ss, example_assembled = Ok ss /\
    active_count example_key (w_now (example_run ss)) (w_grants (example_run ss)) <= 1.
Proof.
  destruct example_ok as [ss Ess]. exists ss. split; [exact Ess|].
  exact (@concurrency_limit_holds toy_jwt example_repr toy_gcm example_format example_keygen
           default_settings (example_run ss) example_key (w_now (example_run ss))
           (example_run_reachable _ ss (example_deployed ss Ess)) (Z.le_refl _)).
Defined.

(** C2. Every grant is one that policy allows.  In every reachable world the
    constraints of the schema hold, and every committed grant is for an
    agent row whose [allowed_scopes] name the tool and for an account row of
    that agent's own user at the tool's provider, with the scope of the
    registered tool; it was issued in the past and lives one TTL. *)
Theorem grants_within_policy `{PyJwt} `{PyRepr} `{AesGcm} `{JsonFormat}
    (generate_keypair : prog (string * string)) (settings : Settings) (w : world)
    (Hw : reachable (deployed generate_keypair settings) w) :
  db_wf (w_db w) /\
  forall g, g ∈ w_grants w ->
    (exists agent account tool,
       agent ∈ db_agents (w_db w) /\ agent_id agent = grant_agent_id g /\
       account ∈ db_accounts (w_db w) /\ acc_id account = grant_connected_account_id g /\
       acc_user_id account = agent_user_id agent /\
       configure_tools settings TOOL_REGISTRY !! grant_tool_name g = Some tool /\
       grant_tool_name g ∈ agent_allowed_scopes agent /\
       grant_scope g = tool_scope tool /\ acc_provider account = tool_provider tool) /\
    instant (grant_issued_at g) <= w_now w /\
    instant (grant_expires_at g) =
      instant (grant_issued_at g) + seconds (grant_token_ttl_seconds settings).
Proof.
  split; [by eapply reachable_wf|]. intros g Hg.
  pose proof (di_good _ _ (reachable_lawful generate_keypair settings w Hw)) as Hall.
  apply list_elem_of_lookup in Hg as [i Hi]. pose proof (Forall_lookup_1 _ _ _ _ Hall Hi) as Hl.
  destruct Hl as [(agent & account & Hag & Hac & [(tool & ? & ? & ?) ? ? ? ?]) ? ?].
  split; [|done]. exists agent, account, tool. by splits.
Qed.

Lemma grants_within_policy_witness :
  exists ss, example_assembled = Ok ss /\ db_wf (w_db (example_run ss)) /\
    match w_grants (example_run ss) with
    | [g] => instant (grant_expires_at g) = instant (grant_issued_at g) + seconds 300
    | _ => False
    end.
Proof.
  destruct example_ok as [ss Ess]. exists ss. split; [exact Ess|].
  destruct (@grants_within_policy toy_jwt example_repr toy_gcm example_format example_keygen
              default_settings (example_run ss)
              (example_run_reachable _ ss (example_deployed ss Ess))) as [Hwf Hg]. split; [exact Hwf|].
  assert (Hone : length (w_grants (example_run ss)) = 1%nat)
    by (pose proof example_run_counts as Hc; rewrite Ess in Hc; exact Hc).
  destruct (w_grants (example_run ss)) as [|g [|]]; try discriminate.
  apply (Hg g). by constructor.
Defined.

(** C3. The broker implements its ledger.  Between any two moments of a
    deployment, the committed tables change as the abstract machine of
    Ledger.v allows: the clock advances, an agent or a connected account with
    a new id is added, a grant is issued (to an agent whose policy names the
    tool, on an account of the agent's user at the tool's provider, with the
    tool's scope, for one TTL, with an id and a token hash no other grant
    has, while fewer than the limit are active), or a grant is revoked.  So
    no grant is lost, reordered, edited or revived. *)
Theorem broker_refines_ledger `{PyJwt} `{PyRepr} `{AesGcm} `{JsonFormat}
    (generate_keypair : prog (string * string)) (settings : Settings) (w w' : world)
    (Hw : reachable (deployed generate_keypair settings) w)
    (Hs : rtc (step (deployed generate_keypair settings)) w w') :
  rtc (ledger_step (configure_tools settings TOOL_REGISTRY) (grant_token_ttl_seconds settings)
         (max_active_grants_per_agent_scope settings)) (abs w) (abs w') /\
  continues (w_grants w) (w_grants w').
Proof.
  assert (Hrun : rtc (ledger_step (configure_tools settings TOOL_REGISTRY) (grant_token_ttl_seconds settings)
    (max_active_grants_per_agent_scope settings)) (abs w) (abs w')).
  { refine (steps_refine _ _ _ _ w w' _ _ _ _ Hs); [apply deployed_limit|apply deployed_policy| |].
    - by apply (reachable_limited generate_keypair).
    - by apply (reachable_lawful generate_keypair). }
  split; [done|]. exact (ledger_history _ _ _ _ _ Hrun).
Qed.

Lemma example_revoking (code : prog unit -> Prop) ss :
  (forall p, @broker_code toy_jwt example_repr toy_gcm example_format ss p -> code p) ->
  rtc (step code) (example_run ss) (example_revoked ss).
Proof.
  intros Hcode. apply (rtc_l _ _ (start (example_revoke ss) (example_run ss)));
    [|exact (run_task_steps code example_database 30 3 (start (example_revoke ss) (example_run ss)))].
  exists None. apply W_start, Hcode. constructor.
Qed.

Lemma broker_refines_ledger_witness :
  exists ss, example_assembled = Ok ss /\
    rtc (ledger_step (configure_tools default_settings (@TOOL_REGISTRY example_repr)) 300 1)
      (abs (example_run ss)) (abs (example_revoked ss)) /\
    continues (w_grants (example_run ss)) (w_grants (example_revoked ss)).
Proof.
  destruct example_ok as [ss Ess]. exists ss. split; [exact Ess|].
  exact (@broker_refines_ledger toy_jwt example_repr toy_gcm example_format example_keygen
           default_settings (example_run ss) (example_revoked ss)
           (example_run_reachable _ ss (example_deployed ss Ess))
           (example_revoking _ ss (example_deployed ss Ess))).
Defined.

(** C4. A revoked token is dead.  Once a grant's row is committed as
    revoked, no call that is started later and presents its token, on either
    front of any process, ever sends a request to the provider or to the
    token endpoint, whatever Redis says, however the other tasks interleave
    and however long it runs. *)
Theorem revoked_token_is_dead `{PyJwt} `{PyRepr} `{AesGcm} `{JsonFormat}
    (generate_keypair : prog (string * string)) (settings : Settings) {St} (h : handler St) (σ : St)
    (ss : Servers) (w0 w : world) (t : list occurrence) (g : Grant) (token : string) (p : prog unit)
    (Hss : result_of h (assemble generate_keypair settings) σ = Ok ss)
    (Hw0 : reachable (deployed generate_keypair settings) w0)
    (Hg : g ∈ w_grants w0) (Hh : grant_token_hash g = hash_token token)
    (Hr : is_Some (grant_revoked_at g))
    (Hp : presents ss token p)
    (Ht : path (deployed generate_keypair settings) (start p w0) t w) :
  its_events (length (w_tasks w0)) is_http t = [].
Proof.
  apply nil_length_inv, Nat.le_0_r.
  eapply (started_after _ is_http (hash_token token) (grant_id g)); [exact Hw0| | | |exact Ht].
  - by exists g.
  - eapply presents_bystander; [by eapply assemble_well_built|exact Hp].
  - by apply (presents_silent ss).
Qed.

Lemma revoked_token_is_dead_witness :
  exists ss, example_assembled = Ok ss /\
    its_events (length (w_tasks (example_revoked ss))) is_http
      (run_events example_database 30 4 (start (example_call ss) (example_revoked ss))) = [].
Proof.
  destruct example_ok as [ss Ess]. exists ss. split; [exact Ess|].
  destruct (example_found ss Ess) as [(g & Hg & Hh & Hr) _].
  exact (@revoked_token_is_dead toy_jwt example_repr toy_gcm example_format example_keygen
           default_settings unit example_entropy tt ss (example_revoked ss) _ _ g (example_token ss)
           (example_call ss) Ess (example_revoked_reachable _ ss (example_deployed ss Ess)) Hg Hh Hr
           (PresentsRpc ss (example_token ss) (example_invocation ss) eq_refl)
           (run_task_path _ example_database 30 4 (start (example_call ss) (example_revoked ss)))).
Defined.

(** C5. A revocation stops the calls in flight.  A call that was started
    before its grant's row was committed as revoked sends, from then on, at
    most [1 + outbound_max_retries] requests to the provider, whatever Redis
    says, whether or not it refreshes its credential, and however the other
    tasks interleave. *)
Theorem revocation_stops_calls `{PyJwt} `{PyRepr} `{AesGcm} `{JsonFormat}
    (generate_keypair : prog (string * string)) (settings : Settings) {St} (h : handler St) (σ : St)
    (ss : Servers) (w0 w1 w : world) (t : list occurrence) (g : Grant) (token : string) (p : prog unit)
    (Hss : result_of h (assemble generate_keypair settings) σ = Ok ss)
    (Hw0 : reachable (deployed generate_keypair settings) w0)
    (Hp : presents ss token p)
    (Hw1 : rtc (step (deployed generate_keypair settings)) (start p w0) w1)
    (Hg : g ∈ w_grants w1) (Hh : grant_token_hash g = hash_token token)
    (Hr : is_Some (grant_revoked_at g))
    (Ht : path (deployed generate_keypair settings) w1 t w) :
  Z.of_nat (length (its_events (length (w_tasks w0)) is_tool_request t)) <=
    Z.max 0 (outbound_max_retries settings + 1).
Proof.
  pose proof (assemble_well_built _ _ h σ ss Hss) as Hwb.
  destruct (assemble_built _ _ h σ ss Hss) as (settings' & km & Hkeyed & _ & Hb).
  apply build_servers_parts in Hb as [Ea Eg]. apply keyed_same in Hkeyed as (_ & _ & El & _).
  rewrite <- Z2Nat.id by lia. apply Nat2Z.inj_le. rewrite Z2Nat.inj_max, Nat.max_0_l.
  eapply (started_before _ is_tool_request (hash_token token) (grant_id g));
    [exact Hw0| | | |exact Hw1| |exact Ht].
  - eapply Deployed; [exact Hss|by eapply presents_code].
  - by eapply presents_bystander.
  - apply (presents_thrifty ss Hwb); [done|rewrite Eg|rewrite Ea]; cbn; by rewrite El.
  - by exists g.
Qed.

Lemma revocation_stops_calls_witness :
  exists ss, example_assembled = Ok ss /\ length (example_requests ss) = 1%nat /\
    Z.of_nat (length (its_events (length (w_tasks (example_run ss))) is_tool_request
      (run_events example_database 30 3 (example_overtaken ss)))) <= 4.
Proof.
  destruct example_ok as [ss Ess]. exists ss. split; [exact Ess|].
  destruct (example_found ss Ess) as (_ & (g & Hg & Hh & Hr) & Hone). split; [exact Hone|].
  exact (@revocation_stops_calls toy_jwt example_repr toy_gcm example_format example_keygen
           default_settings unit example_entropy tt ss (example_run ss) (example_overtaken ss) _ _ g
           (example_token ss) (example_call ss) Ess
           (example_run_reachable _ ss (example_deployed ss Ess))
           (PresentsRpc ss (example_token ss) (example_invocation ss) eq_refl)
           (example_overtaking _ ss (example_deployed ss Ess)) Hg Hh Hr
           (run_task_path _ example_database 30 3 (example_overtaken ss))).
Defined.
