(* ===== verification/AtMostOnce.v ===== *)
(** * At most once per idempotency key

    What an idempotency key promises in the worlds of World.v, with any
    number of processes and any interleaving: the calls that carry it send
    their requests under a reservation of their own, reservations exclude
    each other, and after a completed call nobody reserves the key for the
    window. *)

From stdpp Require Import base tactics list strings numbers gmap relations.
From S2P Require Import Prelude PyStr Errors Json Hashing Uuid Config Models Breaker Effects.
From S2P Require Import Redaction Redis Kms Tokens Tools Cache Idempotency Grants Invoke InvokeAudit InvokeProvider.
From S2P Require Import Demo Grpc Console World Discipline Limit Reservation Revocation Keyed App Tasks System.
Open Scope string_scope.
#[local] Open Scope Z_scope.

(** ** Calls with a key *)

Section Calls.
Context `{PyJwt} `{PyRepr} `{AesGcm} `{JsonFormat} (ss : Servers).

(** The requests that present a token and an idempotency key. *)
Inductive keyed_call (token tool_name key : string) : prog unit -> Prop :=
| KeyedRpc request :
    ir_grant_token request = token -> ir_tool_name request = tool_name ->
    ir_idempotency_key request = key -> key <> "" ->
    keyed_call token tool_name key (Grpc.InvokeTool (gs_servicer (ss_grpc ss)) request ;; ret tt)
| KeyedConsole console_token body :
    iv_grant_token body = token -> iv_tool_name body = tool_name ->
    iv_idempotency_key body = Some key ->
    keyed_call token tool_name key
      (console_api (wa_state (ss_app ss)) console_token (Console.InvokeTool body) ;; ret tt).

Lemma keyed_orderly store token tool_name key p :
  well_built ss ->
  svc_idempotency_store (sv_invoke_service (gs_servicer (ss_grpc ss))) = Some store ->
  svc_idempotency_store (st_invoke_service (wa_state (ss_app ss))) = Some store ->
  keyed_call token tool_name key p ->
  let d := call_protocol (hash_token token) tool_name key in
  obeys d p (anyway d) (p_fresh d).
Proof.
  intros [Hg Ha _] Esg Esa Hp d.
  assert (Hends : forall {A B} (p : prog A) (f : A -> prog B) m, obeys d p (anyway d) m ->
    (forall a, avoids is_tool_request (f a)) -> obeys d (bind p f) (anyway d) m)
    by (intros; by apply orderly_ends).
  destruct Hp as [request <- <- <- Hne|console_token body <- <- Hkey]; (apply Hends; [|done]).
  - unfold Grpc.InvokeTool, rpc_error_guard. apply Hends; [|unfold abort, scrub; intros r; avoid].
    apply obeys_attempt. eapply obeys_mono; [apply Hends|done].
    + apply String.eqb_neq in Hne. rewrite Hne. by eapply invoke_orderly_call.
    + intros o. unfold abort. avoid.
  - unfold console_api. destruct (require_console_auth _ _) as [[]|e]; [|done]. cbn [lift bind handle].
    unfold invoke_tool. apply Hends; [|done]. rewrite Hkey. by eapply invoke_orderly_call.
Qed.
End Calls.

(** ** An example: two calls with one key, at a provider that is down *)

#[local] Instance example_format : JsonFormat := {| parse_struct := Ok |}.

(** Redis answers from the keyspace. *)
Definition example_answers (w : world) (s : session) (c : eff) : reply c :=
  match c return reply c with
  | ERedisGet k => Ok (redis_get (w_now w) (w_redis w) k)
  | ERedisSet k v nx ex =>
      match redis_exec (w_now w) (ERedisSet k v nx ex) (w_redis w) with
      | Some (a, _) => a
      | None => Exn unreachable_service
      end
  | ERedisIncr k =>
      match redis_exec (w_now w) (ERedisIncr k) (w_redis w) with
      | Some (a, _) => a
      | None => Exn unreachable_service
      end
  | c => example_database w s c
  end.

Section Example.
Context (ss : Servers).

Definition example_issuing : prog unit :=
  @RequestGrant toy_jwt example_repr (gs_servicer (ss_grpc ss)) example_request ;; ret tt.

Definition example_keyed : Grpc.InvokeRequest := {|
  ir_grant_token := example_token ss; ir_tool_name := "drive.read"; ir_arguments := [];
  ir_idempotency_key := "k1"
|}.

Definition example_keyed_call : prog unit :=
  @Grpc.InvokeTool toy_jwt example_repr toy_gcm example_format (gs_servicer (ss_grpc ss)) example_keyed ;; ret tt.

(** The grant is issued, then one call runs after the other. *)
Definition example_issued : world := run_task example_answers 40 0 (start example_issuing (example_start ss)).
Definition example_first : world := run_task example_answers 60 1 (start example_keyed_call example_issued).
Definition example_second : world := run_task example_answers 60 2 (start example_keyed_call example_first).

Definition first_events : list occurrence :=
  run_events example_answers 60 1 (start example_keyed_call example_issued).

Definition example_events : list occurrence :=
  (run_events example_answers 40 0 (start example_issuing (example_start ss)) ++
   (first_events ++ run_events example_answers 60 2 (start example_keyed_call example_first)))%list.
End Example.

Definition example_full_key : string :=
  uuid_str (example_uuid 8) +:+ ":" +:+ uuid_str (example_uuid 9) +:+ ":drive.read:k1".

Abbreviation example_redis_key := (IdempotencyStore.name example_full_key).

Definition is_reservation (x : occurrence) : bool := reserves example_redis_key (oc_event x).
Definition is_request (x : occurrence) : bool := Nat.eqb (oc_task x) 1 && is_tool_request (ev_eff (oc_event x)).

(** The run has two reservations, each settled in time, and the first call
    sends a request. *)
Example example_events_checked :
  match example_assembled with
  | Ok ss => promptly example_redis_key [] (example_events ss)
      && (length (List.filter is_reservation (example_events ss)) =? 2)%nat
      && (length (List.filter is_request (first_events ss)) =? 1)%nat
      && (length (w_tasks (example_issued ss)) =? 1)%nat
  | Exn _ => false
  end = true.
Proof. vm_compute. reflexivity. Qed.

Lemma example_key_given : "k1" <> "".
Proof. done. Qed.

Lemma found_one {A} (P : A -> bool) t :
  List.filter P t <> [] -> exists t1 x t2, t = (t1 ++ x :: t2)%list /\ P x = true.
Proof.
  induction t as [|e t IH]; [done|]. cbn. destruct (P e) eqn:He; [by exists [], e, t|].
  intros (t1 & x & t2 & -> & Hx)%IH. by exists (e :: t1), x, t2.
Qed.

Lemma found_two {A} (P : A -> bool) t :
  length (List.filter P t) = 2%nat -> exists t1 x t2 y t3, t = (t1 ++ x :: t2 ++ y :: t3)%list /\
    P x = true /\ P y = true.
Proof.
  intros Hl. destruct (found_one P t) as (t1 & x & t2 & -> & Hx); [by intros E; rewrite E in Hl|].
  induction t1 as [|e t1 IH].
  - cbn in Hl. rewrite Hx in Hl. destruct (found_one P t2) as (u1 & y & u2 & -> & Hy);
      [by intros E; rewrite E in Hl|]. by exists [], x, u1, y, u2.
  - cbn in Hl. destruct (P e) eqn:He; [by exists [], e, t1, x, t2|].
    destruct (IH Hl) as (u1 & x' & u2 & y & u3 & E & Hx' & Hy).
    exists (e :: u1), x', u2, y, u3. split; [by rewrite <- !app_comm_cons, E|done].
Qed.

Lemma example_path (code : prog unit -> Prop) ss :
  (forall p, @broker_code toy_jwt example_repr toy_gcm example_format ss p -> code p) ->
  path code (example_start ss) (example_events ss) (example_second ss).
Proof.
  intros Hcode. assert (Hnew : forall p w n i, @broker_code toy_jwt example_repr toy_gcm example_format ss p ->
    path code w (run_events example_answers n i (start p w)) (run_task example_answers n i (start p w))).
  { intros p w n i Hp. apply (path_app code w [] (start p w)); [by apply start_path, Hcode|].
    apply run_task_path. }
  assert (Hi : @broker_code toy_jwt example_repr toy_gcm example_format ss (example_issuing ss))
    by exact (@RunRequestGrant toy_jwt example_repr toy_gcm example_format ss example_request).
  assert (Hk : @broker_code toy_jwt example_repr toy_gcm example_format ss (example_keyed_call ss))
    by exact (@RunInvokeTool toy_jwt example_repr toy_gcm example_format ss (example_keyed ss)).
  exact (path_app code (example_start ss) _ (example_issued ss) _ (example_second ss)
    (Hnew (example_issuing ss) (example_start ss) 40%nat 0%nat Hi)
    (path_app code (example_issued ss) _ (example_first ss) _ (example_second ss)
       (Hnew (example_keyed_call ss) (example_issued ss) 60%nat 1%nat Hk)
       (Hnew (example_keyed_call ss) (example_first ss) 60%nat 2%nat Hk))).
Qed.

Lemma first_path (code : prog unit -> Prop) ss :
  path code (start (example_keyed_call ss) (example_issued ss)) (first_events ss) (example_first ss).
Proof. unfold first_events, example_first. apply run_task_path. Qed.

Lemma example_deployment ss : deployment (example_start ss).
Proof. split; [done|]. split; [|done]. apply db_check_wf. reflexivity. Qed.

(** ** Properties *)



(** C7. A call with an idempotency key sends nothing without a reservation.
    In whatever world it is started and whatever the others do: before each
    request it sends to the provider it has read the grant of its token, has
    reserved the key bound to that grant's agent and account, and has not
    yet settled it. *)
Theorem keyed_requests_reserved `{PyJwt} `{PyRepr} `{AesGcm} `{JsonFormat}
    (generate_keypair : prog (string * string)) (settings : Settings) {St} (h : handler St) (σ : St)
    (ss : Servers) (code : prog unit -> Prop) (w0 w : world) (t t1 t2 : list occurrence) (x : occurrence)
    (token tool_name key : string) (p : prog unit)
    (Hss : result_of h (assemble generate_keypair settings) σ = Ok ss)
    (Hp : keyed_call ss token tool_name key p)
    (Ht : path code (start p w0) t w) (Hsplit : t = (t1 ++ x :: t2)%list)
    (Hi : oc_task x = length (w_tasks w0)) (Hx : is_tool_request (ev_eff (oc_event x)) = true) :
  exists g,
    (exists now, Occurs now (oc_task x) (Ev (EDbGrantByHash (hash_token token)) (Ok (Some g))) ∈ t1) /\
    is_Some (reserved_since (IdempotencyStore.name (full_key_of g tool_name key)) (oc_task x) t1).
Proof.
  pose proof (assemble_well_built _ _ h σ ss Hss) as Hwb.
  destruct (assemble_built _ _ h σ ss Hss) as (settings' & km & _ & _ & Hb).
  apply build_servers_parts in Hb as [Ea Eg].
  assert (Ho : obeys (call_protocol (hash_token token) tool_name key) p
                 (anyway (call_protocol (hash_token token) tool_name key)) (CallState None false)).
  { eapply (keyed_orderly ss _ token); [done|by rewrite Eg|by rewrite Ea|exact Hp]. }
  destruct (ab_may _ _ _ _ (started_may _ code _ _ _ _ Ho Ht) t1 x t2 Hsplit Hi Hx) as [[g Hg] Hheld].
  rewrite <- Hi in Hg, Hheld. destruct (knows_call _ _ _ _ _ _ Hg) as [Hread Hr]. exists g. auto.
Qed.

Lemma keyed_requests_reserved_witness :
  exists ss t1 x t2 g, example_assembled = Ok ss /\ first_events ss = (t1 ++ x :: t2)%list /\
    is_request x = true /\
    (exists now, Occurs now (oc_task x) (Ev (EDbGrantByHash (hash_token (example_token ss))) (Ok (Some g))) ∈ t1) /\
    is_Some (reserved_since (IdempotencyStore.name (full_key_of g "drive.read" "k1")) (oc_task x) t1).
Proof.
  destruct example_ok as [ss Ess]. pose proof example_events_checked as Hc. rewrite Ess in Hc.
  apply andb_true_iff in Hc as [[_ Hone%Nat.eqb_eq]%andb_true_iff Hlen%Nat.eqb_eq].
  destruct (found_one is_request (first_events ss)) as (t1 & x & t2 & E & Hx);
    [intros En; rewrite En in Hone; discriminate|].
  pose proof Hx as [Hi%Nat.eqb_eq Hreq]%andb_true_iff.
  destruct (@keyed_requests_reserved toy_jwt example_repr toy_gcm example_format example_keygen
              default_settings unit example_entropy tt ss (fun _ => True) (example_issued ss)
              (example_first ss) (first_events ss) t1 t2 x
              (example_token ss) "drive.read" "k1" (example_keyed_call ss) Ess
              (KeyedRpc ss (example_token ss) "drive.read" "k1" (example_keyed ss) eq_refl eq_refl eq_refl
                 example_key_given)
              (first_path _ ss)
              E (eq_trans Hi (eq_sym Hlen)) Hreq) as (g & Hread & Hr).
  by exists ss, t1, x, t2, g.
Defined.
