(* ===== verification/Rates.v ===== *)
(** * The limits per minute, in every world of a deployment

    The two rate limits of the settings, for any number of processes on one
    Redis and any interleaving: what the protocols of Throttle.v give for the
    requests to the providers and for the rows of the grants. *)

From stdpp Require Import base tactics list strings numbers gmap relations.
From S2P Require Import Prelude PyStr Errors Json Uuid Config Models Effects Redis Kms Tokens Cache Grants Invoke.
From S2P Require Import Grpc Console World Discipline Throttle Revocation App Tasks System AtMostOnce.
Open Scope string_scope.
#[local] Open Scope Z_scope.

(** ** An example: two invocations of one agent, in one window *)

#[local] Instance example_format : JsonFormat := {| parse_struct := Ok |}.

Definition example_window : Z := 28333333.

(** The agent of the example is admitted once to issue, twice to invoke. *)
Example example_admissions :
  match example_assembled with
  | Ok ss =>
      (admitted ("grants:" +:+ uuid_str (example_uuid 8)) example_window 60 (example_events ss) =? 1)
      && (admitted ("invoke:" +:+ uuid_str (example_uuid 8)) example_window 120 (example_events ss) =? 2)
  | Exn _ => false
  end = true.
Proof. vm_compute. reflexivity. Qed.

(** ** Property *)

(** C8. The limits per minute hold across processes.  Along every path of a
    deployment whose Redis has counted nobody yet, whatever the tasks do,
    wherever they are killed and whichever answers of Redis are lost: a
    request is sent to a provider only by a task that has read a grant and
    been admitted, under that grant's agent, in the window of a time it read,
    and a grant's row is written only by a task admitted under its agent; and
    of each agent no window admits more invocations than
    [invokes_per_minute_per_agent], nor more issued grants than
    [grants_per_minute_per_agent], before it ends. *)
Theorem rate_limits_hold `{PyJwt} `{PyRepr} `{AesGcm} `{JsonFormat}
    (generate_keypair : prog (string * string)) (settings : Settings)
    (w0 w : world) (t : list occurrence)
    (Hw0 : deployment w0) (Hredis : uncounted (w_redis w0))
    (Ht : path (deployed generate_keypair settings) w0 t w) :
  rate_limited "invoke:" (invokes_per_minute_per_agent settings) sends_for t /\
  rate_limited "grants:" (grants_per_minute_per_agent settings) issues_for t.
Proof.
  destruct Hw0 as [Hw0 _]. split.
  - eapply path_rate_limited; [done| | |exact Hw0|exact Hredis|exact Ht].
    + intros key window p. apply deployed_counted.
    + apply deployed_invokes_gated.
  - eapply path_rate_limited; [done| | |exact Hw0|exact Hredis|exact Ht].
    + intros key window p. apply deployed_counted.
    + apply deployed_issues_gated.
Qed.

Lemma example_uncounted ss : uncounted (w_redis (example_start ss)).
Proof. intros k _. apply lookup_empty. Qed.

Lemma rate_limits_hold_witness :
  exists ss, example_assembled = Ok ss /\
    2 = admitted ("invoke:" +:+ uuid_str (example_uuid 8)) example_window 120 (example_events ss) /\
    admitted ("invoke:" +:+ uuid_str (example_uuid 8)) example_window 120 (example_events ss) <= Z.max 0 120 /\
    admitted ("grants:" +:+ uuid_str (example_uuid 8)) example_window 60 (example_events ss) <= Z.max 0 60.
Proof.
  destruct example_ok as [ss Ess]. pose proof example_admissions as Hc. rewrite Ess in Hc.
  apply andb_true_iff in Hc as [_ Htwo%Z.eqb_eq].
  destruct (@rate_limits_hold toy_jwt example_repr toy_gcm example_format example_keygen default_settings
              (example_start ss) (example_second ss) (example_events ss) (example_deployment ss)
              (example_uncounted ss) (example_path _ ss (example_deployed ss Ess))) as [[_ Hi] [_ Hg]].
  exists ss. split; [exact Ess|]. split; [exact (eq_sym Htwo)|]. split.
  - exact (Hi (example_uuid 8) example_window).
  - exact (Hg (example_uuid 8) example_window).
Defined.
